(* ===== verification/_CoqProject ===== *)
-Q . S2P
Prelude.v
PyFloat.v
PyText.v
Guard.v
State.v
InFlight.v
Breaker.v
Observability.v
Config.v
Models.v
AgentModels.v
Facts.v
Sizing.v
Viability.v
Risk.v
Events.v
Io.v
Logic.v
World.v
Api.v
Chain.v
Monitor.v
Selector.v
Pipeline.v
Simulator.v
Submitter.v
Abi.v
AbiSpec.v
Service.v
Accounting.v
Deps.v
Vault.v
VaultLife.v
Wiring.v
Routes.v
Concurrency.v
Recovery.v
Policy.v
Store.v
AgentBase.v
StoreSpec.v
StoreRefine.v
Tools.v
Llm.v
Chat.v
AgentSpec.v
Graph.v
ChatSpec.v
ToolsSpec.v
Runtime.v
Shell.v
Crew.v
CrewSpec.v
AgentApi.v
AgentRoutes.v
Endpoints.v
Conn.v
Json.v
Rows.v
RowsRest.v
App.v
ProcessLoop.v
Script.v
Lazy.v
Seed.v
Stack.v
Prompts.v
