(* ===== verification/Prelude.v ===== *)
(** * FinaX keeper: a verification development (root file)

    FinaX (Python, [src/backend/app]) watches Aave positions on Arbitrum and repays part of a
    borrower's debt before a liquidation, under a mandate the borrower signed; an agent layer
    may inspect positions and queue proposals an operator approves.  This library models the
    backend and proves what makes it correct.  Definitions keep the source's names.

    ** How the program is put together

    - A worker ([scheduler.py]) and the HTTP routes ([api/]) share one [ServiceContainer]
      ([deps.py]) on one event loop.  Both reach a transaction through one method only,
      [ProtectionService.protect]: breaker and lock, then poll, assess, dry-run, submit.
    - The decision modules ([core/]) read the chain through typed clients ([chain/]), which
      share a JSON-RPC client with retry and failover.
    - The agent layer ([agent/]) reads the same container through tools, keeps its own SQLite
      store, and has no route to a transaction but the approval route, which calls [protect].

    ** Foundations

    - [Prelude]: the exception classes, [res] (a value or a raised exception), [dict] (an
      insertion-ordered Python dict), list, option and integer lemmas, tactics and hints.
    - [PyFloat]: Python floats as [SpecFloat] binary64, with Python's exceptions.
      [PyText]: [str], [repr], format specifications, number literals, regular expressions.
    - [Events]: the requests a coroutine may make of its environment.  [Io]: coroutines as
      trees over a shared state, with three semantics: [exec R], every execution of one
      coroutine when the others may take an [R] step at each [await]; [run], an executable
      interpreter used by the witnesses; and the pool of [Logic], any number of coroutines
      interleaved.  [Logic]: [guar] (what a coroutine may write and ask) and [safe]
      (rely-guarantee with the locks it owns as ghost state).
    - [World]: the objects the event loop shares, as [build_container] wires them.
      [Api]: the interface between the chain clients and the decision modules.

    ** The keeper

    - [State], [InFlight], [Breaker], [Observability], [Config], [Models]: [core/state.py],
      [inflight.py], [breaker.py], [observability.py], [config/], [core/models.py].  Each is
      a record or inductive type and one function per method.
    - [Sizing], [Viability], [Risk]: the pure computations.  [size_repay] returns the least
      repayment that reaches the target, on every branch, and agrees with the Solidity
      reference [src/contracts/test/SizingParity.t.sol] on 256-bit arithmetic.
    - [Chain]: [chain/client.py] with its retry schedule, and every typed read.  [Monitor],
      [Selector], [Pipeline]: polling, collateral selection, [evaluate].  None sends anything.
    - [Simulator]: the [eth_call] dry-run and its bump loop.  [Submitter]: signing,
      broadcasting, the receipt and the fallback repayment, under the client's retries.
    - [Service]: [ProtectionService], written against the class [ProtectionDeps] and its
      laws; [Accounting]: the books it keeps; [Deps]: the composition root, which discharges
      the laws, [apply_config] and the worker; [Routes]: the control API.
    - [Concurrency]: any number of routes and worker passes interleaved at every [await]; at
      most one coroutine acts for a borrower, and it holds that borrower's lock.
    - [Recovery]: the same loop makes progress; when nothing new is admitted every schedule
      is finite and frees every lock, and after the cool-down a borrower is rescuable again.
    - [Abi]: the ABI tables of [config/arbitrum.py], which bind each request to a function, the
      calldata encoders and the contract cache; [AbiSpec]: what the clients send conforms to
      them, and they are the Solidity declarations.
    - [Vault]: [src/contracts/src/LiquidationShieldVault.sol], the contract the keeper calls, on
      checked 256-bit arithmetic: its entry checks, its callback and its EIP-712 hash.
      [VaultLife]: the contract over histories of transactions, with calls nested in its flash
      loans, and what a transaction of the keeper needs of it.
    - [Wiring]: the objects behind [World], on a heap: the constructors, [build_container],
      the accessors and [apply_config]; they implement [Deps].

    ** The agent layer

    - [AgentModels]: [agent/models.py].  [Guard]: the provenance check on prose.  [Facts]:
      the fact sheet.  [Policy]: the gate, its sixteen conditions and its verdict.
    - [Store]: each SQL statement of [agent/store.py] as an atomic function on a record of
      tables, and the coroutine that runs it in a worker thread.  [StoreSpec]: what holds of
      any interleaving of statements.  [StoreRefine]: the proposals table implements an
      abstract approval queue, a finite map with a counter.
    - [Conn]: the connection of [agent/store.py] and its two locks, with coroutines interleaved,
      failing and cancelled.  [Json]: [json.dumps] and [json.loads].  [Rows]: the schema, the
      raw rows and their decoding, and the SQL of the proposals below [Store]'s typed table;
      [RowsRest]: the SQL of the other tables.
    - [AgentBase]: the helpers the routes and the crew share, and [zoom], which runs a
      coroutine of the keeper in the agent's world.  [Tools], [Llm], [Chat]: [agent/tools.py],
      [llm.py], [toolspec.py] and [chat.py].  [AgentSpec]: what agent coroutines leave alone
      ([keeper_kept]), and graded bounds on model calls and inserted rows.  [ToolsSpec] and
      [ChatSpec]: the theorems on tools and chat.
    - [Graph]: the interface to langgraph.  [Crew]: the nodes and the routing of
      [agent/graph.py]; [CrewSpec]: what a run can do, which paths it takes, what it answers.
    - [Prompts]: the prompt texts and the schemas the model is shown.  [Lazy]: [agent/_lazy.py]'s
      importer, the construction of the model and the source scan of [agent/llm.py].
    - [Runtime]: the lazy singleton of [agent/runtime.py].  [AgentApi], [AgentRoutes]:
      [api/routes_agent.py] and [routes_health.py].  [Endpoints]: what comes before a handler,
      and ids beyond 64 bits.
    - [Shell]: [main.py]'s startup and shutdown over the worker's task, the container, the
      process-wide client and the runtime.  [App]: its route table and the console's files.
    - [ProcessLoop]: the event loop of [Concurrency] and [Recovery] with every agent route in
      it: the exclusion and the recovery hold of the whole process.

    ** The demo tools

    - [Script]: programs that run alone, as trees of questions to their environment.  [Seed]:
      [tools/seed_demo.py], [seed_all_demo_wallets.py], [sign_demo_mandates.py] on a fork.
      [Stack]: [tools/run_demo_stack.py] and [alchemy_fork_proxy.py].

    ** What the theorems show

    - Safety of money: every transaction of [protect] was dry-run with the same call in the
      same run and lies within the mandate; one rescue in flight per borrower; locks are
      returned however a run ends; each submission is entered exactly once in the books; an
      approval sends nothing unless the gate allowed it on a fresh read; the chat and the
      crew send nothing, whatever the model answers; a transaction was preceded by a state of
      the vault in which the mandate was unexpired, unused and signed; a rescue the vault lets
      through leaves the borrower better off, and a mandate goes through once in any history;
      a demo run that finds its position in place sends nothing.
    - Storage: the raw SQL of every table implements the typed tables, and the proposals an
      abstract queue; what is written as JSON is read back; one connection, one writer.
    - Structure: the constructors build the object graph that the shared state stands for.
    - Functional behaviour, on every branch: assessment, sizing, selection, gate, guard,
      breaker, validators, failover, crew verdicts, the approval queue.
    - Termination, liveness and bounds: the bump loop, the crew's graph, the chat loop, the
      event loop once nothing is admitted; the target inside its band; shutdown releases what
      startup took.
    - Error behaviour, the program's flaws included: a dropped connection during
      [wait_for_transaction_receipt] broadcasts twice; a guard revert is answered by an
      unguarded repayment; a second approver overwrites the outcome of the first; the crew
      fails on a position without debt; a model timeout leaves the chat route; an id beyond
      64 bits raises [OverflowError] on every route that takes one ([Endpoints.oversized_id]).

    ** Fuel and bounds

    - [Simulator.SIM_FUEL] is 12: [KeeperConfig] bounds [max_bumps] by 10, the loop tests
      [bumps >= max_bumps] after each revert, so eleven iterations end it; [simulate_fuel]
      proves that the fuel never runs out even if the bound changes meanwhile.
    - The chat loop recurses on [max_loops], the number the source's [range] counts to.
    - [Graph.RECURSION_LIMIT] is langgraph's default, 25; a run of the crew takes at most 6.
    - [Json.loads] has the length of the text as fuel: every recursive call consumes a
      character; [loads_dumps] shows that it is enough for everything [dumps] writes.
      [Lazy.walk] has the number of nodes of the tree ([walk_all]).
    - [Deps.worker_rounds] is the body of the worker's endless loop, any number of times.

    ** Parameters

    Code that is not in the repository is an argument, with what the source relies on as the
    laws of a class, and a concrete instance in the witnesses: [EthUtils] (address
    checksums), [EthAccount] (keys and signatures), [Libm] (log, erfc, pow), [UnicodeData]
    (character classes of [str.strip] and [re]), [LangGraph] (an execution of [ainvoke] is a
    walk of the graph), [ChoiceParsing] (pydantic's coercion of structured model output),
    [GateCodec] (pydantic's JSON of a policy decision), [AbiCodec] (the byte encoding of a
    call), [Ecdsa] (keccak256, typed-data hashing and signer recovery), [OpenZeppelin] ([Ownable]
    and [ReentrancyGuard], a git submodule).
    Nodes, the contracts behind them and the language model are the environment: they answer
    anything, or raise.

    ** Not modelled

    - SQLite itself: its file format, its transactions and indexes (a statement is atomic);
      pydantic's coercions of request bodies (a body comes with fields of their types, and is
      then validated); the reading of the environment and of the command line.  They are
      other people's code, and the source only calls them.
    - The bytes of the ABI: a call carries its decoded arguments, checked against its table.
    - Everything behind the vault (Aave, Uniswap, the tokens): readings of a call.
    - What FastAPI and Starlette do of themselves: OpenAPI, the files' [ETag]s.
    - Logging, and the replies' transport in the demo proxy: no effect on any state modelled.
      [tools/seed_extra_positions.py] ends at its first statement; the rest is a comment.
    - [Conn] and [ProcessLoop] are two pools: the event loop takes a statement of the store as
      atomic in its worker thread, which is what [Conn.store_connection] shows of one that
      holds the write lock.  A read may run on the connection beside a write; that SQLite
      serialises the two itself is its documented behaviour. *)
From stdpp Require Export base gmap strings list sorting pretty.
From Stdlib Require Export ZArith Lia Ascii.

#[export] Set Default Goal Selector "!".
Open Scope Z_scope.

(** ** Exceptions

    The exception classes the source raises, catches or tests with [isinstance].
    [OtherError v] is any other subclass of [Exception] a third-party call may raise;
    [v] says whether it is also a subclass of [ValueError] (web3 has such classes). *)
Inductive exn_class :=
  | ValueError
  | TypeError
  | KeyError
  | IndexError
  | AssertionError
  | AttributeError
  | ZeroDivisionError
  | OverflowError
  | RuntimeError
  | ChainClientError      (* chain/client.py, subclass of RuntimeError *)
  | SubmitterError        (* core/submitter.py, subclass of RuntimeError *)
  | AgentError            (* agent/errors.py, subclass of RuntimeError *)
  | AgentDisabled         (* agent/errors.py, subclass of AgentError, as the next two *)
  | AgentTimeout
  | GateRejected
  | OSError
  | ConnectionError       (* subclass of OSError *)
  | TimeoutError          (* subclass of OSError; asyncio.TimeoutError since 3.11 *)
  | ContractLogicError    (* web3.exceptions *)
  | Web3RPCError          (* web3.exceptions *)
  | HTTPException (status : Z)
  | OtherError (is_value_error : bool)
  | CancelledError.       (* asyncio; derives from BaseException, not Exception *)

#[global] Instance exn_class_eq_dec : EqDecision exn_class.
Proof. solve_decision. Defined.

Record exn := Exn { exn_kind : exn_class; exn_msg : string }.

#[global] Instance exn_eq_dec : EqDecision exn.
Proof. solve_decision. Defined.

(** [except Exception] catches everything but [CancelledError]. *)
Definition is_Exception (e : exn) : bool :=
  match exn_kind e with CancelledError => false | _ => true end.

Definition is_ValueError (e : exn) : bool :=
  match exn_kind e with ValueError | OtherError true => true | _ => false end.

Definition is_OSError (e : exn) : bool :=
  match exn_kind e with OSError | ConnectionError | TimeoutError => true | _ => false end.

Definition is_ContractLogicError (e : exn) : bool :=
  match exn_kind e with ContractLogicError => true | _ => false end.

(** ** Results: a value or a raised exception *)
Inductive res (A : Type) :=
  | Ok (a : A)
  | Err (e : exn).
Arguments Ok {A} a.
Arguments Err {A} e.

#[global] Instance res_ret : MRet res := fun A a => Ok a.
#[global] Instance res_bind : MBind res :=
  fun A B f m => match m with Ok a => f a | Err e => Err e end.
#[global] Instance res_fmap : FMap res :=
  fun A B f m => match m with Ok a => Ok (f a) | Err e => Err e end.

Definition is_ok {A} (m : res A) : bool := match m with Ok _ => true | Err _ => false end.

Lemma res_bind_ok {A B} (m : res A) (f : A → res B) b :
  (a ← m; f a) = Ok b ↔ ∃ a, m = Ok a ∧ f a = Ok b.
Proof. destruct m; simpl; naive_solver. Qed.

Lemma res_bind_err {A B} (m : res A) (f : A → res B) e :
  (a ← m; f a) = Err e ↔ m = Err e ∨ ∃ a, m = Ok a ∧ f a = Err e.
Proof. destruct m; simpl; naive_solver. Qed.

(** ** Insertion-ordered dictionaries

    A Python [dict] iterates in insertion order; overwriting a key keeps its position and
    deleting then re-inserting moves it to the end.  The order is observable in the source
    ([list(self._registry.items())], [list(self._locked)]), so a dictionary is an
    association list with these operations, not a [gmap]. *)
Definition dict (K V : Type) : Type := list (K * V).

Section dict.
Context {K V : Type} `{EqDecision K}.
Implicit Types (d : dict K V) (k : K) (v : V).

Fixpoint dget d k : option V :=
  match d with
  | [] => None
  | (k', v) :: d' => if decide (k = k') then Some v else dget d' k
  end.

Fixpoint dset d k v : dict K V :=
  match d with
  | [] => [(k, v)]
  | (k', v') :: d' => if decide (k = k') then (k', v) :: d' else (k', v') :: dset d' k v
  end.

(** [d.pop(k, None)] as a statement. *)
Fixpoint dpop d k : dict K V :=
  match d with
  | [] => []
  | (k', v) :: d' => if decide (k = k') then dpop d' k else (k', v) :: dpop d' k
  end.

(** [d.setdefault(k, v)] as a statement. *)
Definition dsetdefault d k v : dict K V :=
  match dget d k with Some _ => d | None => dset d k v end.

Definition din d k : bool := match dget d k with Some _ => true | None => false end.

Definition dkeys d : list K := d.*1.

Lemma dget_dset d k v k' :
  dget (dset d k v) k' = if decide (k' = k) then Some v else dget d k'.
Proof.
  induction d as [|[k1 v1] d IH]; simpl; [done|].
  destruct (decide (k = k1)) as [->|]; simpl.
  - by destruct (decide (k' = k1)).
  - destruct (decide (k' = k1)) as [->|]; [by rewrite decide_False by congruence|done].
Qed.

Lemma dget_dset_eq d k v : dget (dset d k v) k = Some v.
Proof. rewrite dget_dset. by rewrite decide_True. Qed.

Lemma dget_dset_ne d k v k' : k' ≠ k → dget (dset d k v) k' = dget d k'.
Proof. intros. rewrite dget_dset. by rewrite decide_False. Qed.

Lemma dget_dpop d k k' :
  dget (dpop d k) k' = if decide (k' = k) then None else dget d k'.
Proof.
  induction d as [|[k1 v1] d IH]; simpl; [by case_decide|].
  destruct (decide (k = k1)) as [->|]; simpl; rewrite IH.
  - by destruct (decide (k' = k1)).
  - destruct (decide (k' = k1)) as [->|]; [by rewrite decide_False by congruence|done].
Qed.

Lemma dget_dpop_eq d k : dget (dpop d k) k = None.
Proof. rewrite dget_dpop. by rewrite decide_True. Qed.

Lemma dget_dpop_ne d k k' : k' ≠ k → dget (dpop d k) k' = dget d k'.
Proof. intros. rewrite dget_dpop. by rewrite decide_False. Qed.

Lemma dget_dsetdefault d k v k' :
  dget (dsetdefault d k v) k' =
    if decide (k' = k) then Some (default v (dget d k)) else dget d k'.
Proof.
  unfold dsetdefault. destruct (dget d k) as [v'|] eqn:E; simpl.
  - by destruct (decide (k' = k)) as [->|].
  - apply dget_dset.
Qed.

Lemma elem_of_dkeys d k : k ∈ dkeys d ↔ is_Some (dget d k).
Proof.
  induction d as [|[k1 v1] d IH]; simpl.
  - split; [by intros ?%not_elem_of_nil|by intros []].
  - rewrite elem_of_cons, IH. destruct (decide (k = k1)) as [->|]; naive_solver.
Qed.

Lemma din_spec d k : din d k = true ↔ is_Some (dget d k).
Proof. unfold din. destruct (dget d k); naive_solver. Qed.

Lemma dkeys_dset_old d k v : is_Some (dget d k) → dkeys (dset d k v) = dkeys d.
Proof.
  induction d as [|[k1 v1] d IH]; simpl; [by intros []|].
  destruct (decide (k = k1)) as [->|]; [done|]. intros H. simpl. by rewrite IH.
Qed.

Lemma dset_new d k v : dget d k = None → dset d k v = d ++ [(k, v)].
Proof.
  induction d as [|[k1 v1] d IH]; simpl; [done|].
  destruct (decide (k = k1)); [done|]. intros H. by rewrite IH.
Qed.

Lemma dkeys_dset_new d k v : dget d k = None → dkeys (dset d k v) = dkeys d ++ [k].
Proof. intros H. rewrite dset_new by done. unfold dkeys. by rewrite fmap_app. Qed.

(** The well-formedness invariant of a dictionary: no key twice. *)
Definition dict_wf d : Prop := NoDup (dkeys d).

Lemma dict_wf_dset d k v : dict_wf d → dict_wf (dset d k v).
Proof.
  unfold dict_wf. intros H. destruct (dget d k) as [v'|] eqn:E.
  - by rewrite dkeys_dset_old by eauto.
  - rewrite dkeys_dset_new by done. apply NoDup_app. split_and!; [done| |apply NoDup_singleton].
    intros x Hx ->%list_elem_of_singleton. apply elem_of_dkeys in Hx as [? ?]. congruence.
Qed.

Lemma dict_wf_dpop d k : dict_wf d → dict_wf (dpop d k).
Proof.
  unfold dict_wf. induction d as [|[k1 v1] d IH]; simpl; [done|].
  intros [Hk Hd]%NoDup_cons. destruct (decide (k = k1)) as [->|]; [by apply IH|].
  simpl. apply NoDup_cons. split; [|by apply IH].
  rewrite elem_of_dkeys, dget_dpop, decide_False by congruence. by rewrite <-elem_of_dkeys.
Qed.

Lemma dict_wf_nil : dict_wf [].
Proof. constructor. Qed.

Lemma dict_wf_dsetdefault d k v : dict_wf d → dict_wf (dsetdefault d k v).
Proof. unfold dsetdefault. destruct (dget d k); eauto using dict_wf_dset. Qed.
End dict.

Create HintDb finax.
#[export] Hint Resolve dict_wf_nil dict_wf_dset dict_wf_dpop dict_wf_dsetdefault : finax.
#[export] Hint Rewrite @dget_dset_eq @dget_dpop_eq : finax.
#[export] Hint Rewrite @dget_dset_ne @dget_dpop_ne using (congruence || done) : finax.

(** ** Python integers

    Python's [//] floors for every sign of the divisor, as [Z.div] does; a zero divisor
    raises.  The definitions below use [/] where the source's divisor is a non-zero
    constant or is tested first, and [floordiv] otherwise. *)
Definition floordiv (a b : Z) : res Z :=
  if b =? 0 then Err (Exn ZeroDivisionError "integer division or modulo by zero") else Ok (a / b).

(** [-(-a // b)]: the ceiling of [a / b] for a positive [b]. *)
Definition ceil_div (a b : Z) : Z := - (- a / b).

Lemma ceil_div_spec a b : 0 < b → b * (ceil_div a b - 1) < a ≤ b * ceil_div a b.
Proof.
  intros Hb. unfold ceil_div.
  pose proof (Z.div_mod (- a) b ltac:(lia)). pose proof (Z.mod_pos_bound (- a) b Hb). nia.
Qed.

Lemma ceil_div_nonneg a b : 0 < b → 0 ≤ a → 0 ≤ ceil_div a b.
Proof. intros. pose proof (ceil_div_spec a b). nia. Qed.

Lemma ceil_div_pos a b : 0 < b → 0 < a → 0 < ceil_div a b.
Proof. intros. pose proof (ceil_div_spec a b). nia. Qed.

Lemma ceil_div_mono a a' b : 0 < b → a ≤ a' → ceil_div a b ≤ ceil_div a' b.
Proof.
  intros Hb Ha. pose proof (ceil_div_spec a b Hb). pose proof (ceil_div_spec a' b Hb). nia.
Qed.

Lemma ceil_div_le_iff a b q : 0 < b → ceil_div a b ≤ q ↔ a ≤ b * q.
Proof. intros Hb. pose proof (ceil_div_spec a b Hb). nia. Qed.

Lemma div_floor_spec a b : 0 < b → b * (a / b) ≤ a < b * (a / b + 1).
Proof.
  intros Hb. pose proof (Z.div_mod a b ltac:(lia)). pose proof (Z.mod_pos_bound a b Hb). nia.
Qed.

Lemma div_nonneg a b : 0 < b → 0 ≤ a → 0 ≤ a / b.
Proof. intros. by apply Z.div_pos. Qed.

(** ** Strings *)
Definition ascii_lower (c : ascii) : ascii :=
  let n := N_of_ascii c in
  if (65 <=? n)%N && (n <=? 90)%N then ascii_of_N (n + 32) else c.

(** [str.lower] on ASCII text (hexadecimal addresses are ASCII). *)
Fixpoint str_lower (s : string) : string :=
  match s with
  | EmptyString => EmptyString
  | String c s' => String (ascii_lower c) (str_lower s')
  end.

Fixpoint str_prefix (p s : string) : bool :=
  match p, s with
  | EmptyString, _ => true
  | String a p', String b s' => if decide (a = b) then str_prefix p' s' else false
  | String _ _, EmptyString => false
  end.

Fixpoint str_drop (n : nat) (s : string) : string :=
  match n, s with
  | O, _ => s
  | S n', String _ s' => str_drop n' s'
  | S _, EmptyString => EmptyString
  end.

(** [s.removeprefix(p)] *)
Definition removeprefix (p s : string) : string :=
  if str_prefix p s then str_drop (String.length p) s else s.

(** [p in s] *)
Fixpoint str_contains (p s : string) : bool :=
  str_prefix p s ||
  match s with EmptyString => false | String _ s' => str_contains p s' end.

(** ** Tactics of the development *)

(** Split the [if]s and boolean comparisons of the goal or the context into arithmetic. *)
Ltac bsplit :=
  repeat match goal with
  | |- context [Z.leb ?a ?b] => destruct (Z.leb_spec a b)
  | |- context [Z.ltb ?a ?b] => destruct (Z.ltb_spec a b)
  | |- context [Z.eqb ?a ?b] => destruct (Z.eqb_spec a b)
  | H : context [Z.leb ?a ?b] |- _ => destruct (Z.leb_spec a b)
  | H : context [Z.ltb ?a ?b] |- _ => destruct (Z.ltb_spec a b)
  | H : context [Z.eqb ?a ?b] |- _ => destruct (Z.eqb_spec a b)
  end; simpl in *.

Ltac dict_simpl := autorewrite with finax in *; try done; eauto with finax.
