(* ===== verification/PyFloat.v ===== *)
(** * Python floats

    The source computes health factors, volatilities and clock readings with Python
    [float]s, i.e. IEEE binary64 with round-half-even.  They are [SpecFloat]'s executable
    [spec_float] at precision 53 and maximal exponent 1024, with the exceptions Python adds
    (division by zero, overflow of an integer conversion, [int] of a NaN or an infinity).
    No axiom is involved: every operation is an integer computation. *)
From Stdlib Require Import SpecFloat.
From S2P Require Import Prelude.

Open Scope Z_scope.

Abbreviation f64 := spec_float.

#[global] Instance spec_float_eq_dec : EqDecision spec_float.
Proof. solve_decision. Defined.

(** ** Operations *)
Definition fadd : f64 → f64 → f64 := SFadd 53 1024.
Definition fsub : f64 → f64 → f64 := SFsub 53 1024.
Definition fmul : f64 → f64 → f64 := SFmul 53 1024.
Definition fneg : f64 → f64 := SFopp.
Definition flt (x y : f64) : bool := SFltb x y.
Definition fle (x y : f64) : bool := SFleb x y.
Definition feq (x y : f64) : bool := SFeqb x y.

Definition fzero : f64 := S754_zero false.
Definition finf : f64 := S754_infinity false.
Definition fquarter : f64 := S754_finite false 4503599627370496 (-54).
Definition fhalf : f64 := S754_finite false 4503599627370496 (-53).

Definition is_nan (x : f64) : bool := match x with S754_nan => true | _ => false end.

Definition is_zero (x : f64) : bool := match x with S754_zero _ => true | _ => false end.

(** Neither a NaN nor an infinity. *)
Definition is_finite (x : f64) : bool :=
  match x with S754_zero _ | S754_finite _ _ _ => true | _ => false end.

(** [a / b] on floats. *)
Definition fdiv (x y : f64) : res f64 :=
  if is_zero y then Err (Exn ZeroDivisionError "float division by zero")
  else Ok (SFdiv 53 1024 x y).

(** [float(z)] for an integer. *)
Definition float_of_int (z : Z) : res f64 :=
  match binary_normalize 53 1024 z 0 false with
  | S754_infinity _ => Err (Exn OverflowError "int too large to convert to float")
  | x => Ok x
  end.

(** A float literal with a small integer value. *)
Definition flit (z : Z) : f64 := binary_normalize 53 1024 z 0 false.

(** [a / b] on integers: the correctly rounded quotient. *)
Definition truediv (a b : Z) : res f64 :=
  if b =? 0 then Err (Exn ZeroDivisionError "division by zero")
  else
    match a, b with
    | Z0, _ => Ok (S754_zero (b <? 0))
    | (Zpos m | Zneg m), (Zpos n | Zneg n) =>
        match SFdiv 53 1024 (S754_finite (a <? 0) m 0) (S754_finite (b <? 0) n 0) with
        | S754_infinity _ => Err (Exn OverflowError "integer division result too large for a float")
        | x => Ok x
        end
    | _, _ => Ok fzero
    end.

(** [math.sqrt]: a domain error below zero, the sign of a zero is kept. *)
Definition fsqrt (x : f64) : res f64 :=
  if flt x fzero then Err (Exn ValueError "math domain error") else Ok (SFsqrt 53 1024 x).

(** [max(a, b)]: the first argument unless the second is greater. *)
Definition fmax (x y : f64) : f64 := if flt x y then y else x.

(** [min(a, b)] *)
Definition fmin (x y : f64) : f64 := if flt y x then y else x.

Definition signed (s : bool) (z : Z) : Z := if s then - z else z.

(** [int(x)]: truncation towards zero. *)
Definition int_of_float (x : f64) : res Z :=
  match x with
  | S754_nan => Err (Exn ValueError "cannot convert float NaN to integer")
  | S754_infinity _ => Err (Exn OverflowError "cannot convert float infinity to integer")
  | S754_zero _ => Ok 0
  | S754_finite s m e =>
      Ok (signed s (if 0 <=? e then Z.pos m * 2 ^ e else Z.pos m / 2 ^ (- e)))
  end.

(** [round(x)]: to the nearest integer, ties to even. *)
Definition round_float (x : f64) : res Z :=
  match x with
  | S754_nan => Err (Exn ValueError "cannot convert float NaN to integer")
  | S754_infinity _ => Err (Exn OverflowError "cannot convert float infinity to integer")
  | S754_zero _ => Ok 0
  | S754_finite s m e =>
      Ok (signed s
        (if 0 <=? e then Z.pos m * 2 ^ e
         else
           let d := 2 ^ (- e) in
           let q := Z.pos m / d in
           let r := Z.pos m mod d in
           match (2 * r) ?= d with
           | Lt => q
           | Gt => q + 1
           | Eq => if Z.even q then q else q + 1
           end))
  end.

(** [z > x] for an integer and a float: Python compares the exact values. *)
Definition int_gt_float (z : Z) (x : f64) : bool :=
  match x with
  | S754_nan => false
  | S754_infinity s => s
  | S754_zero _ => 0 <? z
  | S754_finite s m e =>
      if 0 <=? e then signed s (Z.pos m * 2 ^ e) <? z
      else signed s (Z.pos m) <? z * 2 ^ (- e)
  end.

(** ** The order of non-NaN floats

    [SFcompare] compares sign, exponent and mantissa lexicographically; [fkey] makes the
    key explicit so that order properties become linear arithmetic. *)
Definition fkey (x : f64) : option (Z * Z * Z) :=
  match x with
  | S754_nan => None
  | S754_infinity false => Some (2, 0, 0)
  | S754_infinity true => Some (-2, 0, 0)
  | S754_zero _ => Some (0, 0, 0)
  | S754_finite false m e => Some (1, e, Z.pos m)
  | S754_finite true m e => Some (-1, - e, - Z.pos m)
  end.

Definition klt (a b : Z * Z * Z) : Prop :=
  let '(a1, a2, a3) := a in
  let '(b1, b2, b3) := b in
  a1 < b1 ∨ (a1 = b1 ∧ (a2 < b2 ∨ (a2 = b2 ∧ a3 < b3))).

Lemma compare_cont_Eq m n : Pos.compare_cont Eq m n = (m ?= n)%positive.
Proof. done. Qed.

Lemma fcompare_key x y :
  match SFcompare x y with
  | None => fkey x = None ∨ fkey y = None
  | Some c => ∃ a b, fkey x = Some a ∧ fkey y = Some b ∧
      match c with Lt => klt a b | Gt => klt b a | Eq => a = b end
  end.
Proof.
  destruct x as [sx|sx| |sx mx ex], y as [sy|sy| |sy my ey]; simpl;
    try destruct sx; try destruct sy; simpl; eauto;
    try (eexists _, _; split_and!; [done|done|]; simpl; lia || done).
  all: destruct (Z.compare_spec ex ey) as [->| |]; simpl;
    try (eexists _, _; split_and!; [done|done|]; simpl; lia).
  all: rewrite compare_cont_Eq; destruct (Pos.compare_spec mx my) as [->| |]; simpl;
    eexists _, _; split_and!; try done; simpl; lia.
Qed.

Lemma flt_key x y :
  flt x y = true ↔ ∃ a b, fkey x = Some a ∧ fkey y = Some b ∧ klt a b.
Proof.
  unfold flt, SFltb. pose proof (fcompare_key x y) as H.
  destruct (SFcompare x y) as [[]|]; split; try done; try naive_solver.
  - destruct H as (a & b & Ha & Hb & ->). intros (? & ? & ? & ? & Hlt). simplify_eq.
    destruct b as [[]]; simpl in *; lia.
  - destruct H as (a & b & Ha & Hb & H). intros (? & ? & ? & ? & Hlt). simplify_eq.
    destruct a as [[]], b as [[]]; simpl in *; lia.
Qed.

Lemma fle_key x y :
  fle x y = true ↔ ∃ a b, fkey x = Some a ∧ fkey y = Some b ∧ (klt a b ∨ a = b).
Proof.
  unfold fle, SFleb. pose proof (fcompare_key x y) as H.
  destruct (SFcompare x y) as [[]|]; split; try done; try naive_solver.
  destruct H as (a & b & Ha & Hb & H). intros (? & ? & ? & ? & Hlt). simplify_eq.
  destruct a as [[]], b as [[]]; simpl in *; destruct Hlt as [?|?]; simplify_eq; lia.
Qed.

Lemma klt_trans a b c : klt a b → klt b c → klt a c.
Proof. destruct a as [[]], b as [[]], c as [[]]; simpl; lia. Qed.

Lemma fle_lt_trans x y z : fle x y = true → flt y z = true → flt x z = true.
Proof.
  rewrite fle_key, !flt_key. intros (a & b & Ha & Hb & [Hab| ->]) (b' & c & Hb' & Hc & Hbc);
    simplify_eq; eauto 10 using klt_trans.
Qed.

Lemma flt_irrefl x : flt x x = false.
Proof.
  apply not_true_is_false. rewrite flt_key. intros ([[]] & ? & Ha & Hb & H).
  simplify_eq. simpl in H. lia.
Qed.

Lemma flt_fle x y : flt x y = true → fle x y = true.
Proof. rewrite flt_key, fle_key. naive_solver. Qed.

(** ** Sign

    [fnonneg x]: [x] is a NaN or its sign bit is clear. *)
Definition fnonneg (x : f64) : bool :=
  match x with
  | S754_nan => true
  | S754_zero s | S754_infinity s | S754_finite s _ _ => negb s
  end.

Lemma round_aux_nonneg m e l : fnonneg (binary_round_aux 53 1024 false m e l) = true.
Proof.
  unfold binary_round_aux. destruct (shr_fexp _ _ _ _ _) as [mrs' e'].
  destruct (shr_fexp _ _ _ _ _) as [mrs'' e'']. destruct (shr_m mrs''); simpl; try done.
  by destruct (_ <=? _).
Qed.

Lemma binary_round_nonneg m e : fnonneg (binary_round 53 1024 false m e) = true.
Proof. unfold binary_round. destruct (shl_align _ _ _). apply round_aux_nonneg. Qed.

Lemma normalize_nonneg z e : 0 ≤ z → fnonneg (binary_normalize 53 1024 z e false) = true.
Proof. destruct z; intros; simpl; [done|apply binary_round_nonneg|lia]. Qed.

Lemma fadd_nonneg x y : fnonneg x = true → fnonneg y = true → fnonneg (fadd x y) = true.
Proof.
  destruct x as [[]|[]| |[] mx ex], y as [[]|[]| |[] my ey]; intros; try done.
  unfold fadd, SFadd, cond_Zopp. apply normalize_nonneg. lia.
Qed.

Lemma SFdiv_nonneg x y : fnonneg x = true → fnonneg y = true → fnonneg (SFdiv 53 1024 x y) = true.
Proof.
  destruct x as [[]|[]| |[] mx ex], y as [[]|[]| |[] my ey]; intros; try done.
  unfold SFdiv. destruct (SFdiv_core_binary _ _ _ _ _ _) as [[mz ez] lz]. apply round_aux_nonneg.
Qed.

Lemma fnonneg_not_lt x : fnonneg x = true → flt x fzero = false.
Proof. by destruct x as [[]|[]| |[] ? ?]. Qed.

Lemma flit_nonneg z : 0 ≤ z → fnonneg (flit z) = true.
Proof. apply normalize_nonneg. Qed.

Lemma SFsqrt_nonneg x : fnonneg x = true → fnonneg (SFsqrt 53 1024 x) = true.
Proof.
  destruct x as [[]|[]| |[] m e]; intros; try done.
  unfold SFsqrt. destruct (SFsqrt_core_binary _ _ _ _) as [[mz ez] lz]. apply round_aux_nonneg.
Qed.

Lemma float_of_int_nonneg z x : 0 ≤ z → float_of_int z = Ok x → fnonneg x = true.
Proof.
  intros Hz. unfold float_of_int. pose proof (normalize_nonneg z 0 Hz).
  destruct (binary_normalize 53 1024 z 0 false); naive_solver.
Qed.

(** *** Integer conversions are never NaN *)
Lemma shr_1_nonneg x : 0 ≤ shr_m x → 0 ≤ shr_m (shr_1 x).
Proof. destruct x as [[|[]|[]] r s]; simpl; lia. Qed.

Lemma shr_nonneg x e n : 0 ≤ shr_m x → 0 ≤ shr_m (shr x e n).1.
Proof.
  intros Hx. destruct n as [|p|p]; simpl; [done| |done].
  revert x Hx. induction p as [p IH|p IH|]; intros x Hx; simpl; auto using shr_1_nonneg.
Qed.

Lemma shr_fexp_nonneg m e l : 0 ≤ m → 0 ≤ shr_m (shr_fexp 53 1024 m e l).1.
Proof. intros. apply shr_nonneg. by destruct l as [|[]]. Qed.

Lemma round_even_nonneg m l : 0 ≤ m → 0 ≤ round_nearest_even m l.
Proof. intros. destruct l as [|[]]; simpl; [lia| |lia|lia]. destruct (Z.even m); lia. Qed.

Lemma round_aux_not_nan s m e l : 0 ≤ m → is_nan (binary_round_aux 53 1024 s m e l) = false.
Proof.
  intros Hm. unfold binary_round_aux. pose proof (shr_fexp_nonneg m e l Hm).
  destruct (shr_fexp _ _ _ _ _) as [mrs' e']; simpl in *.
  pose proof (shr_fexp_nonneg (round_nearest_even (shr_m mrs') (loc_of_shr_record mrs')) e'
    loc_Exact (round_even_nonneg _ _ ltac:(done))) as H2.
  destruct (shr_fexp _ _ (round_nearest_even _ _) _ _) as [mrs'' e'']; simpl in *.
  destruct (shr_m mrs''); [done| |lia]. by destruct (_ <=? _).
Qed.

Lemma float_of_int_finite z x : float_of_int z = Ok x → ∃ s m e, x = S754_zero s ∨ x = S754_finite s m e.
Proof.
  unfold float_of_int. assert (is_nan (binary_normalize 53 1024 z 0 false) = false) as Hn.
  { destruct z; simpl; [done| |]; unfold binary_round; destruct (shl_align _ _ _);
      by apply round_aux_not_nan. }
  destruct (binary_normalize 53 1024 z 0 false) as [s|s| |s m e]; try done; intros [= <-].
  - exists s, xH, 0. auto.
  - exists s, m, e. auto.
Qed.

#[export] Hint Resolve fadd_nonneg SFdiv_nonneg SFsqrt_nonneg flit_nonneg : finax.
