(* ===== verification/PyText.v ===== *)
(** * Python text: numbers to strings and back, regular expressions

    The agent layer renders figures into prose and reads figures back out of prose, so the
    parts of Python's text handling it uses are modelled: [str] and [repr] of JSON-like
    values, the format specifications of the source's f-strings, [float(s)] on decimal
    literals, [round(x, n)], [str.strip], and backtracking regular expressions.

    A [string] holds the UTF-8 bytes of a Python string; [decode] gives its code points.
    What the Unicode database says of the code points above 127 is a parameter. *)
From Stdlib Require Import SpecFloat.
From S2P Require Import Prelude PyFloat.

(** ** JSON-like values *)
Inductive json :=
  | JNull | JBool (b : bool) | JInt (z : Z) | JFloat (x : f64) | JStr (s : string)
  | JList (l : list json) | JObj (l : list (string * json)).

Definition jopt (o : option string) : json := match o with Some s => JStr s | None => JNull end.

(** [dict.get(k)] on a value that is a dictionary. *)
Definition jget (j : json) (k : string) : option json :=
  match j with JObj l => dget l k | _ => None end.

(** ** Unicode *)
Class UnicodeData := {
  u_word : Z → bool;            (* a word character: matched by the class w *)
  u_digit : Z → option Z;       (* the value of a decimal digit *)
  u_space : Z → bool;           (* str.isspace *)
  u_printable : Z → bool;       (* str.isprintable *)
  u_upper : Z → list Z;         (* str.upper, of one character *)
}.

Definition codepoint (c : ascii) : Z := Z.of_N (N_of_ascii c).
Definition byte_of (z : Z) : ascii := ascii_of_N (Z.to_N z).

Fixpoint bytes_of (s : string) : list Z :=
  match s with EmptyString => [] | String c s' => codepoint c :: bytes_of s' end.

Fixpoint of_bytes (l : list Z) : string :=
  match l with [] => EmptyString | b :: l' => String (byte_of b) (of_bytes l') end.

(** UTF-8 on well-formed sequences. *)
Fixpoint decode_bytes (l : list Z) : list Z :=
  match l with
  | a :: l1 =>
      if a <? 192 then a :: decode_bytes l1
      else
        match l1 with
        | b :: l2 =>
            if a <? 224 then (a - 192) * 64 + (b - 128) :: decode_bytes l2
            else
              match l2 with
              | c :: l3 =>
                  if a <? 240 then (a - 224) * 4096 + (b - 128) * 64 + (c - 128) :: decode_bytes l3
                  else
                    match l3 with
                    | d :: l4 =>
                        (a - 240) * 262144 + (b - 128) * 4096 + (c - 128) * 64 + (d - 128)
                          :: decode_bytes l4
                    | [] => [a; b; c]
                    end
              | [] => [a; b]
              end
        | [] => [a]
        end
  | [] => []
  end.

Definition encode_point (z : Z) : list Z :=
  if z <? 128 then [z]
  else if z <? 2048 then [192 + z / 64; 128 + z mod 64]
  else if z <? 65536 then [224 + z / 4096; 128 + z / 64 mod 64; 128 + z mod 64]
  else [240 + z / 262144; 128 + z / 4096 mod 64; 128 + z / 64 mod 64; 128 + z mod 64].

Definition decode (s : string) : list Z := decode_bytes (bytes_of s).
Definition encode (l : list Z) : string := of_bytes (l ≫= encode_point).

Definition between (lo hi c : Z) : bool := (lo <=? c) && (c <=? hi).

Section classes.
Context `{UnicodeData}.

Definition digit_value (c : Z) : option Z :=
  if c <? 128 then (if between 48 57 c then Some (c - 48) else None) else u_digit c.

Definition is_digit (c : Z) : bool := match digit_value c with Some _ => true | None => false end.

Definition is_word (c : Z) : bool :=
  if c <? 128 then between 48 57 c || between 65 90 c || between 97 122 c || (c =? 95)
  else u_word c.

Definition is_space (c : Z) : bool :=
  if c <? 128 then between 9 13 c || between 28 32 c else u_space c.

Definition is_hex (c : Z) : bool := between 48 57 c || between 65 70 c || between 97 102 c.

Fixpoint drop_spaces (l : list Z) : list Z :=
  match l with c :: l' => if is_space c then drop_spaces l' else l | [] => [] end.

(** [s.strip()] *)
Definition py_strip (s : string) : string :=
  encode (reverse (drop_spaces (reverse (drop_spaces (decode s))))).

Definition upper_point (c : Z) : list Z :=
  if c <? 128 then [if between 97 122 c then c - 32 else c] else u_upper c.

(** [s.upper()] *)
Definition py_upper (s : string) : string := encode (decode s ≫= upper_point).
End classes.

Lemma str_app_nil_r (s : string) : s +:+ "" = s.
Proof. induction s as [|c s IH]; [done|]. change (String c (s +:+ "") = String c s). by rewrite IH. Qed.

(** [s.removesuffix(p)] *)
Fixpoint removesuffix (p s : string) : string :=
  if decide (s = p) then EmptyString
  else match s with EmptyString => EmptyString | String c s' => String c (removesuffix p s') end.

(** [sorted(l)] on strings: UTF-8 keeps the order of code points. *)
Definition str_le (a b : string) : Prop := String.leb a b = true.

#[global] Instance str_le_dec a b : Decision (str_le a b).
Proof. unfold str_le. apply _. Defined.

Definition py_sorted (l : list string) : list string := merge_sort str_le l.

(** ** Decimal digits *)
Definition string_of_Z (z : Z) : string := pretty z.

(** [n] digits of [z], most significant first, with leading zeros. *)
Fixpoint padded (n : nat) (z : Z) : string :=
  match n with
  | O => EmptyString
  | S n' => padded n' (z / 10) +:+ String (byte_of (48 + z mod 10)) EmptyString
  end.

(** The number of decimal digits of a positive integer; [k] bounds it. *)
Fixpoint ndigits (k : nat) (z : Z) : Z :=
  match k with
  | O => 0
  | S k' => if z <? 10 then 1 else 1 + ndigits k' (z / 10)
  end.

Definition digits_of (z : Z) : Z := ndigits (Z.to_nat (Z.log2 z + 1)) z.

(** Thousands separators in a string of digits. *)
Fixpoint group_bytes (l : list Z) : list Z :=
  match l with
  | [] => []
  | c :: l' =>
      c :: (if (0 <? Z.of_nat (length l')) && (Z.of_nat (length l') mod 3 =? 0) then [44] else [])
        ++ group_bytes l'
  end.

Definition grouped (s : string) : string := of_bytes (group_bytes (bytes_of s)).

(** ** Exact decimal expansions

    A finite float is a ratio of integers; every format is a rounding of it. *)
Definition half_even (num den : Z) : Z :=
  let q := num / den in
  match 2 * (num mod den) ?= den with
  | Lt => q
  | Gt => q + 1
  | Eq => if Z.even q then q else q + 1
  end.

Definition ratio (m : positive) (e : Z) : Z * Z :=
  if 0 <=? e then (Z.pos m * 2 ^ e, 1) else (Z.pos m, 2 ^ (- e)).

(** [num / den * 10^k], rounded half to even. *)
Definition scaled (num den k : Z) : Z :=
  if 0 <=? k then half_even (num * 10 ^ k) den else half_even num (den * 10 ^ (- k)).

(** The decimal exponent of [num / den]: the largest [x] with [10^x <= num / den]. *)
Fixpoint small_exponent (fuel : nat) (num den : Z) (x : Z) : Z :=
  match fuel with
  | O => x
  | S f => if den <=? num * 10 ^ (- x) then x else small_exponent f num den (x - 1)
  end.

Definition exponent10 (num den : Z) : Z :=
  if den <=? num then digits_of (num / den) - 1 else small_exponent 400 num den (-1).

(** [n] significant digits [q] and the exponent [x] of the first: [q * 10^(x - n + 1)]. *)
Definition significant (n : Z) (num den : Z) : Z * Z :=
  let x := exponent10 num den in
  let q := scaled num den (n - 1 - x) in
  if q =? 10 ^ n then (10 ^ (n - 1), x + 1) else (q, x).

(** [float(s)] on a decimal literal of value [d * 10^k], correctly rounded. *)
Definition float_of_dec (neg : bool) (d k : Z) : f64 :=
  match d with
  | Zpos m =>
      if 0 <=? k then binary_normalize 53 1024 (signed neg (d * 10 ^ k)) 0 neg
      else
        match 10 ^ (- k) with
        | Zpos t => SFdiv 53 1024 (S754_finite neg m 0) (S754_finite false t 0)
        | _ => S754_zero neg
        end
  | _ => S754_zero neg
  end.

(** [round(x, n)] *)
Definition round_digits (x : f64) (n : Z) : res f64 :=
  match x with
  | S754_finite s m e =>
      let '(num, den) := ratio m e in
      match float_of_dec s (scaled num den n) (- n) with
      | S754_infinity _ => Err (Exn OverflowError "rounded value too large to represent")
      | y => Ok y
      end
  | _ => Ok x
  end.

(** ** Formatting floats *)
Definition sign_str (s : bool) : string := if s then "-" else "".

(** The non-finite values, as every format writes them. *)
Definition special (x : f64) (k : bool → positive → Z → string) : string :=
  match x with
  | S754_nan => "nan"
  | S754_infinity s => sign_str s +:+ "inf"
  | S754_zero s => sign_str s
  | S754_finite s m e => k s m e
  end.

(** The digits of [q / 10^k] in positional notation, with separators if [sep]. *)
Definition positional (sep : bool) (q k : Z) : string :=
  let i := string_of_Z (q / 10 ^ k) in
  (if sep then grouped i else i) +:+
  (if k =? 0 then "" else "." +:+ padded (Z.to_nat k) (q mod 10 ^ k)).

(** [f"{x:.kf}"], and [f"{x:,.kf}"] with [sep]. *)
Definition fmt_fixed (sep : bool) (k : Z) (x : f64) : string :=
  match x with
  | S754_zero s => sign_str s +:+ positional sep 0 k
  | _ => special x (λ s m e,
      let '(num, den) := ratio m e in sign_str s +:+ positional sep (scaled num den k) k)
  end.

(** [f"{x:.0%}"] *)
Definition fmt_percent (x : f64) : string := fmt_fixed false 0 (fmul x (flit 100)) +:+ "%".

(** Remove trailing zeros from [n] digits: the digits and how many are left. *)
Fixpoint strip_zeros (fuel : nat) (q n : Z) : Z * Z :=
  match fuel with
  | O => (q, n)
  | S f => if (1 <? n) && (q mod 10 =? 0) then strip_zeros f (q / 10) (n - 1) else (q, n)
  end.

(** [n] digits [q], the first of which stands for [10^x]. *)
Definition exponent_form (q n x : Z) : string :=
  positional false q (n - 1) +:+ "e" +:+ (if x <? 0 then "-" else "+") +:+
  (if Z.abs x <? 10 then "0" else "") +:+ string_of_Z (Z.abs x).

(** The same digits in positional notation; [dot] writes [.0] after an integer. *)
Definition point_form (dot : bool) (q n x : Z) : string :=
  if n - 1 <=? x then string_of_Z (q * 10 ^ (x - (n - 1))) +:+ (if dot then ".0" else "")
  else positional false q (n - 1 - x).

(** [f"{x:g}"]: six significant digits. *)
Definition fmt_g (x : f64) : string :=
  match x with
  | S754_zero s => sign_str s +:+ "0"
  | _ => special x (λ s m e,
      let '(num, den) := ratio m e in
      let '(q6, x10) := significant 6 num den in
      let '(q, n) := strip_zeros 6 q6 6 in
      sign_str s +:+
      if (x10 <? -4) || (6 <=? x10) then exponent_form q n x10 else point_form false q n x10)
  end.

(** The shortest digits that read back as the float: with [n] digits, the nearest decimal and
    then its neighbour on the other side. *)
Definition candidate (s : bool) (m : positive) (e n : Z) : option (Z * Z) :=
  let '(num, den) := ratio m e in
  let '(q, x) := significant n num den in
  let k := x - (n - 1) in
  let reads q := bool_decide (float_of_dec false q k = S754_finite false m e) in
  let low := if 0 <=? k then num / (den * 10 ^ k) else num * 10 ^ (- k) / den in
  let other := if q =? low then low + 1 else low in
  if reads q then Some (q, x)
  else if reads other && (10 ^ (n - 1) <=? other) && (other <? 10 ^ n) then Some (other, x)
  else None.

Fixpoint shortest (fuel : nat) (s : bool) (m : positive) (e n : Z) : Z * Z * Z :=
  match fuel with
  | O => (Z.pos m, n, 0)
  | S f =>
      match candidate s m e n with
      | Some (q, x) => (q, n, x)
      | None => shortest f s m e (n + 1)
      end
  end.

(** [repr(x)]: seventeen digits are always enough. *)
Definition float_repr (x : f64) : string :=
  match x with
  | S754_zero s => sign_str s +:+ "0.0"
  | _ => special x (λ s m e,
      let '(q, n, x10) := shortest 17 s m e 1 in
      sign_str s +:+
      if (x10 <? -4) || (16 <=? x10) then exponent_form q n x10 else point_form true q n x10)
  end.

(** A decimal constant of the source: [dec d k] is the literal of value [d * 10^k]. *)
Definition dec (d k : Z) : f64 := float_of_dec false d k.

Example repr_tenth : float_repr (dec 1 (-1)) = "0.1"%string.
Proof. vm_compute. reflexivity. Qed.
Example repr_third : ∃ x, truediv 1 3 = Ok x ∧ float_repr x = "0.3333333333333333"%string.
Proof. eexists. split; [vm_compute; reflexivity|]. vm_compute. reflexivity. Qed.
Example repr_large : float_repr (flit (10 ^ 22)) = "1e+22"%string ∧ float_repr (flit 15) = "15.0"%string.
Proof. vm_compute. auto. Qed.
Example repr_small : float_repr (dec 12 (-6)) = "1.2e-05"%string ∧ float_repr (dec 1 (-4)) = "0.0001"%string.
Proof. vm_compute. auto. Qed.
Example fixed_money : fmt_fixed true 2 (dec 1234567891 (-3)) = "1,234,567.89"%string.
Proof. vm_compute. reflexivity. Qed.
Example general : fmt_g (flit 1234567) = "1.23457e+06"%string ∧ fmt_g (dec 25 (-1)) = "2.5"%string.
Proof. vm_compute. auto. Qed.
Example round_even : round_digits (dec 2675 (-3)) 2 = Ok (dec 267 (-2)).
Proof. vm_compute. reflexivity. Qed.

(** ** [repr] and [str] *)
Section repr.
Context `{UnicodeData}.

Definition hex_digit (z : Z) : Z := if z <? 10 then 48 + z else 87 + z.

Fixpoint hex_padded (n : nat) (z : Z) : list Z :=
  match n with O => [] | S n' => hex_padded n' (z / 16) ++ [hex_digit (z mod 16)] end.

(** One character of the [repr] of a string quoted by [q]. *)
Definition repr_char (q c : Z) : list Z :=
  if (c =? q) || (c =? 92) then [92; c]
  else if c =? 10 then [92; 110] else if c =? 13 then [92; 114] else if c =? 9 then [92; 116]
  else if (c <? 32) || (c =? 127) then 92 :: 120 :: hex_padded 2 c
  else if c <? 127 then [c]
  else if u_printable c then [c]
  else if c <? 256 then 92 :: 120 :: hex_padded 2 c
  else if c <? 65536 then 92 :: 117 :: hex_padded 4 c
  else 92 :: 85 :: hex_padded 8 c.

Definition str_repr (s : string) : string :=
  let l := decode s in
  let q := if bool_decide (39 ∈ l) && negb (bool_decide (34 ∈ l)) then 34 else 39 in
  encode (q :: (l ≫= repr_char q) ++ [q]).

Fixpoint comma (l : list string) : string :=
  match l with [] => "" | [s] => s | s :: l' => s +:+ ", " +:+ comma l' end.

Fixpoint py_repr (j : json) : string :=
  match j with
  | JNull => "None"
  | JBool b => if b then "True" else "False"
  | JInt z => string_of_Z z
  | JFloat x => float_repr x
  | JStr s => str_repr s
  | JList l => "[" +:+ comma (map py_repr l) +:+ "]"
  | JObj l => "{" +:+ comma (map (λ kv, str_repr kv.1 +:+ ": " +:+ py_repr kv.2) l) +:+ "}"
  end.

Definition py_str (j : json) : string := match j with JStr s => s | _ => py_repr j end.
End repr.

(** ** Rendered text: an f-string is the list of its pieces *)
Inductive piece :=
  | Lit (s : string)
  | FInt (z : Z)
  | FFloat (spec : string) (x : f64)
  | FRepr (j : json).                     (* {x!r}, or {x} of a value that is no string *)

Definition text : Type := list piece.

(** The format specifications the source uses. *)
Definition fmt_float (spec : string) (x : f64) : string :=
  if decide (spec = ".0f") then fmt_fixed false 0 x
  else if decide (spec = ",.2f") then fmt_fixed true 2 x
  else if decide (spec = ".0%") then fmt_percent x
  else if decide (spec = "g") then fmt_g x
  else float_repr x.

Section render.
Context `{UnicodeData}.

Definition render_piece (p : piece) : string :=
  match p with
  | Lit s => s
  | FInt z => string_of_Z z
  | FFloat spec x => fmt_float spec x
  | FRepr j => py_repr j
  end.

Fixpoint render (t : text) : string :=
  match t with [] => "" | p :: t' => render_piece p +:+ render t' end.
End render.

(** ** Regular expressions

    Python's backtracking matcher: [rmatch r] lists the ways [r] can match at a position, in
    the order the matcher tries them; the first one is the match.  A position is the
    previous character, if any, and what is left of the string. *)
Inductive re :=
  | Chr (p : Z → bool)
  | Seq (r1 r2 : re)
  | Alt (r1 r2 : re)
  | Opt (r : re)
  | Plus (r : re)
  | NotBehind (p : Z → bool)
  | Empty.

Definition position : Type := option Z * list Z.

(** Greedy repetition; every turn but the last consumes a character, so [n] turns suffice
    for a string of length [n]. *)
Fixpoint star (step : position → list position) (n : nat) (s : position) : list position :=
  match n with
  | O => [s]
  | S n' => (step s ≫= λ s', if Nat.ltb (length s'.2) (length s.2) then star step n' s' else [])
              ++ [s]
  end.

Fixpoint rmatch (r : re) (s : position) : list position :=
  match r with
  | Chr p => match s.2 with c :: l => if p c then [(Some c, l)] else [] | [] => [] end
  | Seq r1 r2 => rmatch r1 s ≫= rmatch r2
  | Alt r1 r2 => rmatch r1 s ++ rmatch r2 s
  | Opt r => rmatch r s ++ [s]
  | Plus r => rmatch r s ≫= λ s', star (rmatch r) (length s'.2) s'
  | NotBehind p => match s.1 with Some c => if p c then [] else [s] | None => [s] end
  | Empty => [s]
  end.

(** The leftmost matches, from left to right, and the text between them: [inl] a character
    outside of every match, [inr] a match.  Empty matches do not occur in the source. *)
Fixpoint scan (r : re) (fuel : nat) (s : position) : list (Z + list Z) :=
  match fuel with
  | O => []
  | S f =>
      match s.2 with
      | [] => []
      | c :: l =>
          match rmatch r s with
          | s' :: _ =>
              if Nat.ltb (length s'.2) (length s.2)
              then inr (take (length s.2 - length s'.2) s.2) :: scan r f s'
              else inl c :: scan r f (Some c, l)
          | [] => inl c :: scan r f (Some c, l)
          end
      end
  end.

Definition scanned (r : re) (l : list Z) : list (Z + list Z) := scan r (length l) (None, l).

(** [re.sub(r, by, l)] and [re.findall(r, l)] *)
Definition re_sub (r : re) (by_ : list Z) (l : list Z) : list Z :=
  scanned r l ≫= λ x, match x with inl c => [c] | inr _ => by_ end.

Definition re_findall (r : re) (l : list Z) : list (list Z) :=
  scanned r l ≫= λ x, match x with inl _ => [] | inr m => [m] end.

Fixpoint seq_of (l : list re) : re :=
  match l with [] => Empty | [r] => r | r :: l' => Seq r (seq_of l') end.

Definition rep (n : nat) (r : re) : re := seq_of (replicate n r).

(** ** Reading a number

    [float(s)] on an optional sign, digits and an optional fraction: the value of the digits
    and the number of them after the point. *)
Section parse.
Context `{UnicodeData}.

Fixpoint read_digits (l : list Z) (acc : Z) (frac : option Z) : option (Z * Z) :=
  match l with
  | [] => Some (acc, default 0 frac)
  | c :: l' =>
      if c =? 46 then match frac with None => read_digits l' acc (Some 0) | Some _ => None end
      else match digit_value c with
           | Some d => read_digits l' (10 * acc + d) ((λ n, n + 1) <$> frac)
           | None => None
           end
  end.

Definition parse_float (l : list Z) : res f64 :=
  let '(neg, ds) := match l with 45 :: l' => (true, l') | _ => (false, l) end in
  match read_digits ds 0 None with
  | Some (d, k) => Ok (float_of_dec neg d (- k))
  | None => Err (Exn ValueError "could not convert string to float")
  end.
End parse.
