(* ===== verification/Guard.v ===== *)
(** * agent/guard.py: the provenance check on model prose (FR-22)

    The guard reads every figure of a text and looks for a figure it has observed that the
    text may be a rendering of.  It raises where Python does: the renderings of a figure
    that is not finite cannot be computed. *)
From Stdlib Require Import SpecFloat.
From S2P Require Import Prelude PyFloat PyText.

(** Numbers that carry no claim. *)
Definition ALLOWED_BARE : list f64 := flit <$> [0; 1; 2; 3; 4; 5; 10; 100; 1000; 10000].

Definition REL_TOL : f64 := dec 5 (-3).

Section guard.
Context `{UnicodeData}.

(** ** Reading figures *)
Definition char (c : Z) : re := Chr (Z.eqb c).
Definition digit : re := Chr is_digit.

(** [(?<![\w.-])] *)
Definition not_in_name : re := NotBehind (λ c, is_word c || (c =? 46) || (c =? 45)).

Definition fraction : re := Opt (Seq (char 46) (Plus digit)).

Definition NUMBER_RE : re :=
  Alt
    (seq_of [not_in_name; Opt (char 45); digit; Opt (Seq digit (Opt digit));
             Plus (Seq (char 44) (rep 3 digit)); fraction])
    (seq_of [not_in_name; Opt (char 45); Plus digit; fraction]).

Definition HEX_RE : re := seq_of [char 48; char 120; Plus (Chr is_hex)].

Definition digits_colons : re := Plus (Chr (λ c, is_digit c || (c =? 58))).

Definition ISO_RE : re :=
  seq_of [rep 4 digit; char 45; rep 2 digit; char 45; rep 2 digit;
          Chr (λ c, (c =? 84) || (c =? 32)); digits_colons;
          Opt (Alt (Seq (Chr (λ c, (c =? 43) || (c =? 45))) digits_colons) (char 90))].

(** The figure a match stands for; a match is always parseable. *)
Definition figure (raw : list Z) : option f64 :=
  match parse_float (filter (λ c, c ≠ 44) raw) with Ok x => Some x | Err _ => None end.

Definition extract_numbers (s : string) : list f64 :=
  let cleaned := re_sub ISO_RE [32] (re_sub HEX_RE [32] (decode s)) in
  omap figure (re_findall NUMBER_RE cleaned).

(** ** Renderings *)
Definition fabs : f64 → f64 := SFabs.

(** [value / n] for a float and a positive integer constant. *)
Definition over (v : f64) (n : Z) : f64 := SFdiv 53 1024 v (flit n).

(** The set of renderings, as a list. *)
Definition renderings (v : f64) : res (list f64) :=
  r2 ← round_digits v 2;
  r4 ← round_digits v 4;
  i ← int_of_float v;
  fi ← float_of_int i;
  p2 ← round_digits (fmul v (flit 100)) 2;
  q2 ← round_digits (over v 100) 2;
  b4 ← round_digits (over v 10000) 4;
  token ← (if fle (flit 1000000) (fabs v)
           then u2 ← round_digits (over v (10 ^ 6)) 2; Ok [over v (10 ^ 6); u2]
           else Ok []);
  wad ← (if fle (flit (10 ^ 16)) (fabs v)
         then w4 ← round_digits (over v (10 ^ 18)) 4; Ok [over v (10 ^ 18); w4]
         else Ok []);
  Ok ([v; r2; r4; fi; fmul v (flit 100); p2; over v 100; q2; over v 10000; b4] ++ token ++ wad).

Fixpoint all_renderings (allowed : list f64) : res (list f64) :=
  match allowed with
  | [] => Ok []
  | v :: l => c ← renderings v; cs ← all_renderings l; Ok (c ++ cs)
  end.

(** [abs(found - c) <= max(rel_tol * max(abs(found), abs(c)), 1e-9)] *)
Definition close_to (rel_tol found c : f64) : bool :=
  fle (fabs (fsub found c)) (fmax (fmul rel_tol (fmax (fabs found) (fabs c))) (dec 1 (-9))).

(** A figure the check lets through. *)
Definition verified (candidates : list f64) (found : f64) : bool :=
  existsb (feq found) ALLOWED_BARE || existsb (close_to REL_TOL found) candidates.

Definition check (s : string) (allowed : list f64) : res (bool * list f64) :=
  candidates ← all_renderings allowed;
  let unverified := filter (λ x, verified candidates x = false) (extract_numbers s) in
  Ok (bool_decide (unverified = []), unverified).

(** ** Observing

    The numeric leaves of a value; [float(z)] of an integer too large raises.  The source
    walks the structure with a stack, so the order differs; only membership matters. *)
Definition res_concat {A} (l : list (res (list A))) : res (list A) :=
  foldr (λ r acc, x ← r; y ← acc; Ok (x ++ y)) (Ok []) l.

Fixpoint collect_numbers (j : json) : res (list f64) :=
  match j with
  | JInt z => x ← float_of_int z; Ok [x]
  | JFloat x => Ok [x]
  | JList l => res_concat (map collect_numbers l)
  | JObj l => res_concat (map (λ kv, collect_numbers kv.2) l)
  | JNull | JBool _ | JStr _ => Ok []
  end.

(** [NumberGuard()]: no figure has been observed. *)
Definition NumberGuard : list f64 := [].

(** [NumberGuard.observe]: the figures observed so far, with those of [payload]. *)
Definition observe (guard : list f64) (payload : json) : res (list f64) :=
  found ← collect_numbers payload; Ok (guard ++ found).

Definition banner (unverified : list f64) : string :=
  "

⚠ Unverified figures: " +:+ comma (fmt_g <$> unverified) +:+ ". These could not be traced to a backend response and must not be treated as live data — check the console's own metrics instead.".

(** [NumberGuard.verify] *)
Definition verify (guard : list f64) (s : string) : res (bool * list f64) := check s guard.

(** [NumberGuard.annotate] *)
Definition annotate (guard : list f64) (s : string) : res (string * bool * list f64) :=
  '(ok, unverified) ← verify guard s;
  if ok : bool then Ok (s, false, []) else Ok (s +:+ banner unverified, true, unverified).
End guard.

(** ** Concrete texts *)
Definition unicode_ascii : UnicodeData :=
  {| u_word _ := false; u_digit _ := None; u_space _ := false; u_printable _ := true; u_upper c := [c] |}.

Example guard_reads :
  @extract_numbers unicode_ascii "HF 1.1432, cost 2,400.50 USD (EIP-712, Aave V3, gemini-3.6-flash) at 0x12ab on 2025-01-02T03:04:05Z; -7 and 12,34"
  = [dec 11432 (-4); dec 240050 (-2); float_of_dec true 7 0; flit 12; flit 34].
Proof. vm_compute. reflexivity. Qed.

Example guard_percent : @annotate unicode_ascii [dec 123 (-4)] "about 1.23% and 55" =
  Ok ("about 1.23% and 55" +:+ banner [flit 55], true, [flit 55]).
Proof. vm_compute. reflexivity. Qed.

(** ** Lemmas *)
Lemma fsub_self x : is_finite x = true → fsub x x = fzero.
Proof.
  destruct x as [s|s| |s m e]; intros; try done; [by destruct s|].
  unfold fsub, SFsub. by rewrite Z.sub_diag.
Qed.

Lemma fle_zero x : fnonneg x = true → is_nan x = false → fle fzero x = true.
Proof. by destruct x as [[]|[]| |[] m e]. Qed.

Lemma fmul_abs_nonneg c y : fnonneg c = true → is_nan c = false → is_finite c = true →
  is_finite y = true →
  fnonneg (fmul c (fabs y)) = true ∧ is_nan (fmul c (fabs y)) = false.
Proof.
  destruct c as [[]|[]| |[] m e], y as [s|s| |s n k]; intros; try done.
  unfold fmul, fabs, SFmul, SFabs. cbn [xorb]. split; [apply round_aux_nonneg|].
  by apply round_aux_not_nan.
Qed.

Lemma fmax_self x : fmax x x = x.
Proof. unfold fmax. by destruct (flt x x). Qed.

(** Every finite figure is within tolerance of itself. *)
Lemma close_to_self x : is_finite x = true → close_to REL_TOL x x = true.
Proof.
  intros Hx. unfold close_to. rewrite fsub_self, fmax_self by done.
  change (fabs fzero) with fzero.
  destruct (fmul_abs_nonneg REL_TOL x) as [Hn Hnan]; try done.
  unfold fmax. destruct (flt _ _); [by vm_compute|]. by apply fle_zero.
Qed.

Section facts.
Context `{UnicodeData}.

Lemma all_renderings_ok l cs :
  all_renderings l = Ok cs →
  (∀ v c, v ∈ l → renderings v = Ok c → c ⊆ cs) ∧
  (∀ v, v ∈ l → is_ok (renderings v) = true) ∧
  (∀ x, x ∈ cs → ∃ v c, v ∈ l ∧ renderings v = Ok c ∧ x ∈ c).
Proof.
  revert cs. induction l as [|v l IH]; intros cs Hl; cbn in Hl.
  - injection Hl as <-. split_and!; [|by intros v ?%not_elem_of_nil|by intros ? ?%not_elem_of_nil].
    by intros v c ?%not_elem_of_nil.
  - apply res_bind_ok in Hl as (c & Hc & (cs' & Hcs & [= <-])%res_bind_ok).
    destruct (IH _ Hcs) as (H1 & H2 & H3). split_and!.
    + intros v' c' [->|Hv]%elem_of_cons Hc'; [rewrite Hc in Hc'; simplify_eq; set_solver|].
      specialize (H1 _ _ Hv Hc'). set_solver.
    + intros v' [->|Hv]%elem_of_cons; [by rewrite Hc|auto].
    + intros x [Hx|Hx]%elem_of_app; [set_solver|]. destruct (H3 x Hx) as (v' & c' & ? & ? & ?).
      exists v', c'. set_solver.
Qed.

Lemma check_ok s allowed ok unv :
  check s allowed = Ok (ok, unv) →
  ∃ cs, all_renderings allowed = Ok cs ∧
    unv = filter (λ x, verified cs x = false) (extract_numbers s) ∧
    (ok = true ↔ ∀ x, x ∈ extract_numbers s → verified cs x = true).
Proof.
  unfold check. intros (cs & Hcs & [= <- <-])%res_bind_ok. exists cs. split_and!; [done|done|].
  rewrite bool_decide_eq_true. split.
  - intros Hnil x Hx. apply not_false_iff_true. intros Hv.
    assert (x ∈ filter (λ x, verified cs x = false) (extract_numbers s)) as Hin
      by by apply list_elem_of_filter.
    rewrite Hnil in Hin. by apply not_elem_of_nil in Hin.
  - intros Hall. apply elem_of_nil_inv. intros x [Hv Hx]%list_elem_of_filter.
    rewrite Hall in Hv by done. done.
Qed.

Lemma verified_iff cs x :
  verified cs x = true ↔
  (∃ b, b ∈ ALLOWED_BARE ∧ feq x b = true) ∨ (∃ c, c ∈ cs ∧ close_to REL_TOL x c = true).
Proof.
  unfold verified. rewrite orb_true_iff, !existsb_exists.
  setoid_rewrite list_elem_of_In. naive_solver.
Qed.

(** No rendering of a figure that is not finite can be computed. *)
Lemma renderings_not_finite v : is_finite v = false → ∃ e, renderings v = Err e ∧ is_Exception e = true.
Proof.
  intros Hf. destruct v as [s|s| |s m e]; [discriminate| | |discriminate]; unfold renderings.
  - exists (Exn OverflowError "cannot convert float infinity to integer"). split; reflexivity.
  - exists (Exn ValueError "cannot convert float NaN to integer"). split; reflexivity.
Qed.

Lemma all_renderings_not_finite v l :
  v ∈ l → is_finite v = false → is_ok (all_renderings l) = false.
Proof.
  intros Hv Hf. destruct (all_renderings l) as [cs|e] eqn:E; [|done].
  apply all_renderings_ok in E as (_ & Hok & _).
  destruct (renderings_not_finite v Hf) as (e & He & _). specialize (Hok v Hv). by rewrite He in Hok.
Qed.

(** A judged text: every figure observed was finite. *)
Lemma annotate_finite allowed s x :
  annotate allowed s = Ok x → Forall (λ v, is_finite v = true) allowed.
Proof.
  unfold annotate, verify, check. intros (y & (cs & Hcs & _)%res_bind_ok & _)%res_bind_ok.
  apply Forall_forall. intros v Hv. apply not_false_iff_true. intros Hf.
  pose proof (all_renderings_not_finite v allowed Hv Hf) as Hno. by rewrite Hcs in Hno.
Qed.

Lemma verified_mono cs cs' x : cs ⊆ cs' → verified cs x = true → verified cs' x = true.
Proof. rewrite !verified_iff. intros Hs [?|(c & Hc & ?)]; [by left|right]. eauto. Qed.
End facts.

(** ** Claims *)

(** C36: The guard's verdict on a reply (FR-22).  When it returns: it flags exactly the replies
    with an unverified figure; an unflagged reply is passed on unchanged, a flagged one is
    kept whole with the banner after it; and the unverified figures are exactly the figures
    read from the reply that are neither bare nor within the tolerance of a rendering of an
    observed figure. *)
Theorem guard_verdict `{UnicodeData} allowed s s' flagged unv :
  annotate allowed s = Ok (s', flagged, unv) →
  (flagged = true ↔ unv ≠ []) ∧ s' = s +:+ (if flagged then banner unv else "") ∧
  ∀ x, x ∈ unv ↔ x ∈ extract_numbers s ∧ (∀ b, b ∈ ALLOWED_BARE → feq x b = false) ∧
    ∀ v c r, v ∈ allowed → renderings v = Ok c → r ∈ c → close_to REL_TOL x r = false.
Proof.
  unfold annotate, verify. intros ([ok u] & Hc & Hr)%res_bind_ok.
  pose proof Hc as (cs & Hcs & Hu & _)%check_ok.
  apply all_renderings_ok in Hcs as (H1 & _ & H3).
  assert (unv = u ∧ (flagged = true ↔ u ≠ []) ∧ s' = s +:+ (if flagged then banner u else ""))
    as (-> & ? & ?).
  { unfold check in Hc. apply res_bind_ok in Hc as (cs' & _ & [= <- <-]).
    destruct (bool_decide _) eqn:E; [apply bool_decide_eq_true in E|apply bool_decide_eq_false in E];
      injection Hr as <- <- <-; [|done].
    rewrite E. split_and!; [done|done|]. by rewrite str_app_nil_r. }
  split; [done|]. split; [done|]. intros x. rewrite Hu, list_elem_of_filter.
  rewrite <-(not_true_iff_false (verified cs x)), verified_iff.
  setoid_rewrite <-not_true_iff_false. split.
  - intros [Hn Hx]. split; [done|]. split; [naive_solver|].
    intros v c r Hv Hr' Hc' Hcl. apply Hn. right. exists r. split; [|done]. by apply (H1 v c).
  - intros (Hx & Hb & Hn). split; [|done]. intros [(b & ? & ?)|(c & Hc' & Hcl)]; [naive_solver|].
    destruct (H3 c Hc') as (v & c' & ? & ? & ?). by apply (Hn v c' c).
Qed.

Lemma guard_verdict_witness :
  ∃ s' unv, @annotate unicode_ascii [dec 123 (-4)] "about 1.23% and 55" = Ok (s', true, unv) ∧ unv ≠ [] ∧
    s' = "about 1.23% and 55" +:+ banner unv.
Proof.
  destruct (@annotate unicode_ascii [dec 123 (-4)] "about 1.23% and 55")
    as [[[s' f] unv]|e] eqn:E; [|vm_compute in E; discriminate].
  exists s', unv. pose proof (@guard_verdict unicode_ascii _ _ _ _ _ E) as (Hf & Hs & _).
  assert (f = true) as -> by (vm_compute in E; injection E as _ <- _; reflexivity).
  split; [reflexivity|]. split; [by apply Hf|exact Hs].
Defined.

(** The guard accepts honest prose, and stays content.  If every figure of a reply is a
    finite rendering of an observed figure, the reply passes unchanged; and a reply that
    passes still passes when more has been observed, as long as the renderings of what was
    observed can be computed. *)
Theorem guard_accepts_backed `{UnicodeData} allowed allowed' s :
  allowed ⊆ allowed' → is_ok (all_renderings allowed') = true →
  (∀ x, x ∈ extract_numbers s →
     is_finite x = true ∧ ∃ v c, v ∈ allowed ∧ renderings v = Ok c ∧ x ∈ c) ∨
  annotate allowed s = Ok (s, false, []) →
  annotate allowed' s = Ok (s, false, []).
Proof.
  intros Hsub Hok Hx. destruct (all_renderings allowed') as [cs'|e] eqn:E'; [|done].
  pose proof E' as (H1' & H2' & _)%all_renderings_ok.
  assert (∀ x, x ∈ extract_numbers s → verified cs' x = true) as Hall.
  { intros x Hin. destruct Hx as [Hx|Ha].
    - destruct (Hx x Hin) as [Hf (v & c & Hv & Hc & Hxc)]. apply verified_iff. right. exists x. split; [|by apply close_to_self]. by apply (H1' v c); auto.
    - unfold annotate, verify in Ha. apply res_bind_ok in Ha as ([[] u] & Hc & Hr); [|done].
      apply check_ok in Hc as (cs & Hcs & _ & Hv). apply (verified_mono cs); [|by apply Hv].
      apply all_renderings_ok in Hcs as (_ & _ & H3). intros r Hr'.
      destruct (H3 r Hr') as (v & c & Hv' & Hc & Hrc). by apply (H1' v c); auto. }
  unfold annotate, verify, check. rewrite E'. cbn -[extract_numbers].
  assert (filter (λ x, verified cs' x = false) (extract_numbers s) = []) as ->; [|done].
  apply elem_of_nil_inv. intros x [Hv Hin]%list_elem_of_filter. rewrite Hall in Hv; done.
Qed.

Lemma guard_accepts_backed_witness :
  @annotate unicode_ascii [dec 123 (-4); flit 7] "volatility is 1.23%"
    = Ok ("volatility is 1.23%"%string, false, []).
Proof.
  apply (@guard_accepts_backed unicode_ascii [dec 123 (-4)]); [set_solver|vm_compute; reflexivity|].
  right. vm_compute. reflexivity.
Defined.
