(* ===== verification/State.v ===== *)
(** * core/state.py: the position state machine (FR-16)

    The lifecycle of a monitored position, its transition table and the predicates over it. *)
From S2P Require Import Prelude.

Inductive PositionState :=
  HEALTHY | WATCH | ASSESSING | DECLINED | READY | SUBMITTED | RESTORED | REVERTED.

#[global] Instance PositionState_eq_dec : EqDecision PositionState.
Proof. solve_decision. Defined.

(** [PositionState] is a [str] enum: its value is its name. *)
Definition state_value (s : PositionState) : string :=
  match s with
  | HEALTHY => "HEALTHY" | WATCH => "WATCH" | ASSESSING => "ASSESSING"
  | DECLINED => "DECLINED" | READY => "READY" | SUBMITTED => "SUBMITTED"
  | RESTORED => "RESTORED" | REVERTED => "REVERTED"
  end.

Definition all_states : list PositionState :=
  [HEALTHY; WATCH; ASSESSING; DECLINED; READY; SUBMITTED; RESTORED; REVERTED].

Definition VALID_TRANSITIONS (src : PositionState) : list PositionState :=
  match src with
  | HEALTHY => [WATCH]
  | WATCH => [HEALTHY; ASSESSING]
  | ASSESSING => [DECLINED; WATCH; READY]
  | DECLINED => [WATCH]
  | READY => [SUBMITTED; WATCH]
  | SUBMITTED => [RESTORED; REVERTED]
  | RESTORED => [HEALTHY]
  | REVERTED => [WATCH]
  end.

Definition IN_FLIGHT_STATES : list PositionState := [READY; SUBMITTED].

Definition can_transition (src dst : PositionState) : bool :=
  if decide (src = dst) then true else bool_decide (dst ∈ VALID_TRANSITIONS src).

Definition is_terminal_outcome (s : PositionState) : bool :=
  bool_decide (s ∈ [RESTORED; REVERTED]).

(** The state graph as a step relation: one legal edge, no self-loop. *)
Definition legal_edge (s t : PositionState) : Prop := t ∈ VALID_TRANSITIONS s.

#[global] Instance legal_edge_dec s t : Decision (legal_edge s t).
Proof. unfold legal_edge. apply _. Defined.

Lemma can_transition_spec s t : can_transition s t = true ↔ s = t ∨ legal_edge s t.
Proof.
  unfold can_transition. destruct (decide (s = t)) as [->|]; [naive_solver|].
  rewrite bool_decide_eq_true. naive_solver.
Qed.

(** Reachability along legal edges. *)
Inductive reaches : PositionState → PositionState → Prop :=
  | reaches_refl s : reaches s s
  | reaches_step s t u : legal_edge s t → reaches t u → reaches s u.

Lemma reaches_trans s t u : reaches s t → reaches t u → reaches s u.
Proof. induction 1; eauto using reaches. Qed.

Lemma reaches_edge s t : legal_edge s t → reaches s t.
Proof. intros. eapply reaches_step; [done|constructor]. Qed.

Ltac edge := apply reaches_edge; unfold legal_edge; simpl; set_solver.
Ltac via t := apply (reaches_trans _ t); [first [done | edge]|first [done | edge]].

Lemma reaches_HEALTHY s : reaches s HEALTHY.
Proof.
  assert (reaches WATCH HEALTHY) by edge.
  assert (reaches RESTORED HEALTHY) by edge.
  destruct s; try done; try constructor; solve [via WATCH | via RESTORED].
Qed.

Lemma reaches_from_HEALTHY s : reaches HEALTHY s.
Proof.
  assert (reaches HEALTHY WATCH) by edge.
  assert (reaches HEALTHY ASSESSING) by via WATCH.
  assert (reaches HEALTHY READY) by via ASSESSING.
  assert (reaches HEALTHY SUBMITTED) by via READY.
  destruct s; try done; try constructor; solve [via ASSESSING | via SUBMITTED].
Qed.

(** Safety invariant of the graph: the only way into a receipt outcome is from [SUBMITTED],
    and the only way into [SUBMITTED] is from [READY], itself only reached from [ASSESSING]. *)
Lemma edge_into_outcome s t :
  legal_edge s t → is_terminal_outcome t = true → s = SUBMITTED.
Proof. unfold legal_edge. destruct s, t; vm_compute; intros; try done; set_solver. Qed.

(** ** Claims *)

(** A run of the state machine: consecutive states are joined by legal edges. *)
Fixpoint legal_path (l : list PositionState) : Prop :=
  match l with
  | s :: (t :: _) as l' => legal_edge s t ∧ legal_path l'
  | _ => True
  end.

(** The four last states of a run that ends in a receipt outcome. *)
Definition outcome_suffix (t : PositionState) : list PositionState := [ASSESSING; READY; SUBMITTED; t].

Lemma legal_path_snoc l s t : legal_path (l ++ [s; t]) ↔ legal_path (l ++ [s]) ∧ legal_edge s t.
Proof.
  induction l as [|a [|b l] IH]; [simpl; tauto|simpl; tauto|].
  change ((a :: b :: l) ++ [s; t]) with (a :: b :: (l ++ [s; t])).
  change ((a :: b :: l) ++ [s]) with (a :: b :: (l ++ [s])).
  change (legal_path (a :: b :: ?k)) with (legal_edge a b ∧ legal_path (b :: k)).
  change (b :: l ++ [s; t]) with ((b :: l) ++ [s; t]).
  change (b :: l ++ [s]) with ((b :: l) ++ [s]). tauto.
Qed.

(** The only predecessor of a state in the protection part of the graph. *)
Lemma edge_into s t :
  legal_edge s t →
  (is_terminal_outcome t = true → s = SUBMITTED) ∧ (t = SUBMITTED → s = READY) ∧
  (t = READY → s = ASSESSING).
Proof.
  unfold legal_edge. intros H. destruct s, t; simpl in H; split_and!; intros; simplify_eq/=;
    first [done | exfalso; set_solver].
Qed.

(** Safety and liveness of the lifecycle graph: a run from HEALTHY that ends in a receipt
    outcome (RESTORED or REVERTED) went through ASSESSING, READY and SUBMITTED, in that order,
    immediately before; and every state is reachable from HEALTHY and can get back to it. *)
Theorem lifecycle_outcomes l t :
  legal_path (HEALTHY :: l ++ [t]) → is_terminal_outcome t = true →
  (∃ l', HEALTHY :: l ++ [t] = l' ++ outcome_suffix t) ∧
  ∀ s, reaches HEALTHY s ∧ reaches s HEALTHY.
Proof.
  intros Hl Ht. split; [|auto using reaches_HEALTHY, reaches_from_HEALTHY].
  destruct l as [|p3 l _] using rev_ind; [by pose proof (proj1 (edge_into _ _ (proj1 Hl)) Ht)|].
  rewrite <-app_assoc in Hl. apply (legal_path_snoc (HEALTHY :: l)) in Hl as [Hl H3].
  pose proof (proj1 (edge_into _ _ H3) Ht) as ->.
  destruct l as [|p2 l _] using rev_ind;
    [by pose proof (proj1 (proj2 (edge_into _ _ (proj1 Hl))) eq_refl)|].
  simpl in Hl. rewrite <-app_assoc in Hl. apply (legal_path_snoc (HEALTHY :: l)) in Hl as [Hl H2].
  pose proof (proj1 (proj2 (edge_into _ _ H2)) eq_refl) as ->.
  destruct l as [|p1 l _] using rev_ind;
    [by pose proof (proj2 (proj2 (edge_into _ _ (proj1 Hl))) eq_refl)|].
  simpl in Hl. rewrite <-app_assoc in Hl. apply (legal_path_snoc (HEALTHY :: l)) in Hl as [Hl H1].
  pose proof (proj2 (proj2 (edge_into _ _ H1)) eq_refl) as ->.
  exists (HEALTHY :: l). by rewrite <-!app_assoc.
Qed.

Lemma lifecycle_outcomes_witness :
  ∃ l', HEALTHY :: [WATCH; ASSESSING; READY; SUBMITTED] ++ [RESTORED] = l' ++ outcome_suffix RESTORED.
Proof.
  apply (lifecycle_outcomes [WATCH; ASSESSING; READY; SUBMITTED] RESTORED); [|reflexivity].
  simpl. unfold legal_edge. simpl. set_solver.
Defined.
