(* ===== verification/InFlight.v ===== *)
(** * core/inflight.py: per-borrower lock and cooldown (FR-16)

    [InFlightRegistry] as a record; the clock is read by the caller ([self._clock()]), so
    each operation takes the reading it makes as an argument. *)
From S2P Require Import Prelude PyFloat.

Record InFlightRegistry := {
  if_cooldown : f64;
  if_locked : dict string f64;          (* borrower -> lock acquired time *)
  if_cooldown_until : dict string f64;  (* borrower -> earliest re-arm time *)
}.

Definition inflight_init (cooldown_seconds : f64) : InFlightRegistry :=
  {| if_cooldown := cooldown_seconds; if_locked := []; if_cooldown_until := [] |}.

(** The [cooldown_seconds] setter clamps with [max(0.0, value)]. *)
Definition set_cooldown_seconds (r : InFlightRegistry) (value : f64) : InFlightRegistry :=
  {| if_cooldown := fmax fzero value; if_locked := if_locked r;
     if_cooldown_until := if_cooldown_until r |}.

Definition is_locked (r : InFlightRegistry) (borrower : string) : bool :=
  din (if_locked r) borrower.

(** The clock is read only when there is a cooldown entry. *)
Definition in_cooldown (r : InFlightRegistry) (borrower : string) (now : f64) : bool :=
  match dget (if_cooldown_until r) borrower with
  | Some until => flt now until
  | None => false
  end.

Definition can_start (r : InFlightRegistry) (borrower : string) (now : f64) : bool :=
  negb (is_locked r borrower) && negb (in_cooldown r borrower now).

(** [self._locked[borrower] = self._clock()] *)
Definition lock_at (r : InFlightRegistry) (borrower : string) (now : f64) : InFlightRegistry :=
  {| if_cooldown := if_cooldown r; if_locked := dset (if_locked r) borrower now;
     if_cooldown_until := if_cooldown_until r |}.

(** [acquire] reads the clock once in [can_start] and once more for the lock's time. *)
Definition acquire (r : InFlightRegistry) (borrower : string) (now now' : f64)
  : bool * InFlightRegistry :=
  if negb (can_start r borrower now) then (false, r) else (true, lock_at r borrower now').

Definition release (r : InFlightRegistry) (borrower : string) (now : f64) : InFlightRegistry :=
  {| if_cooldown := if_cooldown r;
     if_locked := dpop (if_locked r) borrower;
     if_cooldown_until := dset (if_cooldown_until r) borrower (fadd now (if_cooldown r)) |}.

Definition locked_borrowers (r : InFlightRegistry) : list string := dkeys (if_locked r).

(** ** Invariant *)
Definition inflight_wf (r : InFlightRegistry) : Prop :=
  dict_wf (if_locked r) ∧ dict_wf (if_cooldown_until r).

Lemma inflight_init_wf c : inflight_wf (inflight_init c).
Proof. split; apply dict_wf_nil. Qed.

Lemma acquire_wf r b t t' : inflight_wf r → inflight_wf (acquire r b t t').2.
Proof. intros [??]. unfold acquire. destruct (negb _); split; simpl; auto with finax. Qed.

Lemma lock_at_wf r b t : inflight_wf r → inflight_wf (lock_at r b t).
Proof. intros [??]. split; simpl; auto with finax. Qed.

Lemma release_wf r b t : inflight_wf r → inflight_wf (release r b t).
Proof. intros [??]. split; simpl; auto with finax. Qed.

Lemma set_cooldown_wf r v : inflight_wf r → inflight_wf (set_cooldown_seconds r v).
Proof. done. Qed.

(** The abstract view of the registry: the set of borrowers with a rescue in flight. *)
Definition lock_set (r : InFlightRegistry) : gset string := list_to_set (locked_borrowers r).

Lemma elem_of_lock_set r b : b ∈ lock_set r ↔ is_locked r b = true.
Proof.
  unfold lock_set, locked_borrowers, is_locked.
  by rewrite elem_of_list_to_set, elem_of_dkeys, din_spec.
Qed.

Lemma lock_set_lock_at r b t : lock_set (lock_at r b t) = {[b]} ∪ lock_set r.
Proof.
  apply set_eq. intros x. rewrite elem_of_union, elem_of_singleton, !elem_of_lock_set.
  unfold is_locked; simpl. rewrite !din_spec, dget_dset.
  destruct (decide (x = b)) as [->|]; naive_solver.
Qed.

Lemma can_start_unlocked r b t : can_start r b t = true → b ∉ lock_set r.
Proof. rewrite elem_of_lock_set. unfold can_start. by destruct (is_locked r b). Qed.

Lemma acquire_true r b t t' r' :
  acquire r b t t' = (true, r') → b ∉ lock_set r ∧ lock_set r' = {[b]} ∪ lock_set r.
Proof.
  unfold acquire. destruct (can_start r b t) eqn:E; intros; simplify_eq/=.
  split; [by eapply can_start_unlocked|apply lock_set_lock_at].
Qed.

Lemma acquire_false r b t t' r' : acquire r b t t' = (false, r') → r' = r.
Proof. unfold acquire. destruct (negb _); naive_solver. Qed.

Lemma lock_set_release r b t : lock_set (release r b t) = lock_set r ∖ {[b]}.
Proof.
  apply set_eq. intros x. rewrite elem_of_difference, elem_of_singleton, !elem_of_lock_set.
  unfold is_locked; simpl. rewrite !din_spec, dget_dpop.
  destruct (decide (x = b)) as [->|]; [|naive_solver].
  split; [by intros []|naive_solver].
Qed.

Lemma acquire_iff r b t t' : (acquire r b t t').1 = can_start r b t.
Proof. unfold acquire. by destruct (can_start r b t). Qed.

Lemma release_can_start r b t now :
  can_start (release r b t) b now = negb (flt now (fadd t (if_cooldown r))).
Proof.
  unfold can_start, is_locked, in_cooldown, din; simpl.
  by rewrite dget_dpop_eq, dget_dset_eq.
Qed.

Lemma release_other r b b' t now :
  b' ≠ b → can_start (release r b t) b' now = can_start r b' now.
Proof.
  intros. unfold can_start, is_locked, in_cooldown, din; simpl.
  by rewrite dget_dpop_ne, dget_dset_ne by done.
Qed.

Lemma can_start_mono r b t t' :
  fle t t' = true → can_start r b t = true → can_start r b t' = true.
Proof.
  unfold can_start, in_cooldown. intros Ht [H1 H2]%andb_true_iff. rewrite H1. simpl.
  destruct (dget _ b) as [u|]; [|done]. apply negb_true_iff in H2. apply negb_true_iff.
  apply not_true_is_false. intros H. by rewrite (fle_lt_trans _ _ _ Ht H) in H2.
Qed.

#[export] Hint Resolve inflight_init_wf acquire_wf lock_at_wf release_wf set_cooldown_wf : finax.

(** ** Claims *)

(** The calls that reach the registry, each with the clock readings it makes. *)
Inductive inflight_op :=
  | OpAcquire (b : string) (now now' : f64)
  | OpRelease (b : string) (now : f64)
  | OpCooldown (value : f64).

Definition inflight_step (r : InFlightRegistry) (op : inflight_op) : InFlightRegistry :=
  match op with
  | OpAcquire b t t' => (acquire r b t t').2
  | OpRelease b t => release r b t
  | OpCooldown v => set_cooldown_seconds r v
  end.

Definition inflight_run (r : InFlightRegistry) (ops : list inflight_op) : InFlightRegistry :=
  foldl inflight_step r ops.

Definition releases (b : string) (op : inflight_op) : bool :=
  match op with OpRelease b' _ => bool_decide (b' = b) | _ => false end.

Lemma is_locked_step r op b :
  releases b op = false → is_locked r b = true → is_locked (inflight_step r op) b = true.
Proof.
  destruct op as [b' t t'|b' t|v]; simpl; intros Hr Hl; [| |done].
  - unfold acquire. destruct (negb _); simpl; [done|]. unfold is_locked in *; simpl.
    rewrite din_spec, dget_dset in *. destruct (decide _); [by eexists|done].
  - apply bool_decide_eq_false in Hr. unfold is_locked in *; simpl.
    rewrite din_spec, dget_dpop in *. by rewrite decide_False by congruence.
Qed.

Lemma cooldown_step r op b :
  releases b op = false →
  dget (if_cooldown_until (inflight_step r op)) b = dget (if_cooldown_until r) b.
Proof.
  destruct op as [b' t t'|b' t|v]; simpl; intros Hr; [| |done].
  - unfold acquire. by destruct (negb _).
  - apply bool_decide_eq_false in Hr. by rewrite dget_dset_ne by congruence.
Qed.

Lemma inflight_run_frame r ops b :
  Forall (λ op, releases b op = false) ops →
  (is_locked r b = true → is_locked (inflight_run r ops) b = true) ∧
  dget (if_cooldown_until (inflight_run r ops)) b = dget (if_cooldown_until r) b.
Proof.
  intros Hops. unfold inflight_run. revert r.
  induction Hops as [|op ops Hop _ IH]; intros r; simpl; [done|].
  destruct (IH (inflight_step r op)) as [IH1 IH2]. rewrite IH2.
  split; [|by apply cooldown_step]. intros. by apply IH1, is_locked_step.
Qed.

(** C15: FR-16 for one process: over any sequence of registry calls, whatever the clock says,
    between two successful acquisitions for the same borrower there is a release for it; and
    an acquisition after a release fails as long as the clock reads less than the release time
    plus the cool-down in force at the release, even if the cool-down setting changes
    meanwhile. *)
Theorem inflight_exclusion r ops b t t' :
  Forall (λ op, releases b op = false) ops →
  (∀ u u' r', acquire r b u u' = (true, r') → (acquire (inflight_run r' ops) b t t').1 = false) ∧
  (∀ u, flt t (fadd u (if_cooldown r)) = true →
     (acquire (inflight_run (release r b u) ops) b t t').1 = false).
Proof.
  intros Hops. split.
  - intros u u' r' Ha. rewrite acquire_iff. unfold can_start.
    destruct (inflight_run_frame r' ops b Hops) as [-> _]; [done|].
    apply elem_of_lock_set. apply acquire_true in Ha as [_ ->]. set_solver.
  - intros u Hu. rewrite acquire_iff. unfold can_start, in_cooldown.
    destruct (inflight_run_frame (release r b u) ops b Hops) as [_ ->]. simpl.
    rewrite dget_dset_eq, Hu. apply andb_false_r.
Qed.

Lemma inflight_exclusion_witness :
  let r := inflight_init (flit 30) in
  (acquire (inflight_run (release r "0xa" (flit 100)) [OpCooldown (flit 0); OpRelease "0xb" (flit 101)])
     "0xa" (flit 129) (flit 129)).1 = false.
Proof.
  apply (inflight_exclusion (inflight_init (flit 30))); [by repeat constructor|vm_compute; reflexivity].
Defined.
