(* ===== verification/Breaker.v ===== *)
(** * core/breaker.py: the circuit breaker (FR-17) *)
From S2P Require Import Prelude.

Inductive TripReason :=
  CONSECUTIVE_FAILURES | STALE_ORACLE | RPC_INCONSISTENT | INVALID_QUOTE | GAS_SPIKE | MANUAL.

#[global] Instance TripReason_eq_dec : EqDecision TripReason.
Proof. solve_decision. Defined.

Definition trip_value (r : TripReason) : string :=
  match r with
  | CONSECUTIVE_FAILURES => "consecutive_failures"
  | STALE_ORACLE => "stale_oracle"
  | RPC_INCONSISTENT => "rpc_inconsistent"
  | INVALID_QUOTE => "invalid_quote"
  | GAS_SPIKE => "gas_spike"
  | MANUAL => "manual"
  end.

Record CircuitBreaker := {
  br_max : Z;
  br_consecutive : Z;
  br_paused : bool;
  br_reason : option TripReason;
}.

Definition max_failures_error : exn := Exn ValueError "max_consecutive_failures must be >= 1".

Definition breaker_init (max_consecutive_failures : Z) : res CircuitBreaker :=
  if max_consecutive_failures <? 1 then Err max_failures_error
  else Ok {| br_max := max_consecutive_failures; br_consecutive := 0;
             br_paused := false; br_reason := None |}.

Definition set_max_consecutive_failures (b : CircuitBreaker) (value : Z) : res CircuitBreaker :=
  if value <? 1 then Err max_failures_error
  else Ok {| br_max := value; br_consecutive := br_consecutive b;
             br_paused := br_paused b; br_reason := br_reason b |}.

Definition trip_reason (b : CircuitBreaker) : option string := trip_value <$> br_reason b.

Definition allow (b : CircuitBreaker) : bool := negb (br_paused b).

Definition record_success (b : CircuitBreaker) : CircuitBreaker :=
  {| br_max := br_max b; br_consecutive := 0; br_paused := br_paused b; br_reason := br_reason b |}.

(** [_trip] *)
Definition trip (b : CircuitBreaker) (reason : TripReason) : CircuitBreaker :=
  {| br_max := br_max b; br_consecutive := br_consecutive b;
     br_paused := true; br_reason := Some reason |}.

Definition record_failure (b : CircuitBreaker) : CircuitBreaker :=
  let b := {| br_max := br_max b; br_consecutive := br_consecutive b + 1;
              br_paused := br_paused b; br_reason := br_reason b |} in
  if (br_max b <=? br_consecutive b) && negb (br_paused b) then trip b CONSECUTIVE_FAILURES else b.

Definition reset (b : CircuitBreaker) : CircuitBreaker :=
  {| br_max := br_max b; br_consecutive := 0; br_paused := false; br_reason := None |}.

(** ** Invariant: the threshold is positive, the streak is not negative, and a reason is
    recorded exactly while the breaker is paused. *)
Definition breaker_wf (b : CircuitBreaker) : Prop :=
  1 ≤ br_max b ∧ 0 ≤ br_consecutive b ∧ (br_paused b = true ↔ is_Some (br_reason b)).

(** The events that reach the breaker, as the step relation of its state machine. *)
Inductive breaker_event := Success | Failure | Trip (r : TripReason) | SetMax (v : Z) | Reset.

Definition breaker_step (b : CircuitBreaker) (e : breaker_event) : CircuitBreaker :=
  match e with
  | Success => record_success b
  | Failure => record_failure b
  | Trip r => trip b r
  | SetMax v => match set_max_consecutive_failures b v with Ok b' => b' | Err _ => b end
  | Reset => reset b
  end.

Definition breaker_run (b : CircuitBreaker) (es : list breaker_event) : CircuitBreaker :=
  foldl breaker_step b es.

Lemma breaker_init_wf n b : breaker_init n = Ok b → breaker_wf b.
Proof.
  unfold breaker_init. bsplit; intros; simplify_eq/=. split_and!; simpl; try lia.
  split; [done|by intros []].
Qed.

Lemma breaker_step_wf b e : breaker_wf b → breaker_wf (breaker_step b e).
Proof.
  intros (?&?&?). destruct e; simpl; unfold record_failure, set_max_consecutive_failures; simpl.
  - split_and!; simpl; lia || done.
  - destruct (_ && _); split_and!; simpl; try lia; naive_solver.
  - split_and!; simpl; try lia; naive_solver.
  - bsplit; split_and!; simpl; lia || done.
  - split_and!; simpl; try lia. split; [done|by intros []].
Qed.

Lemma breaker_run_wf b es : breaker_wf b → breaker_wf (breaker_run b es).
Proof. revert b. induction es; simpl; auto using breaker_step_wf. Qed.

(** Nothing but [Reset] closes a tripped breaker. *)
Lemma breaker_step_paused b e : br_paused b = true → e ≠ Reset → br_paused (breaker_step b e) = true.
Proof.
  intros Hp He. destruct e; simpl; try done.
  - unfold record_failure; simpl. by destruct (_ && _).
  - unfold set_max_consecutive_failures. by destruct (_ <? _).
Qed.

Lemma breaker_run_paused b es :
  br_paused b = true → Reset ∉ es → br_paused (breaker_run b es) = true.
Proof.
  revert b. induction es as [|e es IH]; simpl; [done|]. intros b Hp Hn.
  apply not_elem_of_cons in Hn as [??]. apply IH; [|done]. by apply breaker_step_paused.
Qed.

(** A run of failures is counted one by one. *)
Lemma breaker_run_failures b n :
  br_consecutive (breaker_run b (replicate n Failure)) = br_consecutive b + Z.of_nat n ∧
  br_max (breaker_run b (replicate n Failure)) = br_max b.
Proof.
  revert b. induction n as [|n IH]; intros b; cbn [replicate]; [simpl; lia|].
  cbn [breaker_run foldl]. destruct (IH (record_failure b)) as [IH1 IH2].
  unfold breaker_run in *. simpl. rewrite IH1, IH2.
  unfold record_failure; simpl. destruct (_ && _); simpl; lia.
Qed.

Lemma breaker_failures_trip b n :
  br_paused b = false →
  br_paused (breaker_run b (replicate n Failure)) =
    (0 <? Z.of_nat n) && (br_max b <=? br_consecutive b + Z.of_nat n).
Proof.
  intros Hp. induction n as [|n IH]; [done|].
  replace (replicate (S n) Failure) with (replicate n Failure ++ [Failure])
    by (symmetry; apply replicate_S_end).
  unfold breaker_run in *. rewrite foldl_app. cbn [foldl breaker_step].
  destruct (breaker_run_failures b n) as [H1 H2]. unfold breaker_run in *.
  unfold record_failure; simpl. rewrite H1, H2, IH.
  bsplit; simpl; try lia; destruct (decide (n = 0%nat)); subst; simpl; try lia; try done.
Qed.

#[export] Hint Resolve breaker_step_wf breaker_run_wf : finax.

(** ** Claims *)

(** Outcomes of submissions, the only events the service reports on its own. *)
Definition outcomes (es : list breaker_event) : Prop :=
  Forall (λ e, e = Success ∨ e = Failure) es.

(** A run of [n] failures in a row somewhere in the history. *)
Definition has_streak (n : nat) (es : list breaker_event) : Prop :=
  ∃ l1 l2, es = l1 ++ replicate n Failure ++ l2.

Lemma outcomes_max b es : outcomes es → br_max (breaker_run b es) = br_max b.
Proof.
  unfold outcomes, breaker_run. intros Hes. revert b.
  induction Hes as [|e es He _ IH]; intros b; simpl; [done|]. rewrite IH.
  destruct He as [->| ->]; simpl; [done|]. unfold record_failure; simpl. by destruct (_ && _).
Qed.

(** While it is open, the counter is the length of the trailing run of failures. *)
Lemma streak_or_open b es :
  breaker_wf b → br_paused b = false → br_consecutive b = 0 → outcomes es →
  has_streak (Z.to_nat (br_max b)) es ∨
  br_paused (breaker_run b es) = false ∧
  0 ≤ br_consecutive (breaker_run b es) < br_max b ∧
  ∃ l, es = l ++ replicate (Z.to_nat (br_consecutive (breaker_run b es))) Failure.
Proof.
  intros (Hm & _ & _) Hp H0. induction es as [|e es IH] using rev_ind; intros Hes.
  - right. simpl. split_and!; [done|lia|lia|]. exists []. by rewrite H0.
  - apply Forall_app in Hes as [Hes He]. apply Forall_cons in He as [He _].
    destruct (IH Hes) as [(l1 & l2 & ->)|(Hop & Hc & l & Hl)].
    { left. exists l1, (l2 ++ [e]). by rewrite <-!app_assoc. }
    pose proof (outcomes_max b es Hes) as Hmax. unfold breaker_run in *. rewrite foldl_app.
    cbn [foldl]. set (b' := foldl breaker_step b es) in *. destruct He as [-> | ->].
    + right. simpl. split_and!; [done|lia|lia|]. exists (es ++ [Success]). by rewrite app_nil_r.
    + simpl. unfold record_failure; simpl. rewrite Hop, Hmax.
      assert (es ++ [Failure] = l ++ replicate (Z.to_nat (br_consecutive b' + 1)) Failure) as Heq.
      { rewrite Hl at 1. replace (Z.to_nat (br_consecutive b' + 1))
          with (S (Z.to_nat (br_consecutive b'))) by lia.
        by rewrite replicate_S_end, <-app_assoc. }
      destruct (Z.leb_spec (br_max b) (br_consecutive b' + 1)); simpl.
      * left. exists l, []. rewrite Heq, app_nil_r. do 2 f_equal. lia.
      * right. split_and!; [done|lia|lia|]. by exists l.
Qed.

(** C16: FR-17: starting open with no failures counted, after any history of submission
    outcomes the breaker is paused exactly when the history has [max_consecutive_failures]
    failures in a row somewhere; and once paused, no event but a manual reset re-opens it. *)
Theorem breaker_trips_iff b es :
  breaker_wf b → br_paused b = false → br_consecutive b = 0 → outcomes es →
  (allow (breaker_run b es) = false ↔ has_streak (Z.to_nat (br_max b)) es) ∧
  ∀ es', allow (breaker_run b es) = false → Reset ∉ es' →
         allow (breaker_run b (es ++ es')) = false.
Proof.
  intros Hwf Hp H0 Hes. unfold allow. rewrite !negb_false_iff. split.
  - split.
    + intros Hpa. destruct (streak_or_open b es) as [|[Hop _]]; try done. congruence.
    + intros (l1 & l2 & ->). apply Forall_app in Hes as [Hes1 [Hes2 Hes3]%Forall_app].
      pose proof (breaker_run_wf b l1 Hwf) as (Hm & Hc & _).
      pose proof (outcomes_max b l1 Hes1) as Hmax. unfold breaker_run in *.
      rewrite !foldl_app. apply breaker_run_paused.
      * destruct (br_paused (foldl breaker_step b l1)) eqn:E.
        -- apply breaker_run_paused; [done|]. intros [? _]%elem_of_replicate. done.
        -- pose proof (breaker_failures_trip _ (Z.to_nat (br_max b)) E) as Ht.
           unfold breaker_run in Ht. rewrite Ht, Hmax. rewrite Hmax in Hm.
           apply andb_true_intro. rewrite Z.ltb_lt, Z.leb_le. lia.
      * intros Hin. unfold outcomes in Hes3. rewrite Forall_forall in Hes3.
        by destruct (Hes3 _ Hin).
  - intros es' Hpa Hn. rewrite negb_false_iff in *. unfold breaker_run in *. rewrite foldl_app.
    by apply breaker_run_paused.
Qed.

Lemma breaker_trips_iff_witness :
  let b := {| br_max := 2; br_consecutive := 0; br_paused := false; br_reason := None |} in
  allow (breaker_run b [Failure; Success; Failure; Failure]) = false.
Proof.
  intros b. destruct (breaker_trips_iff b [Failure; Success; Failure; Failure]) as [[_ H] _].
  - split_and!; simpl; [lia|lia|]. split; [discriminate|]. intros [? ?]; discriminate.
  - reflexivity.
  - reflexivity.
  - unfold outcomes. repeat (constructor; [auto|]). constructor.
  - apply H. exists [Failure; Success], []. reflexivity.
Defined.
