(* ===== verification/Observability.v ===== *)
(** * observability.py: logging setup and decision counters (NFR-5) *)
From S2P Require Import Prelude.

(** The root logger: the format of each handler, and its level. *)
Record RootLogger := { rl_handlers : list string; rl_level : Z }.

(** [configure_logging]: it leaves a logger that has a handler alone. *)
Definition configure_logging (level : Z) (root : RootLogger) : RootLogger :=
  match rl_handlers root with
  | [] => {| rl_handlers := ["%(asctime)s %(levelname)s %(name)s :: %(message)s"%string];
             rl_level := level |}
  | _ => root
  end.

Lemma configure_logging_once l1 l2 root :
  configure_logging l2 (configure_logging l1 root) = configure_logging l1 root.
Proof. unfold configure_logging. by destruct (rl_handlers root) eqn:E; rewrite ?E. Qed.

(** [defaultdict(int)] under a lock; no [await] happens while it is held. *)
Definition Counters : Type := dict string Z.

Definition counter_get (c : Counters) (name : string) : Z := default 0 (dget c name).

(** [inc(name, by)] *)
Definition counter_inc (c : Counters) (name : string) (by_ : Z) : Counters :=
  dset c name (counter_get c name + by_).

(** [get(name)] on a [defaultdict] inserts the missing key. *)
Definition counter_read (c : Counters) (name : string) : Z * Counters :=
  (counter_get c name, dsetdefault c name 0).

Definition counter_snapshot (c : Counters) : dict string Z := c.

Definition ASSESSED := "assessed".
Definition C_DECLINED := "declined".
Definition SIMULATED_OK := "simulated_ok".
Definition SIMULATED_FAIL := "simulated_fail".
Definition C_SUBMITTED := "submitted".
Definition C_RESTORED := "restored".
Definition C_REVERTED := "reverted".
Definition DOUBLE_SUBMIT_BLOCKED := "double_submit_blocked".
Definition BREAKER_TRIPPED := "breaker_tripped".
Definition BREAKER_BLOCKED := "breaker_blocked".
Definition ERRORS := "errors".

Lemma counter_get_inc c n m k :
  counter_get (counter_inc c n k) m = counter_get c m + (if decide (m = n) then k else 0).
Proof.
  unfold counter_inc, counter_get at 1. rewrite dget_dset.
  destruct (decide (m = n)) as [->|]; simpl; [done|]. unfold counter_get. lia.
Qed.

Lemma counter_read_same c n m : counter_get (counter_read c n).2 m = counter_get c m.
Proof.
  unfold counter_read, counter_get; simpl. rewrite dget_dsetdefault.
  destruct (decide (m = n)) as [->|]; [|done]. by destruct (dget c n).
Qed.

Lemma counter_inc_wf c n k : dict_wf c → dict_wf (counter_inc c n k).
Proof. unfold counter_inc. auto with finax. Qed.

(** Counters never go down when every increment is non-negative. *)
Lemma counter_inc_mono c n k m : 0 ≤ k → counter_get c m ≤ counter_get (counter_inc c n k) m.
Proof. intros. rewrite counter_get_inc. case_decide; lia. Qed.

#[export] Hint Resolve counter_inc_wf : finax.
