(* ===== verification/Config.v ===== *)
(** * config/arbitrum.py and config/settings.py: constants, address book, settings

    [eth_utils.to_checksum_address] is third-party code: a parameter, with the documented
    facts the source relies on as [EthUtilsLaws]. *)
From S2P Require Import Prelude PyFloat.

(** [to_checksum_address] returns the EIP-55 form of an address or raises [ValueError]. *)
Class EthUtils := { to_checksum_address : string → res string }.

Class EthUtilsLaws (U : EthUtils) := {
  checksum_idemp a c : to_checksum_address a = Ok c → to_checksum_address c = Ok c;
  checksum_error a e : to_checksum_address a = Err e → is_ValueError e = true;
  checksum_case a c : to_checksum_address a = Ok c → str_lower c = str_lower a;
}.

(** ** Scaling and economic constants (arbitrum.py) *)
Definition WAD : Z := 1000000000000000000.
Definition RAY : Z := 1000000000000000000000000000.
Definition BPS : Z := 10000.
Definition BPS_TO_WAD : Z := 100000000000000.
Definition AAVE_BASE_CURRENCY_DECIMALS : Z := 8.
Definition VARIABLE_RATE_MODE : Z := 2.
Definition FLASH_PREMIUM_BPS : Z := 5.
Definition DEFAULT_BUNDLED_COST_BPS : Z := 100.
Definition HF_LIQUIDATION_BOUNDARY : f64 := flit 1.
Definition DEFAULT_GAS_COST_BASE : Z := 50000000.
Definition DEFAULT_FEE_TIER : Z := 500.

(** ** Settings (settings.py), the fields the modelled code reads *)
Record Settings := {
  chain_id_setting : Z;
  arbitrum_rpc_url : string;
  arbitrum_rpc_url_fallback : string;
  rpc_timeout_seconds : f64;
  rpc_max_retries : Z;
  poll_interval_seconds : Z;
  vault_address : string;
  pool_addresses_provider : string;
  swap_router : string;
  quoter_v2 : string;
  chainlink_eth_usd : string;
  chainlink_usdc_usd : string;
  oracle_max_staleness_seconds : Z;
  keeper_private_key : string;
  breaker_max_consecutive_failures : Z;
  inflight_cooldown_seconds : Z;
  max_simulation_bumps : Z;
  autonomous_enabled_setting : bool;
  worker_enabled : bool;
  demo_mode : bool;
  agent_enabled : bool;
  gemini_api_key : string;
  agent_model : string;
  agent_timeout_seconds : f64;
  agent_max_tool_loops : Z;
  agent_db_path : string;
  agent_chat_history_turns : Z;
  agent_max_repay_fraction : f64;
  agent_max_cost_bps : Z;
  agent_min_hf_gap_bps : Z;
  agent_proposal_ttl_seconds : Z;
  agent_max_proposals_per_hour : Z;
  agent_max_proposals_global_per_hour : Z;
}.

(** The defaults of [Settings] when no environment variable is set. *)
Definition default_settings : Settings := {|
  chain_id_setting := 42161;
  arbitrum_rpc_url := "";
  arbitrum_rpc_url_fallback := "";
  rpc_timeout_seconds := flit 20;
  rpc_max_retries := 3;
  poll_interval_seconds := 12;
  vault_address := "";
  pool_addresses_provider := "0xa97684ead0e402dC232d5A977953DF7ECBaB3CDb";
  swap_router := "0x68b3465833fb72A70ecDF485E0e4C7bD8665Fc45";
  quoter_v2 := "0x61fFE014bA17989E743c5F6cB21bF9697530B21e";
  chainlink_eth_usd := "0x639Fe6ab55C921f74e7fac1ee960C0B6293ba612";
  chainlink_usdc_usd := "0x50834F3163758fcC1Df9973b6e91f0F0F0434aD3";
  oracle_max_staleness_seconds := 3600;
  keeper_private_key := "";
  breaker_max_consecutive_failures := 3;
  inflight_cooldown_seconds := 30;
  max_simulation_bumps := 3;
  autonomous_enabled_setting := true;
  worker_enabled := true;
  demo_mode := false;
  agent_enabled := false;
  gemini_api_key := "";
  agent_model := "gemini-2.5-flash";
  agent_timeout_seconds := flit 30;
  agent_max_tool_loops := 6;
  agent_db_path := ".agent/finax_agent.db";
  agent_chat_history_turns := 20;
  agent_max_repay_fraction := fhalf;
  agent_max_cost_bps := 200;
  agent_min_hf_gap_bps := 25;
  agent_proposal_ttl_seconds := 900;
  agent_max_proposals_per_hour := 3;
  agent_max_proposals_global_per_hour := 12;
|}.

Section address_book.
Context `{EthUtils}.

(** A module-level constant: an address that does not checksum makes the import raise, and
    then nothing of the program runs, so the constant is only read when it is [Ok]. *)
Definition checked (a : string) : string :=
  match to_checksum_address a with Ok c => c | Err _ => a end.

Definition WETH : string := checked "0x82aF49447D8a07e3bd95BD0d56f35241523fBab1".
Definition USDC : string := checked "0xaf88d065e77c8cC2239327C5EDb3A432268e5831".
Definition USDC_e : string := checked "0xFF970A61A04b1cA14834A43f5dE4533eBDDB5CC8".
Definition wstETH : string := checked "0x5979D7b546E38E414F7E9822514be443A4800529".

Definition TOKENS : dict string string :=
  [("WETH", WETH); ("USDC", USDC); ("USDC_e", USDC_e); ("wstETH", wstETH)]%string.

(** A dict comprehension or literal keeps the last value of a repeated key. *)
Definition dict_of {K V} `{EqDecision K} (l : list (K * V)) : dict K V :=
  foldl (λ d kv, dset d kv.1 kv.2) [] l.

Definition TOKEN_SYMBOLS : dict string string := dict_of ((λ kv, (kv.2, kv.1)) <$> TOKENS).

Definition TOKEN_DECIMALS : dict string Z :=
  dict_of [(WETH, 18); (USDC, 6); (USDC_e, 6); (wstETH, 18)].

Definition FEE_TIERS : dict (string * string) Z :=
  dict_of [((WETH, USDC), 500); ((USDC, WETH), 500)].

Definition fee_tier_for (token_in token_out : string) : res Z :=
  a ← to_checksum_address token_in;
  b ← to_checksum_address token_out;
  Ok (default DEFAULT_FEE_TIER (dget FEE_TIERS (a, b))).

Context (cfg : Settings).
Definition AAVE_POOL_ADDRESSES_PROVIDER : string := checked (pool_addresses_provider cfg).
Definition UNISWAP_SWAP_ROUTER : string := checked (swap_router cfg).
Definition UNISWAP_QUOTER_V2 : string := checked (quoter_v2 cfg).
Definition CHAINLINK_FEEDS : dict string string :=
  [("ETH_USD", checked (chainlink_eth_usd cfg));
   ("USDC_USD", checked (chainlink_usdc_usd cfg))]%string.

Lemma fee_tier_default i o t : fee_tier_for i o = Ok t → t = 500.
Proof.
  unfold fee_tier_for. intros (a & _ & (b & _ & [=<-])%res_bind_ok)%res_bind_ok.
  unfold FEE_TIERS, dict_of. cbn [foldl]. rewrite dget_dset.
  destruct (decide _); [done|]. rewrite dget_dset. by destruct (decide _).
Qed.
End address_book.

(** A checksum function for concrete runs: it accepts every string. *)
Definition eth_plain : EthUtils := {| to_checksum_address := Ok |}.

#[global] Instance eth_plain_laws : EthUtilsLaws eth_plain.
Proof. split; simpl; congruence. Qed.

(** A configured deployment with one endpoint and one attempt, for concrete runs. *)
Definition demo_settings : Settings := {|
  chain_id_setting := 42161;
  arbitrum_rpc_url := "http://a";
  arbitrum_rpc_url_fallback := "";
  rpc_timeout_seconds := flit 20;
  rpc_max_retries := 1;
  poll_interval_seconds := 12;
  vault_address := "0xva";
  pool_addresses_provider := "0xa97684ead0e402dC232d5A977953DF7ECBaB3CDb";
  swap_router := "0x68b3465833fb72A70ecDF485E0e4C7bD8665Fc45";
  quoter_v2 := "0x61fFE014bA17989E743c5F6cB21bF9697530B21e";
  chainlink_eth_usd := "0x639Fe6ab55C921f74e7fac1ee960C0B6293ba612";
  chainlink_usdc_usd := "0x50834F3163758fcC1Df9973b6e91f0F0F0434aD3";
  oracle_max_staleness_seconds := 3600;
  keeper_private_key := "0x1";
  breaker_max_consecutive_failures := 3;
  inflight_cooldown_seconds := 30;
  max_simulation_bumps := 3;
  autonomous_enabled_setting := true;
  worker_enabled := true;
  demo_mode := false;
  agent_enabled := false;
  gemini_api_key := "";
  agent_model := "gemini-2.5-flash";
  agent_timeout_seconds := flit 30;
  agent_max_tool_loops := 6;
  agent_db_path := ".agent/finax_agent.db";
  agent_chat_history_turns := 20;
  agent_max_repay_fraction := fhalf;
  agent_max_cost_bps := 200;
  agent_min_hf_gap_bps := 25;
  agent_proposal_ttl_seconds := 900;
  agent_max_proposals_per_hour := 3;
  agent_max_proposals_global_per_hour := 12;
|}.
