(* ===== verification/Models.v ===== *)
(** * core/models.py: the data models

    Records for the pydantic models, their validators as functions that fail, and the
    unit-aware properties of the read models. *)
From S2P Require Import Prelude PyFloat Config State.

(** ** bytes.fromhex *)
Definition hex_digit (c : ascii) : option Z :=
  let n := Z.of_N (N_of_ascii c) in
  if (48 <=? n) && (n <=? 57) then Some (n - 48)
  else if (97 <=? n) && (n <=? 102) then Some (n - 87)
  else if (65 <=? n) && (n <=? 70) then Some (n - 55)
  else None.

(** ASCII whitespace, which [bytes.fromhex] skips between bytes: tab to carriage return, space. *)
Definition is_space (c : ascii) : bool :=
  let n := N_of_ascii c in ((9 <=? n) && (n <=? 13) || (n =? 32))%N.

Fixpoint fromhex (s : string) : res (list Z) :=
  match s with
  | EmptyString => Ok []
  | String c s' =>
      if is_space c then fromhex s'
      else match s' with
           | EmptyString => Err (Exn ValueError "non-hexadecimal number found in fromhex() arg")
           | String c' s'' =>
               match hex_digit c, hex_digit c' with
               | Some h, Some l => r ← fromhex s''; Ok (16 * h + l :: r)
               | _, _ => Err (Exn ValueError "non-hexadecimal number found in fromhex() arg")
               end
           end
  end.

Lemma fromhex_error s e : fromhex s = Err e → is_ValueError e = true.
Proof.
  revert e. induction s as [s IH] using (well_founded_induction
    (well_founded_ltof _ String.length)). intros e.
  destruct s as [|c s']; simpl; [done|].
  destruct (is_space c).
  - apply IH. unfold ltof. simpl. lia.
  - destruct s' as [|c' s'']; [by intros [=<-]|].
    destruct (hex_digit c), (hex_digit c'); try by intros [=<-].
    intros [He|(? & _ & ?)]%res_bind_err; [|done].
    apply (IH s''); [|done]. unfold ltof. simpl. lia.
Qed.

(** ** Wire models *)
Record RiskParams := {
  rp_borrower : string;
  rp_hf_trigger_bps : Z;
  rp_hf_target_base_bps : Z;
  rp_vol_coeff_k : Z;
  rp_hf_target_max_bps : Z;
  rp_max_slippage_bps : Z;
  rp_max_cost_bps : Z;
  rp_allowed_collaterals : list string;
  rp_nonce : Z;
  rp_deadline : Z;
}.

#[global] Instance RiskParams_eq_dec : EqDecision RiskParams.
Proof. solve_decision. Defined.

(** A failed field or model validator surfaces as pydantic's [ValidationError], a
    [ValueError]; its text aggregates every failed field and is not modelled. *)
Definition validation_error : exn := Exn ValueError "validation error".

Fixpoint mapM_res {A B} (f : A → res B) (l : list A) : res (list B) :=
  match l with
  | [] => Ok []
  | x :: l' => y ← f x; ys ← mapM_res f l'; Ok (y :: ys)
  end.

Definition ensure (b : bool) : res unit := if b then Ok tt else Err validation_error.

Section RiskParams.
Context `{EthUtils}.

(** [_target_band_ordered] *)
Definition target_band_ordered (p : RiskParams) : res RiskParams :=
  if rp_hf_target_max_bps p <? rp_hf_target_base_bps p then Err validation_error else Ok p.

(** Construction of the model: field bounds, the two checksum validators, then the
    [mode="after"] model validator. *)
Definition RiskParams_validate (p : RiskParams) : res RiskParams :=
  _ ← ensure (0 <=? rp_hf_trigger_bps p);
  _ ← ensure (0 <=? rp_hf_target_base_bps p);
  _ ← ensure (0 <=? rp_vol_coeff_k p);
  _ ← ensure (0 <=? rp_hf_target_max_bps p);
  _ ← ensure ((0 <=? rp_max_slippage_bps p) && (rp_max_slippage_bps p <=? BPS));
  _ ← ensure ((0 <=? rp_max_cost_bps p) && (rp_max_cost_bps p <=? BPS));
  _ ← ensure (0 <=? rp_nonce p);
  _ ← ensure (0 <=? rp_deadline p);
  b ← to_checksum_address (rp_borrower p);
  cs ← mapM_res to_checksum_address (rp_allowed_collaterals p);
  target_band_ordered
    {| rp_borrower := b;
       rp_hf_trigger_bps := rp_hf_trigger_bps p;
       rp_hf_target_base_bps := rp_hf_target_base_bps p;
       rp_vol_coeff_k := rp_vol_coeff_k p;
       rp_hf_target_max_bps := rp_hf_target_max_bps p;
       rp_max_slippage_bps := rp_max_slippage_bps p;
       rp_max_cost_bps := rp_max_cost_bps p;
       rp_allowed_collaterals := cs;
       rp_nonce := rp_nonce p;
       rp_deadline := rp_deadline p |}.

(** What a constructed mandate satisfies. *)
Definition RiskParams_wf (p : RiskParams) : Prop :=
  0 ≤ rp_hf_trigger_bps p ∧ 0 ≤ rp_hf_target_base_bps p ∧ 0 ≤ rp_vol_coeff_k p ∧
  rp_hf_target_base_bps p ≤ rp_hf_target_max_bps p ∧
  0 ≤ rp_max_slippage_bps p ≤ BPS ∧ 0 ≤ rp_max_cost_bps p ≤ BPS ∧
  0 ≤ rp_nonce p ∧ 0 ≤ rp_deadline p ∧
  to_checksum_address (rp_borrower p) = Ok (rp_borrower p) ∧
  Forall (λ a, to_checksum_address a = Ok a) (rp_allowed_collaterals p).
End RiskParams.

(** The ABI tuple of the Solidity struct. *)
Inductive sol_value :=
  | SolAddress (a : string)
  | SolUint (n : Z)
  | SolAddresses (l : list string).

Definition to_solidity_tuple (p : RiskParams) : list sol_value :=
  [SolAddress (rp_borrower p); SolUint (rp_hf_trigger_bps p); SolUint (rp_hf_target_base_bps p);
   SolUint (rp_vol_coeff_k p); SolUint (rp_hf_target_max_bps p);
   SolUint (rp_max_slippage_bps p); SolUint (rp_max_cost_bps p);
   SolAddresses (rp_allowed_collaterals p); SolUint (rp_nonce p); SolUint (rp_deadline p)].

Definition eip712_message (p : RiskParams) : dict string sol_value :=
  [("borrower", SolAddress (rp_borrower p));
   ("hfTriggerBps", SolUint (rp_hf_trigger_bps p));
   ("hfTargetBaseBps", SolUint (rp_hf_target_base_bps p));
   ("volCoeffK", SolUint (rp_vol_coeff_k p));
   ("hfTargetMaxBps", SolUint (rp_hf_target_max_bps p));
   ("maxSlippageBps", SolUint (rp_max_slippage_bps p));
   ("maxCostBps", SolUint (rp_max_cost_bps p));
   ("allowedCollaterals", SolAddresses (rp_allowed_collaterals p));
   ("nonce", SolUint (rp_nonce p));
   ("deadline", SolUint (rp_deadline p))]%string.

Record ProtectRequest := { pr_params : RiskParams; pr_signature : string }.

(** [_valid_hex_signature] *)
Definition valid_hex_signature (v : string) : res string :=
  let body := removeprefix "0x" v in
  if negb (Z.of_nat (String.length body) mod 2 =? 0) then Err validation_error
  else match fromhex body with Ok _ => Ok v | Err _ => Err validation_error end.

Definition ProtectRequest_validate `{EthUtils} (r : ProtectRequest) : res ProtectRequest :=
  p ← RiskParams_validate (pr_params r);
  s ← valid_hex_signature (pr_signature r);
  Ok {| pr_params := p; pr_signature := s |}.

Record AssessmentResponse := {
  as_hf : f64;
  as_hf_target : f64;
  as_repay_amount : Z;
  as_collateral_asset : string;
  as_est_cost_bps : Z;
  as_viable : bool;
  as_reason : option string;
}.

(** ** Read models *)
Record UserAccountData := {
  total_collateral_base : Z;
  total_debt_base : Z;
  available_borrows_base : Z;
  liquidation_threshold_bps : Z;
  ltv_bps : Z;
  health_factor : Z;
}.

(** The [hf] property. *)
Definition account_hf (a : UserAccountData) : res f64 :=
  if total_debt_base a =? 0 then Ok finf else truediv (health_factor a) WAD.

Definition has_debt (a : UserAccountData) : bool := 0 <? total_debt_base a.
Definition collateral_usd (a : UserAccountData) : res f64 :=
  truediv (total_collateral_base a) (10 ^ AAVE_BASE_CURRENCY_DECIMALS).
Definition debt_usd (a : UserAccountData) : res f64 :=
  truediv (total_debt_base a) (10 ^ AAVE_BASE_CURRENCY_DECIMALS).

Record ReserveInfo := {
  ri_asset : string;
  aToken_address : string;
  variable_debt_token_address : string;
  ri_decimals : Z;
  liq_threshold_bps : Z;
  liq_bonus_bps : Z;
}.

Definition liq_threshold (r : ReserveInfo) : res f64 := truediv (liq_threshold_bps r) BPS.
Definition liq_bonus (r : ReserveInfo) : res f64 := truediv (liq_bonus_bps r) BPS.

Record Quote := {
  q_token_in : string;
  q_token_out : string;
  q_fee : Z;
  q_amount_out : Z;
  q_amount_in : Z;
  sqrt_price_x96_after : Z;
  initialized_ticks_crossed : Z;
  gas_estimate : Z;
}.

Record OraclePrice := {
  op_asset : string;
  price : Z;
  op_decimals : Z;
  updated_at : Z;
  stale : bool;
}.

Definition price_float (p : OraclePrice) : res f64 := truediv (price p) (10 ^ op_decimals p).

(** ** Decision-pipeline results *)
Record RiskSignal := {
  rs_sigma : f64;
  rs_breach_probability : f64;
  rs_hf_target_bps : Z;
}.

Definition signal_hf_target (r : RiskSignal) : res f64 := truediv (rs_hf_target_bps r) BPS.

Record SizingResult := {
  sz_repay_amount : Z;
  delta_base : Z;
  sz_hf_target_bps : Z;
  feasible : bool;
  sz_reason : option string;
}.

Record CollateralChoice := {
  cc_collateral_asset : string;
  cc_fee_tier : Z;
  cc_amount_in : Z;
  amount_in_value_base : Z;
  out_needed_value_base : Z;
  slippage_cost_bps : Z;
  cc_liq_threshold_bps : Z;
  has_allowance : bool;
  eligible : bool;
  cc_reason : option string;
}.

Record ViabilityResult := {
  value_protected_base : Z;
  cost_base : Z;
  vr_est_cost_bps : Z;
  vr_viable : bool;
  vr_reason : option string;
}.

Record PositionSnapshot := {
  ps_borrower : string;
  ps_account : UserAccountData;
  ps_state : PositionState;
  ps_hf : f64;
  ps_hf_trigger_bps : Z;
}.

(** ** Service, simulation, submission *)
Record ProtectResponse := {
  resp_borrower : string;
  resp_state : PositionState;
  resp_submitted : bool;
  resp_tx_hash : option string;
  resp_assessment : option AssessmentResponse;
  resp_reason : option string;
  resp_via_fallback : bool;
}.

Record RescuePlan := {
  pl_borrower : string;
  pl_debt_asset : string;
  pl_repay_amount : Z;
  pl_collateral_asset : string;
  pl_fee_tier : Z;
  pl_amount_in : Z;
  pl_hf_target_bps : Z;
  pl_max_slippage_bps : Z;
}.

Record SimulationResult := {
  sim_success : bool;
  sim_repay_amount : Z;
  sim_amount_in_maximum : Z;
  sim_hf_after : option f64;
  sim_bumps : Z;
  sim_revert_reason : option string;
}.

Record SubmissionResult := {
  sub_tx_hash : string;
  sub_status : Z;
  sub_state : PositionState;
  sub_hf_after : option f64;
  sub_gas_used : option Z;
  sub_via_fallback : bool;
}.

Record KeeperConfig := {
  kc_poll_interval_seconds : Z;
  kc_breaker_max_consecutive_failures : Z;
  kc_inflight_cooldown_seconds : Z;
  kc_max_simulation_bumps : Z;
  kc_autonomous_enabled : bool;
}.

Definition KeeperConfig_validate (c : KeeperConfig) : res KeeperConfig :=
  _ ← ensure ((1 <=? kc_poll_interval_seconds c) && (kc_poll_interval_seconds c <=? 3600));
  _ ← ensure ((1 <=? kc_breaker_max_consecutive_failures c)
              && (kc_breaker_max_consecutive_failures c <=? 20));
  _ ← ensure ((0 <=? kc_inflight_cooldown_seconds c) && (kc_inflight_cooldown_seconds c <=? 3600));
  _ ← ensure ((0 <=? kc_max_simulation_bumps c) && (kc_max_simulation_bumps c <=? 10));
  Ok c.

Record MetricsSnapshot := {
  breaker_paused : bool;
  breaker_consecutive_failures : Z;
  breaker_trip_reason : option string;
  in_flight_borrowers : list string;
  registered_positions : Z;
  ms_counters : dict string Z;
  ms_states : dict string string;
}.

(** ** Lemmas *)
Lemma ensure_ok b u : ensure b = Ok u ↔ b = true.
Proof. destruct b, u; naive_solver. Qed.

(** The bounds a validated configuration is within. *)
Lemma KeeperConfig_validate_ok c c' :
  KeeperConfig_validate c = Ok c' →
  c' = c ∧ 1 ≤ kc_poll_interval_seconds c ≤ 3600 ∧
  1 ≤ kc_breaker_max_consecutive_failures c ≤ 20 ∧
  0 ≤ kc_inflight_cooldown_seconds c ≤ 3600 ∧ 0 ≤ kc_max_simulation_bumps c ≤ 10.
Proof.
  unfold KeeperConfig_validate.
  intros (?&H1%ensure_ok&(?&H2%ensure_ok&(?&H3%ensure_ok&(?&H4%ensure_ok&[= <-])%res_bind_ok)
    %res_bind_ok)%res_bind_ok)%res_bind_ok. split; [done|]. lia.
Qed.

Lemma KeeperConfig_validate_err c e : KeeperConfig_validate c = Err e → e = validation_error.
Proof. unfold KeeperConfig_validate, ensure. repeat (case_match; cbn); congruence. Qed.

Lemma KeeperConfig_validate_bounds c :
  1 ≤ kc_poll_interval_seconds c ≤ 3600 →
  1 ≤ kc_breaker_max_consecutive_failures c ≤ 20 →
  0 ≤ kc_inflight_cooldown_seconds c ≤ 3600 → 0 ≤ kc_max_simulation_bumps c ≤ 10 →
  KeeperConfig_validate c = Ok c.
Proof.
  intros ????. unfold KeeperConfig_validate, ensure.
  by rewrite 8!(proj2 (Z.leb_le _ _)) by lia.
Qed.

Lemma mapM_res_ok {A B} (f : A → res B) l k :
  mapM_res f l = Ok k ↔ Forall2 (λ x y, f x = Ok y) l k.
Proof.
  revert k. induction l as [|x l IH]; intros k; simpl.
  - split; [intros [=<-]; constructor|by inversion_clear 1].
  - split.
    + intros (y & Hy & (ys & Hys & [=<-])%res_bind_ok)%res_bind_ok.
      constructor; [done|by apply IH].
    + inversion_clear 1 as [|? y ? ys Hy Hys]. rewrite Hy. simpl.
      apply IH in Hys as ->. done.
Qed.

Lemma valid_hex_signature_ok v w :
  valid_hex_signature v = Ok w → w = v ∧ ∃ bs, fromhex (removeprefix "0x" v) = Ok bs.
Proof.
  unfold valid_hex_signature. destruct (negb _); [done|].
  destruct (fromhex _) eqn:E; naive_solver.
Qed.

Lemma valid_hex_signature_err v e : valid_hex_signature v = Err e → is_ValueError e = true.
Proof.
  unfold valid_hex_signature. destruct (negb _); [by intros [=<-]|].
  destruct (fromhex _); naive_solver.
Qed.

Section validation.
Context {U : EthUtils} {UL : EthUtilsLaws U}.

Lemma mapM_res_err {A B} (f : A → res B) l e :
  mapM_res f l = Err e → ∃ x, f x = Err e.
Proof.
  induction l as [|x l IH]; simpl; [done|].
  intros [?|(y & _ & [?|(? & _ & ?)]%res_bind_err)]%res_bind_err; eauto. done.
Qed.

Lemma checksum_list_idem l k :
  mapM_res to_checksum_address l = Ok k → Forall (λ a, to_checksum_address a = Ok a) k.
Proof. rewrite mapM_res_ok. induction 1; constructor; eauto using checksum_idemp. Qed.

Lemma checksum_list_fixed k :
  Forall (λ a, to_checksum_address a = Ok a) k → mapM_res to_checksum_address k = Ok k.
Proof. intros H. apply mapM_res_ok. by induction H; constructor. Qed.

(** The two directions of the validator: what it accepts is well formed, and a well-formed
    mandate passes unchanged. *)
Lemma RiskParams_validate_sound p q : RiskParams_validate p = Ok q → RiskParams_wf q.
Proof.
  unfold RiskParams_validate.
  intros (?&H1%ensure_ok&(?&H2%ensure_ok&(?&H3%ensure_ok&(?&H4%ensure_ok&(?&H5%ensure_ok&(?&H6%ensure_ok
    &(?&H7%ensure_ok&(?&H8%ensure_ok&(b&Hb&(cs&Hcs&H)%res_bind_ok)%res_bind_ok)%res_bind_ok)%res_bind_ok)
    %res_bind_ok)%res_bind_ok)%res_bind_ok)%res_bind_ok)%res_bind_ok)%res_bind_ok.
  apply andb_true_iff in H5 as [??], H6 as [??]. unfold target_band_ordered in H. simpl in H.
  destruct (Z.ltb_spec (rp_hf_target_max_bps p) (rp_hf_target_base_bps p)); simplify_eq.
  repeat match goal with Hx : (_ <=? _) = true |- _ => apply Z.leb_le in Hx end.
  unfold RiskParams_wf; simpl.
  split_and!; eauto using checksum_idemp, checksum_list_idem.
Qed.

Lemma RiskParams_validate_complete p : RiskParams_wf p → RiskParams_validate p = Ok p.
Proof.
  intros (?&?&?&?&?&?&?&?&Hb&Hcs). unfold RiskParams_validate.
  repeat (match goal with |- context [?a <=? ?b] =>
    replace (a <=? b) with true by (symmetry; apply Z.leb_le; lia) end); simpl.
  rewrite Hb; simpl. rewrite checksum_list_fixed by done. simpl.
  unfold target_band_ordered; simpl. destruct (Z.ltb_spec (rp_hf_target_max_bps p)
    (rp_hf_target_base_bps p)); [lia|]. by destruct p.
Qed.

Lemma ensure_err b e : ensure b = Err e → is_ValueError e = true.
Proof. destruct b; simpl; [done|]. by intros [= <-]. Qed.

Lemma RiskParams_validate_err p e : RiskParams_validate p = Err e → is_ValueError e = true.
Proof.
  unfold RiskParams_validate.
  repeat (intros [H|(? & _ & H)]%res_bind_err; [by eapply ensure_err|revert H]).
  intros [H|(? & _ & [H|(? & _ & H)]%res_bind_err)]%res_bind_err.
  - by eapply checksum_error.
  - apply mapM_res_err in H as [??]. by eapply checksum_error.
  - unfold target_band_ordered in H. destruct (_ <? _); simplify_eq. done.
Qed.
End validation.

(** ** Claims *)

(** C18: The request validator is sound, complete and stable.  An accepted [ProtectRequest]
    carries a mandate within every bound (ordered target band, basis-point limits,
    non-negative nonce and deadline, checksummed addresses) and a signature that
    [bytes.fromhex] decodes, so the simulator's and the submitter's decoding never raises;
    accepting it again changes nothing; every request with those properties is accepted
    unchanged; and a rejection is always a [ValueError]. *)
Theorem protect_request_validation {U : EthUtils} {UL : EthUtilsLaws U} r :
  match ProtectRequest_validate r with
  | Ok r' =>
      RiskParams_wf (pr_params r') ∧ pr_signature r' = pr_signature r ∧
      (∃ bs, fromhex (removeprefix "0x" (pr_signature r')) = Ok bs) ∧
      ProtectRequest_validate r' = Ok r'
  | Err e =>
      is_ValueError e = true ∧
      ¬ (RiskParams_wf (pr_params r) ∧ is_ok (valid_hex_signature (pr_signature r)) = true)
  end.
Proof.
  unfold ProtectRequest_validate. destruct (RiskParams_validate (pr_params r)) as [p|e] eqn:Ep; simpl.
  - apply RiskParams_validate_sound in Ep.
    destruct (valid_hex_signature (pr_signature r)) as [s|e] eqn:Es; simpl.
    + pose proof (valid_hex_signature_ok _ _ Es) as [-> [bs Hbs]].
      rewrite RiskParams_validate_complete by done. simpl. rewrite Es. eauto.
    + split; [by eapply valid_hex_signature_err|]. by intros [_ ?].
  - split; [by eapply RiskParams_validate_err|].
    intros [Hp _]. by rewrite (RiskParams_validate_complete _ Hp) in Ep.
Qed.

(** The ABI tuple the keeper submits is a faithful encoding of the mandate the borrower
    signed: it lists the values of the EIP-712 message in field order, and two mandates with
    the same tuple are the same mandate. *)
Theorem mandate_encoding p q :
  (eip712_message p).*2 = to_solidity_tuple p ∧
  (to_solidity_tuple p = to_solidity_tuple q ↔ p = q) ∧
  (eip712_message p = eip712_message q ↔ p = q).
Proof.
  split; [done|]. split; split; try (by intros ->); destruct p, q;
    unfold to_solidity_tuple, eip712_message; simpl; intros; by simplify_eq.
Qed.

(** A mandate for concrete runs. *)
Definition demo_params : RiskParams := {|
  rp_borrower := "0xb0b"; rp_hf_trigger_bps := 11500; rp_hf_target_base_bps := 12000;
  rp_vol_coeff_k := 4000; rp_hf_target_max_bps := 13500; rp_max_slippage_bps := 50;
  rp_max_cost_bps := 200; rp_allowed_collaterals := ["0xc011"%string]; rp_nonce := 0;
  rp_deadline := 2000000000;
|}.

Lemma protect_request_validation_witness :
  @RiskParams_wf eth_plain demo_params.
Proof.
  destruct (protect_request_validation (U := eth_plain)
    {| pr_params := demo_params; pr_signature := "0x00ff" |}) as [H _]. exact H.
Defined.
