(* ===== verification/AgentModels.v ===== *)
(** * agent/models.py: the types of the agent layer

    The policy verdict, the persisted rows, the model's output types and the request and
    response bodies.  The rendered detail of a check is the list of its pieces; a JSON column
    is the value it encodes. *)
From S2P Require Import Prelude PyFloat PyText Config State Models.

(** ** errors.py *)

(** [isinstance(e, AgentError)]: the class or one of its subclasses. *)
Definition is_agent_error (e : exn) : bool :=
  match exn_kind e with
  | AgentError | AgentDisabled | AgentTimeout | GateRejected => true
  | _ => false
  end.

(** An exception of the agent layer with the attributes its constructor sets. *)
Record AgentExn := { ax_exn : exn; ax_reason : string; ax_blocking : list string }.

(** [AgentDisabled.__init__] *)
Definition AgentDisabled_init (reason : string) : AgentExn :=
  {| ax_exn := Exn AgentDisabled reason; ax_reason := reason; ax_blocking := [] |}.

(** [GateRejected.__init__] *)
Definition GateRejected_init (blocking : list string) (detail : string) : AgentExn :=
  {| ax_exn := Exn GateRejected
       (if String.eqb detail "" then "policy gate blocked: " +:+ comma blocking else detail);
     ax_reason := ""; ax_blocking := blocking |}.

(** ** Enumerations *)
Inductive ProposalStatus := PENDING | APPROVED | REJECTED | EXECUTED | FAILED | STALE | EXPIRED.

#[global] Instance ProposalStatus_eq_dec : EqDecision ProposalStatus.
Proof. solve_decision. Defined.

Definition status_value (s : ProposalStatus) : string :=
  match s with
  | PENDING => "PENDING" | APPROVED => "APPROVED" | REJECTED => "REJECTED"
  | EXECUTED => "EXECUTED" | FAILED => "FAILED" | STALE => "STALE" | EXPIRED => "EXPIRED"
  end.

Inductive TuningStatus := OPEN | DISMISSED | RESIGNED.

#[global] Instance TuningStatus_eq_dec : EqDecision TuningStatus.
Proof. solve_decision. Defined.

Definition tuning_value (s : TuningStatus) : string :=
  match s with OPEN => "open" | DISMISSED => "dismissed" | RESIGNED => "resigned" end.

Inductive AuditAction :=
  | A_CREW_RUN | A_PROPOSED | A_GATE_BLOCKED | A_TUNING_SUGGESTED | A_TUNING_DISMISSED
  | A_APPROVED | A_REJECTED | A_EXECUTED | A_FAILED | A_STALE_ON_APPROVE
  | A_EXPIRED_ON_APPROVE | A_PANIC.

#[global] Instance AuditAction_eq_dec : EqDecision AuditAction.
Proof. solve_decision. Defined.

Definition action_value (a : AuditAction) : string :=
  match a with
  | A_CREW_RUN => "CREW_RUN" | A_PROPOSED => "PROPOSED" | A_GATE_BLOCKED => "GATE_BLOCKED"
  | A_TUNING_SUGGESTED => "TUNING_SUGGESTED" | A_TUNING_DISMISSED => "TUNING_DISMISSED"
  | A_APPROVED => "APPROVED" | A_REJECTED => "REJECTED" | A_EXECUTED => "EXECUTED"
  | A_FAILED => "FAILED" | A_STALE_ON_APPROVE => "STALE_ON_APPROVE"
  | A_EXPIRED_ON_APPROVE => "EXPIRED_ON_APPROVE" | A_PANIC => "PANIC"
  end.

Inductive Strategy := S_protect_now | S_watch | S_stand_down | S_retune.

#[global] Instance Strategy_eq_dec : EqDecision Strategy.
Proof. solve_decision. Defined.

Definition strategy_value (s : Strategy) : string :=
  match s with
  | S_protect_now => "protect_now" | S_watch => "watch" | S_stand_down => "stand_down"
  | S_retune => "retune"
  end.

Inductive Terminal := T_proposed | T_no_action | T_gate_blocked | T_tuning_suggested | T_error.

#[global] Instance Terminal_eq_dec : EqDecision Terminal.
Proof. solve_decision. Defined.

Definition terminal_value (t : Terminal) : string :=
  match t with
  | T_proposed => "proposed" | T_no_action => "no_action" | T_gate_blocked => "gate_blocked"
  | T_tuning_suggested => "tuning_suggested" | T_error => "error"
  end.

Inductive TunableField :=
  | F_hf_trigger_bps | F_hf_target_base_bps | F_hf_target_max_bps | F_vol_coeff_k
  | F_max_slippage_bps | F_max_cost_bps.

#[global] Instance TunableField_eq_dec : EqDecision TunableField.
Proof. solve_decision. Defined.

Definition field_name_value (f : TunableField) : string :=
  match f with
  | F_hf_trigger_bps => "hf_trigger_bps" | F_hf_target_base_bps => "hf_target_base_bps"
  | F_hf_target_max_bps => "hf_target_max_bps" | F_vol_coeff_k => "vol_coeff_k"
  | F_max_slippage_bps => "max_slippage_bps" | F_max_cost_bps => "max_cost_bps"
  end.

(** ** The policy verdict *)
Record GateCheck := { gc_name : string; gc_passed : bool; gc_detail : text }.

Inductive Severity := Sev_ok | Sev_soft_block | Sev_hard_block.

#[global] Instance Severity_eq_dec : EqDecision Severity.
Proof. solve_decision. Defined.

Record PolicyDecision := {
  pd_allowed : bool;
  pd_checks : list GateCheck;
  pd_blocking : list string;
  pd_severity : Severity;
}.

Record PolicyLimits := {
  max_repay_fraction_of_debt : f64;
  max_cost_bps_ceiling : Z;
  min_hf_gap_bps : Z;
  max_proposals_per_borrower_per_hour : Z;
  max_proposals_global_per_hour : Z;
  proposal_ttl_seconds : Z;
}.

(** The constraints of [PolicyLimits]' fields; a violation is pydantic's [ValueError]. *)
Definition PolicyLimits_validate (l : PolicyLimits) : res PolicyLimits :=
  _ ← ensure (flt fzero (max_repay_fraction_of_debt l) && fle (max_repay_fraction_of_debt l) (flit 1));
  _ ← ensure (0 <=? max_cost_bps_ceiling l);
  _ ← ensure (0 <=? min_hf_gap_bps l);
  _ ← ensure (0 <=? max_proposals_per_borrower_per_hour l);
  _ ← ensure (0 <=? max_proposals_global_per_hour l);
  _ ← ensure (1 <=? proposal_ttl_seconds l);
  Ok l.

(** ** Rows *)
Record ProposalRow := {
  p_id : Z;
  p_run_id : string;
  p_borrower : string;
  p_created_at : f64;
  p_expires_at : f64;
  p_status : ProposalStatus;
  p_strategy : string;
  p_facts : json;
  p_gate : PolicyDecision;
  p_rationale : string;
  p_guard_flagged : bool;
  p_decided_at : option f64;
  p_decided_by : option string;
  p_decision_note : option string;
  p_tx_hash : option string;
  p_result : option ProtectResponse;
}.

Record TuningRow := {
  t_id : Z;
  t_run_id : string;
  t_borrower : string;
  t_created_at : f64;
  t_field_name : TunableField;
  t_current_value : Z;
  t_suggested_value : Z;
  t_rationale : string;
  t_eip712_payload : list (string * sol_value);
  t_status : TuningStatus;
  t_decided_at : option f64;
}.

Inductive Actor := Agent | Human | System.

Record AuditRow := {
  a_id : Z;
  a_ts : f64;
  a_actor : Actor;
  a_action : AuditAction;
  a_borrower : option string;
  a_proposal_id : option Z;
  a_detail : json;
}.

Inductive Role := User | Assistant | Tool.

Record ChatMessageRow := {
  m_id : Z;
  m_thread_id : string;
  m_ts : f64;
  m_role : Role;
  m_content : string;
  m_tool_calls : option json;
  m_facts : option json;
  m_guard_flagged : bool;
}.

Record DecisionRow := {
  d_id : Z;
  d_run_id : string;
  d_borrower : string;
  d_created_at : f64;
  d_node : string;
  d_latency_ms : option Z;
  d_llm_used : bool;
  d_output : json;
  d_error : option string;
}.

(** ** What the model returns: one constrained choice and prose *)
Record StrategyChoice := { sc_strategy : Strategy; sc_rationale : string }.

Record TuningChoice := {
  tch_field_name : TunableField;
  tch_suggested_value : Z;
  tch_rationale : string;
}.

(** ** Request and response bodies *)
Record ApprovalRequest := {
  ar_approved_by : string;
  ar_note : option string;
  ar_acknowledge_stale : bool;
}.

Record RejectRequest := { rr_rejected_by : string; rr_note : option string }.

(** The length of a [str], in code points. *)
Definition text_len (s : string) : Z := Z.of_nat (length (decode s)).

(** [Field(min_length=lo, max_length=hi)] *)
Definition bounded (lo hi : Z) (s : string) : bool := (lo <=? text_len s) && (text_len s <=? hi).

(** [Field(default=None, max_length=hi)] *)
Definition bounded_opt (hi : Z) (s : option string) : bool :=
  match s with Some s => text_len s <=? hi | None => true end.

Definition ApprovalRequest_validate (r : ApprovalRequest) : res ApprovalRequest :=
  _ ← ensure (bounded 1 64 (ar_approved_by r)); _ ← ensure (bounded_opt 500 (ar_note r)); Ok r.

Definition RejectRequest_validate (r : RejectRequest) : res RejectRequest :=
  _ ← ensure (bounded 1 64 (rr_rejected_by r)); _ ← ensure (bounded_opt 500 (rr_note r)); Ok r.

Record ApprovalResult := {
  res_proposal : ProposalRow;
  res_revalidated_gate : PolicyDecision;
  res_protect : option ProtectResponse;
  res_reason : option string;
}.
