(* ===== verification/Facts.v ===== *)
(** * agent/facts.py: the fact sheet (FR-22)

    Every figure the agent layer may state, read off the backend's own responses. *)
From Stdlib Require Import SpecFloat.
From S2P Require Import Prelude PyFloat PyText Guard State Config Models.

(** ** [datetime.fromtimestamp(t, UTC).isoformat(timespec="seconds")]

    The civil date of a day number, by eras of 400 years. *)
Definition civil (days : Z) : Z * Z * Z :=
  let z := days + 719468 in
  let era := z / 146097 in
  let doe := z - era * 146097 in
  let yoe := (doe - doe / 1460 + doe / 36524 - doe / 146096) / 365 in
  let doy := doe - (365 * yoe + yoe / 4 - yoe / 100) in
  let mp := (5 * doy + 2) / 153 in
  let d := doy - (153 * mp + 2) / 5 + 1 in
  let m := if mp <? 10 then mp + 3 else mp - 9 in
  (yoe + era * 400 + (if m <=? 2 then 1 else 0), m, d).

(** Whole seconds below a clock reading. *)
Definition floor_float (x : f64) : res Z :=
  i ← int_of_float x;
  Ok (if flt x (flit i) then i - 1 else i).

Definition iso_seconds (t : f64) : res string :=
  s ← floor_float t;
  let '(y, m, d) := civil (s / 86400) in
  let r := s mod 86400 in
  if (1 <=? y) && (y <=? 9999) then
    Ok (padded 4 y +:+ "-" +:+ padded 2 m +:+ "-" +:+ padded 2 d +:+ "T" +:+ padded 2 (r / 3600)
        +:+ ":" +:+ padded 2 (r / 60 mod 60) +:+ ":" +:+ padded 2 (r mod 60) +:+ "+00:00")
  else Err (Exn ValueError "year is out of range").

Example iso_epoch : iso_seconds (flit 1735787045) = Ok "2025-01-02T03:04:05+00:00"%string.
Proof. vm_compute. reflexivity. Qed.

(** ** The sheet *)
Definition SOURCES : list (string * string) :=
  [("hf", "AssessmentResponse.hf"); ("hf_target", "AssessmentResponse.hf_target");
   ("repay_amount", "AssessmentResponse.repay_amount");
   ("collateral_asset", "AssessmentResponse.collateral_asset");
   ("est_cost_bps", "AssessmentResponse.est_cost_bps"); ("viable", "AssessmentResponse.viable");
   ("reason", "AssessmentResponse.reason"); ("sigma", "RiskSignal.sigma");
   ("breach_probability", "RiskSignal.breach_probability");
   ("hf_target_bps", "RiskSignal.hf_target_bps");
   ("hf_trigger_bps", "PositionSnapshot.hf_trigger_bps"); ("state", "PositionSnapshot.state");
   ("collateral_usd", "UserAccountData.total_collateral_base");
   ("debt_usd", "UserAccountData.total_debt_base");
   ("liquidation_threshold_bps", "UserAccountData.liquidation_threshold_bps");
   ("hf_bps", "UserAccountData.health_factor")]%string.

Record FactSheet := {
  fs_borrower : string;
  fs_as_of : string;
  fs_hf : f64;
  fs_hf_bps : Z;
  fs_hf_target : f64;
  fs_hf_target_bps : Z;
  fs_hf_trigger_bps : Z;
  fs_state : string;
  fs_collateral_usd : f64;
  fs_debt_usd : f64;
  fs_liquidation_threshold_bps : Z;
  fs_repay_amount : Z;
  fs_repay_amount_human : string;
  fs_collateral_asset : string;
  fs_collateral_symbol : string;
  fs_est_cost_bps : Z;
  fs_viable : bool;
  fs_reason : option string;
  fs_sigma : f64;
  fs_breach_probability : f64;
  fs_sources : list (string * string);
}.

(** [FactSheet.model_dump()] *)
Definition dump_sheet (f : FactSheet) : json :=
  JObj [("borrower", JStr (fs_borrower f)); ("as_of", JStr (fs_as_of f)); ("hf", JFloat (fs_hf f));
        ("hf_bps", JInt (fs_hf_bps f)); ("hf_target", JFloat (fs_hf_target f));
        ("hf_target_bps", JInt (fs_hf_target_bps f));
        ("hf_trigger_bps", JInt (fs_hf_trigger_bps f)); ("state", JStr (fs_state f));
        ("collateral_usd", JFloat (fs_collateral_usd f)); ("debt_usd", JFloat (fs_debt_usd f));
        ("liquidation_threshold_bps", JInt (fs_liquidation_threshold_bps f));
        ("repay_amount", JInt (fs_repay_amount f));
        ("repay_amount_human", JStr (fs_repay_amount_human f));
        ("collateral_asset", JStr (fs_collateral_asset f));
        ("collateral_symbol", JStr (fs_collateral_symbol f));
        ("est_cost_bps", JInt (fs_est_cost_bps f)); ("viable", JBool (fs_viable f));
        ("reason", jopt (fs_reason f)); ("sigma", JFloat (fs_sigma f));
        ("breach_probability", JFloat (fs_breach_probability f));
        ("sources", JObj ((λ kv, (kv.1, JStr kv.2)) <$> fs_sources f))]%string.

(** [FactSheet.numeric_leaves] *)
Definition numeric_leaves (f : FactSheet) : list json :=
  [JFloat (fs_hf f); JInt (fs_hf_bps f); JFloat (fs_hf_target f); JInt (fs_hf_target_bps f);
   JInt (fs_hf_trigger_bps f); JFloat (fs_collateral_usd f); JFloat (fs_debt_usd f);
   JInt (fs_liquidation_threshold_bps f); JInt (fs_repay_amount f); JInt (fs_est_cost_bps f);
   JFloat (fs_sigma f); JFloat (fs_breach_probability f)].

Section facts.
Context `{EthUtils}.

Definition symbol_for (asset : string) : string :=
  match dget TOKEN_SYMBOLS asset with
  | Some (String c s) => String c s
  | _ => String.substring 0 6 asset +:+ "…" +:+ String.substring (String.length asset - 4) 4 asset
  end.

Definition human_amount (amount : Z) (asset : string) : res string :=
  match dget TOKEN_DECIMALS asset with
  | None => Ok (string_of_Z amount)
  | Some decimals => x ← truediv amount (10 ^ decimals); Ok (fmt_fixed true 2 x)
  end.

Definition build_factsheet (snapshot : PositionSnapshot) (assessment : AssessmentResponse)
    (risk : option RiskSignal) (debt_asset : option string) (now : f64) : res FactSheet :=
  let account := ps_account snapshot in
  stamp ← iso_seconds now;
  target_bps ← match risk with
               | Some r => Ok (rs_hf_target_bps r)
               | None => round_float (fmul (as_hf_target assessment) (flit BPS))
               end;
  collateral ← collateral_usd account;
  debt ← debt_usd account;
  human ← human_amount (as_repay_amount assessment) (default ""%string debt_asset);
  Ok {| fs_borrower := ps_borrower snapshot;
        fs_as_of := stamp;
        fs_hf := as_hf assessment;
        fs_hf_bps := health_factor account / 10 ^ 14;
        fs_hf_target := as_hf_target assessment;
        fs_hf_target_bps := target_bps;
        fs_hf_trigger_bps := ps_hf_trigger_bps snapshot;
        fs_state := state_value (ps_state snapshot);
        fs_collateral_usd := collateral;
        fs_debt_usd := debt;
        fs_liquidation_threshold_bps := liquidation_threshold_bps account;
        fs_repay_amount := as_repay_amount assessment;
        fs_repay_amount_human := human;
        fs_collateral_asset := as_collateral_asset assessment;
        fs_collateral_symbol := symbol_for (as_collateral_asset assessment);
        fs_est_cost_bps := as_est_cost_bps assessment;
        fs_viable := as_viable assessment;
        fs_reason := as_reason assessment;
        fs_sigma := match risk with Some r => rs_sigma r | None => fzero end;
        fs_breach_probability := match risk with Some r => rs_breach_probability r | None => fzero end;
        fs_sources := SOURCES |}.
End facts.

(** ** Lemmas *)
Lemma res_concat_nil {A} (l : list (res (list A))) :
  (∀ r, r ∈ l → r = Ok []) → res_concat l = Ok [].
Proof.
  induction l as [|r l IH]; intros Hl; [done|].
  change (res_concat (r :: l)) with (x ← r; y ← res_concat l; Ok (x ++ y)).
  rewrite (Hl r), IH by set_solver. done.
Qed.

(** Text carries no figure. *)
Lemma collect_strings (l : list (string * string)) :
  collect_numbers (JObj ((λ kv, (kv.1, JStr kv.2)) <$> l)) = Ok [].
Proof.
  apply res_concat_nil. intros r Hr. change (map ?f ?l) with (f <$> l) in Hr.
  apply list_elem_of_fmap in Hr as (kv & -> & Hkv).
  by apply list_elem_of_fmap in Hkv as (kv' & -> & _).
Qed.

Lemma res_concat_skip {A} (l : list (res (list A))) : res_concat (Ok [] :: l) = res_concat l.
Proof.
  change (res_concat (Ok [] :: l)) with (y ← res_concat l; Ok ([] ++ y)). by destruct (res_concat l).
Qed.

Lemma res_concat_congr {A} (r : res (list A)) l l' :
  res_concat l = res_concat l' → res_concat (r :: l) = res_concat (r :: l').
Proof.
  intros Hl. change (res_concat (r :: ?k)) with (x ← r; y ← res_concat k; Ok (x ++ y)). by rewrite Hl.
Qed.

(** What the guard sees of the stored sheet. *)
Lemma dump_leaves f : collect_numbers (dump_sheet f) = collect_numbers (JList (numeric_leaves f)).
Proof.
  unfold dump_sheet, numeric_leaves.
  assert (collect_numbers (jopt (fs_reason f)) = Ok []) as Hr by by destruct (fs_reason f).
  cbn [collect_numbers map fst snd] in Hr |- *. rewrite Hr.
  pose proof (collect_strings (fs_sources f)) as Hs. cbn [collect_numbers] in Hs. rewrite Hs.
  by repeat first [rewrite res_concat_skip | apply res_concat_congr].
Qed.

(** The sheet states the backend's figures and nothing else (FR-22).  Each figure is the
    response field its source names, up to the unit conversions (WAD to basis points, base
    units to dollars); and what the guard observes of the stored sheet is exactly the list of
    the sheet's numeric leaves. *)
Theorem factsheet_figures `{EthUtils} s a r d now f :
  build_factsheet s a (Some r) d now = Ok f →
  fs_hf f = as_hf a ∧ fs_hf_target f = as_hf_target a ∧ fs_repay_amount f = as_repay_amount a ∧
  fs_est_cost_bps f = as_est_cost_bps a ∧ fs_viable f = as_viable a ∧
  fs_hf_bps f = health_factor (ps_account s) / 10 ^ 14 ∧
  fs_hf_target_bps f = rs_hf_target_bps r ∧ fs_hf_trigger_bps f = ps_hf_trigger_bps s ∧
  fs_sigma f = rs_sigma r ∧ fs_breach_probability f = rs_breach_probability r ∧
  collateral_usd (ps_account s) = Ok (fs_collateral_usd f) ∧
  debt_usd (ps_account s) = Ok (fs_debt_usd f) ∧
  collect_numbers (dump_sheet f) = collect_numbers (JList (numeric_leaves f)).
Proof.
  unfold build_factsheet. cbn zeta.
  intros (st & _ & (t & [= <-] & (c & Hc & (de & Hd & (hu & _ & [= <-])%res_bind_ok)
    %res_bind_ok)%res_bind_ok)%res_bind_ok)%res_bind_ok.
  split_and!; try done. apply dump_leaves.
Qed.
