(* ===== verification/Sizing.v ===== *)
(** * core/sizing.py: minimum-effective sizing (FR-3)

    The closed-form candidate and the facts that make it the minimum: [delta_base] is within
    one base unit of the least repayment that lifts the health factor to the target. *)
From S2P Require Import Prelude PyFloat Config State Models.

(** [size_repay].  Python integers are unbounded, so nothing wraps.  [debt_decimals] is a
    non-negative token property ([10**debt_decimals] is then an integer). *)
Definition size_repay (collateral_base debt_base lt_bps target_bps debt_price_base debt_decimals
    bundled_cost_bps overshoot_bps : Z) : SizingResult :=
  let target_wad := target_bps * BPS_TO_WAD in
  let lt_wad := lt_bps * BPS_TO_WAD in
  let one_plus_f_wad := WAD + bundled_cost_bps * BPS_TO_WAD in
  let num := target_wad * debt_base - collateral_base * lt_wad in
  let denom := target_wad - (one_plus_f_wad * lt_wad) / WAD in
  if denom <=? 0 then
    {| sz_repay_amount := 0; delta_base := 0; sz_hf_target_bps := target_bps; feasible := false;
       sz_reason := Some "denominator <= 0: target unreachable via repayment at this LT/cost"%string |}
  else if num <=? 0 then
    {| sz_repay_amount := 0; delta_base := 0; sz_hf_target_bps := target_bps; feasible := true;
       sz_reason := Some "already at/above target: no repayment required"%string |}
  else
    let delta_base := num / denom in
    if debt_price_base <=? 0 then
      {| sz_repay_amount := 0; delta_base := delta_base; sz_hf_target_bps := target_bps;
         feasible := false; sz_reason := Some "debt price unavailable"%string |}
    else
      let scale := 10 ^ debt_decimals in
      let repay_tokens := ceil_div (delta_base * scale) debt_price_base in
      let repay_tokens :=
        if overshoot_bps =? 0 then repay_tokens
        else repay_tokens * (10000 + overshoot_bps) / 10000 in
      {| sz_repay_amount := repay_tokens; delta_base := delta_base;
         sz_hf_target_bps := target_bps; feasible := true; sz_reason := None |}.

(** ** Specification

    [restores C D lt target f d]: after repaying [d] of the debt [D] and releasing [(1+f)*d]
    of the collateral [C] (all in base units), the health factor
    [(C - (1+f)*d) * lt / (D - d)] is at least [target], in exact arithmetic.  Everything is
    in basis points, multiplied out. *)
Definition restores (C D lt target f d : Z) : Prop :=
  target * BPS * (D - d) ≤ lt * (BPS * C - (BPS + f) * d).

(** The reference [_sizeRepay] of the fork test (SizingParity.t.sol), on 256-bit checked
    arithmetic: a wrap or a division by zero reverts. *)
Definition U256 : Z := 2 ^ 256.
Definition u256 (z : Z) : option Z := if (0 <=? z) && (z <? U256) then Some z else None.

Definition sol_delta_base (collatBase debtBase liqThreshold targetBps : Z) : option Z :=
  ltWad ← u256 (liqThreshold * 100000000000000);
  targetWad ← u256 (targetBps * 100000000000000);
  let onePlusF := 1010000000000000000 in
  a ← u256 (targetWad * debtBase);
  b ← u256 (collatBase * ltWad);
  num ← u256 (a - b);
  c ← u256 (onePlusF * ltWad);
  denom ← u256 (targetWad - c / 1000000000000000000);
  if denom =? 0 then None else Some (num / denom).

Definition sol_size_repay (collatBase debtBase liqThreshold targetBps usdcPrice : Z) : option Z :=
  deltaBase ← sol_delta_base collatBase debtBase liqThreshold targetBps;
  x ← u256 (deltaBase * 1000000);
  if usdcPrice =? 0 then None
  else y ← u256 (x / usdcPrice * 103); Some (y / 100).

(** ** Lemmas *)
Section sizing.
Context (C D lt target price dec f : Z).

Definition spec_num : Z := target * D - C * lt.
Definition spec_denom : Z := BPS * target - (BPS + f) * lt.

(** The WAD division in the denominator is exact, so both are plain basis-point numbers. *)
Lemma num_eq :
  target * BPS_TO_WAD * D - C * (lt * BPS_TO_WAD) = BPS_TO_WAD * spec_num.
Proof. unfold spec_num, BPS_TO_WAD. lia. Qed.

Lemma denom_eq :
  target * BPS_TO_WAD - (WAD + f * BPS_TO_WAD) * (lt * BPS_TO_WAD) / WAD
  = 10000000000 * spec_denom.
Proof.
  replace ((WAD + f * BPS_TO_WAD) * (lt * BPS_TO_WAD))
    with (10000000000 * ((BPS + f) * lt) * WAD) by (unfold WAD, BPS_TO_WAD, BPS; lia).
  rewrite Z.div_mul by (unfold WAD; lia). unfold spec_denom, BPS, BPS_TO_WAD. lia.
Qed.

Lemma restores_iff d : restores C D lt target f d ↔ BPS * spec_num ≤ spec_denom * d.
Proof. unfold restores, spec_num, spec_denom, BPS. lia. Qed.

Lemma delta_eq :
  0 < spec_denom → BPS_TO_WAD * spec_num / (10000000000 * spec_denom) = BPS * spec_num / spec_denom.
Proof.
  intros. replace (BPS_TO_WAD * spec_num) with (10000000000 * (BPS * spec_num))
    by (unfold BPS, BPS_TO_WAD; lia).
  by rewrite Z.div_mul_cancel_l by lia.
Qed.

Lemma size_repay_eq over :
  size_repay C D lt target price dec f over =
    if spec_denom <=? 0 then
      {| sz_repay_amount := 0; delta_base := 0; sz_hf_target_bps := target; feasible := false;
         sz_reason := Some "denominator <= 0: target unreachable via repayment at this LT/cost"%string |}
    else if spec_num <=? 0 then
      {| sz_repay_amount := 0; delta_base := 0; sz_hf_target_bps := target; feasible := true;
         sz_reason := Some "already at/above target: no repayment required"%string |}
    else let d := BPS * spec_num / spec_denom in
    if price <=? 0 then
      {| sz_repay_amount := 0; delta_base := d; sz_hf_target_bps := target;
         feasible := false; sz_reason := Some "debt price unavailable"%string |}
    else let r := ceil_div (d * 10 ^ dec) price in
      {| sz_repay_amount := if over =? 0 then r else r * (10000 + over) / 10000;
         delta_base := d; sz_hf_target_bps := target; feasible := true; sz_reason := None |}.
Proof.
  unfold size_repay. rewrite num_eq, denom_eq.
  destruct (Z.leb_spec spec_denom 0), (Z.leb_spec (10000000000 * spec_denom) 0); try lia; [done|].
  destruct (Z.leb_spec spec_num 0), (Z.leb_spec (BPS_TO_WAD * spec_num) 0);
    try (unfold BPS_TO_WAD in *; lia); [done|].
  by rewrite delta_eq by lia.
Qed.

Lemma delta_base_eq over :
  0 < spec_denom → 0 < spec_num →
  delta_base (size_repay C D lt target price dec f over) = BPS * spec_num / spec_denom.
Proof. intros. rewrite size_repay_eq. by bsplit; try lia. Qed.

Lemma repay_amount_eq :
  0 < spec_denom → 0 < spec_num → 0 < price →
  sz_repay_amount (size_repay C D lt target price dec f 0)
  = ceil_div (BPS * spec_num / spec_denom * 10 ^ dec) price.
Proof. intros. rewrite size_repay_eq. by bsplit; try lia. Qed.

(** A positive candidate only comes out of the last branch. *)
Lemma repay_positive_inv over :
  0 ≤ over → 0 < sz_repay_amount (size_repay C D lt target price dec f over) →
  0 < spec_denom ∧ 0 < spec_num ∧ 0 < price ∧
  feasible (size_repay C D lt target price dec f over) = true.
Proof. intros ?. rewrite size_repay_eq. bsplit; simpl; lia || done. Qed.

Lemma delta_bounds :
  0 < spec_denom →
  spec_denom * (BPS * spec_num / spec_denom) ≤ BPS * spec_num
    < spec_denom * (BPS * spec_num / spec_denom + 1).
Proof. intros. by apply div_floor_spec. Qed.
End sizing.

(** The requirement is monotone in each input. *)
Lemma div_mono_num a a' b : 0 < b → a ≤ a' → a / b ≤ a' / b.
Proof. intros. by apply Z.div_le_mono. Qed.

Lemma repay_mono_state C C' D D' lt target price dec f :
  0 ≤ lt → 0 ≤ target → C' ≤ C → D ≤ D' → 0 ≤ dec → 0 < price →
  sz_repay_amount (size_repay C D lt target price dec f 0)
    ≤ sz_repay_amount (size_repay C' D' lt target price dec f 0).
Proof.
  intros. rewrite !size_repay_eq.
  change (spec_denom lt target f) with (spec_denom lt target f).
  assert (spec_num C D lt target ≤ spec_num C' D' lt target) by (unfold spec_num; nia).
  assert (0 < 10 ^ dec) by (apply Z.pow_pos_nonneg; lia).
  bsplit; simpl; try lia.
  - apply ceil_div_nonneg; [lia|]. apply Z.mul_nonneg_nonneg; [|lia].
    apply div_nonneg; unfold BPS; lia.
  - apply ceil_div_mono; [lia|]. apply Z.mul_le_mono_nonneg_r; [lia|].
    apply div_mono_num; unfold BPS; lia.
Qed.

(** The checked 256-bit computation, when it does not revert. *)
Lemma u256_some z v : u256 z = Some v → v = z ∧ 0 ≤ z.
Proof.
  unfold u256. destruct (_ && _) eqn:E; [|done]. intros [= <-].
  apply andb_true_iff in E as [?%Z.leb_le _]. done.
Qed.

Lemma sol_delta_base_inv C D lt target d :
  sol_delta_base C D lt target = Some d →
  let num := target * BPS_TO_WAD * D - C * (lt * BPS_TO_WAD) in
  let den := target * BPS_TO_WAD - (WAD + DEFAULT_BUNDLED_COST_BPS * BPS_TO_WAD)
               * (lt * BPS_TO_WAD) / WAD in
  0 ≤ num ∧ 0 < den ∧ d = num / den.
Proof.
  unfold sol_delta_base. cbn zeta. intros H.
  do 7 (apply bind_Some in H; destruct H as (x & Hu & Hk); rename Hk into H;
    apply u256_some in Hu as [-> ?]).
  destruct (Z.eqb_spec (target * 100000000000000 - 1010000000000000000 * (lt * 100000000000000)
    / 1000000000000000000) 0); [done|].
  simplify_eq. change (WAD + DEFAULT_BUNDLED_COST_BPS * BPS_TO_WAD) with 1010000000000000000.
  change BPS_TO_WAD with 100000000000000. change WAD with 1000000000000000000.
  split_and!; [done|lia|done].
Qed.

Lemma sol_size_repay_inv C D lt target price r :
  sol_size_repay C D lt target price = Some r →
  ∃ d, sol_delta_base C D lt target = Some d ∧ r = d * 1000000 / price * 103 / 100.
Proof.
  unfold sol_size_repay. intros (d & Hd & (x & Hx & H)%bind_Some)%bind_Some.
  apply u256_some in Hx as [-> ?]. exists d. split; [done|].
  destruct (Z.eqb_spec price 0); [done|]. apply bind_Some in H as (y & Hy & H).
  apply u256_some in Hy as [-> ?]. congruence.
Qed.

(** The over-repayment of 3%, as [overshoot_bps] and as the reference writes it. *)
Lemma overshoot_3 c : c * (10000 + 300) / 10000 = c * 103 / 100.
Proof.
  replace (c * (10000 + 300)) with (c * 103 * 100) by lia.
  change 10000 with (100 * 100) at 1. by rewrite Z.div_mul_cancel_r by lia.
Qed.

Lemma overshoot_bounds q c :
  q ≤ c ≤ q + 1 → q * 103 / 100 ≤ c * 103 / 100 ≤ q * 103 / 100 + 2.
Proof.
  intros Hc. pose proof (div_floor_spec (q * 103) 100 ltac:(lia)).
  pose proof (div_floor_spec (c * 103) 100 ltac:(lia)). nia.
Qed.

(** ** Claims *)



(** C13: Every verdict of [size_repay] is right.  With a price: an infeasible verdict means no
    repayment meets the target unless it is met already, and a feasible one that repaying one
    base unit more than [delta_base] (0 when nothing is needed) meets it.  When the target is
    already met the candidate is 0, and an infeasible result never carries an amount. *)
Theorem size_repay_verdicts C D lt target price dec f :
  let s := size_repay C D lt target price dec f 0 in
  (feasible s = false → 0 < price →
     ∀ d, 0 ≤ d → restores C D lt target f d → restores C D lt target f 0) ∧
  (feasible s = true → 0 < price → restores C D lt target f (delta_base s + 1)) ∧
  (restores C D lt target f 0 → sz_repay_amount s = 0 ∧ delta_base s = 0) ∧
  (feasible s = false → sz_repay_amount s = 0).
Proof.
  cbn zeta. rewrite size_repay_eq. split_and!.
  - intros Hs Hp d Hd. rewrite !restores_iff, Z.mul_0_r. revert Hs.
    destruct (Z.leb_spec (spec_denom lt target f) 0) as [Hden|]; [|by bsplit; try lia].
    intros _ Hr. assert (spec_denom lt target f * d ≤ 0) by nia. lia.
  - intros Hs Hp. rewrite restores_iff. revert Hs. pose proof (delta_bounds C D lt target f).
    unfold BPS in *. bsplit; try done; try lia; nia.
  - rewrite restores_iff, Z.mul_0_r. intros Hn. assert (spec_num C D lt target ≤ 0) by (unfold BPS in *; lia).
    bsplit; simpl; try lia; done.
  - bsplit; done.
Qed.

Lemma size_repay_verdicts_witness :
  ¬ restores 800000 800000 9500 9550 100 800000.
Proof.
  intros H.
  destruct (size_repay_verdicts 800000 800000 9500 9550 100000000 6 100) as [Hv _].
  specialize (Hv ltac:(vm_compute; reflexivity) ltac:(lia) 800000 ltac:(lia) H).
  revert Hv. unfold restores, BPS. lia.
Defined.

(** C14: Parity with the Solidity reference [_sizeRepay] of the fork test: whenever the
    256-bit checked computation of the reference does not revert, [size_repay] at the bundled
    cost of 1% and the same over-repayment of 3% is feasible, its [delta_base] is the same
    number, and its token amount (rounded up where the reference rounds down) exceeds the
    reference's by at most two units of the 6-decimal token. *)
Theorem size_repay_parity C D lt target price d r :
  0 < price →
  sol_delta_base C D lt target = Some d →
  sol_size_repay C D lt target price = Some r →
  let s := size_repay C D lt target price 6 DEFAULT_BUNDLED_COST_BPS 300 in
  feasible s = true ∧ delta_base s = d ∧ r ≤ sz_repay_amount s ≤ r + 2.
Proof.
  intros Hp Hd Hr s. destruct (sol_delta_base_inv C D lt target d Hd) as (Hn & Hden & ->).
  apply sol_size_repay_inv in Hr as (d & Hd' & ->). rewrite Hd in Hd'. simplify_eq.
  set (num := target * BPS_TO_WAD * D - C * (lt * BPS_TO_WAD)) in *.
  set (den := target * BPS_TO_WAD - (WAD + DEFAULT_BUNDLED_COST_BPS * BPS_TO_WAD)
                * (lt * BPS_TO_WAD) / WAD) in *.
  pose proof (div_floor_spec (num / den * 1000000) price Hp).
  pose proof (ceil_div_spec (num / den * 1000000) price Hp).
  unfold s, size_repay. fold num den. change (10 ^ 6) with 1000000. change (300 =? 0) with false.
  destruct (Z.leb_spec den 0); [lia|]. destruct (Z.leb_spec num 0).
  - replace num with 0 by lia. rewrite Z.div_0_l, Z.mul_0_l, Z.div_0_l by lia. simpl. lia.
  - destruct (Z.leb_spec price 0); [lia|]. cbn. rewrite overshoot_3.
    split; [done|]. split; [done|]. apply overshoot_bounds. nia.
Qed.

Lemma size_repay_parity_witness :
  let s := size_repay 1000000000000 800000000000 8250 11000 100000000 6 DEFAULT_BUNDLED_COST_BPS 300 in
  sz_repay_amount s = 2123711341 ∧
  feasible s = true ∧ delta_base s = 206185567010 ∧ 2123711340 ≤ sz_repay_amount s ≤ 2123711340 + 2.
Proof.
  intros s. split; [vm_compute; reflexivity|].
  apply (size_repay_parity 1000000000000 800000000000 8250 11000 100000000);
    [lia|vm_compute; reflexivity|vm_compute; reflexivity].
Defined.
