(* ===== verification/Viability.v ===== *)
(** * core/viability.py: the economic-viability gate (FR-11) *)
From S2P Require Import Prelude PyFloat Config State Models.

Definition assess_viability (repay_value_base liq_bonus_bps swap_cost_base gas_cost_base : Z)
    (debt_liquidatable_base : option Z) : ViabilityResult :=
  let liquidatable := default repay_value_base debt_liquidatable_base in
  let value_protected := (liquidatable * liq_bonus_bps) / BPS in
  let flash_premium := (repay_value_base * FLASH_PREMIUM_BPS) / BPS in
  let cost := flash_premium + Z.max swap_cost_base 0 + Z.max gas_cost_base 0 in
  let est_cost_bps := if 0 <? repay_value_base then (cost * BPS) / repay_value_base else 0 in
  let viable := cost <? value_protected in
  {| value_protected_base := value_protected;
     cost_base := cost;
     vr_est_cost_bps := est_cost_bps;
     vr_viable := viable;
     vr_reason :=
       if viable then None
       else Some ("cost " +:+ pretty cost +:+ " >= value protected " +:+ pretty value_protected
                  +:+ " (premium=" +:+ pretty flash_premium +:+ ", swap=" +:+ pretty swap_cost_base
                  +:+ ", gas=" +:+ pretty gas_cost_base +:+ ")")%string |}.

(** ** Lemmas *)
Section viability.
Context (r b s g : Z).
Let v := assess_viability r b s g None.

Lemma cost_nonneg : 0 ≤ r → 0 ≤ cost_base v.
Proof.
  intros. simpl. assert (0 ≤ r * FLASH_PREMIUM_BPS / BPS)
    by (apply div_nonneg; unfold BPS, FLASH_PREMIUM_BPS; lia). lia.
Qed.

Lemma viable_iff : vr_viable v = true ↔ cost_base v < value_protected_base v.
Proof. simpl. by rewrite Z.ltb_lt. Qed.

(** A verdict is viable only for a positive repayment whose bonus beats the premium. *)
Lemma viable_pos : 0 ≤ r → vr_viable v = true → 0 < r ∧ FLASH_PREMIUM_BPS < b.
Proof.
  rewrite viable_iff. intros Hr Hv. pose proof (cost_nonneg Hr) as Hc. simpl in *.
  pose proof (div_floor_spec (r * b) BPS ltac:(unfold BPS; lia)).
  pose proof (div_floor_spec (r * FLASH_PREMIUM_BPS) BPS ltac:(unfold BPS; lia)).
  unfold FLASH_PREMIUM_BPS, BPS in *.
  assert (r * 5 < r * b) by lia.
  assert (0 < r) by (destruct (Z.eq_dec r 0) as [E|]; [rewrite E in *; lia|lia]).
  split; [done|]. apply (Z.mul_lt_mono_pos_l r); lia.
Qed.

Lemma viable_cost_bps : 0 ≤ r → vr_viable v = true → vr_est_cost_bps v < b.
Proof.
  intros Hr Hv. destruct (viable_pos Hr Hv) as [Hpos _]. apply viable_iff in Hv. simpl in *.
  destruct (Z.ltb_spec 0 r); [|lia].
  pose proof (div_floor_spec (r * b) BPS ltac:(unfold BPS; lia)).
  apply Z.div_lt_upper_bound; [lia|]. unfold BPS in *. nia.
Qed.
End viability.

Lemma viability_antitone r b s s' g g' :
  s ≤ s' → g ≤ g' → vr_viable (assess_viability r b s' g' None) = true →
  vr_viable (assess_viability r b s g None) = true.
Proof. simpl. rewrite !Z.ltb_lt. lia. Qed.

(** A reason is given exactly on a refusal. *)
Lemma viability_reason r b s g d :
  let v := assess_viability r b s g d in
  if vr_viable v then vr_reason v = None else is_Some (vr_reason v).
Proof.
  unfold assess_viability. cbn [vr_viable vr_reason].
  case_match; [done|]. by eexists.
Qed.

(** ** Claims *)

(** The gate only opens for an economically sensible rescue, and opens monotonically: a
    viable verdict for a non-negative repayment means the repayment is positive, the
    liquidation bonus exceeds the flash-loan premium, the protected value exceeds the whole
    cost, the reported cost in basis points is below the bonus and no reason is given; and
    lowering the swap or the gas cost keeps the verdict. *)
Theorem viability_sound r b s g :
  0 ≤ r →
  let v := assess_viability r b s g None in
  vr_viable v = true →
  0 < r ∧ FLASH_PREMIUM_BPS < b ∧ cost_base v < value_protected_base v ∧
  0 ≤ vr_est_cost_bps v < b ∧ vr_reason v = None ∧
  ∀ s' g', s' ≤ s → g' ≤ g → vr_viable (assess_viability r b s' g' None) = true.
Proof.
  intros Hr v Hv. destruct (viable_pos r b s g Hr Hv). split_and!; [done|done| | | | |].
  - by apply viable_iff.
  - subst v. simpl. destruct (Z.ltb_spec 0 r); [|lia]. apply div_nonneg; [lia|].
    pose proof (cost_nonneg r b s g Hr) as Hc. simpl in Hc. unfold BPS in *. lia.
  - by apply viable_cost_bps.
  - subst v. simpl in *. by rewrite Hv.
  - intros s' g' Hs Hg. by apply (viability_antitone r b s' s g' g).
Qed.

Lemma viability_sound_witness :
  vr_viable (assess_viability 100000000000 500 200000000 50000000 None) = true ∧
  vr_viable (assess_viability 100000000000 500 0 0 None) = true.
Proof.
  split; [vm_compute; reflexivity|].
  destruct (viability_sound 100000000000 500 200000000 50000000) as (_ & _ & _ & _ & _ & H);
    [lia|vm_compute; reflexivity|apply H; lia].
Defined.
