(* ===== verification/Risk.v ===== *)
(** * core/risk.py: rolling volatility, breach probability, dynamic target (FR-2, FR-10)

    [math.log], [math.erfc] and [x ** 2] go through the platform's C library, whose last bit
    is not specified: they are parameters ([Libm]), with the facts the proofs use as
    [LibmLaws].  [sum] is Python 3.11's left-to-right addition. *)
From S2P Require Import Prelude PyFloat Config State Models.

Class Libm := {
  math_log : f64 → res f64;
  math_erfc : f64 → f64;
  pow2 : f64 → res f64;       (* x ** 2 on a float; OverflowError beyond the range *)
}.

Class LibmLaws (L : Libm) := {
  pow2_nonneg x y : pow2 x = Ok y → fnonneg y = true;
  erfc_nonneg x : fnonneg (math_erfc x) = true;
}.

(** ** RollingVolatility *)
Record RollingVolatility := { rv_window : Z; rv_prices : list f64 }.

Definition rolling_init (window : Z) : res RollingVolatility :=
  if window <? 2 then Err (Exn ValueError "window must be >= 2")
  else Ok {| rv_window := window; rv_prices := [] |}.

(** [deque(maxlen=n).append(x)]: drop from the left when full. *)
Definition deque_append {A} (maxlen : Z) (l : list A) (x : A) : list A :=
  drop (length l + 1 - Z.to_nat maxlen) (l ++ [x]).

Definition rv_update (v : RollingVolatility) (p : f64) : RollingVolatility :=
  if flt fzero p then
    {| rv_window := rv_window v; rv_prices := deque_append (rv_window v + 1) (rv_prices v) p |}
  else v.

Definition rv_extend (v : RollingVolatility) (ps : list f64) : RollingVolatility :=
  foldl rv_update v ps.

(** [(p[i] / p[i-1]) - 1.0] for each [i >= 1] with [p[i-1] > 0]. *)
Fixpoint returns_from (prev : f64) (l : list f64) : res (list f64) :=
  match l with
  | [] => Ok []
  | x :: l' =>
      if flt fzero prev then
        q ← fdiv x prev; rest ← returns_from x l'; Ok (fsub q (flit 1) :: rest)
      else returns_from x l'
  end.

Definition rv_returns (v : RollingVolatility) : res (list f64) :=
  match rv_prices v with [] => Ok [] | p0 :: l => returns_from p0 l end.

(** [sum(xs)]: starts from the integer 0. *)
Definition py_sum (xs : list f64) : f64 := foldl fadd (flit 0) xs.

Section risk.
Context `{Libm}.

Definition rv_sigma (v : RollingVolatility) : res f64 :=
  r ← rv_returns v;
  if (length r <? 2)%nat then Ok fzero
  else
    n ← float_of_int (Z.of_nat (length r));
    mean ← fdiv (py_sum r) n;
    sq ← mapM_res (λ x, pow2 (fsub x mean)) r;
    n1 ← float_of_int (Z.of_nat (length r) - 1);
    var ← fdiv (py_sum sq) n1;
    fsqrt var.

Definition breach_probability (hf sigma : f64) (horizon_periods : Z) : res f64 :=
  if fle hf fzero then Ok (flit 1)
  else if feq hf finf then Ok fzero
  else if fle sigma fzero || (horizon_periods <=? 0) then
    Ok (if flt (flit 1) hf then fzero else flit 1)
  else
    l ← math_log hf;
    h ← float_of_int horizon_periods;
    sq ← fsqrt h;
    z ← fdiv l (fmul sigma sq);
    s2 ← fsqrt (flit 2);
    q ← fdiv z s2;
    Ok (fmul fhalf (math_erfc q)).

Definition dynamic_hf_target_bps (sigma : f64) (base_bps max_bps k : Z) : res Z :=
  if max_bps <? base_bps then Err (Exn ValueError "max_bps must be >= base_bps")
  else
    kf ← float_of_int k;
    i ← int_of_float (fmul kf sigma);
    let delta := Z.max i 0 in
    Ok (Z.max base_bps (Z.min (base_bps + delta) max_bps)).

Definition assess_risk (hf sigma : f64) (base_bps max_bps k horizon_periods : Z) : res RiskSignal :=
  target ← dynamic_hf_target_bps sigma base_bps max_bps k;
  p ← breach_probability hf sigma horizon_periods;
  Ok {| rs_sigma := sigma; rs_breach_probability := p; rs_hf_target_bps := target |}.

Definition hf_target_float (sigma : f64) (base_bps max_bps k : Z) : res f64 :=
  t ← dynamic_hf_target_bps sigma base_bps max_bps k; truediv t BPS.
End risk.

(** ** Lemmas: the price window *)
Lemma deque_append_length {A} n (l : list A) x :
  0 ≤ n → Z.of_nat (length l) ≤ n → Z.of_nat (length (deque_append n l x)) ≤ n.
Proof. intros. unfold deque_append. rewrite length_drop, length_app. simpl. lia. Qed.

Lemma deque_append_Forall {A} (P : A → Prop) n l x :
  Forall P l → P x → Forall P (deque_append n l x).
Proof. intros. unfold deque_append. apply Forall_drop, Forall_app; auto. Qed.

(** The window invariant: at most [window + 1] prices, all positive. *)
Definition rolling_wf (v : RollingVolatility) : Prop :=
  2 ≤ rv_window v ∧ Z.of_nat (length (rv_prices v)) ≤ rv_window v + 1 ∧
  Forall (λ p, flt fzero p = true) (rv_prices v).

Lemma rolling_init_wf w v : rolling_init w = Ok v → rolling_wf v.
Proof.
  unfold rolling_init. bsplit; intros; simplify_eq/=. split_and!; simpl; [lia|lia|constructor].
Qed.

Lemma rv_update_wf v p : rolling_wf v → rolling_wf (rv_update v p).
Proof.
  intros (?&?&?). unfold rv_update. destruct (flt fzero p) eqn:E; [|done].
  split_and!; simpl; [lia|apply deque_append_length; lia|by apply deque_append_Forall].
Qed.

Lemma rv_extend_wf v ps : rolling_wf v → rolling_wf (rv_extend v ps).
Proof. revert v. induction ps; simpl; auto using rv_update_wf. Qed.

Lemma rv_update_window v p : rv_window (rv_update v p) = rv_window v.
Proof. unfold rv_update. by destruct (flt _ _). Qed.

(** Filling the window keeps exactly the most recent [window + 1] positive prices. *)
Definition lastn {A} (n : nat) (l : list A) : list A := drop (length l - n) l.

Lemma deque_append_lastn {A} n (l : list A) x :
  0 < n → deque_append n (lastn (Z.to_nat n) l) x = lastn (Z.to_nat n) (l ++ [x]).
Proof.
  intros Hn. unfold deque_append, lastn. rewrite length_drop, length_app. simpl.
  set (k := (length l - Z.to_nat n)%nat).
  rewrite <-(drop_app_le l [x] k) by lia. rewrite drop_drop. f_equal. lia.
Qed.

Lemma rv_extend_prices v ps :
  2 ≤ rv_window v → rv_prices v = [] →
  rv_prices (rv_extend v ps)
  = lastn (Z.to_nat (rv_window v + 1)) (filter (λ p, flt fzero p = true) ps).
Proof.
  intros Hw Hv. induction ps as [|p ps IH] using rev_ind; [done|].
  unfold rv_extend in *. rewrite foldl_app. cbn [foldl].
  rewrite filter_app, filter_cons, filter_nil.
  assert (rv_window (foldl rv_update v ps) = rv_window v) as Hwin.
  { clear. revert v. induction ps; intros; simpl; [done|]. by rewrite IHps, rv_update_window. }
  unfold rv_update at 1. destruct (flt fzero p) eqn:E; simpl.
  - by rewrite Hwin, IH, deque_append_lastn by lia.
  - by rewrite IH, app_nil_r.
Qed.

Lemma flt_pos_not_zero x : flt fzero x = true → is_zero x = false.
Proof. by destruct x as [[]|[]| |[] ? ?]. Qed.

Lemma returns_from_ok prev l :
  Forall (λ p, flt fzero p = true) (prev :: l) →
  ∃ rs, returns_from prev l = Ok rs ∧ length rs = length l.
Proof.
  revert prev. induction l as [|x l IH]; intros prev; simpl; [eauto|].
  intros [Hp Hl]%Forall_cons. rewrite Hp. unfold fdiv.
  rewrite (flt_pos_not_zero prev) by done. simpl.
  destruct (IH x Hl) as (rs & -> & Hlen). simpl. eexists; split; [done|]. simpl. lia.
Qed.

Lemma rv_returns_ok v :
  rolling_wf v → ∃ rs, rv_returns v = Ok rs ∧ length rs = pred (length (rv_prices v)).
Proof.
  intros (_&_&Hp). unfold rv_returns. destruct (rv_prices v) as [|p0 l]; [by exists []|].
  by apply returns_from_ok.
Qed.

Lemma py_sum_nonneg xs : Forall (λ x, fnonneg x = true) xs → fnonneg (py_sum xs) = true.
Proof.
  unfold py_sum. assert (fnonneg (flit 0) = true) as H0 by done. revert H0.
  generalize (flit 0). induction xs as [|x xs IH]; intros a Ha Hx; simpl; [done|].
  apply Forall_cons in Hx as [Hx Hxs]. apply IH; [|done]. by apply fadd_nonneg.
Qed.

(** The variance is never negative, so [math.sqrt] has no domain error to raise. *)
Lemma variance_nonneg {L : Libm} {LL : LibmLaws L} r m sq n1 var :
  mapM_res (λ x, pow2 (fsub x m)) r = Ok sq →
  float_of_int (Z.of_nat (length r) - 1) = Ok n1 → (2 ≤ length r)%nat →
  fdiv (py_sum sq) n1 = Ok var → fnonneg var = true.
Proof.
  intros Hsq Hn1 Hlen Hvar. unfold fdiv in Hvar. destruct (is_zero n1); simplify_eq.
  apply SFdiv_nonneg; [|eapply float_of_int_nonneg; [|done]; lia].
  apply py_sum_nonneg. apply mapM_res_ok in Hsq. clear -Hsq LL.
  induction Hsq; constructor; eauto using pow2_nonneg.
Qed.

Lemma sigma_nonneg {L : Libm} {LL : LibmLaws L} v s : rv_sigma v = Ok s → fnonneg s = true.
Proof.
  unfold rv_sigma. intros (r & _ & Hs)%res_bind_ok.
  destruct (Nat.ltb_spec (length r) 2); [naive_solver|].
  apply res_bind_ok in Hs as (n & _ & (m & _ & (sq & Hsq & (n1 & Hn1 & (var & Hvar & Hs)%res_bind_ok)
    %res_bind_ok)%res_bind_ok)%res_bind_ok).
  unfold fsqrt in Hs. destruct (flt var fzero); simplify_eq.
  apply SFsqrt_nonneg. by eapply variance_nonneg.
Qed.

Lemma sigma_short `{Libm} v :
  rolling_wf v → (length (rv_prices v) ≤ 2)%nat → rv_sigma v = Ok fzero.
Proof.
  intros Hv Hl. unfold rv_sigma. destruct (rv_returns_ok v Hv) as (r & -> & Hr). simpl.
  destruct (Nat.ltb_spec (length r) 2); [done|lia].
Qed.

Lemma target_in_band sigma base max k t :
  dynamic_hf_target_bps sigma base max k = Ok t → base ≤ t ≤ max.
Proof.
  unfold dynamic_hf_target_bps. bsplit; [done|].
  intros (? & _ & (? & _ & [=<-])%res_bind_ok)%res_bind_ok. lia.
Qed.

(** ** Claims *)

(** The rolling volatility: from a fresh window of [w] returns, after any stream of prices
    the estimator holds exactly the last [w + 1] positive ones; the returns never divide by
    zero; sigma, when it is a number at all, is never negative ([math.sqrt] has no domain
    error to raise), and it is 0 until three positive prices were seen. *)
Theorem rolling_volatility {L : Libm} {LL : LibmLaws L} w v ps :
  rolling_init w = Ok v →
  let v' := rv_extend v ps in
  let kept := filter (λ p, flt fzero p = true) ps in
  rv_prices v' = lastn (Z.to_nat (w + 1)) kept ∧
  (∃ rs, rv_returns v' = Ok rs ∧ length rs = pred (length (rv_prices v'))) ∧
  (∀ s, rv_sigma v' = Ok s → fnonneg s = true) ∧
  ((length kept ≤ 2)%nat → rv_sigma v' = Ok fzero).
Proof.
  intros Hv v' kept. pose proof (rv_extend_wf v ps (rolling_init_wf w v Hv)) as Hwf.
  unfold rolling_init in Hv. destruct (Z.ltb_spec w 2); [done|]. simplify_eq.
  assert (rv_prices v' = lastn (Z.to_nat (w + 1)) kept) as Hprices by by apply rv_extend_prices.
  split_and!; [done|by apply rv_returns_ok|by apply sigma_nonneg|].
  intros Hk. apply sigma_short; [done|]. fold v'. rewrite Hprices. unfold lastn.
  rewrite length_drop. lia.
Qed.

(** A platform library for concrete runs: the squares are exact products. *)
Definition libm_test : Libm := {|
  math_log := λ _, Ok fzero; math_erfc := λ _, flit 1; pow2 := λ x, Ok (if fnonneg (fmul x x) then fmul x x else fzero);
|}.

#[global] Instance libm_test_laws : LibmLaws libm_test.
Proof. split; [|done]. simpl. intros x y [= <-]. by destruct (fnonneg (fmul x x)) eqn:E. Qed.

Lemma rolling_volatility_witness :
  let v := {| rv_window := 2; rv_prices := [] |} in
  rv_prices (rv_extend v (flit <$> [5; 0; 4; 3; 2])) = lastn 3 (flit <$> [5; 4; 3; 2]).
Proof. apply (@rolling_volatility libm_test libm_test_laws 2). reflexivity. Defined.

(** The dynamic health-factor target always lies in the band the borrower signed, rests at
    the signed floor when there is no volatility, and is refused with a [ValueError] exactly
    on a reversed band. *)
Theorem dynamic_target sigma base max k :
  (∀ t, dynamic_hf_target_bps sigma base max k = Ok t → base ≤ t ≤ max) ∧
  (max < base → ∃ e, dynamic_hf_target_bps sigma base max k = Err e ∧ is_ValueError e = true) ∧
  (base ≤ max → sigma = fzero → 0 ≤ k → is_ok (float_of_int k) = true →
     dynamic_hf_target_bps sigma base max k = Ok base).
Proof.
  split_and!.
  - by apply target_in_band.
  - intros. unfold dynamic_hf_target_bps. destruct (Z.ltb_spec max base); [eauto|lia].
  - intros Hb -> Hk Hok. unfold dynamic_hf_target_bps. destruct (Z.ltb_spec max base); [lia|].
    destruct (float_of_int k) as [kf|] eqn:E; [|done]. simpl.
    assert (int_of_float (fmul kf fzero) = Ok 0) as ->.
    { apply float_of_int_finite in E as (s & m & e & [-> | ->]); done. }
    simpl. f_equal. lia.
Qed.

Lemma dynamic_target_witness : dynamic_hf_target_bps fzero 11000 12500 4000 = Ok 11000.
Proof.
  destruct (dynamic_target fzero 11000 12500 4000) as (_ & _ & H).
  apply H; [lia|reflexivity|lia|vm_compute; reflexivity].
Defined.

(** Nothing bounds the volatility coefficient of a mandate: with [k = 10^309] the
    conversion of [k] to a float overflows, so [dynamic_hf_target_bps] raises [OverflowError]
    whatever the volatility, where a smaller [k] would be clamped to the signed band. *)
Theorem dynamic_target_overflow sigma base max :
  base ≤ max →
  ∃ e, dynamic_hf_target_bps sigma base max (10 ^ 309) = Err e ∧ exn_kind e = OverflowError.
Proof.
  intros. unfold dynamic_hf_target_bps. destruct (Z.ltb_spec max base); [lia|].
  assert (float_of_int (10 ^ 309)
    = Err (Exn OverflowError "int too large to convert to float")) as -> by (vm_compute; reflexivity).
  eauto.
Qed.

Lemma dynamic_target_overflow_witness :
  ∃ e, dynamic_hf_target_bps fzero 11000 12500 (10 ^ 309) = Err e ∧ exn_kind e = OverflowError.
Proof. apply dynamic_target_overflow. lia. Defined.
