(* ===== verification/Events.v ===== *)
(** * The boundary with the outside world

    Everything the program asks of its environment is a request: a JSON-RPC exchange with
    one endpoint, a timed sleep, a clock reading, a job for a worker thread, a call of the
    language model.  The answer to a request is any value of
    its response type, or an exception; no request is given a meaning here, so a theorem
    about a program holds for every behaviour of the chain, the node and the clock.

    [yields q] says whether the coroutine is suspended while [q] is outstanding (another
    coroutine of the event loop may then run); clock readings are synchronous. *)
From S2P Require Import Prelude PyFloat PyText Config State Models AgentModels.

(** The arguments of [LiquidationShieldVault.executeProtection] and the sender. *)
Record exec_args := {
  ea_vault : string;
  ea_params : list sol_value;
  ea_sig : list Z;
  ea_debt_asset : string;
  ea_repay_amount : Z;
  ea_collateral_asset : string;
  ea_amount_in_maximum : Z;
  ea_fee_tier : Z;
  ea_hf_target_bps : Z;
  ea_from : string;
}.

Definition ea_borrower (a : exec_args) : string :=
  match ea_params a with SolAddress b :: _ => b | _ => "" end.

(** The parts of Aave's reserve tuple the source reads: [data[0][0]], [data[8]], [data[10]]. *)
Record reserve_data := { rd_configuration : Z; rd_aToken : string; rd_variable_debt : string }.

Record receipt := { rc_status : option Z; rc_gas_used : option Z }.

Inductive rpc :=
  | GetPool (provider : string)
  | GetPriceOracle (provider : string)
  | GetUserAccountData (pool user : string)
  | GetReserveData (pool asset : string)
  | GetAssetPrice (oracle asset : string)
  | LatestRoundData (feed : string)
  | FeedDecimals (feed : string)
  | GetLatestBlockTimestamp
  | QuoteExactOutputSingle (quoter token_in token_out : string) (amount_out fee : Z)
  | Erc20Decimals (token : string)
  | BalanceOf (token holder : string)
  | Allowance (token owner spender : string)
  | CallExecuteProtection (a : exec_args)                   (* eth_call *)
  | HashRiskParams (vault : string) (params : list sol_value)
  | GetTransactionCount (addr : string)
  | GetChainId
  | GetBlockNumber
  | BuildTransaction (a : exec_args) (nonce chain_id : Z)
  | SendRawTransaction (a : exec_args) (raw : string)
      (* [raw] is what is sent; [a] records the call it was built from *)
  | WaitForTransactionReceipt (hash : string) (timeout : option Z)
  | ApproveTransact (token spender : string) (amount : Z) (from : string)
  | RepayTransact (pool asset : string) (amount rate_mode : Z) (on_behalf_of from : string).

Definition rpc_resp (c : rpc) : Type :=
  match c with
  | GetPool _ | GetPriceOracle _ => string
  | GetUserAccountData _ _ => Z * Z * Z * Z * Z * Z
  | GetReserveData _ _ => reserve_data
  | GetAssetPrice _ _ => Z
  | LatestRoundData _ => Z * Z * Z * Z * Z
  | FeedDecimals _ => Z
  | GetLatestBlockTimestamp => Z
  | QuoteExactOutputSingle _ _ _ _ _ => Z * Z * Z * Z
  | Erc20Decimals _ | BalanceOf _ _ | Allowance _ _ _ => Z
  | CallExecuteProtection _ => unit
  | HashRiskParams _ _ => string
  | GetTransactionCount _ | GetChainId | GetBlockNumber => Z
  | BuildTransaction _ _ _ => string
  | SendRawTransaction _ _ => string
  | WaitForTransactionReceipt _ _ => receipt
  | ApproveTransact _ _ _ _ | RepayTransact _ _ _ _ _ _ => string
  end.

(** *** The language model

    The constants of [agent/prompts.py], by name. *)
Inductive prompt :=
  ANALYST_SYSTEM | STRATEGIST_SYSTEM | TUNER_SYSTEM | AUDITOR_SYSTEM | CHAT_SYSTEM.

(** An element of a message's [tool_calls]; the arguments are strings, as the tools' schemas
    declare. *)
Record tool_call := {
  call_name : string;
  call_args : list (string * string);
  call_id : option string;
}.

(** The messages of [langchain_core.messages] the source builds; the text appended to the
    system prompt is kept apart. *)
Inductive message :=
  | SystemMessage (p : prompt) (suffix : string)
  | HumanMessage (content : string)
  | AIMessage (content : json) (calls : list tool_call)
  | ToolMessage (content : string) (tool_call_id : option string).

(** What a call is bound to: nothing, a schema ([with_structured_output]) or tools. *)
Inductive binding := Plain | AsStrategyChoice | AsTuningChoice | WithTools (names : list string).

(** What a call returns: a message, an instance of the schema, or any other value. *)
Inductive reply :=
  | RMessage (content : json) (calls : list tool_call)
  | RStrategy (c : StrategyChoice)
  | RTuning (c : TuningChoice)
  | ROther (v : json).

Inductive req :=
  | Rpc (endpoint : nat) (c : rpc)
  | Sleep (seconds : f64)      (* asyncio.sleep *)
  | Monotonic                  (* time.monotonic() *)
  | Time                       (* time.time() *)
  | PerfCounter                (* time.perf_counter() *)
  | Uuid4                      (* uuid.uuid4().hex *)
  | ModelCall (b : binding) (msgs : list message) (timeout : f64)
      (* asyncio.wait_for(runnable.ainvoke(msgs), timeout) *)
  | ThreadStart                (* asyncio.to_thread: until the worker thread runs the job *)
  | ThreadJoin.                (* asyncio.to_thread: until the result is back on the loop *)

Definition resp (q : req) : Type :=
  match q with
  | Rpc _ c => rpc_resp c
  | Sleep _ | ThreadStart | ThreadJoin => unit
  | Monotonic | Time | PerfCounter => f64
  | Uuid4 => string
  | ModelCall _ _ _ => reply
  end.

Definition yields (q : req) : bool :=
  match q with
  | Rpc _ _ | Sleep _ | ThreadStart | ThreadJoin | ModelCall _ _ _ => true
  | Monotonic | Time | PerfCounter | Uuid4 => false
  end.

(** How a sleep or a join ends: it raises nothing but the task's cancellation. *)
Inductive sleep_end := Elapsed | Cancelled.

(** What the environment may answer: an RPC exchange, a model call, or a job that does not get
    to run, may raise anything, a clock nothing. *)
Definition answer (q : req) : Type :=
  match q with
  | Rpc _ c => res (rpc_resp c)
  | Sleep _ | ThreadJoin => sleep_end
  | ThreadStart => res unit
  | Monotonic | Time | PerfCounter => f64
  | Uuid4 => string
  | ModelCall _ _ _ => res reply
  end.

Definition cancelled : exn := Exn CancelledError "".

(** The outcome of the [await] as the coroutine sees it. *)
Definition outcome_of (q : req) : answer q → res (resp q) :=
  match q with
  | Rpc _ _ | ThreadStart | ModelCall _ _ _ => λ a, a
  | Sleep _ | ThreadJoin => λ a, match a with Elapsed => Ok tt | Cancelled => Err cancelled end
  | Monotonic | Time | PerfCounter | Uuid4 => λ a, Ok a
  end.

Record event := Ev { ev_req : req; ev_ans : answer ev_req }.

(** Requests that put a transaction on the chain. *)
Definition broadcasts (q : req) : bool :=
  match q with
  | Rpc _ (SendRawTransaction _ _) | Rpc _ (ApproveTransact _ _ _ _)
  | Rpc _ (RepayTransact _ _ _ _ _ _) => true
  | _ => false
  end.

(** The borrower on whose behalf a transaction is built or sent. *)
Definition on_behalf (q : req) : option string :=
  match q with
  | Rpc _ (BuildTransaction a _ _) | Rpc _ (SendRawTransaction a _) => Some (ea_borrower a)
  | Rpc _ (ApproveTransact _ _ _ from) => Some from
  | Rpc _ (RepayTransact _ _ _ _ b _) => Some b
  | _ => None
  end.

Definition is_eth_call (q : req) : bool :=
  match q with Rpc _ (CallExecuteProtection _) => true | _ => false end.
