(* ===== verification/Io.v ===== *)
(** * Effectful programs

    A coroutine of the source is a tree of type [io S A]: it reads and writes the shared
    Python objects (the state [S]), asks the environment ([Await]), raises, or returns.
    Three semantics are given:
    - [exec R]: all the executions of one coroutine, where at each suspension the other
      coroutines may change the state according to the relation [R];
    - [run h]: the execution against one concrete environment, a function, for witnesses;
    - [pstep]: an event loop interleaving any number of coroutines.
    [wp] computes the weakest precondition for [exec]; [safe] is its rely-guarantee
    version with ghost ownership, for the event loop. *)
From S2P Require Import Prelude PyFloat Config State Models Events.

Inductive io (S A : Type) : Type :=
  | Ret (a : A)
  | Raise (e : exn)
  | Get (k : S → io S A)
  | Put (s : S) (p : io S A)
  | Await (q : req) (k : answer q → io S A).
Arguments Ret {S A} a.
Arguments Raise {S A} e.
Arguments Get {S A} k.
Arguments Put {S A} s p.
Arguments Await {S A} q k.

Section combinators.
Context {S : Type}.

Fixpoint io_bind_ {A B} (p : io S A) (f : A → io S B) : io S B :=
  match p with
  | Ret a => f a
  | Raise e => Raise e
  | Get k => Get (λ s, io_bind_ (k s) f)
  | Put s p => Put s (io_bind_ p f)
  | Await q k => Await q (λ r, io_bind_ (k r) f)
  end.

(** [try: p  except BaseException as e: h e]; the filters below re-raise. *)
Fixpoint catch {A} (p : io S A) (h : exn → io S A) : io S A :=
  match p with
  | Ret a => Ret a
  | Raise e => h e
  | Get k => Get (λ s, catch (k s) h)
  | Put s p => Put s (catch p h)
  | Await q k => Await q (λ r, catch (k r) h)
  end.
End combinators.

#[global] Instance io_ret S : MRet (io S) := λ A, Ret.
#[global] Instance io_bind S : MBind (io S) := λ A B f p, io_bind_ p f.

Section operations.
Context {S : Type}.

Definition lift {A} (r : res A) : io S A :=
  match r with Ok a => Ret a | Err e => Raise e end.

Definition await (q : req) : io S (resp q) := Await q (λ a, lift (outcome_of q a)).
Definition gets {A} (f : S → A) : io S A := Get (λ s, Ret (f s)).
Definition modify (f : S → S) : io S unit := Get (λ s, Put (f s) (Ret tt)).

(** [except Exception as e: h e] *)
Definition try_except {A} (p : io S A) (h : exn → io S A) : io S A :=
  catch p (λ e, if is_Exception e then h e else Raise e).

(** [except C as e: h e] for a class given by its test. *)
Definition try_catch {A} (p : io S A) (test : exn → bool) (h : exn → io S A) : io S A :=
  catch p (λ e, if test e then h e else Raise e).

(** [try: p  finally: f]; an exception of [f] replaces the outcome of [p]. *)
Definition finally {A} (p : io S A) (f : io S unit) : io S A :=
  r ← catch (a ← p; Ret (Ok a)) (λ e, Ret (Err e)); _ ← f; lift r.

Definition rpc_ (ep : nat) (c : rpc) : io S (rpc_resp c) := await (Rpc ep c).
End operations.

(** ** Executions *)
Section exec.
Context {S : Type} (R : S → S → Prop).

(** What may happen to the state while [q] is outstanding. *)
Definition rely (q : req) (s s' : S) : Prop := if yields q then R s s' else s' = s.

Inductive exec {A} : io S A → S → list event → res A → S → Prop :=
  | exec_ret a s : exec (Ret a) s [] (Ok a) s
  | exec_raise e s : exec (Raise e) s [] (Err e) s
  | exec_get k s tr r s' : exec (k s) s tr r s' → exec (Get k) s tr r s'
  | exec_put s1 p s tr r s' : exec p s1 tr r s' → exec (Put s1 p) s tr r s'
  | exec_await q ans k s s1 tr r s' :
      rely q s s1 → exec (k ans) s1 tr r s' → exec (Await q k) s (Ev q ans :: tr) r s'.

Fixpoint wp {A} (p : io S A) (Q : list event → res A → S → Prop) (s : S) : Prop :=
  match p with
  | Ret a => Q [] (Ok a) s
  | Raise e => Q [] (Err e) s
  | Get k => wp (k s) Q s
  | Put s' p => wp p Q s'
  | Await q k => ∀ ans s1, rely q s s1 → wp (k ans) (λ tr, Q (Ev q ans :: tr)) s1
  end.

Lemma wp_exec {A} (p : io S A) Q s :
  wp p Q s → ∀ tr r s', exec p s tr r s' → Q tr r s'.
Proof.
  intros Hwp tr r s' He. revert Q Hwp.
  induction He as [| |k s tr r s' _ IH|s1 p s tr r s' _ IH|q ans k s s1 tr r s' HR _ IH];
    intros Q Hwp; simpl in *; auto.
  - by apply (IH Q).
  - by apply (IH Q).
  - by apply (IH (λ tr, Q (Ev q ans :: tr))), Hwp.
Qed.

Lemma exec_wp {A} (p : io S A) Q s :
  (∀ tr r s', exec p s tr r s' → Q tr r s') → wp p Q s.
Proof.
  revert Q s. induction p; intros Q s0 HQ; simpl; eauto using exec.
Qed.

Lemma wp_iff {A} (p : io S A) Q s :
  wp p Q s ↔ ∀ tr r s', exec p s tr r s' → Q tr r s'.
Proof. split; [apply wp_exec|apply exec_wp]. Qed.

Lemma wp_self {A} (p : io S A) s : wp p (λ tr r s', exec p s tr r s') s.
Proof. apply exec_wp. auto. Qed.

Lemma wp_mono {A} (p : io S A) (Q Q' : list event → res A → S → Prop) s :
  (∀ tr r s', Q tr r s' → Q' tr r s') → wp p Q s → wp p Q' s.
Proof. rewrite !wp_iff. eauto. Qed.

Lemma wp_conj {A} (p : io S A) (Q Q' : list event → res A → S → Prop) s :
  wp p Q s → wp p Q' s → wp p (λ tr r s', Q tr r s' ∧ Q' tr r s') s.
Proof. rewrite !wp_iff. eauto. Qed.

Lemma wp_bind {A B} (p : io S A) (f : A → io S B) Q s :
  wp (a ← p; f a) Q s ↔
  wp p (λ tr r s', match r with
                   | Ok a => wp (f a) (λ tr', Q (tr ++ tr')) s'
                   | Err e => Q tr (Err e) s'
                   end) s.
Proof.
  unfold mbind, io_bind. revert Q s.
  induction p as [a|e|k IH|s1 p IH|q k IH]; intros Q s; simpl; try done.
  split; intros Hwp ans s1 HR; by apply (IH ans (λ tr, Q (Ev q ans :: tr)) s1), Hwp.
Qed.

Lemma wp_catch {A} (p : io S A) (h : exn → io S A) Q s :
  wp (catch p h) Q s ↔
  wp p (λ tr r s', match r with
                   | Ok a => Q tr (Ok a) s'
                   | Err e => wp (h e) (λ tr', Q (tr ++ tr')) s'
                   end) s.
Proof.
  revert Q s. induction p as [a|e|k IH|s1 p IH|q k IH]; intros Q s; simpl; try done.
  split; intros Hwp ans s1 HR; by apply (IH ans (λ tr, Q (Ev q ans :: tr)) s1), Hwp.
Qed.

Lemma wp_try_except {A} (p : io S A) h Q s :
  wp (try_except p h) Q s ↔
  wp p (λ tr r s', match r with
                   | Ok a => Q tr (Ok a) s'
                   | Err e => if is_Exception e then wp (h e) (λ tr', Q (tr ++ tr')) s'
                              else Q tr (Err e) s'
                   end) s.
Proof.
  unfold try_except. rewrite wp_catch.
  split; apply wp_mono; intros tr [a|e] s'; try done; destruct (is_Exception e); simpl;
    by rewrite ?app_nil_r.
Qed.

Lemma wp_try_catch {A} (p : io S A) test h Q s :
  wp (try_catch p test h) Q s ↔
  wp p (λ tr r s', match r with
                   | Ok a => Q tr (Ok a) s'
                   | Err e => if test e then wp (h e) (λ tr', Q (tr ++ tr')) s'
                              else Q tr (Err e) s'
                   end) s.
Proof.
  unfold try_catch. rewrite wp_catch.
  split; apply wp_mono; intros tr [a|e] s'; try done; destruct (test e); simpl;
    by rewrite ?app_nil_r.
Qed.

Lemma wp_lift {A} (r : res A) Q s : wp (lift r) Q s ↔ Q [] r s.
Proof. by destruct r. Qed.

Lemma wp_finally {A} (p : io S A) f Q s :
  wp (finally p f) Q s ↔
  wp p (λ tr r s', wp f (λ tr' r' s'', match r' with
                                       | Ok _ => Q (tr ++ tr') r s''
                                       | Err e => Q (tr ++ tr') (Err e) s''
                                       end) s') s.
Proof.
  unfold finally. rewrite wp_bind, wp_catch, wp_bind.
  split; apply wp_mono; intros tr [a|e] s'; simpl; rewrite ?app_nil_r, wp_bind;
    apply wp_mono; intros tr' [[]|e'] s''; cbn [wp lift];
    rewrite ?app_nil_r; done.
Qed.

Lemma wp_ret {A} (a : A) Q s : wp (Ret a) Q s ↔ Q [] (Ok a) s.
Proof. done. Qed.

Lemma wp_raise {A} e Q s : wp (@Raise S A e) Q s ↔ Q [] (Err e) s.
Proof. done. Qed.

Lemma wp_gets {A} (f : S → A) Q s : wp (gets f) Q s ↔ Q [] (Ok (f s)) s.
Proof. done. Qed.

Lemma wp_modify (f : S → S) Q s : wp (modify f) Q s ↔ Q [] (Ok tt) (f s).
Proof. done. Qed.

Lemma wp_await q Q s :
  wp (await q) Q s ↔ ∀ ans s1, rely q s s1 → Q [Ev q ans] (outcome_of q ans) s1.
Proof.
  simpl. split; intros HQ ans s1 HR; specialize (HQ ans s1 HR); by rewrite ?wp_lift in *.
Qed.

Lemma wp_rpc ep c (Q : list event → res (rpc_resp c) → S → Prop) s :
  wp (rpc_ ep c) Q s ↔
  ∀ (ans : res (rpc_resp c)) s1, R s s1 → Q [Ev (Rpc ep c) ans] ans s1.
Proof. apply (wp_await (Rpc ep c)). Qed.

(** A clock reading is synchronous. *)
Lemma wp_monotonic {A} (f : f64 → io S A) Q s :
  (∀ t, wp (f t) (λ tr, Q (Ev Monotonic t :: tr)) s) → wp (t ← await Monotonic; f t) Q s.
Proof. intros H t s1 Hr. cbn in Hr. subst s1. apply H. Qed.
End exec.

Arguments wp : simpl never.

(** ** Properties of results

    [returns p Φ]: whatever the environment and the other coroutines do, a value returned by
    [p] satisfies [Φ]. *)
Section returns.
Context {S : Type}.

Fixpoint returns {A} (p : io S A) (Φ : A → Prop) : Prop :=
  match p with
  | Ret a => Φ a
  | Raise _ => True
  | Get k => ∀ s, returns (k s) Φ
  | Put _ p => returns p Φ
  | Await _ k => ∀ ans, returns (k ans) Φ
  end.

Lemma returns_exec {A} (p : io S A) Φ R s tr a s' :
  returns p Φ → exec R p s tr (Ok a) s' → Φ a.
Proof.
  intros Hp He. remember (Ok a) as r eqn:Er. revert Hp.
  induction He as [| |k s tr r s' _ IH|s1 p s tr r s' _ IH|q ans k s s1 tr r s' HR _ IH];
    simplify_eq; simpl; intros; auto.
Qed.

Lemma returns_mono {A} (p : io S A) (Φ Ψ : A → Prop) :
  returns p Φ → (∀ a, Φ a → Ψ a) → returns p Ψ.
Proof. intros Hp HΨ. induction p; simpl in *; auto. Qed.

Lemma returns_any {A} (p : io S A) (Φ : A → Prop) : (∀ a, Φ a) → returns p Φ.
Proof. intros HΦ. induction p; simpl; auto. Qed.

Lemma returns_bind {A B} (p : io S A) (f : A → io S B) (Ψ : A → Prop) Φ :
  returns p Ψ → (∀ a, Ψ a → returns (f a) Φ) → returns (a ← p; f a) Φ.
Proof. unfold mbind, io_bind. intros Hp Hf. induction p; simpl in *; auto. Qed.

Lemma returns_bind_any {A B} (p : io S A) (f : A → io S B) Φ :
  (∀ a, returns (f a) Φ) → returns (a ← p; f a) Φ.
Proof. intros. apply (returns_bind _ _ (λ _, True)); [by apply returns_any|auto]. Qed.

Lemma returns_lift {A} (r : res A) (Φ : A → Prop) : (∀ a, r = Ok a → Φ a) → returns (lift r) Φ.
Proof. destruct r; simpl; auto. Qed.

Lemma returns_lift_bind {A B} (r : res A) (f : A → io S B) Φ :
  (∀ a, r = Ok a → returns (f a) Φ) → returns (a ← lift r; f a) Φ.
Proof. intros. apply (returns_bind _ _ (λ a, r = Ok a)); [by apply returns_lift|done]. Qed.

Lemma returns_catch {A} (p : io S A) h Φ :
  returns p Φ → (∀ e, returns (h e) Φ) → returns (catch p h) Φ.
Proof. intros Hp Hh. induction p; simpl in *; auto. Qed.

Lemma returns_try_except {A} (p : io S A) h Φ :
  returns p Φ → (∀ e, returns (h e) Φ) → returns (try_except p h) Φ.
Proof. intros. apply returns_catch; [done|]. intros e. by destruct (is_Exception e). Qed.

Lemma returns_try_catch {A} (p : io S A) t h Φ :
  returns p Φ → (∀ e, returns (h e) Φ) → returns (try_catch p t h) Φ.
Proof. intros. apply returns_catch; [done|]. intros e. by destruct (t e). Qed.
End returns.

(** Without interference nothing changes the state but the program. *)
Abbreviation seq_exec := (exec eq).
Abbreviation seq_wp := (wp eq).

(** ** Concrete runs *)
Definition handler (W : Type) : Type := ∀ q : req, W → answer q * W.

Section run.
Context {S W : Type} (h : handler W).

Fixpoint run {A} (p : io S A) (s : S) (w : W) : list event * res A * S * W :=
  match p with
  | Ret a => ([], Ok a, s, w)
  | Raise e => ([], Err e, s, w)
  | Get k => run (k s) s w
  | Put s' p => run p s' w
  | Await q k =>
      let '(ans, w') := h q w in
      let '(tr, r, s', w'') := run (k ans) s w' in (Ev q ans :: tr, r, s', w'')
  end.

Lemma run_exec {A} (R : S → S → Prop) `{!Reflexive R} (p : io S A) s w tr r s' w' :
  run p s w = (tr, r, s', w') → exec R p s tr r s'.
Proof.
  revert s w tr r s' w'.
  induction p as [a|e|k IH|s1 p IH|q k IH]; intros s w tr r s' w' H; simpl in H.
  - simplify_eq. constructor.
  - simplify_eq. constructor.
  - constructor. by eapply IH.
  - constructor. by eapply IH.
  - destruct (h q w) as [ans w1]. destruct (run (k ans) s w1) as [[[tr1 r1] s1] w2] eqn:E.
    simplify_eq. apply (exec_await _ _ _ _ _ s); [|by eapply IH].
    unfold rely. by destruct (yields q).
Qed.
End run.

(** Every program terminates, whatever the environment answers. *)
Lemma exec_total {S A} (R : S → S → Prop) `{!Reflexive R} (p : io S A) (h : handler unit) s :
  ∃ tr r s', exec R p s tr r s'.
Proof.
  destruct (run h p s tt) as [[[tr r] s'] w'] eqn:E. eauto using run_exec.
Qed.
