(* ===== verification/Logic.v ===== *)
(** * Program logics for coroutines

    [guar G P]: every state write of the program is a [G] step and every request satisfies
    [P], whatever the environment does.  It is how a read-only component is characterised.

    [safe]: rely-guarantee with ghost ownership.  A coroutine owns a ghost resource [g]; each
    write may trade it ([step_ok]), each request must be allowed by it ([req_ok]), and after
    a suspension only what the resource protects is known of the state ([own]).
    [pool_invariant] turns the safety of each coroutine into an invariant of every reachable
    configuration of the event loop. *)
From S2P Require Import Prelude PyFloat Config State Models Events Io.

Section guar.
Context {S : Type} (G : S → S → Prop) (P : req → Prop).

Fixpoint guar {A} (p : io S A) (s : S) : Prop :=
  match p with
  | Ret _ | Raise _ => True
  | Get k => guar (k s) s
  | Put s' p => G s s' ∧ guar p s'
  | Await q k => P q ∧ ∀ ans s', guar (k ans) s'
  end.

Lemma guar_bind {A B} (p : io S A) (f : A → io S B) s :
  guar p s → (∀ a s', guar (f a) s') → guar (a ← p; f a) s.
Proof.
  unfold mbind, io_bind. intros Hp Hf. revert s Hp.
  induction p as [a|e|k IH|s1 p IH|q k IH]; intros s Hp; simpl in *; auto.
  - naive_solver.
  - destruct Hp as [? Hp]. split; [done|]. intros ans s'. by apply IH.
Qed.

Lemma guar_catch {A} (p : io S A) h s :
  guar p s → (∀ e s', guar (h e) s') → guar (catch p h) s.
Proof.
  intros Hp Hf. revert s Hp.
  induction p as [a|e|k IH|s1 p IH|q k IH]; intros s Hp; simpl in *; auto.
  - naive_solver.
  - destruct Hp as [? Hp]. split; [done|]. intros ans s'. by apply IH.
Qed.

Lemma guar_try_except {A} (p : io S A) h s :
  guar p s → (∀ e s', guar (h e) s') → guar (try_except p h) s.
Proof. intros. apply guar_catch; [done|]. intros e s'. by destruct (is_Exception e). Qed.

Lemma guar_try_catch {A} (p : io S A) test h s :
  guar p s → (∀ e s', guar (h e) s') → guar (try_catch p test h) s.
Proof. intros. apply guar_catch; [done|]. intros e s'. by destruct (test e). Qed.

Lemma guar_lift {A} (r : res A) s : guar (lift r) s.
Proof. by destruct r. Qed.

Lemma guar_lift_bind {A B} (r : res A) (f : A → io S B) s :
  (∀ a, r = Ok a → guar (f a) s) → guar (a ← lift r; f a) s.
Proof. destruct r; simpl; auto. Qed.

Lemma guar_ret {A} (a : A) s : guar (Ret a) s.
Proof. done. Qed.

Lemma guar_raise {A} e s : guar (@Raise S A e) s.
Proof. done. Qed.

Lemma guar_gets {A} (f : S → A) s : guar (gets f) s.
Proof. done. Qed.

Lemma guar_modify f s : (∀ s, G s (f s)) → guar (modify f) s.
Proof. by simpl. Qed.

Lemma guar_await q s : P q → guar (await q) s.
Proof. intros. split; [done|]. intros. apply guar_lift. Qed.

(** Sequentially, a guarantee relates the initial to the final state. *)
Lemma guar_exec `{!PreOrder G} {A} (p : io S A) s tr r s' :
  exec G p s tr r s' → guar p s → G s s' ∧ Forall (λ ev, P (ev_req ev)) tr.
Proof.
  induction 1 as [| |k s tr r s' _ IH|s1 p s tr r s' _ IH|q ans k s s1 tr r s' HR _ IH];
    simpl; intros Hg.
  - split; [reflexivity|constructor].
  - split; [reflexivity|constructor].
  - auto.
  - destruct Hg as [? Hg]. destruct (IH Hg). split; [by etransitivity|done].
  - destruct Hg as [? Hg]. destruct (IH (Hg ans s1)) as [HG ?]. split; [|by constructor].
    unfold rely in HR. destruct (yields q); subst; [by etransitivity|done].
Qed.

(** Whatever the interference, the requests of a trace are the guaranteed ones. *)
Lemma guar_trace (R : S → S → Prop) {A} (p : io S A) s tr r s' :
  guar p s → exec R p s tr r s' → Forall (λ ev, P (ev_req ev)) tr.
Proof.
  intros Hp He. revert Hp.
  induction He as [| |k s tr r s' _ IH|s1 p s tr r s' _ IH|q ans k s s1 tr r s' HR _ IH];
    simpl; intros Hg; try constructor; naive_solver.
Qed.
End guar.

Lemma exec_rely_mono {S A} (R R' : S → S → Prop) (p : io S A) s tr r s' :
  (∀ a b, R a b → R' a b) → exec R p s tr r s' → exec R' p s tr r s'.
Proof.
  intros HR. induction 1 as [| | | |q ans k s s1 tr r s' H _ IH]; try by constructor.
  econstructor; [|done]. unfold rely in *. destruct (yields q); eauto.
Qed.

#[export] Hint Resolve guar_ret guar_raise guar_lift guar_gets : finax.

(** ** Ghost ownership *)
Section safe.
Context {S G : Type}.
Context (own : G → S → Prop) (step_ok : G → S → G → S → Prop) (req_ok : G → req → Prop).

Fixpoint safe {A} (p : io S A) (Q : res A → G → S → Prop) (g : G) (s : S) : Prop :=
  match p with
  | Ret a => Q (Ok a) g s
  | Raise e => Q (Err e) g s
  | Get k => safe (k s) Q g s
  | Put s' p => ∃ g', step_ok g s g' s' ∧ safe p Q g' s'
  | Await q k =>
      req_ok g q ∧
      ∀ ans s', (if yields q then own g s' else s' = s) → safe (k ans) Q g s'
  end.

Lemma safe_mono {A} (p : io S A) (Q Q' : res A → G → S → Prop) g s :
  safe p Q g s → (∀ r g' s', Q r g' s' → Q' r g' s') → safe p Q' g s.
Proof.
  intros Hp HQ. revert g s Hp.
  induction p as [a|e|k IH|s1 p IH|q k IH]; intros g s Hp; simpl in *; auto.
  - naive_solver.
  - destruct Hp as [? Hp]. split; [done|]. intros. by apply IH, Hp.
Qed.

Lemma safe_bind {A B} (p : io S A) (f : A → io S B) Q g s :
  safe p (λ r g' s', match r with Ok a => safe (f a) Q g' s' | Err e => Q (Err e) g' s' end) g s →
  safe (a ← p; f a) Q g s.
Proof.
  unfold mbind, io_bind. revert g s.
  induction p as [a|e|k IH|s1 p IH|q k IH]; intros g s Hp; simpl in *; auto.
  - naive_solver.
  - destruct Hp as [? Hp]. split; [done|]. intros. by apply IH, Hp.
Qed.

Lemma safe_catch {A} (p : io S A) h Q g s :
  safe p (λ r g' s', match r with Ok a => Q (Ok a) g' s' | Err e => safe (h e) Q g' s' end) g s →
  safe (catch p h) Q g s.
Proof.
  revert g s. induction p as [a|e|k IH|s1 p IH|q k IH]; intros g s Hp; simpl in *; auto.
  - naive_solver.
  - destruct Hp as [? Hp]. split; [done|]. intros. by apply IH, Hp.
Qed.

Lemma safe_try_except {A} (p : io S A) h Q g s :
  safe p (λ r g' s', match r with
                     | Ok a => Q (Ok a) g' s'
                     | Err e => if is_Exception e then safe (h e) Q g' s' else Q (Err e) g' s'
                     end) g s →
  safe (try_except p h) Q g s.
Proof.
  intros Hp. apply safe_catch. eapply safe_mono; [done|].
  intros [a|e] g' s'; [done|]. by destruct (is_Exception e).
Qed.

Lemma safe_finally {A} (p : io S A) f Q g s :
  safe p (λ r g' s', safe f (λ r' g'' s'', match r' with
                                           | Ok _ => Q r g'' s''
                                           | Err e => Q (Err e) g'' s''
                                           end) g' s') g s →
  safe (finally p f) Q g s.
Proof.
  intros Hp. unfold finally. apply safe_bind, safe_catch, safe_bind.
  eapply safe_mono; [done|]. intros [a|e] g' s' H; simpl; apply safe_bind;
    (eapply safe_mono; [done|]); by intros [[]|e'].
Qed.

Lemma safe_lift {A} (r : res A) (Q : res A → G → S → Prop) g s : Q r g s → safe (lift r) Q g s.
Proof. by destruct r. Qed.

Lemma safe_returns {A} (p : io S A) Φ (Q : res A → G → S → Prop) g s :
  returns p Φ →
  safe p (λ r g' s', (∀ a, r = Ok a → Φ a) → Q r g' s') g s → safe p Q g s.
Proof.
  revert g s. induction p as [a|e|k IH|s1 p IH|q k IH]; intros g s HΦ Hp; simpl in *; auto.
  - apply Hp. naive_solver.
  - naive_solver.
  - naive_solver.
  - destruct Hp as [? Hp]. split; [done|]. intros. by apply IH, Hp.
Qed.

(** A clock reading suspends nothing. *)
Lemma safe_monotonic {A} (f : f64 → io S A) Q g s :
  req_ok g Monotonic → (∀ t, safe (f t) Q g s) → safe (t ← await Monotonic; f t) Q g s.
Proof. intros Hq H. split; [done|]. intros t s1 Hs1. cbn in Hs1. subst s1. apply H. Qed.

(** Without interference, a safe program ends in its postcondition, for any invariant that
    gives ownership and survives its steps. *)
Lemma safe_seq_exec {A} (I : G → S → Prop) (p : io S A) Q g s tr r s' :
  (∀ g s, I g s → own g s) → (∀ g s g' s', I g s → step_ok g s g' s' → I g' s') →
  safe p Q g s → I g s → exec eq p s tr r s' → ∃ g', I g' s' ∧ Q r g' s'.
Proof.
  intros Hown Hstep Hp HI He. revert g Hp HI.
  induction He as [| |k s tr r s' _ IH|s1 p s tr r s' _ IH|q ans k s s1 tr r s' HR _ IH];
    simpl; intros g Hp HI; eauto.
  - destruct Hp as (g' & ? & ?). eauto.
  - destruct Hp as [_ Hp]. assert (s1 = s) as ->.
    { unfold rely in HR. by destruct (yields q). }
    apply (IH g); [|done]. apply Hp. destruct (yields q); [by apply Hown|done].
Qed.

(** A program whose writes satisfy a guarantee that trades nothing keeps its ghost. *)
Lemma guar_safe {A} (GG : S → S → Prop) P (p : io S A) g s :
  (∀ a b, own g a → GG a b → step_ok g a g b ∧ own g b) → (∀ q, P q → req_ok g q) →
  own g s → guar GG P p s → safe p (λ _ g' s', g' = g ∧ own g s') g s.
Proof.
  intros HG HP. revert s.
  induction p as [a|e|k IH|s1 p IH|q k IH]; intros s Hs Hp; simpl in *; auto.
  - destruct Hp as [H Hp]. destruct (HG _ _ Hs H). exists g. auto.
  - destruct Hp as [H Hp]. split; [auto|]. intros ans s' Hs'. apply IH; [|auto].
    destruct (yields q); subst; auto.
Qed.
End safe.

(** ** The event loop

    A configuration is the list of coroutines (each one finished or suspended at a request)
    and the shared state.  A coroutine runs without interruption from one suspension to the
    next ([segment]). *)
Inductive segment {S A} : io S A → S → io S A → S → Prop :=
  | seg_ret a s : segment (Ret a) s (Ret a) s
  | seg_raise e s : segment (Raise e) s (Raise e) s
  | seg_yield q k s : yields q = true → segment (Await q k) s (Await q k) s
  | seg_sync q k ans s p' s' :
      yields q = false → segment (k ans) s p' s' → segment (Await q k) s p' s'
  | seg_get k s p' s' : segment (k s) s p' s' → segment (Get k) s p' s'
  | seg_put s1 p s p' s' : segment p s1 p' s' → segment (Put s1 p) s p' s'.

(** Coroutines of any result type live in one pool. *)
Record task (S : Type) := Task { task_type : Type; task_prog : io S task_type }.
Arguments Task {S} _ _.
Arguments task_type {S} _.
Arguments task_prog {S} _.

Section pool.
Context {S : Type} (entry : task S → Prop).

(** [entry] are the coroutines that may be started: requests, worker ticks. *)
Inductive pstep : list (task S) * S → list (task S) * S → Prop :=
  | pstep_start ts s A (p p' : io S A) s' :
      entry (Task A p) → segment p s p' s' → pstep (ts, s) (ts ++ [Task A p'], s')
  | pstep_resume ts s i A q k ans (p' : io S A) s' :
      ts !! i = Some (Task A (Await q k)) → yields q = true →
      segment (k ans) s p' s' → pstep (ts, s) (<[i := Task A p']> ts, s').

Definition preach (s0 : S) (c : list (task S) * S) : Prop := rtc pstep ([], s0) c.
End pool.

Section adequacy.
Context {S G : Type} (entry : task S → Prop).
Context (own : G → S → Prop) (step_ok : G → S → G → S → Prop) (req_ok : G → req → Prop).
Context (compat : list G → S → Prop) (g0 : G) (fin : G → Prop).

Hypothesis compat_own : ∀ gs s i g, compat gs s → gs !! i = Some g → own g s.
Hypothesis compat_start : ∀ gs s, compat gs s → compat (gs ++ [g0]) s.
Hypothesis compat_step : ∀ gs s i g g' s',
  compat gs s → gs !! i = Some g → step_ok g s g' s' → compat (<[i := g']> gs) s'.
Hypothesis entry_safe : ∀ t s,
  entry t → own g0 s → safe own step_ok req_ok (task_prog t) (λ _ g _, fin g) g0 s.

Definition task_safe (t : task S) (g : G) : Prop :=
  ∀ s, own g s → safe own step_ok req_ok (task_prog t) (λ _ g _, fin g) g s.

Definition pool_ok (c : list (task S) * S) : Prop :=
  ∃ gs, compat gs c.2 ∧ Forall2 task_safe c.1 gs.

(** A segment run by the owner of ghost [i] keeps the ghosts compatible. *)
Lemma segment_safe {A} (p : io S A) s p' s' gs i g :
  segment p s p' s' → compat gs s → gs !! i = Some g →
  safe own step_ok req_ok p (λ _ g _, fin g) g s →
  ∃ g', compat (<[i := g']> gs) s' ∧ task_safe (Task A p') g'.
Proof.
  intros Hseg. revert gs g.
  induction Hseg as [a s|e s|q k s Hy|q k ans s p' s' Hy Hseg IH|k s p' s' Hseg IH|s1 p s p' s' Hseg IH];
    intros gs g Hc Hi Hp; simpl in *.
  - exists g. rewrite list_insert_id by done. split; [done|]. by intros ? _.
  - exists g. rewrite list_insert_id by done. split; [done|]. by intros ? _.
  - exists g. rewrite list_insert_id by done. split; [done|]. intros s1 Hs1. simpl.
    destruct Hp as [? Hp]. split; [done|]. rewrite Hy in *. auto.
  - destruct Hp as [? Hp]. rewrite Hy in Hp. eapply IH; eauto.
  - eauto.
  - destruct Hp as (g1 & Hst & Hp).
    destruct (IH (<[i := g1]> gs) g1) as (g' & Hc' & ?); eauto.
    { by apply list_lookup_insert_eq, lookup_lt_Some with g. }
    exists g'. by rewrite list_insert_insert_eq in Hc'.
Qed.

Lemma pool_ok_step c c' : pool_ok c → pstep entry c c' → pool_ok c'.
Proof.
  intros (gs & Hc & Hts) Hstep.
  destruct Hstep as [ts s A p p' s' He Hseg|ts s i A q k ans p' s' Hi Hy Hseg]; simpl in *.
  - assert ((gs ++ [g0]) !! length gs = Some g0) as Hl by by rewrite list_lookup_middle.
    assert (safe own step_ok req_ok p (λ _ g _, fin g) g0 s) as Hp.
    { apply (entry_safe (Task A p)); [done|]. eapply (compat_own (gs ++ [g0])); eauto. }
    destruct (segment_safe p s p' s' (gs ++ [g0]) (length gs) g0) as (g' & Hc' & Ht'); auto.
    exists (gs ++ [g']). rewrite insert_app_r_alt, Nat.sub_diag in Hc' by done. simpl in Hc'.
    split; [done|]. apply Forall2_app; [done|]. by repeat constructor.
  - destruct (Forall2_lookup_l _ _ _ _ _ Hts Hi) as (g & Hg & Ht).
    assert (own g s) as Hown by eauto.
    pose proof (Ht s Hown) as Hs. simpl in Hs. destruct Hs as [_ Hs]. rewrite Hy in Hs.
    destruct (segment_safe (k ans) s p' s' gs i g) as (g' & Hc' & Ht'); auto.
    exists (<[i := g']> gs). split; [done|]. by apply Forall2_insert.
Qed.

Lemma pool_ok_rtc c c' : pool_ok c → rtc (pstep entry) c c' → pool_ok c'.
Proof. intros Hc Hr. revert Hc. induction Hr; eauto using pool_ok_step. Qed.

Lemma pool_invariant s0 c : compat [] s0 → preach entry s0 c → pool_ok c.
Proof. intros H0. apply pool_ok_rtc. exists []. by split; [|constructor]. Qed.

(** In a reachable configuration a suspended coroutine owns what its request needs. *)
Lemma pool_request c i A q k gs :
  compat gs c.2 → Forall2 task_safe c.1 gs → c.1 !! i = Some (Task A (Await q k)) →
  ∃ g, gs !! i = Some g ∧ req_ok g q.
Proof.
  intros Hc Hts Hi. destruct (Forall2_lookup_l _ _ _ _ _ Hts Hi) as (g & Hg & Ht).
  exists g. split; [done|]. assert (own g c.2) as Hown by eauto. by destruct (Ht _ Hown).
Qed.

(** A coroutine that has ended owns no more than [fin] allows. *)
Definition ended {A} (p : io S A) : Prop := match p with Ret _ | Raise _ => True | _ => False end.

Lemma pool_ended c i t gs :
  compat gs c.2 → Forall2 task_safe c.1 gs → c.1 !! i = Some t → ended (task_prog t) →
  ∃ g, gs !! i = Some g ∧ fin g.
Proof.
  intros Hc Hts Hi He. destruct (Forall2_lookup_l _ _ _ _ _ Hts Hi) as (g & Hg & Ht).
  exists g. split; [done|]. assert (own g c.2) as Hown by eauto. specialize (Ht _ Hown).
  by destruct (task_prog t).
Qed.
End adequacy.

(** ** Concrete runs of one coroutine on the loop *)
Section drive.
Context {S : Type} (h : ∀ q, answer q).

Fixpoint run_segment {A} (p : io S A) (s : S) : io S A * S :=
  match p with
  | Get k => run_segment (k s) s
  | Put s1 p => run_segment p s1
  | Await q k => if yields q then (Await q k, s) else run_segment (k (h q)) s
  | p => (p, s)
  end.

(** Start, then [n] resumptions. *)
Fixpoint drive {A} (n : nat) (p : io S A) (s : S) : io S A * S :=
  match n, run_segment p s with
  | Datatypes.S n, (Await q k, s1) => drive n (k (h q)) s1
  | _, c => c
  end.

Lemma run_segment_ok {A} (p : io S A) s : segment p s (run_segment p s).1 (run_segment p s).2.
Proof.
  revert s. induction p as [a|e|k IH|s1 p IH|q k IH]; intros s; cbn; try by constructor.
  destruct (yields q) eqn:Hy; cbn; [by constructor|]. by eapply seg_sync.
Qed.

Lemma segment_yields {A} (p p' : io S A) s s' q k :
  segment p s p' s' → p' = Await q k → yields q = true.
Proof. induction 1; intros; simplify_eq; auto. Qed.

Lemma drive_resume entry {A} n (p : io S A) s p0 s0 :
  preach entry s0 ([Task A p0], s) →
  (∀ q k, p0 = Await q k → yields q = true) → (∃ q k, p0 = Await q k ∧ p = k (h q)) →
  preach entry s0 ([Task A (drive n p s).1], (drive n p s).2).
Proof.
  revert p s p0. induction n as [|n IH]; intros p s p0 Hr Hy (q & k & -> & ->); cbn.
  all: pose proof (run_segment_ok (k (h q)) s) as Hseg.
  all: assert (preach entry s0 ([Task A (run_segment (k (h q)) s).1], (run_segment (k (h q)) s).2))
    as Hr1 by (eapply rtc_r; [exact Hr|]; exact (pstep_resume entry [Task A (Await q k)] s 0%nat
      A q k (h q) _ _ eq_refl (Hy q k eq_refl) Hseg)).
  all: destruct (run_segment (k (h q)) s) as [p1 s1]; cbn in *; try done.
  destruct p1; try done. eapply IH; [exact Hr1| |eauto].
  intros q' k' ?. by eapply segment_yields.
Qed.

Lemma drive_reach entry {A} n (p : io S A) s :
  entry (Task A p) → preach entry s ([Task A (drive n p s).1], (drive n p s).2).
Proof.
  intros He. pose proof (run_segment_ok p s) as Hseg.
  assert (preach entry s ([Task A (run_segment p s).1], (run_segment p s).2)) as Hr1.
  { eapply rtc_once. exact (pstep_start entry [] s A p _ _ He Hseg). }
  destruct n; cbn; destruct (run_segment p s) as [p1 s1]; cbn in *; try done.
  destruct p1; try done. eapply drive_resume; [exact Hr1| |eauto].
  intros q' k' ?. by eapply segment_yields.
Qed.
End drive.
