(* ===== verification/World.v ===== *)
(** * The shared state of the process

    The Python objects one event loop shares, as [deps.build_container] wires them: the
    chain client with the address caches of the typed clients, the two monitors (the
    service's, fed by [tick], and the pipeline's own), the in-flight registry, the breaker,
    the counters, and the service's registry and state map. *)
From S2P Require Import Prelude PyFloat Config State InFlight Breaker Observability Models.
From S2P Require Import Risk Events Io.

(** [eth_account] (third party): key derivation and signing. *)
Class EthAccount := {
  from_key : string → res unit;                      (* the exception of Account.from_key(k) *)
  account_address : string → string;                 (* Account.from_key(k).address *)
  sign_transaction : string → string → string;       (* key, unsigned tx -> raw bytes *)
  demo_account : nat → string * string;              (* anvil mnemonic, index -> address, key *)
  unsafe_sign_hash : string → string → string;       (* digest, key -> signature hex *)
}.

Record ChainState := {
  cl_active : nat;                        (* ChainClient._active *)
  cl_pool_address : option string;        (* AaveClient._pool_address *)
  cl_oracle_address : option string;      (* OracleClient._oracle_address *)
  cl_decimals : dict string Z;            (* ERC20Client._decimals *)
}.

Record World := {
  w_chain : ChainState;
  w_vols : dict string RollingVolatility;     (* ProtectionService._monitor._vols *)
  w_pvols : dict string RollingVolatility;    (* AssessmentPipeline._monitor._vols *)
  w_inflight : InFlightRegistry;
  w_breaker : CircuitBreaker;
  w_counters : Counters;
  w_registry : dict string (RiskParams * string);
  w_states : dict string PositionState;
  w_autonomous : bool;
  w_max_bumps : Z;                            (* Simulator.max_bumps *)
  w_config : KeeperConfig;                    (* ServiceContainer.config *)
}.

Definition set_chain (c : ChainState) (w : World) : World :=
  {| w_chain := c; w_vols := w_vols w; w_pvols := w_pvols w; w_inflight := w_inflight w;
     w_breaker := w_breaker w; w_counters := w_counters w; w_registry := w_registry w;
     w_states := w_states w; w_autonomous := w_autonomous w; w_max_bumps := w_max_bumps w;
     w_config := w_config w |}.

Definition set_vols (v : dict string RollingVolatility) (w : World) : World :=
  {| w_chain := w_chain w; w_vols := v; w_pvols := w_pvols w; w_inflight := w_inflight w;
     w_breaker := w_breaker w; w_counters := w_counters w; w_registry := w_registry w;
     w_states := w_states w; w_autonomous := w_autonomous w; w_max_bumps := w_max_bumps w;
     w_config := w_config w |}.

Definition set_pvols (v : dict string RollingVolatility) (w : World) : World :=
  {| w_chain := w_chain w; w_vols := w_vols w; w_pvols := v; w_inflight := w_inflight w;
     w_breaker := w_breaker w; w_counters := w_counters w; w_registry := w_registry w;
     w_states := w_states w; w_autonomous := w_autonomous w; w_max_bumps := w_max_bumps w;
     w_config := w_config w |}.

Definition set_inflight (i : InFlightRegistry) (w : World) : World :=
  {| w_chain := w_chain w; w_vols := w_vols w; w_pvols := w_pvols w; w_inflight := i;
     w_breaker := w_breaker w; w_counters := w_counters w; w_registry := w_registry w;
     w_states := w_states w; w_autonomous := w_autonomous w; w_max_bumps := w_max_bumps w;
     w_config := w_config w |}.

Definition set_breaker (b : CircuitBreaker) (w : World) : World :=
  {| w_chain := w_chain w; w_vols := w_vols w; w_pvols := w_pvols w; w_inflight := w_inflight w;
     w_breaker := b; w_counters := w_counters w; w_registry := w_registry w;
     w_states := w_states w; w_autonomous := w_autonomous w; w_max_bumps := w_max_bumps w;
     w_config := w_config w |}.

Definition set_counters (c : Counters) (w : World) : World :=
  {| w_chain := w_chain w; w_vols := w_vols w; w_pvols := w_pvols w; w_inflight := w_inflight w;
     w_breaker := w_breaker w; w_counters := c; w_registry := w_registry w;
     w_states := w_states w; w_autonomous := w_autonomous w; w_max_bumps := w_max_bumps w;
     w_config := w_config w |}.

Definition set_registry (r : dict string (RiskParams * string)) (w : World) : World :=
  {| w_chain := w_chain w; w_vols := w_vols w; w_pvols := w_pvols w; w_inflight := w_inflight w;
     w_breaker := w_breaker w; w_counters := w_counters w; w_registry := r;
     w_states := w_states w; w_autonomous := w_autonomous w; w_max_bumps := w_max_bumps w;
     w_config := w_config w |}.

Definition set_states (d : dict string PositionState) (w : World) : World :=
  {| w_chain := w_chain w; w_vols := w_vols w; w_pvols := w_pvols w; w_inflight := w_inflight w;
     w_breaker := w_breaker w; w_counters := w_counters w; w_registry := w_registry w;
     w_states := d; w_autonomous := w_autonomous w; w_max_bumps := w_max_bumps w;
     w_config := w_config w |}.

Definition set_autonomous (b : bool) (w : World) : World :=
  {| w_chain := w_chain w; w_vols := w_vols w; w_pvols := w_pvols w; w_inflight := w_inflight w;
     w_breaker := w_breaker w; w_counters := w_counters w; w_registry := w_registry w;
     w_states := w_states w; w_autonomous := b; w_max_bumps := w_max_bumps w;
     w_config := w_config w |}.

Definition set_max_bumps (n : Z) (w : World) : World :=
  {| w_chain := w_chain w; w_vols := w_vols w; w_pvols := w_pvols w; w_inflight := w_inflight w;
     w_breaker := w_breaker w; w_counters := w_counters w; w_registry := w_registry w;
     w_states := w_states w; w_autonomous := w_autonomous w; w_max_bumps := n;
     w_config := w_config w |}.

Definition set_config (c : KeeperConfig) (w : World) : World :=
  {| w_chain := w_chain w; w_vols := w_vols w; w_pvols := w_pvols w; w_inflight := w_inflight w;
     w_breaker := w_breaker w; w_counters := w_counters w; w_registry := w_registry w;
     w_states := w_states w; w_autonomous := w_autonomous w; w_max_bumps := w_max_bumps w;
     w_config := c |}.

(** A coroutine of the program. *)
Abbreviation prog := (io World).

(** ** Frames

    [service_view w] is everything but the chain client's caches and the volatility windows:
    reading the chain leaves it unchanged. *)
Definition service_view (w : World) :=
  (w_inflight w, w_breaker w, w_counters w, w_registry w, w_states w, w_autonomous w,
   w_max_bumps w, w_config w).

Definition world_wf (w : World) : Prop :=
  inflight_wf (w_inflight w) ∧ breaker_wf (w_breaker w) ∧ dict_wf (w_counters w) ∧
  dict_wf (w_registry w) ∧ dict_wf (w_states w) ∧ w_max_bumps w ≤ 10.

(** A process that has not served anything yet. *)
Lemma fresh_wf c v pv cd br a n k :
  breaker_wf br → n ≤ 10 →
  world_wf {| w_chain := c; w_vols := v; w_pvols := pv; w_inflight := inflight_init cd;
              w_breaker := br; w_counters := []; w_registry := []; w_states := [];
              w_autonomous := a; w_max_bumps := n; w_config := k |}.
Proof.
  intros. split; [apply inflight_init_wf|]. split; [done|].
  split_and!; try apply dict_wf_nil; done.
Qed.

(** A freshly built process, for concrete runs. *)
Definition world0 : World := {|
  w_chain := {| cl_active := 0; cl_pool_address := None; cl_oracle_address := None;
                cl_decimals := [] |};
  w_vols := []; w_pvols := [];
  w_inflight := inflight_init (flit 30);
  w_breaker := {| br_max := 3; br_consecutive := 0; br_paused := false; br_reason := None |};
  w_counters := []; w_registry := []; w_states := [];
  w_autonomous := true; w_max_bumps := 3;
  w_config := {| kc_poll_interval_seconds := 12; kc_breaker_max_consecutive_failures := 3;
                 kc_inflight_cooldown_seconds := 30; kc_max_simulation_bumps := 3;
                 kc_autonomous_enabled := true |};
|}.

(** A signer for concrete runs. *)
Definition eth_account_plain : EthAccount := {|
  from_key := λ _, Ok tt;
  account_address := λ k, ("0xacc" +:+ k)%string;
  sign_transaction := λ k tx, (k +:+ tx)%string;
  demo_account := λ i, (pretty (N.of_nat i), pretty (N.of_nat i));
  unsafe_sign_hash := λ d k, (d +:+ k)%string;
|}.
