(* ===== verification/Api.v ===== *)
(** * The interface between the chain clients and the decision modules

    [ChainApi] lists the reads the monitor, the selector, the pipeline, the simulator and the
    submitter ask of the typed clients; [ChainApiLaws] is what those modules rely on: a read
    sends nothing on anybody's behalf and touches no shared state but the client's own
    caches.  [Chain.v] supplies the instance. *)
From S2P Require Import Prelude PyFloat Config State InFlight Breaker Observability Models.
From S2P Require Import Risk Events Io Logic World.

(** A request that neither builds nor sends a transaction. *)
Definition is_read (q : req) : bool :=
  match q with
  | ModelCall _ _ _ => false
  | _ => match on_behalf q with Some _ => false | None => true end
  end.

Lemma is_read_on_behalf q : is_read q = true → on_behalf q = None.
Proof. unfold is_read. destruct q as [ep c| | | | | | | |]; try done. by destruct (on_behalf (Rpc ep c)). Qed.

Lemma is_read_broadcasts q : is_read q = true → broadcasts q = false.
Proof. by destruct q as [ep []| | | | | | | |]. Qed.

(** A write that stays inside the chain client. *)
Definition same_service (w w' : World) : Prop := service_view w' = service_view w.

#[global] Instance same_service_preorder : PreOrder same_service.
Proof. split; unfold same_service; [done|]. intros ??? H1 H2. congruence. Qed.

(** The read-only programs. *)
Definition reads {A} (p : prog A) : Prop := ∀ w, guar same_service (λ q, is_read q = true) p w.

Class ChainApi := {
  api_user_account_data : string → prog UserAccountData;
  api_reserve_info : string → prog ReserveInfo;
  api_asset_price : string → prog OraclePrice;
  api_quote : string → string → Z → option Z → prog Quote;
  api_allowance : string → string → string → prog Z;
}.

Class ChainApiLaws (A : ChainApi) := {
  api_user_account_data_reads b : reads (api_user_account_data b);
  api_reserve_info_reads a : reads (api_reserve_info a);
  api_asset_price_reads a : reads (api_asset_price a);
  api_quote_reads i o n f : reads (api_quote i o n f);
  api_allowance_reads t o s : reads (api_allowance t o s);
}.

(** ** Read-only programs compose *)
Lemma reads_bind {A B} (p : prog A) (f : A → prog B) :
  reads p → (∀ a, reads (f a)) → reads (a ← p; f a).
Proof. intros Hp Hf w. apply guar_bind; [apply Hp|]. intros. apply Hf. Qed.

Lemma reads_ret {A} (a : A) : reads (Ret a).
Proof. by intros w. Qed.

Lemma reads_raise {A} e : reads (@Raise World A e).
Proof. by intros w. Qed.

Lemma reads_lift {A} (r : res A) : reads (lift r).
Proof. intros w. apply guar_lift. Qed.

Lemma reads_gets {A} (f : World → A) : reads (gets f).
Proof. by intros w. Qed.

Lemma reads_modify f : (∀ w, service_view (f w) = service_view w) → reads (modify f).
Proof. intros H w. apply guar_modify. intros s. apply H. Qed.

Lemma reads_await q : is_read q = true → reads (await q).
Proof. intros H w. by apply guar_await. Qed.

Lemma reads_catch {A} (p : prog A) h : reads p → (∀ e, reads (h e)) → reads (catch p h).
Proof. intros Hp Hh w. apply guar_catch; [apply Hp|]. intros. apply Hh. Qed.

Lemma reads_try_except {A} (p : prog A) h : reads p → (∀ e, reads (h e)) → reads (try_except p h).
Proof. intros Hp Hh w. apply guar_try_except; [apply Hp|]. intros. apply Hh. Qed.

Lemma reads_try_catch {A} (p : prog A) t h :
  reads p → (∀ e, reads (h e)) → reads (try_catch p t h).
Proof. intros Hp Hh w. apply guar_try_catch; [apply Hp|]. intros. apply Hh. Qed.

#[export] Hint Resolve reads_ret reads_raise reads_lift reads_gets reads_await
  api_user_account_data_reads api_reserve_info_reads api_asset_price_reads api_quote_reads
  api_allowance_reads : finax.

(** Decompose a read-only goal along the program. *)
Ltac reads_step :=
  match goal with
  | |- reads (mbind _ _) => apply reads_bind
  | |- reads (match ?x with _ => _ end) => destruct x
  | |- reads (try_except _ _) => apply reads_try_except
  | |- reads (try_catch _ _ _) => apply reads_try_catch
  | |- reads (modify _) => apply reads_modify
  | |- reads (await _) => apply reads_await; reflexivity
  | |- reads (rpc_ _ _) => apply reads_await; reflexivity
  | |- ∀ _, _ => intros
  | |- reads _ => by eauto with finax typeclass_instances
  end.
Ltac reads_auto := repeat reads_step; try done.

(** What a sequential or interleaved client may use of a read: under a rely that keeps the
    service's state the program keeps it, and it broadcasts nothing. *)
Lemma reads_exec {A} (p : prog A) w tr r w' :
  reads p → seq_exec p w tr r w' →
  service_view w' = service_view w ∧ Forall (λ ev, is_read (ev_req ev) = true) tr.
Proof.
  intros Hp He. apply (guar_exec same_service (λ q, is_read q = true) p w tr r w'); [|apply Hp].
  eapply exec_rely_mono; [|exact He]. by intros ?? ->.
Qed.

Lemma reads_trace (R : World → World → Prop) {A} (p : prog A) w tr r w' :
  reads p → exec R p w tr r w' → Forall (λ ev, is_read (ev_req ev) = true) tr.
Proof.
  intros Hp. apply (guar_trace same_service (λ q, is_read q = true)), Hp.
Qed.

(** Reads keep every property of the service's own state that the interference keeps. *)
Lemma reads_keeps (R : World → World → Prop) (I : World → Prop) {A} (p : prog A) w :
  (∀ w1 w2, service_view w2 = service_view w1 → I w1 → I w2) →
  (∀ w1 w2, R w1 w2 → I w1 → I w2) →
  reads p → I w → wp R p (λ _ _ w', I w') w.
Proof.
  intros Hview HR Hp Hw. specialize (Hp w). revert w Hw Hp.
  induction p as [a|e|k IH|s1 p IH|q k IH]; intros w Hw Hp; cbn in Hp |- *; eauto.
  - destruct Hp as [Hg Hp]. apply (IH s1); [|done]. by eapply Hview.
  - destruct Hp as [_ Hp]. intros ans w1 Hr. apply IH; [|apply Hp].
    unfold rely in Hr. destruct (yields q); [by eapply HR|by subst].
Qed.
