(* ===== verification/Chain.v ===== *)
(** * chain/: the RPC client and the typed Aave, oracle, Uniswap and ERC20 clients *)
From S2P Require Import Prelude PyFloat Config State InFlight Breaker Observability Models.
From S2P Require Import Risk Events Io Logic World Api.

(** ** client.py *)
Module Client.
(** [self._urls]: the configured endpoints, empty strings dropped. *)
Definition urls (cfg : Settings) : list string :=
  filter (λ u, u ≠ ""%string) [arbitrum_rpc_url cfg; arbitrum_rpc_url_fallback cfg].

Definition set_active (idx : nat) (w : World) : World :=
  let c := w_chain w in
  set_chain {| cl_active := idx; cl_pool_address := cl_pool_address c;
               cl_oracle_address := cl_oracle_address c; cl_decimals := cl_decimals c |} w.

(** [_RETRYABLE]: transport errors. *)
Definition retryable (e : exn) : bool := is_OSError e.

(** [min(0.25 * attempt, 2.0)] *)
Definition backoff (attempt : Z) : f64 := fmin (fmul fquarter (flit attempt)) (flit 2).

Section call.
Context {A : Type} (n_providers : nat) (max_retries : Z) (fn : nat → prog A).

(** The [for attempt in range(1, max_retries + 1)] loop on one endpoint: the result, or
    the last transport error when the attempts are used up. *)
Fixpoint attempts (idx : nat) (remaining : nat) (attempt : Z) (last : option exn)
  : prog (A + option exn) :=
  match remaining with
  | O => Ret (inr last)
  | S remaining =>
      try_catch
        (a ← fn idx; _ ← modify (set_active idx); Ret (inl a))
        retryable
        (λ e, _ ← await (Sleep (backoff attempt));
              attempts idx remaining (attempt + 1) (Some e))
  end.

(** The [for offset in range(len(self._providers))] loop; [self._active] is read anew
    for each offset. *)
Fixpoint endpoints (remaining : nat) (offset : nat) (last : option exn) : prog A :=
  match remaining with
  | O => Raise (Exn ChainClientError
           ("All RPC endpoints failed; last error: "
            +:+ match last with Some e => exn_msg e | None => "None" end))
  | S remaining =>
      active ← gets (λ w, cl_active (w_chain w));
      r ← attempts ((active + offset) mod n_providers)%nat (Z.to_nat max_retries) 1 last;
      match r with
      | inl a => Ret a
      | inr last => endpoints remaining (S offset) last
      end
  end.

(** [ChainClient.call] *)
Definition call : prog A := endpoints n_providers 0 None.
End call.
End Client.

Section chain.
Context `{EthUtils} (cfg : Settings).

Definition n_providers : nat := length (Client.urls cfg).

Definition client_call {A} (fn : nat → prog A) : prog A :=
  Client.call n_providers (rpc_max_retries cfg) fn.

(** [ChainClient.chain_id], [block_number] *)
Definition client_chain_id : prog Z := client_call (λ ep, rpc_ ep GetChainId).
Definition client_block_number : prog Z := client_call (λ ep, rpc_ ep GetBlockNumber).

(** [ChainClient.is_connected] *)
Definition is_connected : prog bool :=
  try_except (_ ← client_chain_id; Ret true) (λ _, Ret false).

(** *** aave.py *)
Definition set_pool_address (a : string) (w : World) : World :=
  let c := w_chain w in
  set_chain {| cl_active := cl_active c; cl_pool_address := Some a;
               cl_oracle_address := cl_oracle_address c; cl_decimals := cl_decimals c |} w.

(** [AaveClient.pool_address]: resolved once, then cached. *)
Definition pool_address : prog string :=
  cached ← gets (λ w, cl_pool_address (w_chain w));
  match cached with
  | Some a => Ret a
  | None =>
      raw ← client_call (λ ep, rpc_ ep (GetPool (AAVE_POOL_ADDRESSES_PROVIDER cfg)));
      a ← lift (to_checksum_address raw);
      _ ← modify (set_pool_address a);
      Ret a
  end.

Definition get_user_account_data (borrower : string) : prog UserAccountData :=
  user ← lift (to_checksum_address borrower);
  '(coll, debt, avail, lt, ltv, hf) ←
    client_call (λ ep, pool ← pool_address; rpc_ ep (GetUserAccountData pool user));
  Ret {| total_collateral_base := coll; total_debt_base := debt;
         available_borrows_base := avail; liquidation_threshold_bps := lt;
         ltv_bps := ltv; health_factor := hf |}.

(** The packed [ReserveConfigurationMap] word. *)
Definition cfg_liq_threshold (data : Z) : Z := Z.land (Z.shiftr data 16) (Z.shiftl 1 16 - 1).
Definition cfg_bonus_raw (data : Z) : Z := Z.land (Z.shiftr data 32) (Z.shiftl 1 16 - 1).
Definition cfg_decimals (data : Z) : Z := Z.land (Z.shiftr data 48) (Z.shiftl 1 8 - 1).

Definition cfg_liq_bonus (data : Z) : Z :=
  let bonus_raw := cfg_bonus_raw data in
  if 10000 <? bonus_raw then bonus_raw - 10000 else 0.

(** [decimals_on_chain or TOKEN_DECIMALS.get(token, 18)] *)
Definition reserve_decimals (data : Z) (token : string) : Z :=
  if cfg_decimals data =? 0 then default 18 (dget TOKEN_DECIMALS token) else cfg_decimals data.

Definition get_reserve_info (asset : string) : prog ReserveInfo :=
  token ← lift (to_checksum_address asset);
  data ← client_call (λ ep, pool ← pool_address; rpc_ ep (GetReserveData pool token));
  a ← lift (to_checksum_address (rd_aToken data));
  v ← lift (to_checksum_address (rd_variable_debt data));
  let config_data := rd_configuration data in
  Ret {| ri_asset := token; aToken_address := a; variable_debt_token_address := v;
         ri_decimals := reserve_decimals config_data token;
         liq_threshold_bps := cfg_liq_threshold config_data;
         liq_bonus_bps := cfg_liq_bonus config_data |}.

(** *** oracle.py *)
Definition set_oracle_address (a : string) (w : World) : World :=
  let c := w_chain w in
  set_chain {| cl_active := cl_active c; cl_pool_address := cl_pool_address c;
               cl_oracle_address := Some a; cl_decimals := cl_decimals c |} w.

Definition oracle_address : prog string :=
  cached ← gets (λ w, cl_oracle_address (w_chain w));
  match cached with
  | Some a => Ret a
  | None =>
      raw ← client_call (λ ep, rpc_ ep (GetPriceOracle (AAVE_POOL_ADDRESSES_PROVIDER cfg)));
      a ← lift (to_checksum_address raw);
      _ ← modify (set_oracle_address a);
      Ret a
  end.

Definition get_asset_price (asset : string) : prog OraclePrice :=
  token ← lift (to_checksum_address asset);
  p ← client_call (λ ep, oracle ← oracle_address; rpc_ ep (GetAssetPrice oracle token));
  Ret {| op_asset := token; price := p; op_decimals := AAVE_BASE_CURRENCY_DECIMALS;
         updated_at := 0; stale := false |}.

(** The freshness gate of [get_chainlink_price]. *)
Definition chainlink_price (feed_key : string) (answer updated_at decimals now : Z) : OraclePrice :=
  let age := now - updated_at in
  {| op_asset := feed_key; price := Z.max answer 0; op_decimals := decimals;
     updated_at := updated_at;
     stale := (answer <=? 0) || (oracle_max_staleness_seconds cfg <? age) |}.

Definition get_chainlink_price (feed_key : string) : prog OraclePrice :=
  feed ← match dget (CHAINLINK_FEEDS cfg) feed_key with
         | Some f => lift (to_checksum_address f)
         | None => Raise (Exn KeyError feed_key)
         end;
  '(round_data, decimals, now) ←
    client_call (λ ep,
      round_data ← rpc_ ep (LatestRoundData feed);
      decimals ← rpc_ ep (FeedDecimals feed);
      latest ← rpc_ ep GetLatestBlockTimestamp;
      Ret (round_data, decimals, latest));
  let '(_, answer, _, updated, _) := round_data in
  Ret (chainlink_price feed_key answer updated decimals now).

(** *** uniswap.py *)
Definition quote_exact_output_single (token_in token_out : string) (amount_out : Z)
    (fee : option Z) : prog Quote :=
  t_in ← lift (to_checksum_address token_in);
  t_out ← lift (to_checksum_address token_out);
  fee_tier ← match fee with Some f => Ret f | None => lift (fee_tier_for t_in t_out) end;
  '(amount_in, sqrt_after, ticks, gas) ←
    client_call (λ ep,
      rpc_ ep (QuoteExactOutputSingle (UNISWAP_QUOTER_V2 cfg) t_in t_out amount_out fee_tier));
  Ret {| q_token_in := t_in; q_token_out := t_out; q_fee := fee_tier;
         q_amount_out := amount_out; q_amount_in := amount_in;
         sqrt_price_x96_after := sqrt_after; initialized_ticks_crossed := ticks;
         gas_estimate := gas |}.

(** *** erc20.py *)
Definition set_decimals (addr : string) (v : Z) (w : World) : World :=
  let c := w_chain w in
  set_chain {| cl_active := cl_active c; cl_pool_address := cl_pool_address c;
               cl_oracle_address := cl_oracle_address c;
               cl_decimals := dset (cl_decimals c) addr v |} w.

Definition erc20_decimals (token : string) : prog Z :=
  addr ← lift (to_checksum_address token);
  cached ← gets (λ w, dget (cl_decimals (w_chain w)) addr);
  match cached with
  | Some d => Ret d
  | None =>
      value ← client_call (λ ep, rpc_ ep (Erc20Decimals addr));
      _ ← modify (set_decimals addr value);
      Ret value
  end.

Definition balance_of (token account : string) : prog Z :=
  addr ← lift (to_checksum_address token);
  holder ← lift (to_checksum_address account);
  client_call (λ ep, rpc_ ep (BalanceOf addr holder)).

Definition allowance (token owner spender : string) : prog Z :=
  addr ← lift (to_checksum_address token);
  owner_a ← lift (to_checksum_address owner);
  spender_a ← lift (to_checksum_address spender);
  client_call (λ ep, rpc_ ep (Allowance addr owner_a spender_a)).
End chain.

(** The typed clients as the interface the decision modules use. *)
#[global] Instance chain_api `{EthUtils} (cfg : Settings) : ChainApi := {|
  api_user_account_data := get_user_account_data cfg;
  api_reserve_info := get_reserve_info cfg;
  api_asset_price := get_asset_price cfg;
  api_quote := quote_exact_output_single cfg;
  api_allowance := allowance cfg;
|}.

(** ** The clients only read *)
Lemma attempts_reads {A} (fn : nat → prog A) idx n a last :
  (∀ ep, reads (fn ep)) → reads (Client.attempts fn idx n a last).
Proof.
  intros Hfn. revert a last. induction n as [|n IH]; intros a last; cbn [Client.attempts]; reads_auto.
Qed.

Lemma endpoints_reads {A} np mr (fn : nat → prog A) n o last :
  (∀ ep, reads (fn ep)) → reads (Client.endpoints np mr fn n o last).
Proof.
  intros Hfn. revert o last. induction n as [|n IH]; intros o last; cbn [Client.endpoints]; reads_auto.
  by apply attempts_reads.
Qed.

Section client_reads.
Context `{EthUtils} (cfg : Settings).

Lemma client_call_reads {A} (fn : nat → prog A) :
  (∀ ep, reads (fn ep)) → reads (client_call cfg fn).
Proof. apply endpoints_reads. Qed.

Lemma pool_address_reads : reads (pool_address cfg).
Proof. unfold pool_address. reads_auto. apply client_call_reads. reads_auto. Qed.

Lemma oracle_address_reads : reads (oracle_address cfg).
Proof. unfold oracle_address. reads_auto. apply client_call_reads. reads_auto. Qed.
#[local] Hint Resolve pool_address_reads oracle_address_reads : finax.

#[global] Instance chain_api_laws : ChainApiLaws (chain_api cfg).
Proof.
  split; intros; simpl;
    unfold get_user_account_data, get_reserve_info, get_asset_price,
      quote_exact_output_single, allowance;
    repeat first [apply client_call_reads | reads_step].
Qed.

Lemma get_chainlink_price_reads k : reads (get_chainlink_price cfg k).
Proof.
  unfold get_chainlink_price. repeat first [apply client_call_reads | reads_step].
Qed.
End client_reads.

(** ** Any function, any interference: how a call ends *)
Section call_ends.
Context (R : World → World → Prop) {A : Type} (np : nat) (mr : Z) (fn : nat → prog A).

(** The trace ends with an execution of [fn] on some endpoint, with this outcome. *)
Definition ended_by (tr : list event) (r : res A) : Prop :=
  ∃ tr0 tr1 ep w1 w2, tr = tr0 ++ tr1 ∧ exec R (fn ep) w1 tr1 r w2.

Definition call_end (tr : list event) (r : res A) : Prop :=
  match r with
  | Ok _ => ended_by tr r
  | Err e =>
      exn_kind e = ChainClientError ∨ exn_kind e = CancelledError ∨
      (ended_by tr r ∧ Client.retryable e = false)
  end.

Lemma ended_by_app tr tr' r : ended_by tr' r → ended_by (tr ++ tr') r.
Proof.
  intros (tr0 & tr1 & ep & w1 & w2 & -> & He). exists (tr ++ tr0), tr1, ep, w1, w2.
  by rewrite app_assoc.
Qed.

Lemma call_end_app tr tr' r : call_end tr' r → call_end (tr ++ tr') r.
Proof. destruct r; simpl; naive_solver eauto using ended_by_app. Qed.

Lemma attempts_end idx n a last w :
  wp R (Client.attempts fn idx n a last)
    (λ tr r _, match r with
               | Ok (inl v) => call_end tr (Ok v)
               | Ok (inr _) => True
               | Err e => call_end tr (Err e)
               end) w.
Proof.
  revert a last w. induction n as [|n IH]; intros a last w; cbn [Client.attempts]; [by apply wp_ret|].
  rewrite wp_try_catch, wp_bind. eapply wp_mono; [|apply wp_self].
  intros tr [v|e] w1 He.
  - rewrite wp_bind, wp_modify, wp_ret, !app_nil_r. exists [], tr, idx, w, w1. done.
  - destruct (Client.retryable e) eqn:Hr.
    + rewrite wp_bind, wp_await. intros [] w2 Hw2; cbn [outcome_of].
      * eapply wp_mono; [|apply IH]. intros tr' [[v|l]|e'] w3 H; try done;
          rewrite app_assoc; by apply call_end_app.
      * simpl. auto.
    + right. right. split; [|done]. by exists [], tr, idx, w, w1.
Qed.

Lemma endpoints_end n o last w :
  wp R (Client.endpoints np mr fn n o last) (λ tr r _, call_end tr r) w.
Proof.
  revert o last w. induction n as [|n IH]; intros o last w; cbn [Client.endpoints].
  - apply wp_raise. by left.
  - rewrite wp_bind, wp_gets, wp_bind. eapply wp_mono; [|apply attempts_end].
    intros tr [[v|l]|e] w1 H; [|eapply wp_mono; [|apply IH]|done].
    + rewrite wp_ret, app_nil_r. done.
    + intros. simpl. by apply call_end_app.
Qed.

Lemma call_ends w tr r w' : exec R (Client.call np mr fn) w tr r w' → call_end tr r.
Proof. apply (wp_exec R (Client.call np mr fn) (λ tr r _, call_end tr r) w), endpoints_end. Qed.
End call_ends.

(** ** Retry and failover *)
Section failover.
Context (np mr : nat) (c : rpc).
Let fn : nat → prog (rpc_resp c) := λ ep, rpc_ ep c.

(** The endpoints contacted along a trace, in order. *)
Definition contacted (tr : list event) : list nat :=
  omap (λ ev, match ev_req ev with Rpc ep _ => Some ep | _ => None end) tr.

(** The reference schedule: [mr] attempts on each endpoint, from the active one onwards. *)
Definition call_schedule (active first count : nat) : list nat :=
  seq first count ≫= λ o, replicate mr ((active + o) mod np)%nat.

(** An exchange that lets the call go on: a transport failure, or a completed back-off. *)
Definition goes_on (ev : event) : Prop :=
  match ev with
  | Ev (Rpc _ _) (Err e) => Client.retryable e = true
  | Ev (Sleep _) Elapsed => True
  | _ => False
  end.

(** An exchange that ends the call with [e]: a non-transport error of the node, or a
    cancellation during the back-off. *)
Definition ends_with (ev : event) (e : exn) : Prop :=
  match ev with
  | Ev (Rpc _ _) (Err e') => e' = e ∧ Client.retryable e = false
  | Ev (Sleep _) Cancelled => e = cancelled
  | _ => False
  end.

Definition fails_after (tr : list event) (e : exn) : Prop :=
  ∃ tr0 ev, tr = tr0 ++ [ev] ∧ Forall goes_on tr0 ∧ ends_with ev e.

Definition succeeds_after (tr : list event) (ep : nat) (v : rpc_resp c) : Prop :=
  ∃ tr0, tr = tr0 ++ [Ev (Rpc ep c) (Ok v)] ∧ Forall goes_on tr0.

Lemma contacted_app tr tr' : contacted (tr ++ tr') = contacted tr ++ contacted tr'.
Proof. apply omap_app. Qed.

Lemma fails_after_app tr tr' e : Forall goes_on tr → fails_after tr' e → fails_after (tr ++ tr') e.
Proof.
  intros Ht (tr0 & ev & -> & ? & ?). exists (tr ++ tr0), ev. rewrite app_assoc.
  split_and!; [done|by apply Forall_app|done].
Qed.

Lemma succeeds_after_app tr tr' ep v :
  Forall goes_on tr → succeeds_after tr' ep v → succeeds_after (tr ++ tr') ep v.
Proof.
  intros Ht (tr0 & -> & ?). exists (tr ++ tr0). rewrite app_assoc.
  split; [done|by apply Forall_app].
Qed.

Lemma attempts_wp idx n a last w :
  seq_wp (Client.attempts fn idx n a last)
    (λ tr r w', contacted tr `prefix_of` replicate n idx ∧
      match r with
      | Ok (inl v) => succeeds_after tr idx v ∧ w' = Client.set_active idx w
      | Ok (inr _) => Forall goes_on tr ∧ contacted tr = replicate n idx ∧ w' = w
      | Err e => fails_after tr e ∧ w' = w
      end) w.
Proof.
  revert a last. induction n as [|n IH]; intros a last; cbn [Client.attempts].
  - cbn [wp]. split_and!; [done|by constructor|done|done].
  - rewrite wp_try_catch, wp_bind. change (fn idx) with (await (S := World) (Rpc idx c)).
    rewrite (wp_await eq (Rpc idx c)).
    intros [v|e] w1 Hw1; cbn in Hw1; subst w1; cbn [outcome_of].
    + rewrite wp_bind, wp_modify. cbn [wp app]. simpl. split; [by apply prefix_cons, prefix_nil|].
      split; [|done]. exists []. by split; [|constructor].
    + destruct (Client.retryable e) eqn:He.
      * rewrite wp_bind, wp_await. intros [] w1 Hw1; cbn in Hw1; subst w1; cbn [outcome_of].
        -- eapply wp_mono; [|apply IH]. intros tr r w' [Hp Hr].
           change ([Ev (Rpc idx c) (Err e)] ++ [Ev (Sleep (Client.backoff a)) Elapsed] ++ tr)
             with ([Ev (Rpc idx c) (Err e); Ev (Sleep (Client.backoff a)) Elapsed] ++ tr).
           rewrite contacted_app. assert (Forall goes_on
             [Ev (Rpc idx c) (Err e); Ev (Sleep (Client.backoff a)) Elapsed])
             by (repeat constructor; done).
           split; [by apply prefix_cons|]. destruct r as [[v|l]|e'].
           ++ destruct Hr. split; [by apply succeeds_after_app|done].
           ++ destruct Hr as (? & Hc & ->). split_and!; [by apply Forall_app| |done].
              simpl. by rewrite <-Hc.
           ++ destruct Hr. split; [by apply fails_after_app|done].
        -- simpl. split; [by apply prefix_cons, prefix_nil|]. split; [|done].
           exists [Ev (Rpc idx c) (Err e)], (Ev (Sleep (Client.backoff a)) Cancelled).
           split_and!; [done|by repeat constructor|done].
      * split; [by apply prefix_cons, prefix_nil|]. split; [|done].
        exists [], (Ev (Rpc idx c) (Err e)). split_and!; [done|constructor|done].
Qed.

Lemma endpoints_wp n o last w :
  seq_wp (Client.endpoints np (Z.of_nat mr) fn n o last)
    (λ tr r w',
      contacted tr `prefix_of` call_schedule (cl_active (w_chain w)) o n ∧
      match r with
      | Ok v => ∃ ep, succeeds_after tr ep v ∧ w' = Client.set_active ep w
      | Err e =>
          w' = w ∧
          (fails_after tr e ∨
           exn_kind e = ChainClientError ∧ Forall goes_on tr ∧
           contacted tr = call_schedule (cl_active (w_chain w)) o n)
      end) w.
Proof.
  revert o last. induction n as [|n IH]; intros o last; cbn [Client.endpoints].
  - cbn [wp]. split_and!; [done|done|]. right. by split_and!; [|constructor|].
  - rewrite wp_bind, wp_gets. cbn [app]. rewrite wp_bind, Nat2Z.id.
    unfold call_schedule. cbn [seq]. rewrite bind_cons. fold (call_schedule (cl_active (w_chain w)) (S o) n).
    eapply wp_mono; [|apply attempts_wp]. intros tr r w' [Hp Hr]. destruct r as [[v|l]|e].
    + destruct Hr as [Hs ->]. rewrite wp_ret, app_nil_r.
      split; [by apply prefix_app_r|]. eauto.
    + destruct Hr as (Hg & Hc & ->). eapply wp_mono; [|apply IH].
      intros tr' r' w'' [Hp' Hr']. cbn [app]. rewrite contacted_app, Hc.
      split; [by apply prefix_app|]. destruct r' as [v|e].
      * destruct Hr' as (ep & ? & ->). exists ep. split; [by apply succeeds_after_app|done].
      * destruct Hr' as (-> & [Hf|(Hk & Hg' & Hc')]).
        -- split; [done|]. left. by apply fails_after_app.
        -- split; [done|]. right. split_and!; [done|by apply Forall_app|].
           by rewrite Hc'.
    + destruct Hr as [Hf ->]. cbn [app]. split; [by apply prefix_app_r|]. auto.
Qed.

Lemma call_schedule_length active first count :
  length (call_schedule active first count) = (count * mr)%nat.
Proof.
  revert first. induction count as [|n IH]; intros first; [done|].
  unfold call_schedule in *. cbn [seq]. rewrite bind_cons, length_app, length_replicate, IH. lia.
Qed.
End failover.

(** ** The packed reserve configuration *)

(** Aave's [ReserveConfigurationMap]: 16 bits of LTV, of threshold and of bonus, 8 bits of
    decimals, then fields the source does not read. *)
Definition pack_reserve_config (ltv lt bonus dec rest : Z) : Z :=
  ltv + lt * 2 ^ 16 + bonus * 2 ^ 32 + dec * 2 ^ 48 + rest * 2 ^ 56.

Lemma bit_field lo width x v hi :
  0 ≤ lo → 0 ≤ width → 0 ≤ x < 2 ^ lo → 0 ≤ v < 2 ^ width →
  Z.land (Z.shiftr (x + v * 2 ^ lo + hi * 2 ^ (lo + width)) lo) (Z.shiftl 1 width - 1) = v.
Proof.
  intros Hlo Hw Hx Hv.
  replace (Z.shiftl 1 width - 1) with (Z.ones width) by (rewrite Z.ones_equiv, Z.shiftl_1_l; lia).
  rewrite Z.land_ones, Z.shiftr_div_pow2 by done.
  replace (x + v * 2 ^ lo + hi * 2 ^ (lo + width)) with (x + (v + hi * 2 ^ width) * 2 ^ lo)
    by (rewrite Z.pow_add_r by done; ring).
  rewrite Z.div_add, (Z.div_small x) by lia. rewrite Z.add_0_l, Z.mod_add by lia.
  by apply Z.mod_small.
Qed.

(** The bit decoding of a reserve's configuration word is the inverse of Aave's packing:
    for any fields that fit their widths, [get_reserve_info] reads back the liquidation
    threshold, the decimals, and the bonus net of the 100% it is stored with (0 when unset),
    whatever the higher bits are. *)
Theorem reserve_config_decode ltv lt bonus dec rest :
  0 ≤ ltv < 2 ^ 16 → 0 ≤ lt < 2 ^ 16 → 0 ≤ bonus < 2 ^ 16 → 0 ≤ dec < 2 ^ 8 →
  let data := pack_reserve_config ltv lt bonus dec rest in
  cfg_liq_threshold data = lt ∧ cfg_liq_bonus data = Z.max (bonus - 10000) 0 ∧
  cfg_decimals data = dec.
Proof.
  intros Hltv Hlt Hb Hd data.
  assert (cfg_liq_threshold data = lt) as ->.
  { unfold cfg_liq_threshold, data, pack_reserve_config.
    rewrite <-(bit_field 16 16 ltv lt (bonus + dec * 2 ^ 16 + rest * 2 ^ 24)) at 2 by lia.
    do 2 f_equal. lia. }
  assert (cfg_decimals data = dec) as ->.
  { unfold cfg_decimals, data, pack_reserve_config.
    rewrite <-(bit_field 48 8 (ltv + lt * 2 ^ 16 + bonus * 2 ^ 32) dec rest) at 2 by lia.
    do 2 f_equal. }
  assert (cfg_bonus_raw data = bonus) as Hbonus.
  { unfold cfg_bonus_raw, data, pack_reserve_config.
    rewrite <-(bit_field 32 16 (ltv + lt * 2 ^ 16) bonus (dec + rest * 2 ^ 8)) at 2 by lia.
    do 2 f_equal. lia. }
  unfold cfg_liq_bonus. rewrite Hbonus. split_and!; [done| |done]. bsplit; lia.
Qed.

Lemma reserve_config_decode_witness :
  let data := pack_reserve_config 8000 8250 10500 18 5 in
  cfg_liq_threshold data = 8250 ∧ cfg_liq_bonus data = Z.max (10500 - 10000) 0 ∧
  cfg_decimals data = 18.
Proof. apply (reserve_config_decode 8000 8250 10500 18 5); lia. Defined.

(** ** Claims about [ChainClient.call] *)

(** C21: Retry and failover, when no other coroutine runs meanwhile: [call] contacts the
    endpoints along the reference schedule ([max_retries] attempts on the preferred endpoint,
    then on each following one), so at most endpoints * retries exchanges; it goes past an
    exchange only on a transport error; on success the answering endpoint becomes the
    preferred one and nothing else changes; it fails either with the first non-transport
    error, or with [ChainClientError] after the whole schedule failed. *)
Theorem call_failover np mr c w tr r w' :
  seq_exec (Client.call np (Z.of_nat mr) (λ ep, rpc_ ep c)) w tr r w' →
  let schedule := call_schedule np mr (cl_active (w_chain w)) 0 np in
  contacted tr `prefix_of` schedule ∧ length schedule = (np * mr)%nat ∧
  match r with
  | Ok v => ∃ ep, succeeds_after c tr ep v ∧ w' = Client.set_active ep w
  | Err e =>
      w' = w ∧
      (fails_after tr e ∨
       exn_kind e = ChainClientError ∧ Forall goes_on tr ∧ contacted tr = schedule)
  end.
Proof.
  intros He schedule. destruct (wp_exec _ _ _ _ (endpoints_wp np mr c np 0 None w) _ _ _ He).
  split_and!; [done|apply call_schedule_length|done].
Qed.

(** The same call when other coroutines run during its back-off: the preferred endpoint is
    read anew for each failover step, so a concurrent success on the fallback makes the call
    come back to the endpoint that just failed.  With two endpoints it can report that all
    endpoints failed without ever having contacted the fallback. *)
Theorem call_interference_skips_fallback w c e :
  cl_active (w_chain w) = 0%nat → Client.retryable e = true →
  ∃ tr r w', exec (λ w1 w2, w2 = w1 ∨ ∃ i, w2 = Client.set_active i w1)
               (Client.call 2 1 (λ ep, rpc_ ep c)) w tr r w' ∧
    contacted tr = [0; 0]%nat ∧
    ∃ e', r = Err e' ∧ exn_kind e' = ChainClientError.
Proof.
  intros Ha He. set (w1 := Client.set_active 1 w).
  eexists _, _, w1. split.
  - unfold Client.call. cbn [Client.endpoints]. apply exec_get. rewrite Ha. cbn.
    apply (exec_await _ (Rpc _ c) (Err e) _ _ w); [by left|]. cbn. rewrite He. cbn.
    apply (exec_await _ (Sleep _) Elapsed _ _ w1); [by right; exists 1%nat|]. cbn.
    apply exec_get. cbn.
    apply (exec_await _ (Rpc _ c) (Err e) _ _ w1); [by left|]. cbn. rewrite He. cbn.
    apply (exec_await _ (Sleep _) Elapsed _ _ w1); [by left|]. cbn. constructor.
  - split; [done|]. eauto.
Qed.

(** An environment whose primary endpoint is down and whose fallback knows the chain id. *)
Definition primary_down : handler unit := λ q w,
  (match q return answer q with
   | Rpc (S _) GetChainId => Ok 42161
   | Rpc _ _ => Err (Exn ConnectionError "refused")
   | Sleep _ | ThreadJoin => Elapsed
   | ThreadStart => Ok tt
   | PerfCounter => fzero
   | Uuid4 => ""%string
   | ModelCall _ _ _ => Err (Exn TimeoutError "")
   | Monotonic | Time => fzero
   end, w).

Lemma call_failover_witness :
  let w := world0 in
  let '(tr, r, w', _) := run primary_down (Client.call 2 2 (λ ep, rpc_ ep GetChainId)) w tt in
  contacted tr = [0; 0; 1]%nat ∧ r = Ok 42161 ∧ w' = Client.set_active 1 w ∧
  contacted tr `prefix_of` call_schedule 2 2 0 0 2.
Proof.
  intros w. destruct (run primary_down _ w tt) as [[[tr r] w'] u] eqn:E.
  destruct (call_failover 2 2 GetChainId w tr r w') as [H _].
  { by apply (run_exec primary_down eq _ _ tt _ _ _ u). }
  vm_compute in E. simplify_eq. repeat split; exact H.
Defined.

Lemma call_interference_skips_fallback_witness :
  ∃ tr r w', exec (λ w1 w2, w2 = w1 ∨ ∃ i, w2 = Client.set_active i w1)
               (Client.call 2 1 (λ ep, rpc_ ep GetChainId)) world0 tr r w' ∧
    contacted tr = [0; 0]%nat ∧
    ∃ e', r = Err e' ∧ exn_kind e' = ChainClientError.
Proof. apply (call_interference_skips_fallback world0 GetChainId (Exn OSError "")); reflexivity. Defined.
