(* ===== verification/Monitor.v ===== *)
(** * core/monitor.py: polling and classification (FR-1)

    A [PositionMonitor] owns a dictionary of volatility windows.  The process has two of
    them (the service's and the pipeline's own), so the operations take a [MonitorRef]
    saying which dictionary of the world is meant. *)
From S2P Require Import Prelude PyFloat Config State InFlight Breaker Observability Models.
From S2P Require Import Risk Events Io Logic World Api.

Definition WATCH_BAND_BPS : Z := 500.
Definition VOL_WINDOW : Z := 30.

Definition hf_wad_to_bps (hf_wad : Z) : Z := hf_wad / 10 ^ 14.
Definition hf_bps_to_float (hf_bps : Z) : res f64 := truediv hf_bps BPS.

Definition classify_state (account : UserAccountData) (hf_trigger_bps watch_band_bps : Z)
  : PositionState :=
  if negb (has_debt account) then HEALTHY
  else
    let hf_bps := health_factor account / 10 ^ 14 in
    if hf_bps <=? hf_trigger_bps then ASSESSING
    else if hf_bps <=? hf_trigger_bps + watch_band_bps then WATCH
    else HEALTHY.

(** Which monitor object: where its [_vols] live in the world. *)
Record MonitorRef := {
  mon_vols : World → dict string RollingVolatility;
  mon_set : dict string RollingVolatility → World → World;
}.

Definition service_monitor : MonitorRef := {| mon_vols := w_vols; mon_set := set_vols |}.
Definition pipeline_monitor : MonitorRef := {| mon_vols := w_pvols; mon_set := set_pvols |}.

(** A monitor reference only touches volatility windows. *)
Class MonitorRefLaws (m : MonitorRef) := {
  mon_set_view d w : service_view (mon_set m d w) = service_view w;
  mon_vols_set d w : mon_vols m (mon_set m d w) = d;
}.

Section monitor.
Context `{ChainApi} `{Libm} (m : MonitorRef).

(** [volatility_for]: the window of an asset, created on first use. *)
Definition volatility_for (asset : string) : prog RollingVolatility :=
  vol ← gets (λ w, dget (mon_vols m w) asset);
  match vol with
  | Some v => Ret v
  | None =>
      v ← lift (rolling_init VOL_WINDOW);
      _ ← modify (λ w, mon_set m (dset (mon_vols m w) asset v) w);
      Ret v
  end.

Definition poll_once (borrower : string) (hf_trigger_bps : Z) : prog PositionSnapshot :=
  account ← api_user_account_data borrower;
  let state := classify_state account hf_trigger_bps WATCH_BAND_BPS in
  hf ← lift (account_hf account);
  Ret {| ps_borrower := borrower; ps_account := account; ps_state := state;
         ps_hf := hf; ps_hf_trigger_bps := hf_trigger_bps |}.

(** The window object is updated in place. *)
Definition sample_price (asset : string) : prog f64 :=
  p ← api_asset_price asset;
  value ← lift (truediv (price p) (10 ^ op_decimals p));
  v ← volatility_for asset;
  _ ← modify (λ w, mon_set m (dset (mon_vols m w) asset (rv_update v value)) w);
  Ret value.

Definition sigma_for (asset : string) : prog f64 :=
  v ← volatility_for asset;
  lift (rv_sigma v).
End monitor.

#[global] Instance service_monitor_laws : MonitorRefLaws service_monitor.
Proof. by split. Qed.
#[global] Instance pipeline_monitor_laws : MonitorRefLaws pipeline_monitor.
Proof. by split. Qed.

(** ** The monitor only reads the chain *)
Section monitor_lemmas.
Context `{AL : ChainApiLaws} {L : Libm} (m : MonitorRef) {ML : MonitorRefLaws m}.

Lemma volatility_for_reads asset : reads (volatility_for m asset).
Proof. unfold volatility_for. reads_auto; apply mon_set_view. Qed.

Lemma poll_once_reads b t : reads (poll_once b t).
Proof. unfold poll_once. reads_auto. Qed.

Lemma sample_price_reads asset : reads (sample_price m asset).
Proof.
  pose proof volatility_for_reads. unfold sample_price. reads_auto; apply mon_set_view.
Qed.

Lemma sigma_for_reads asset : reads (sigma_for m asset).
Proof. pose proof volatility_for_reads. unfold sigma_for. reads_auto. Qed.

Lemma poll_once_returns b t :
  returns (poll_once b t) (λ s,
    ps_borrower s = b ∧ ps_hf_trigger_bps s = t ∧
    ps_state s = classify_state (ps_account s) t WATCH_BAND_BPS ∧
    account_hf (ps_account s) = Ok (ps_hf s)).
Proof.
  unfold poll_once. apply returns_bind_any; intros a.
  apply returns_lift_bind; intros hf Hhf. done.
Qed.
End monitor_lemmas.

#[export] Hint Resolve volatility_for_reads poll_once_reads sample_price_reads sigma_for_reads : finax.

(** ** Claims *)

(** How urgent a monitored state is. *)
Definition urgency (s : PositionState) : Z :=
  match s with ASSESSING => 2 | WATCH => 1 | _ => 0 end.

Lemma wad_bps_le hf t : hf / 10 ^ 14 ≤ t ↔ hf < (t + 1) * 10 ^ 14.
Proof.
  pose proof (div_floor_spec hf (10 ^ 14) ltac:(lia)). change (10 ^ 14) with 100000000000000 in *.
  lia.
Qed.

(** Classification partitions the accounts by exact thresholds on the 18-decimal health
    factor: an indebted position is ASSESSING exactly below [(trigger + 1) * 1e14], WATCH in
    the [watch_band] above it, and HEALTHY otherwise, like a position without debt; and a
    lower health factor or a higher trigger never makes the state less urgent. *)
Theorem classify_state_bands a t band :
  0 ≤ band →
  (classify_state a t band = ASSESSING ↔
     0 < total_debt_base a ∧ health_factor a < (t + 1) * 10 ^ 14) ∧
  (classify_state a t band = WATCH ↔
     0 < total_debt_base a ∧ (t + 1) * 10 ^ 14 ≤ health_factor a < (t + band + 1) * 10 ^ 14) ∧
  (classify_state a t band = HEALTHY ↔
     total_debt_base a ≤ 0 ∨ (t + band + 1) * 10 ^ 14 ≤ health_factor a) ∧
  ∀ a' t', health_factor a' ≤ health_factor a → t ≤ t' →
    (0 < total_debt_base a → 0 < total_debt_base a') →
    urgency (classify_state a t band) ≤ urgency (classify_state a' t' band).
Proof.
  intros Hb. unfold classify_state, has_debt.
  pose proof (wad_bps_le (health_factor a) t). pose proof (wad_bps_le (health_factor a) (t + band)).
  split_and!.
  1-3: bsplit; split; intros; try done; naive_solver lia.
  intros a' t' Ha Ht Hd.
  assert (health_factor a' / 10 ^ 14 ≤ health_factor a / 10 ^ 14) by (apply Z.div_le_mono; lia).
  destruct (Z.ltb_spec 0 (total_debt_base a)), (Z.ltb_spec 0 (total_debt_base a')); simpl;
    try lia; bsplit; lia.
Qed.

Lemma classify_state_bands_witness :
  let a := {| total_collateral_base := 100; total_debt_base := 50; available_borrows_base := 0;
              liquidation_threshold_bps := 8000; ltv_bps := 7500;
              health_factor := 1150000000000000000 |} in
  classify_state a 11500 WATCH_BAND_BPS = ASSESSING.
Proof.
  intros a. apply (classify_state_bands a 11500 WATCH_BAND_BPS); [vm_compute; discriminate|].
  split; reflexivity.
Defined.
