(* ===== verification/Selector.v ===== *)
(** * core/selector.py: collateral selection (FR-5) *)
From S2P Require Import Prelude PyFloat Config State InFlight Breaker Observability Models.
From S2P Require Import Risk Events Io Logic World Api.

(** [_to_base_value]; [decimals] is a non-negative token property. *)
Definition to_base_value (amount decimals price_base : Z) : Z :=
  (amount * price_base) / 10 ^ decimals.

Definition build_choice (collateral_asset : string) (fee_tier amount_in collateral_decimals
    collateral_price_base out_needed debt_decimals debt_price_base liq_threshold_bps : Z)
    (has_allowance : bool) : CollateralChoice :=
  let amount_in_value := to_base_value amount_in collateral_decimals collateral_price_base in
  let out_value := to_base_value out_needed debt_decimals debt_price_base in
  let slippage_bps :=
    if 0 <? out_value then ((amount_in_value - out_value) * BPS) / out_value else 0 in
  let slippage_bps := Z.max slippage_bps 0 in
  let eligible := has_allowance && (0 <? amount_in) && (0 <? out_value) in
  {| cc_collateral_asset := collateral_asset;
     cc_fee_tier := fee_tier;
     cc_amount_in := amount_in;
     amount_in_value_base := amount_in_value;
     out_needed_value_base := out_value;
     slippage_cost_bps := slippage_bps;
     cc_liq_threshold_bps := liq_threshold_bps;
     has_allowance := has_allowance;
     eligible := eligible;
     cc_reason := if eligible then None
                  else if negb has_allowance then Some "no aToken allowance"%string
                  else Some "no quote / zero value"%string |}.

(** The sort key [(not eligible, slippage_cost_bps, -liq_threshold_bps)], compared as Python
    compares tuples. *)
Definition choice_key (c : CollateralChoice) : bool * Z * Z :=
  (negb (eligible c), slippage_cost_bps c, - cc_liq_threshold_bps c).

Definition key_le (k1 k2 : bool * Z * Z) : bool :=
  let '(e1, s1, t1) := k1 in
  let '(e2, s2, t2) := k2 in
  if Bool.eqb e1 e2 then (s1 <? s2) || (s1 =? s2) && (t1 <=? t2) else negb e1.

(** [sorted(choices, key=...)]: Python's sort is stable; insertion from the right is the
    stable sort by the key. *)
Fixpoint insert_choice (c : CollateralChoice) (l : list CollateralChoice) : list CollateralChoice :=
  match l with
  | [] => [c]
  | c' :: l' => if key_le (choice_key c) (choice_key c') then c :: c' :: l'
                else c' :: insert_choice c l'
  end.

Definition rank_collaterals (choices : list CollateralChoice) : list CollateralChoice :=
  foldr insert_choice [] choices.

(** The last lines of [select_best]. *)
Definition best_of (ranked : list CollateralChoice) : option CollateralChoice :=
  match ranked with
  | c :: _ => if eligible c then Some c else None
  | [] => None
  end.

Section selector.
Context `{EthUtils} `{ChainApi}.
Context (borrower vault_address debt_asset : string) (out_needed : Z).

(** The body of the loop over the candidate collaterals. *)
Definition evaluate_one (debt_reserve : ReserveInfo) (debt_price : Z) (collateral : string)
  : prog CollateralChoice :=
  reserve ← api_reserve_info collateral;
  p ← api_asset_price collateral;
  fee_tier ← lift (fee_tier_for collateral debt_asset);
  amount_in ← try_except
    (quote ← api_quote collateral debt_asset out_needed (Some fee_tier); Ret (q_amount_in quote))
    (λ _, Ret 0);
  allowance ← api_allowance (aToken_address reserve) borrower vault_address;
  Ret (build_choice collateral fee_tier amount_in (ri_decimals reserve) (price p) out_needed
         (ri_decimals debt_reserve) debt_price (liq_threshold_bps reserve)
         ((0 <? amount_in) && (amount_in <=? allowance))).

Fixpoint evaluate_all (debt_reserve : ReserveInfo) (debt_price : Z) (candidates : list string)
  : prog (list CollateralChoice) :=
  match candidates with
  | [] => Ret []
  | c :: cs =>
      choice ← evaluate_one debt_reserve debt_price c;
      choices ← evaluate_all debt_reserve debt_price cs;
      Ret (choice :: choices)
  end.

(** [CollateralSelector.evaluate] *)
Definition selector_evaluate (candidate_collaterals : list string) : prog (list CollateralChoice) :=
  debt_reserve ← api_reserve_info debt_asset;
  debt_price ← api_asset_price debt_asset;
  choices ← evaluate_all debt_reserve (price debt_price) candidate_collaterals;
  Ret (rank_collaterals choices).

Definition select_best (candidate_collaterals : list string) : prog (option CollateralChoice) :=
  ranked ← selector_evaluate candidate_collaterals;
  Ret (best_of ranked).
End selector.

(** ** The order *)
Lemma key_le_refl k : key_le k k = true.
Proof. destruct k as [[e s] t]. simpl. rewrite Bool.eqb_reflx. bsplit; lia || done. Qed.

Lemma key_le_total k1 k2 : key_le k1 k2 = false → key_le k2 k1 = true.
Proof.
  destruct k1 as [[[] s1] t1], k2 as [[[] s2] t2]; simpl; try done; bsplit; lia || done.
Qed.

Lemma key_le_trans k1 k2 k3 : key_le k1 k2 = true → key_le k2 k3 = true → key_le k1 k3 = true.
Proof.
  destruct k1 as [[[] s1] t1], k2 as [[[] s2] t2], k3 as [[[] s3] t3]; simpl; try done;
    bsplit; lia || done.
Qed.

Definition choice_le (c1 c2 : CollateralChoice) : Prop :=
  key_le (choice_key c1) (choice_key c2) = true.

#[global] Instance choice_le_preorder : PreOrder choice_le.
Proof. split; [intros ?; apply key_le_refl|intros ???; apply key_le_trans]. Qed.

(** ** The sort *)
Lemma insert_choice_perm c l : insert_choice c l ≡ₚ c :: l.
Proof.
  induction l as [|c' l IH]; simpl; [done|]. case_match; [done|].
  rewrite IH. apply Permutation_swap.
Qed.

Lemma rank_perm l : rank_collaterals l ≡ₚ l.
Proof. induction l as [|c l IH]; simpl; [done|]. by rewrite insert_choice_perm, IH. Qed.

Lemma insert_choice_sorted c l :
  StronglySorted choice_le l → StronglySorted choice_le (insert_choice c l).
Proof.
  induction 1 as [|c' l Hl IH Hc']; cbn [insert_choice]; [by repeat constructor|].
  destruct (key_le (choice_key c) (choice_key c')) eqn:E.
  - constructor; [by constructor|]. constructor; [done|].
    eapply Forall_impl; [exact Hc'|]. intros x. by transitivity c'.
  - constructor; [done|]. rewrite insert_choice_perm. constructor; [by apply key_le_total|done].
Qed.

Lemma rank_sorted l : StronglySorted choice_le (rank_collaterals l).
Proof. induction l; simpl; [constructor|by apply insert_choice_sorted]. Qed.

(** Candidates with the same key keep their relative order. *)
Definition same_key (k : bool * Z * Z) (c : CollateralChoice) : Prop := choice_key c = k.

#[global] Instance same_key_dec k c : Decision (same_key k c).
Proof. unfold same_key. apply _. Defined.

Lemma insert_choice_stable k c l :
  filter (same_key k) (insert_choice c l) = filter (same_key k) (c :: l).
Proof.
  induction l as [|c' l IH]; [done|]. cbn [insert_choice]. destruct (key_le (choice_key c) (choice_key c')) eqn:E; [done|].
  rewrite !filter_cons, IH, filter_cons. unfold same_key.
  destruct (decide (choice_key c = k)) as [Hc|], (decide (choice_key c' = k)) as [Hc'|]; try done.
  rewrite Hc, Hc', key_le_refl in E. done.
Qed.

Lemma rank_stable k l : filter (same_key k) (rank_collaterals l) = filter (same_key k) l.
Proof.
  induction l as [|c l IH]; [done|]. cbn [rank_collaterals foldr].
  rewrite insert_choice_stable, !filter_cons. unfold rank_collaterals in IH. by rewrite IH.
Qed.

Lemma eligible_key c : eligible c = true → ∀ c', choice_le c c' ∨ choice_le c' c.
Proof.
  intros _ c'. unfold choice_le. destruct (key_le (choice_key c) (choice_key c')) eqn:E; auto.
  right. by apply key_le_total.
Qed.

Lemma best_of_spec l c :
  best_of (rank_collaterals l) = Some c →
  c ∈ l ∧ eligible c = true ∧ Forall (choice_le c) l.
Proof.
  pose proof (rank_sorted l) as Hs. pose proof (rank_perm l) as Hp.
  destruct (rank_collaterals l) as [|c' l'] eqn:E; simpl; [done|].
  destruct (eligible c') eqn:He; [|done]. intros [= ->].
  inversion_clear Hs as [|? ? _ Hc].
  split_and!; [rewrite <-Hp; set_solver|done|]. rewrite <-Hp. by constructor.
Qed.

Lemma best_of_none l : best_of (rank_collaterals l) = None → Forall (λ c, eligible c = false) l.
Proof.
  pose proof (rank_sorted l) as Hs. rewrite <-(rank_perm l) at 2.
  destruct (rank_collaterals l) as [|c' l'] eqn:E; simpl; [constructor|].
  destruct (eligible c') eqn:He; [done|]. intros _.
  inversion_clear Hs as [|? ? _ Hc]. constructor; [done|].
  eapply Forall_impl; [exact Hc|]. intros x Hx. unfold choice_le, choice_key in Hx.
  rewrite He in Hx. simpl in Hx. by destruct (eligible x).
Qed.

(** ** Choices *)
Lemma build_choice_eligible a fee n cd cp out dd dp lt al :
  let c := build_choice a fee n cd cp out dd dp lt al in
  0 ≤ slippage_cost_bps c ∧
  (eligible c = true ↔ al = true ∧ 0 < n ∧ 0 < out_needed_value_base c) ∧
  (cc_reason c = None ↔ eligible c = true).
Proof.
  simpl. split_and!; [lia| |].
  - rewrite !andb_true_iff, !Z.ltb_lt. tauto.
  - by repeat (case_match; try done).
Qed.

(** What a candidate's choice guarantees. *)
Definition choice_ok (c : CollateralChoice) : Prop :=
  0 ≤ slippage_cost_bps c ∧ (eligible c = true → has_allowance c = true ∧ 0 < cc_amount_in c).

Section selector_lemmas.
Context {U : EthUtils} `{AL : ChainApiLaws}.

Lemma evaluate_one_reads b v d n r p c : reads (evaluate_one b v d n r p c).
Proof. unfold evaluate_one. reads_auto. Qed.
#[local] Hint Resolve evaluate_one_reads : finax.

Lemma evaluate_all_reads b v d n r p cs : reads (evaluate_all b v d n r p cs).
Proof. induction cs; cbn [evaluate_all]; reads_auto. Qed.
#[local] Hint Resolve evaluate_all_reads : finax.

Lemma select_best_reads b v d n cs : reads (select_best b v d n cs).
Proof. unfold select_best, selector_evaluate. reads_auto. Qed.

Lemma evaluate_one_returns b v d n r p c :
  returns (evaluate_one b v d n r p c) (λ ch, cc_collateral_asset ch = c ∧ choice_ok ch).
Proof.
  unfold evaluate_one. do 5 (apply returns_bind_any; intros ?). cbn [returns].
  split; [done|]. destruct (build_choice_eligible c a1 a2 (ri_decimals a) (price a0) n
    (ri_decimals r) p (liq_threshold_bps a) ((0 <? a2) && (a2 <=? a3))) as (?&He&_).
  split; [done|]. rewrite He. naive_solver.
Qed.

Lemma evaluate_all_returns b v d n r p cs :
  returns (evaluate_all b v d n r p cs)
    (λ chs, cc_collateral_asset <$> chs = cs ∧ Forall choice_ok chs).
Proof.
  induction cs as [|c cs IH]; cbn [evaluate_all]; [by repeat constructor|].
  eapply returns_bind; [apply evaluate_one_returns|]. intros ch [Hc ?].
  eapply returns_bind; [apply IH|]. intros chs [Hcs ?]. cbn [returns fmap list_fmap].
  split; [by rewrite Hc, Hcs|by constructor].
Qed.

(** The selected collateral is one the borrower signed for, and executable. *)
Lemma select_best_returns b v d n cs :
  returns (select_best b v d n cs) (λ o, ∀ c, o = Some c →
    cc_collateral_asset c ∈ cs ∧ eligible c = true ∧ has_allowance c = true ∧ 0 < cc_amount_in c).
Proof.
  unfold select_best. apply (returns_bind _ _ (λ ranked, ∃ l, ranked = rank_collaterals l ∧
    cc_collateral_asset <$> l = cs ∧ Forall choice_ok l)).
  - unfold selector_evaluate. do 2 (apply returns_bind_any; intros ?).
    eapply returns_bind; [apply evaluate_all_returns|]. intros l [??]. cbn [returns]. eauto.
  - intros ranked (l & -> & <- & Hok) c Hc. apply best_of_spec in Hc as (Hin & He & _).
    rewrite Forall_forall in Hok. destruct (Hok c Hin) as [_ Hel].
    split; [by apply list_elem_of_fmap_2|]. naive_solver.
Qed.
End selector_lemmas.

#[export] Hint Resolve select_best_reads : finax.

(** ** Claims *)

(** [rank_collaterals] is the stable sort by (eligible first, least slippage, highest
    liquidation threshold): a permutation of the candidates, sorted by the key, in which
    candidates with equal keys keep the order the borrower listed them in. *)
Theorem rank_collaterals_sorts l :
  rank_collaterals l ≡ₚ l ∧ StronglySorted choice_le (rank_collaterals l) ∧
  ∀ k, filter (same_key k) (rank_collaterals l) = filter (same_key k) l.
Proof. split_and!; [apply rank_perm|apply rank_sorted|intros k; apply rank_stable]. Qed.

(** The selected collateral is the right one: [select_best] picks an eligible candidate
    with the least slippage, and among those the highest threshold; it gives up exactly when
    no candidate is eligible. *)
Theorem best_of_minimal l :
  match best_of (rank_collaterals l) with
  | Some c =>
      c ∈ l ∧ eligible c = true ∧
      ∀ c', c' ∈ l → eligible c' = true →
        slippage_cost_bps c < slippage_cost_bps c' ∨
        slippage_cost_bps c = slippage_cost_bps c' ∧ cc_liq_threshold_bps c' ≤ cc_liq_threshold_bps c
  | None => ∀ c', c' ∈ l → eligible c' = false
  end.
Proof.
  destruct (best_of _) as [c|] eqn:E.
  - apply best_of_spec in E as (Hin & He & Hall). split_and!; [done|done|].
    intros c' Hc' He'. rewrite Forall_forall in Hall. specialize (Hall c' Hc').
    unfold choice_le, choice_key in Hall. rewrite He, He' in Hall. simpl in Hall.
    revert Hall. bsplit; intros; try done; lia.
  - apply best_of_none in E. by rewrite Forall_forall in E.
Qed.
