(* ===== verification/Pipeline.v ===== *)
(** * core/pipeline.py: the read-only decision pipeline

    monitor, risk, sizing, selection and viability composed into an assessment and, when the
    economics clear the gate, the rescue plan.  No request it makes sends anything. *)
From S2P Require Import Prelude PyFloat Config State InFlight Breaker Observability Models.
From S2P Require Import Sizing Viability Risk Events Io Logic World Api Monitor Selector.

Section pipeline.
Context `{EthUtils} `{ChainApi} `{Libm}.
Context (vault_address : string).       (* AssessmentPipeline._vault_address *)

(** [_infer_debt_asset]: [TOKENS["USDC"]] *)
Definition infer_debt_asset (p : RiskParams) : string := USDC.

Definition no_debt_response (hf_target : f64) : AssessmentResponse :=
  {| as_hf := finf; as_hf_target := hf_target; as_repay_amount := 0;
     as_collateral_asset := ""; as_est_cost_bps := 0; as_viable := false;
     as_reason := Some "no debt: nothing to protect"%string |}.

(** The swap output must also cover the flash-loan premium. *)
Definition out_needed_for (repay : Z) : Z := repay + (repay * FLASH_PREMIUM_BPS) / BPS.

(** The pipeline's default for [sigma]: its own monitor's estimate for the first allowed
    collateral. *)
Definition default_sigma (params : RiskParams) : prog f64 :=
  match rp_allowed_collaterals params with
  | a :: _ => sigma_for pipeline_monitor a
  | [] => Ret fzero
  end.

(** [AssessmentPipeline.evaluate] *)
Definition evaluate (params : RiskParams) (sigma : option f64) (gas_cost_base : Z)
  : prog (AssessmentResponse * option RescuePlan) :=
  let borrower := rp_borrower params in
  snapshot ← poll_once borrower (rp_hf_trigger_bps params);
  let account := ps_account snapshot in
  sigma ← match sigma with Some s => Ret s | None => default_sigma params end;
  hf_risk ← (if has_debt account then lift (account_hf account) else Ret finf);
  risk ← lift (assess_risk hf_risk sigma (rp_hf_target_base_bps params)
                 (rp_hf_target_max_bps params) (rp_vol_coeff_k params) 1);
  if negb (has_debt account) then
    hf_target ← lift (signal_hf_target risk);
    Ret (no_debt_response hf_target, None)
  else
    let debt_asset := infer_debt_asset params in
    debt_reserve ← api_reserve_info debt_asset;
    debt_price ← api_asset_price debt_asset;
    let sizing := size_repay (total_collateral_base account) (total_debt_base account)
                    (liquidation_threshold_bps account) (rs_hf_target_bps risk)
                    (price debt_price) (ri_decimals debt_reserve) DEFAULT_BUNDLED_COST_BPS 0 in
    if negb (feasible sizing) || (sz_repay_amount sizing =? 0) then
      hf ← lift (account_hf account);
      hf_target ← lift (signal_hf_target risk);
      Ret ({| as_hf := hf; as_hf_target := hf_target; as_repay_amount := 0;
              as_collateral_asset := ""; as_est_cost_bps := 0; as_viable := false;
              as_reason := Some (default "no repayment required"%string (sz_reason sizing)) |},
           None)
    else
      best ← select_best borrower vault_address debt_asset
               (out_needed_for (sz_repay_amount sizing)) (rp_allowed_collaterals params);
      match best with
      | None =>
          hf ← lift (account_hf account);
          hf_target ← lift (signal_hf_target risk);
          Ret ({| as_hf := hf; as_hf_target := hf_target;
                  as_repay_amount := sz_repay_amount sizing;
                  as_collateral_asset := ""; as_est_cost_bps := 0; as_viable := false;
                  as_reason := Some
                    "no eligible collateral (missing aToken allowance or unquotable)"%string |},
               None)
      | Some best =>
          collateral_reserve ← api_reserve_info (cc_collateral_asset best);
          let swap_cost_base := Z.max (amount_in_value_base best - out_needed_value_base best) 0 in
          let viability := assess_viability (delta_base sizing) (liq_bonus_bps collateral_reserve)
                             swap_cost_base gas_cost_base None in
          hf ← lift (account_hf account);
          hf_target ← lift (signal_hf_target risk);
          let response :=
            {| as_hf := hf; as_hf_target := hf_target;
               as_repay_amount := sz_repay_amount sizing;
               as_collateral_asset := cc_collateral_asset best;
               as_est_cost_bps := vr_est_cost_bps viability;
               as_viable := vr_viable viability;
               as_reason := vr_reason viability |} in
          Ret (response,
               if vr_viable viability then
                 Some {| pl_borrower := borrower; pl_debt_asset := debt_asset;
                         pl_repay_amount := sz_repay_amount sizing;
                         pl_collateral_asset := cc_collateral_asset best;
                         pl_fee_tier := cc_fee_tier best;
                         pl_amount_in := cc_amount_in best;
                         pl_hf_target_bps := rs_hf_target_bps risk;
                         pl_max_slippage_bps := rp_max_slippage_bps params |}
               else None)
      end.

(** [AssessmentPipeline.assess] *)
Definition assess (params : RiskParams) (sigma : option f64) (gas_cost_base : Z)
  : prog AssessmentResponse :=
  rp ← evaluate params sigma gas_cost_base; Ret rp.1.
End pipeline.

(** ** Specification

    What the borrower's mandate promises about any plan the pipeline hands to the keeper. *)
Definition plan_within_mandate `{EthUtils} (p : RiskParams) (pl : RescuePlan) : Prop :=
  pl_borrower pl = rp_borrower p ∧
  pl_debt_asset pl = USDC ∧
  rp_hf_target_base_bps p ≤ pl_hf_target_bps pl ≤ rp_hf_target_max_bps p ∧
  pl_collateral_asset pl ∈ rp_allowed_collaterals p ∧
  pl_max_slippage_bps pl = rp_max_slippage_bps p ∧
  0 < pl_repay_amount pl ∧ 0 < pl_amount_in pl.

(** The amount is the minimum-effective repayment for some reading of the position. *)
Definition plan_sized (pl : RescuePlan) : Prop :=
  ∃ account price dec,
    0 < total_debt_base account ∧
    let s := size_repay (total_collateral_base account) (total_debt_base account)
               (liquidation_threshold_bps account) (pl_hf_target_bps pl) price dec
               DEFAULT_BUNDLED_COST_BPS 0 in
    feasible s = true ∧ pl_repay_amount pl = sz_repay_amount s ∧
    ∃ bonus swap gas, 0 ≤ swap ∧
      vr_viable (assess_viability (delta_base s) bonus swap gas None) = true.

Definition outcome_ok `{EthUtils} (p : RiskParams) (out : AssessmentResponse * option RescuePlan)
  : Prop :=
  match out with
  | (r, Some pl) =>
      as_viable r = true ∧ as_repay_amount r = pl_repay_amount pl ∧
      as_collateral_asset r = pl_collateral_asset pl ∧ as_reason r = None ∧
      plan_within_mandate p pl ∧ plan_sized pl
  | (r, None) => as_viable r = false ∧ is_Some (as_reason r)
  end.

Section pipeline_lemmas.
Context {U : EthUtils} `{AL : ChainApiLaws} {L : Libm} (vault : string).

Lemma evaluate_reads p s g : reads (evaluate vault p s g).
Proof.
  unfold evaluate, default_sigma. reads_auto.
Qed.

Lemma size_repay_nonneg C D lt target pr dec f :
  0 ≤ sz_repay_amount (size_repay C D lt target pr dec f 0).
Proof.
  rewrite size_repay_eq. bsplit; simpl; try lia. apply ceil_div_nonneg; [lia|].
  apply Z.mul_nonneg_nonneg; [|by apply Z.pow_nonneg].
  apply div_nonneg; unfold BPS; lia.
Qed.

Lemma assess_risk_target hf s b m k h sig :
  assess_risk hf s b m k h = Ok sig → b ≤ rs_hf_target_bps sig ≤ m.
Proof.
  unfold assess_risk. intros (t & Ht & (pr & _ & [= <-])%res_bind_ok)%res_bind_ok.
  by apply target_in_band in Ht.
Qed.

Lemma evaluate_returns p s g : returns (evaluate vault p s g) (outcome_ok p).
Proof.
  unfold evaluate. apply returns_bind_any; intros sn. apply returns_bind_any; intros sigma.
  apply returns_bind_any; intros hfr. apply returns_lift_bind; intros risk Hrisk.
  apply assess_risk_target in Hrisk. destruct (has_debt (ps_account sn)) eqn:Hd; simpl negb; cbn match.
  2:{ apply returns_lift_bind; intros t _. cbn. by split; [|eexists]. }
  apply returns_bind_any; intros dr. apply returns_bind_any; intros dp.
  pose proof (size_repay_nonneg (total_collateral_base (ps_account sn))
    (total_debt_base (ps_account sn)) (liquidation_threshold_bps (ps_account sn))
    (rs_hf_target_bps risk) (price dp) (ri_decimals dr) DEFAULT_BUNDLED_COST_BPS) as Hnn.
  destruct (negb _ || _) eqn:Hf.
  - do 2 (apply returns_bind_any; intros ?). cbn. by split; [|eexists].
  - apply orb_false_iff in Hf as [Hf Hz]. apply negb_false_iff in Hf. apply Z.eqb_neq in Hz.
    eapply returns_bind; [apply select_best_returns|]. intros [best|] Hbest.
    + destruct (Hbest best eq_refl) as (Hin & He & Hal & Hamt).
      apply returns_bind_any; intros cr. do 2 (apply returns_bind_any; intros ?).
      cbn [returns outcome_ok as_viable].
      match goal with |- context [assess_viability ?x ?y ?z ?t ?d] =>
        pose proof (viability_reason x y z t d) as Hr; cbn zeta in Hr;
        destruct (vr_viable (assess_viability x y z t d)) eqn:Hv end;
        cbn [outcome_ok as_viable as_reason]; [|done].
      split_and!; [done|done|done|done| |].
      * split_and!; simpl; done || lia.
      * exists (ps_account sn), (price dp), (ri_decimals dr).
        split; [by apply Z.ltb_lt|]. split_and!; [done|done|].
        eexists _, _, _. split; [|exact Hv]. lia.
    + do 2 (apply returns_bind_any; intros ?). cbn. by split; [|eexists].
Qed.
End pipeline_lemmas.

#[export] Hint Resolve evaluate_reads : finax.

(** ** A concrete chain, for witnesses: an indebted position, one quoted collateral *)
Definition demo_user_account : UserAccountData :=
  {| total_collateral_base := 1000000000000; total_debt_base := 800000000000;
     available_borrows_base := 0; liquidation_threshold_bps := 8250; ltv_bps := 8000;
     health_factor := 1031250000000000000 |}.

Definition demo_api : ChainApi := {|
  api_user_account_data := λ _, Ret demo_user_account;
  api_reserve_info := λ a, Ret {| ri_asset := a; aToken_address := "0xa"; 
    variable_debt_token_address := "0xd"; ri_decimals := 6; liq_threshold_bps := 8250;
    liq_bonus_bps := 500 |};
  api_asset_price := λ a, Ret {| op_asset := a; price := 100000000; op_decimals := 8;
    updated_at := 0; stale := false |};
  api_quote := λ i o n f, Ret {| q_token_in := i; q_token_out := o; q_fee := 500;
    q_amount_out := n; q_amount_in := n + n / 1000; sqrt_price_x96_after := 0;
    initialized_ticks_crossed := 1; gas_estimate := 100000 |};
  api_allowance := λ _ _ _, Ret (10 ^ 18);
|}.

#[global] Instance demo_api_laws : ChainApiLaws demo_api.
Proof. split; intros; simpl; reads_auto. Qed.

(** An environment that answers nothing; the demo chain asks it nothing. *)
Definition no_chain : handler unit := λ q w,
  (match q return answer q with
   | Rpc _ _ => Err (Exn ConnectionError "refused")
   | Sleep _ | ThreadJoin => Elapsed
   | ThreadStart => Ok tt
   | PerfCounter => fzero
   | Uuid4 => ""%string
   | ModelCall _ _ _ => Err (Exn TimeoutError "")
   | Monotonic | Time => fzero
   end, w).


