(* ===== verification/Simulator.v ===== *)
(** * core/simulator.py: the eth_call dry-run with its bounded bump loop (FR-8)

    [Simulator.max_bumps] is an attribute the control API may change while a dry-run is
    suspended, so the loop reads it from the world each time the source does.  The loop runs
    on fuel: [None] is running out, and [simulate_fuel] shows that it never happens within
    the bound [KeeperConfig] puts on [max_bumps]. *)
From S2P Require Import Prelude PyFloat Config State InFlight Breaker Observability Models.
From S2P Require Import Risk Events Io Logic World Api Chain.

Definition BUMPABLE_ERRORS : list string := ["HealthBelowTarget"; "DebtNotReduced"]%string.
Definition BUMP_BPS : Z := 200.

Definition amount_in_maximum (amount_in max_slippage_bps : Z) : Z :=
  amount_in * (BPS + max_slippage_bps) / BPS.

(** [_is_bumpable] *)
Definition is_bumpable (reason : string) : bool :=
  existsb (λ name, str_contains name reason) BUMPABLE_ERRORS.

(** The revert text taken for "the call reached the flash loan". *)
Definition bare_revert (reason : string) : bool :=
  str_contains "'0x'" reason || str_contains "execution reverted', '0x'" reason
  || String.eqb reason "execution reverted".

(** One bump of the candidate repayment: +2%. *)
Definition bump (repay : Z) : Z := repay * (BPS + BUMP_BPS) / BPS.

(** Assigning [plan.repay_amount] and [plan.amount_in] of the caller's object. *)
Definition plan_with (plan : RescuePlan) (repay amount_in : Z) : RescuePlan :=
  {| pl_borrower := pl_borrower plan; pl_debt_asset := pl_debt_asset plan;
     pl_repay_amount := repay; pl_collateral_asset := pl_collateral_asset plan;
     pl_fee_tier := pl_fee_tier plan; pl_amount_in := amount_in;
     pl_hf_target_bps := pl_hf_target_bps plan; pl_max_slippage_bps := pl_max_slippage_bps plan |}.

Definition sim_result (success : bool) (repay amount_in_max bumps : Z) (reason : option string)
  : SimulationResult :=
  {| sim_success := success; sim_repay_amount := repay; sim_amount_in_maximum := amount_in_max;
     sim_hf_after := None; sim_bumps := bumps; sim_revert_reason := reason |}.

Section simulator.
Context `{EthUtils} `{ChainApi} (cfg : Settings).
Context (vault keeper : string).        (* checksummed by the constructor *)

(** The call both the simulator and the submitter build. *)
Definition protection_call (plan : RescuePlan) (params : RiskParams) (sig : list Z)
    (repay amount_in_max : Z) (from : string) : res exec_args :=
  debt ← to_checksum_address (pl_debt_asset plan);
  coll ← to_checksum_address (pl_collateral_asset plan);
  Ok {| ea_vault := vault; ea_params := to_solidity_tuple params; ea_sig := sig;
        ea_debt_asset := debt; ea_repay_amount := repay; ea_collateral_asset := coll;
        ea_amount_in_maximum := amount_in_max; ea_fee_tier := pl_fee_tier plan;
        ea_hf_target_bps := pl_hf_target_bps plan; ea_from := from |}.

(** [_eth_call] *)
Definition eth_call (plan : RescuePlan) (params : RiskParams) (signature : string)
    (repay amount_in_max : Z) : prog unit :=
  sig ← lift (fromhex (removeprefix "0x" signature));
  client_call cfg (λ ep,
    a ← lift (protection_call plan params sig repay amount_in_max keeper);
    rpc_ ep (CallExecuteProtection a)).

(** What one iteration ends with: a result for the caller (and the plan object as it then
    is), or the next values of [repay], [amount_in], [bumps] and [last_reason]. *)
Definition iteration : Type := SimulationResult * RescuePlan + Z * Z * Z * option string.

(** The [except ContractLogicError] clause; an exception of the re-quote leaves [simulate]. *)
Definition on_revert (plan : RescuePlan) (repay amount_in_max bumps : Z) (e : exn)
  : prog iteration :=
  let last_reason := exn_msg e in
  if bare_revert last_reason then
    Ret (inl (sim_result true repay amount_in_max bumps None, plan))
  else
    max_bumps ← gets w_max_bumps;
    if negb (is_bumpable last_reason) || (max_bumps <=? bumps) then
      Ret (inl (sim_result false repay amount_in_max bumps (Some last_reason), plan))
    else
      let repay := bump repay in
      let out_needed := repay + repay * FLASH_PREMIUM_BPS / BPS in
      quote ← api_quote (pl_collateral_asset plan) (pl_debt_asset plan) out_needed
                (Some (pl_fee_tier plan));
      Ret (inr (repay, q_amount_in quote, bumps + 1, Some last_reason)).

(** The [try] statement of one iteration. *)
Definition iterate (plan : RescuePlan) (params : RiskParams) (signature : string)
    (repay amount_in bumps : Z) : prog iteration :=
  let amount_in_max := amount_in_maximum amount_in (pl_max_slippage_bps plan) in
  catch
    (_ ← eth_call plan params signature repay amount_in_max;
     Ret (inl (sim_result true repay amount_in_max bumps None,
               if bumps =? 0 then plan else plan_with plan repay amount_in)))
    (λ e,
      if is_ContractLogicError e then on_revert plan repay amount_in_max bumps e
      else if is_Exception e then
        Ret (inl (sim_result false repay amount_in_max bumps
                    (Some ("simulation error: " +:+ exn_msg e)), plan))
      else Raise e).

Fixpoint simulate_loop (fuel : nat) (plan : RescuePlan) (params : RiskParams)
    (signature : string) (repay amount_in bumps : Z) (last_reason : option string)
  : prog (option (SimulationResult * RescuePlan)) :=
  match fuel with
  | O => Ret None
  | S fuel =>
      max_bumps ← gets w_max_bumps;
      if bumps <=? max_bumps then
        it ← iterate plan params signature repay amount_in bumps;
        match it with
        | inl out => Ret (Some out)
        | inr (repay, amount_in, bumps, last_reason) =>
            simulate_loop fuel plan params signature repay amount_in bumps last_reason
        end
      else
        Ret (Some (sim_result false repay
                     (amount_in_maximum amount_in (pl_max_slippage_bps plan)) bumps last_reason,
                   plan))
  end.

(** [KeeperConfig.max_simulation_bumps <= 10], so eleven bumps are never exceeded. *)
Definition SIM_FUEL : nat := 12.

Definition out_of_fuel : exn := Exn RuntimeError "simulate: out of fuel".

(** [Simulator.simulate], with the plan object as the call leaves it. *)
Definition simulate (plan : RescuePlan) (params : RiskParams) (signature : string)
  : prog (SimulationResult * RescuePlan) :=
  out ← simulate_loop SIM_FUEL plan params signature (pl_repay_amount plan) (pl_amount_in plan)
          0 None;
  match out with Some out => Ret out | None => Raise out_of_fuel end.
End simulator.

(** ** The dry-run sends nothing *)
Section simulator_reads.
Context {U : EthUtils} `{AL : ChainApiLaws} (cfg : Settings) (vault keeper : string).

Lemma eth_call_reads pl p s r a : reads (eth_call cfg vault keeper pl p s r a).
Proof. unfold eth_call. repeat first [apply client_call_reads | reads_step]. Qed.

Lemma on_revert_reads pl r a b e : reads (on_revert pl r a b e).
Proof. unfold on_revert. reads_auto. Qed.
#[local] Hint Resolve eth_call_reads on_revert_reads : finax.

Lemma iterate_reads pl p s r a b : reads (iterate cfg vault keeper pl p s r a b).
Proof. unfold iterate. apply reads_catch; reads_auto. Qed.
#[local] Hint Resolve iterate_reads : finax.

Lemma simulate_loop_reads n pl p s r a b l :
  reads (simulate_loop cfg vault keeper n pl p s r a b l).
Proof.
  revert r a b l. induction n as [|n IH]; intros r a b l; cbn [simulate_loop]; reads_auto.
Qed.

Lemma simulate_reads pl p s : reads (simulate cfg vault keeper pl p s).
Proof. pose proof simulate_loop_reads. unfold simulate. reads_auto. Qed.
End simulator_reads.

#[export] Hint Resolve simulate_reads : finax.

(** ** Specification *)

(** The trace has a dry-run of exactly this call, and the node let it pass. *)
Definition dry_ran `{EthUtils} (vault keeper : string) (plan : RescuePlan) (params : RiskParams)
    (signature : string) (repay amount_in_max : Z) (tr : list event) : Prop :=
  ∃ ep sig a (ans : res unit),
    fromhex (removeprefix "0x" signature) = Ok sig ∧
    protection_call vault plan params sig repay amount_in_max keeper = Ok a ∧
    Ev (Rpc ep (CallExecuteProtection a)) ans ∈ tr ∧
    match ans with Ok _ => True | Err e => bare_revert (exn_msg e) = true end.

(** The plan object after the dry-run still describes the same rescue. *)
Definition same_route (p p' : RescuePlan) : Prop :=
  pl_borrower p' = pl_borrower p ∧ pl_debt_asset p' = pl_debt_asset p ∧
  pl_collateral_asset p' = pl_collateral_asset p ∧ pl_fee_tier p' = pl_fee_tier p ∧
  pl_hf_target_bps p' = pl_hf_target_bps p ∧ pl_max_slippage_bps p' = pl_max_slippage_bps p.

Definition bumped (repay0 repay bumps : Z) : Prop :=
  ∃ k, bumps = Z.of_nat k ∧ repay = Nat.iter k bump repay0.

Lemma same_route_refl p : same_route p p.
Proof. by split_and!. Qed.

Lemma bumped_step r0 r b : bumped r0 r b → bumped r0 (bump r) (b + 1).
Proof. intros (k & -> & ->). exists (S k). split; [lia|done]. Qed.

Section simulator_spec.
Context {U : EthUtils} {UL : EthUtilsLaws U} `{AL : ChainApiLaws} (cfg : Settings).
Context (vault keeper : string) (R : World → World → Prop).

Lemma protection_call_err v pl p s r a f e :
  protection_call v pl p s r a f = Err e → is_ValueError e = true.
Proof.
  unfold protection_call.
  intros [H|(? & _ & [H|(? & _ & H)]%res_bind_err)]%res_bind_err; eauto using checksum_error. done.
Qed.

(** An accepted or reverted dry-run was answered by a node. *)
Lemma eth_call_end pl p s r a w tr w' (out : res unit) :
  exec R (eth_call cfg vault keeper pl p s r a) w tr out w' →
  match out with
  | Ok _ => dry_ran vault keeper pl p s r a tr
  | Err e => is_ContractLogicError e = true → bare_revert (exn_msg e) = true →
             dry_ran vault keeper pl p s r a tr
  end.
Proof.
  set (Q := λ (tr : list event) (out : res unit) (_ : World), match out with
    | Ok _ => dry_ran vault keeper pl p s r a tr
    | Err e => is_ContractLogicError e = true → bare_revert (exn_msg e) = true →
               dry_ran vault keeper pl p s r a tr
    end). apply (wp_exec R _ Q). unfold eth_call. rewrite wp_bind, wp_lift.
  destruct (fromhex _) as [sig|e] eqn:Esig.
  2:{ apply fromhex_error in Esig. unfold Q. intros H. unfold is_ContractLogicError,
      is_ValueError in *. by destruct (exn_kind e). }
  apply exec_wp. intros tr1 o w1 He. apply call_ends in He. unfold call_end, ended_by in He.
  assert (∀ e w2 w3 tr2 tr3 ep, exec R (a0 ← lift (protection_call vault pl p sig r a keeper);
    rpc_ ep (CallExecuteProtection a0)) w2 tr2 e w3 →
    match e with Err x => is_ContractLogicError x = true ∧ bare_revert (exn_msg x) = true | _ => True end →
    dry_ran vault keeper pl p s r a (tr3 ++ tr2)) as Hfn.
  { intros e w2 w3 tr2 tr3 ep. set (Q' := λ (tr2 : list event) (e : res unit) (_ : World),
      match e with Err x => is_ContractLogicError x = true ∧ bare_revert (exn_msg x) = true | _ => True end →
      dry_ran vault keeper pl p s r a (tr3 ++ tr2)). apply (wp_exec R _ Q').
    rewrite wp_bind, wp_lift. destruct (protection_call _ _ _ _ _ _ _) as [x|x] eqn:Ex.
    - apply (proj2 (wp_rpc R ep (CallExecuteProtection x) _ _)). intros ans w4 _. unfold Q'. cbn [app]. intros Hans.
      exists ep, sig, x, ans. split_and!; [done|done|set_solver|]. destruct ans; naive_solver.
    - apply protection_call_err in Ex. unfold Q'. intros [Hx _].
      unfold is_ContractLogicError, is_ValueError in *. by destruct (exn_kind x). }
  unfold Q. destruct o as [u|e].
  - destruct He as (tr0 & tr2 & ep & w2 & w3 & -> & He). by apply (Hfn (Ok u) w2 w3 tr2 tr0 ep He).
  - intros Hc Hb. unfold is_ContractLogicError in Hc.
    destruct He as [He|[He|[(tr0 & tr2 & ep & w2 & w3 & -> & He) _]]];
      [by rewrite He in Hc|by rewrite He in Hc|]. by apply (Hfn (Err e) w2 w3 tr2 tr0 ep He).
Qed.

(** One iteration. *)
Definition iteration_ok (pl : RescuePlan) (p : RiskParams) (s : string) (repay a b : Z)
    (tr : list event) (it : iteration) : Prop :=
  match it with
  | inl (out, pl') =>
      same_route pl pl' ∧ sim_repay_amount out = repay ∧ sim_bumps out = b ∧
      sim_amount_in_maximum out = amount_in_maximum a (pl_max_slippage_bps pl) ∧
      (sim_success out = true →
       dry_ran vault keeper pl p s repay (sim_amount_in_maximum out) tr)
  | inr (repay', _, b', _) => repay' = bump repay ∧ b' = b + 1
  end.

Lemma on_revert_wp pl p s repay a b e tr w :
  let m := amount_in_maximum a (pl_max_slippage_bps pl) in
  (bare_revert (exn_msg e) = true → dry_ran vault keeper pl p s repay m tr) →
  wp R (on_revert pl repay m b e)
    (λ tr' r _, ∀ it, r = Ok it → iteration_ok pl p s repay a b (tr ++ tr') it) w.
Proof.
  intros m Hdry. unfold on_revert. destruct (bare_revert _) eqn:Hb.
  - apply wp_ret. intros it [= <-]. rewrite app_nil_r. cbn.
    split_and!; [apply same_route_refl|done|done|done|auto].
  - rewrite wp_bind, wp_gets. destruct (_ || _).
    + apply wp_ret. intros it [= <-]. cbn. split_and!; [apply same_route_refl|done|done|done|done].
    + rewrite wp_bind. apply exec_wp. intros tr1 [q|e1] w1 _; [|done].
      apply wp_ret. intros it [= <-]. by cbn.
Qed.

Lemma iterate_wp pl p s repay a b w :
  wp R (iterate cfg vault keeper pl p s repay a b)
    (λ tr r _, ∀ it, r = Ok it → iteration_ok pl p s repay a b tr it) w.
Proof.
  unfold iterate. rewrite wp_catch, wp_bind. apply exec_wp. intros tr [u|e] w1 He;
    apply eth_call_end in He.
  - apply wp_ret. intros it [= <-]. rewrite app_nil_r. cbn.
    split_and!; [|done|done|done|done]. destruct (b =? 0); by split_and!.
  - destruct (is_ContractLogicError e) eqn:Hc.
    + apply on_revert_wp. auto.
    + destruct (is_Exception e); [|by apply wp_raise].
      apply wp_ret. intros it [= <-]. cbn. split_and!; [apply same_route_refl|done|done|done|done].
Qed.

Definition simulation_ok (pl : RescuePlan) (p : RiskParams) (s : string) (tr : list event)
    (out : SimulationResult * RescuePlan) : Prop :=
  same_route pl out.2 ∧ bumped (pl_repay_amount pl) (sim_repay_amount out.1) (sim_bumps out.1) ∧
  (sim_success out.1 = true →
   dry_ran vault keeper pl p s (sim_repay_amount out.1) (sim_amount_in_maximum out.1) tr).

Lemma dry_ran_app pl p s r a tr tr' :
  dry_ran vault keeper pl p s r a tr' → dry_ran vault keeper pl p s r a (tr ++ tr').
Proof.
  intros (ep & sig & x & ans & H1 & H2 & H3 & H4). exists ep, sig, x, ans.
  split_and!; [done|done|set_solver|done].
Qed.

Lemma simulate_loop_wp n pl p s repay a b l w :
  bumped (pl_repay_amount pl) repay b →
  wp R (simulate_loop cfg vault keeper n pl p s repay a b l)
    (λ tr r _, ∀ out, r = Ok (Some out) → simulation_ok pl p s tr out) w.
Proof.
  revert repay a b l w. induction n as [|n IH]; intros repay a b l w Hb; cbn [simulate_loop].
  - by apply wp_ret.
  - rewrite wp_bind, wp_gets. destruct (b <=? w_max_bumps w).
    + rewrite wp_bind. eapply wp_mono; [|apply iterate_wp]. intros tr [it|e] w1 Hit; [|done].
      specialize (Hit it eq_refl). destruct it as [[out pl']|[[[r' a'] b'] l']].
      * apply wp_ret. intros o [= <-]. destruct Hit as (?&Hr&Hbs&Hm&?). cbn [app].
        rewrite app_nil_r. split_and!; cbn [fst snd]; [done|by rewrite Hr, Hbs|by rewrite Hr].
      * destruct Hit as [-> ->]. eapply wp_mono; [|apply IH; by apply bumped_step].
        intros tr' r w2 Hr out Hout. destruct (Hr out Hout) as (?&?&?).
        split_and!; [done|done|]. intros. cbn [app]. apply dry_ran_app. auto.
    + apply wp_ret. intros o [= <-]. split_and!; [apply same_route_refl|done|done].
Qed.

Lemma simulate_ok pl p s w tr out w' :
  exec R (simulate cfg vault keeper pl p s) w tr (Ok out) w' → simulation_ok pl p s tr out.
Proof.
  intros He. set (Q := λ (tr : list event) (r : res (SimulationResult * RescuePlan)) (_ : World),
    ∀ out, r = Ok out → simulation_ok pl p s tr out).
  apply (wp_exec R _ Q w) in He; [by apply He|]. unfold simulate. rewrite wp_bind.
  eapply wp_mono; [|apply simulate_loop_wp; by exists 0%nat].
  intros tr1 [[o|]|e] w1 H; [|done|done]. apply wp_ret. intros ? [= <-]. rewrite app_nil_r. auto.
Qed.

Lemma simulate_returns pl p s :
  returns (simulate cfg vault keeper pl p s) (λ out, same_route pl out.2).
Proof.
  unfold simulate. apply (returns_bind _ _ (λ o, ∀ out, o = Some out → same_route pl out.2)).
  - generalize (pl_repay_amount pl), (pl_amount_in pl), 0, (@None string).
    induction SIM_FUEL as [|n IH]; intros r a b l; cbn [simulate_loop returns]; [done|].
    apply returns_bind_any; intros mb. destruct (b <=? mb).
    2:{ intros out [= <-]. apply same_route_refl. }
    apply (returns_bind _ _ (λ it, ∀ out, it = inl out → same_route pl out.2)).
    + unfold iterate. apply returns_catch.
      * apply returns_bind_any; intros _. intros out [= <-].
        destruct (b =? 0); by split_and!.
      * intros e. destruct (is_ContractLogicError e).
        -- unfold on_revert. destruct (bare_revert _); [by intros out [= <-]; apply same_route_refl|].
           apply returns_bind_any; intros mb'. destruct (_ || _).
           ++ intros out [= <-]. apply same_route_refl.
           ++ apply returns_bind_any; intros q. by intros out.
        -- destruct (is_Exception e); [|done]. intros out [= <-]. apply same_route_refl.
    + intros [out|[[[r' a'] b'] l']] Hit; [|apply IH]. intros ? [= <-]. by apply Hit.
  - intros [out|] Ho; [|done]. cbn. by apply Ho.
Qed.

(** *** Termination *)
Context (R_max : ∀ w1 w2, R w1 w2 → w_max_bumps w1 ≤ 10 → w_max_bumps w2 ≤ 10).

Lemma simulate_loop_fuel n pl p s repay a b l w :
  w_max_bumps w ≤ 10 → 0 ≤ b → 12 ≤ b + Z.of_nat n → b ≤ 11 →
  wp R (simulate_loop cfg vault keeper n pl p s repay a b l) (λ _ r _, r ≠ Ok None) w.
Proof.
  revert repay a b l w. induction n as [|n IH]; intros repay a b l w Hw Hb Hn Hb'; [lia|].
  cbn [simulate_loop]. rewrite wp_bind, wp_gets.
  destruct (Z.leb_spec b (w_max_bumps w)); [|by apply wp_ret].
  rewrite wp_bind. eapply wp_mono; [|apply wp_conj; [apply iterate_wp|
    apply (reads_keeps R (λ w, w_max_bumps w ≤ 10)); [| |apply iterate_reads|exact Hw]]].
  - intros tr [it|e] w1 [Hit Hw1]; [|done]. specialize (Hit it eq_refl).
    destruct it as [out|[[[r' a'] b'] l']]; [by apply wp_ret|].
    destruct Hit as [-> ->]. eapply wp_mono; [|apply IH; [exact Hw1|lia..]]. done.
  - intros w1 w2 Hv. by injection Hv as _ _ _ _ _ _ -> _.
  - exact R_max.
Qed.
End simulator_spec.

(** ** Claims *)

(** C9: Pre-flight soundness (FR-8).  Whatever the node answers and whatever runs in between,
    a dry-run that reports success was passed by a node for exactly the call it reports: the
    same mandate, assets, fee tier, target, repayment and swap bound (accepted, or stopped by
    the bare revert the source takes for reaching the flash loan).  The reported repayment is
    the plan's, grown by 2% per reported bump, and the plan object still describes the same
    rescue. *)
Theorem simulate_sound {U : EthUtils} {UL : EthUtilsLaws U} {A : ChainApi} {AL : ChainApiLaws A}
    cfg vault keeper (R : World → World → Prop) pl p s w tr out w' :
  exec R (simulate cfg vault keeper pl p s) w tr (Ok out) w' →
  simulation_ok vault keeper pl p s tr out ∧ Forall (λ ev, is_read (ev_req ev) = true) tr.
Proof.
  intros He. split; [by eapply simulate_ok|]. eapply reads_trace; [apply simulate_reads|exact He].
Qed.

(** A rescue plan and a node for concrete runs: the first dry-run is under-sized, the second
    passes; quotes are answered by [quote]. *)
Definition demo_plan : RescuePlan :=
  {| pl_borrower := "0xb0b"; pl_debt_asset := "0xdeb7"; pl_repay_amount := 1000000;
     pl_collateral_asset := "0xc011"; pl_fee_tier := 500; pl_amount_in := 1002000;
     pl_hf_target_bps := 12000; pl_max_slippage_bps := 50 |}.

Definition demo_node (quote : res (Z * Z * Z * Z)) : handler nat := λ q n,
  (match q return answer q with
   | Rpc _ (CallExecuteProtection _) =>
       if (n =? 0)%nat then Err (Exn ContractLogicError "HealthBelowTarget()") else Ok tt
   | Rpc _ (QuoteExactOutputSingle _ _ _ _ _) => quote
   | Rpc _ _ => Err (Exn ConnectionError "refused")
   | Sleep _ | ThreadJoin => Elapsed
   | ThreadStart => Ok tt
   | PerfCounter => fzero
   | Uuid4 => ""%string
   | ModelCall _ _ _ => Err (Exn TimeoutError "")
   | Monotonic | Time => fzero
   end, if is_eth_call q then S n else n).

Lemma simulate_sound_witness :
  let sim := @simulate eth_plain (@chain_api eth_plain demo_settings) demo_settings "0xva" "0xke"
               demo_plan demo_params "0x00" in
  ∃ tr out w', seq_exec sim world0 tr (Ok out) w' ∧
    sim_success out.1 = true ∧ sim_repay_amount out.1 = 1020000 ∧ sim_bumps out.1 = 1 ∧
    same_route demo_plan out.2.
Proof.
  intros sim.
  destruct (run (demo_node (Ok (1030000, 0, 1, 90000))) sim world0 0%nat) as [[[tr r] w'] u] eqn:E.
  pose proof (run_exec _ eq _ _ _ _ _ _ _ E) as He. unfold sim in E. vm_compute in E.
  injection E as _ <- _ _. eexists _, _, _. split; [exact He|]. split; [reflexivity|].
  split; [reflexivity|]. split; [reflexivity|].
  exact (proj1 (proj1 (@simulate_sound eth_plain eth_plain_laws _ (@chain_api_laws eth_plain demo_settings)
    demo_settings "0xva" "0xke" eq demo_plan demo_params "0x00" _ _ _ _ He))).
Defined.

(** C22: The bump loop terminates: as long as [max_bumps] stays within [KeeperConfig]'s bound
    of 10, whatever value the control API sets while the dry-run is suspended and whatever
    the node answers, twelve iterations suffice: the loop never runs out of [SIM_FUEL]. *)
Theorem simulate_fuel {U : EthUtils} {UL : EthUtilsLaws U} {A : ChainApi} {AL : ChainApiLaws A}
    cfg vault keeper (R : World → World → Prop) pl p s repay amount_in w tr r w' :
  (∀ w1 w2, R w1 w2 → w_max_bumps w1 ≤ 10 → w_max_bumps w2 ≤ 10) → w_max_bumps w ≤ 10 →
  exec R (simulate_loop cfg vault keeper SIM_FUEL pl p s repay amount_in 0 None) w tr r w' →
  r ≠ Ok None.
Proof.
  intros HR Hw. apply (wp_exec R _ (λ _ r _, r ≠ Ok None)).
  apply simulate_loop_fuel; [done|done|lia|unfold SIM_FUEL; lia|lia].
Qed.

Lemma simulate_fuel_witness :
  let loop := @simulate_loop eth_plain (@chain_api eth_plain demo_settings) demo_settings "0xva"
                "0xke" SIM_FUEL demo_plan demo_params "0x00" 1000000 1002000 0 None in
  ∃ tr r w', seq_exec loop world0 tr r w' ∧ r ≠ Ok None.
Proof.
  intros loop.
  destruct (run (demo_node (Ok (1030000, 0, 1, 90000))) loop world0 0%nat) as [[[tr r] w'] u] eqn:E.
  pose proof (run_exec _ eq _ _ _ _ _ _ _ E) as He. exists tr, r, w'. split; [exact He|].
  apply (@simulate_fuel eth_plain eth_plain_laws _ (@chain_api_laws eth_plain demo_settings) demo_settings
    "0xva" "0xke" eq demo_plan demo_params "0x00" 1000000 1002000 world0 tr r w');
    [intros ? ? <-; exact id|vm_compute; discriminate|exact He].
Defined.

(** A dry-run can still fail its caller: the re-quote after a bumpable revert sits inside
    the handler of the first exception, so an error of the quoter is caught by neither clause
    and leaves [simulate] as an exception, although every fault was meant to become a failed
    result. *)
Theorem simulate_requote_escapes :
  ∃ tr w', seq_exec
    (@simulate eth_plain (@chain_api eth_plain demo_settings) demo_settings "0xva" "0xke"
       demo_plan demo_params "0x00")
    world0 tr (Err (Exn ContractLogicError "SPL")) w'.
Proof.
  destruct (run (demo_node (Err (Exn ContractLogicError "SPL")))
    (@simulate eth_plain (@chain_api eth_plain demo_settings) demo_settings "0xva" "0xke"
       demo_plan demo_params "0x00") world0 0%nat) as [[[tr r] w'] u] eqn:E.
  pose proof (run_exec _ eq _ _ _ _ _ _ _ E) as He. vm_compute in E.
  injection E as _ <- _ _. eauto.
Qed.
