(* ===== verification/Submitter.v ===== *)
(** * core/submitter.py: signing and broadcasting the rescue

    [_send] is the function handed to [ChainClient.call]: it may run again after a transport
    error, and it falls back to a direct Aave repayment when the vault call fails with one of
    [_FALLBACK_TRIGGERS]. *)
From S2P Require Import Prelude PyFloat Config State InFlight Breaker Observability Models.
From S2P Require Import Risk Events Io Logic World Api Chain Simulator.

(** [_FALLBACK_TRIGGERS] *)
Definition fallback_trigger (e : exn) : bool :=
  match exn_kind e with ContractLogicError | Web3RPCError => true | _ => false end.

Definition AAVE_POOL_FALLBACK : string := "0x794a61358D6845594F94dc1DB02A252b5b4814aD".
Definition MAX_UINT256 : Z := 2 ^ 256 - 1.

(** [tx_hash if tx_hash.startswith("0x") else f"0x{tx_hash}"] *)
Definition hex_prefixed (h : string) : string := if str_prefix "0x" h then h else "0x" +:+ h.

Section submitter.
Context `{EthUtils} `{EthAccount} `{ChainApi} (cfg : Settings).
Context (vault key : string).        (* _vault (checksummed), the keeper's private key *)

Definition keeper_address : string := account_address key.

(** The [try] block of [_send]: sign and broadcast the vault call, await the receipt. *)
Definition send_vault (ep : nat) (a : exec_args) : prog (string * Z * Z * bool) :=
  nonce ← rpc_ ep (GetTransactionCount keeper_address);
  chain_id ← rpc_ ep GetChainId;
  tx ← rpc_ ep (BuildTransaction a nonce chain_id);
  let raw := sign_transaction key tx in
  tx_hash ← rpc_ ep (SendRawTransaction a raw);
  rc ← rpc_ ep (WaitForTransactionReceipt tx_hash (Some 120));
  match rc_status rc, rc_gas_used rc with
  | Some status, Some gas => Ret (tx_hash, status, gas, false)
  | None, _ => Raise (Exn KeyError "status")
  | _, None => Raise (Exn KeyError "gasUsed")
  end.

(** The [except _FALLBACK_TRIGGERS] block: approve and repay from the borrower's account. *)
Definition send_fallback (ep : nat) (plan : RescuePlan) (repay_amount : Z)
  : prog (string * Z * Z * bool) :=
  debt ← lift (to_checksum_address (pl_debt_asset plan));
  borrower_addr ← lift (to_checksum_address (pl_borrower plan));
  tx1 ← rpc_ ep (ApproveTransact debt AAVE_POOL_FALLBACK MAX_UINT256 borrower_addr);
  _ ← rpc_ ep (WaitForTransactionReceipt tx1 None);
  tx2 ← rpc_ ep (RepayTransact AAVE_POOL_FALLBACK debt repay_amount 2 borrower_addr borrower_addr);
  rc ← rpc_ ep (WaitForTransactionReceipt tx2 None);
  Ret (tx2, default 1 (rc_status rc), default 185000 (rc_gas_used rc), true).

Definition send (plan : RescuePlan) (params : RiskParams) (sig : list Z)
    (repay_amount amount_in_maximum : Z) (ep : nat) : prog (string * Z * Z * bool) :=
  a ← lift (protection_call vault plan params sig repay_amount amount_in_maximum keeper_address);
  try_catch (send_vault ep a) fallback_trigger (λ _, send_fallback ep plan repay_amount).

(** [Submitter.submit] *)
Definition submit (plan : RescuePlan) (params : RiskParams) (signature : string)
    (repay_amount amount_in_maximum : Z) : prog SubmissionResult :=
  sig ← lift (fromhex (removeprefix "0x" signature));
  '(tx_hash, status, gas_used, via_fallback) ←
    client_call cfg (send plan params sig repay_amount amount_in_maximum);
  let tx_hex := hex_prefixed tx_hash in
  '(hf_after, state) ←
    (if status =? 1 then
       account ← api_user_account_data (pl_borrower plan);
       hf ← lift (account_hf account);
       Ret (Some hf, RESTORED)
     else Ret (None, REVERTED));
  Ret {| sub_tx_hash := tx_hex; sub_status := status; sub_state := state;
         sub_hf_after := hf_after; sub_gas_used := Some gas_used;
         sub_via_fallback := via_fallback |}.
End submitter.

(** ** Specification *)

(** The requests a submission may make: reads, the vault call as built from the plan and the
    mandate, and the fallback's approval and repayment for the plan's borrower. *)
Definition submission_req `{EthUtils} (vault keeper : string) (plan : RescuePlan)
    (params : RiskParams) (signature : string) (repay amount_in_max : Z) (q : req) : Prop :=
  match q with
  | Rpc _ (BuildTransaction a _ _) | Rpc _ (SendRawTransaction a _) =>
      ∃ sig, fromhex (removeprefix "0x" signature) = Ok sig ∧
        protection_call vault plan params sig repay amount_in_max keeper = Ok a
  | Rpc _ (ApproveTransact token spender amount from) =>
      to_checksum_address (pl_debt_asset plan) = Ok token ∧ spender = AAVE_POOL_FALLBACK ∧
      to_checksum_address (pl_borrower plan) = Ok from
  | Rpc _ (RepayTransact pool asset amount _ behalf from) =>
      to_checksum_address (pl_debt_asset plan) = Ok asset ∧ amount = repay ∧
      to_checksum_address (pl_borrower plan) = Ok behalf ∧ from = behalf
  | _ => is_read q = true
  end.

Definition submission_ok (out : SubmissionResult) : Prop :=
  (sub_status out = 1 ↔ sub_state out = RESTORED) ∧
  (sub_status out ≠ 1 ↔ sub_state out = REVERTED) ∧
  (is_Some (sub_hf_after out) ↔ sub_status out = 1) ∧
  str_prefix "0x" (sub_tx_hash out) = true.

Lemma hex_prefixed_0x h : str_prefix "0x" (hex_prefixed h) = true.
Proof. unfold hex_prefixed. by destruct (str_prefix "0x" h) eqn:E. Qed.

Section submitter_lemmas.
Context {U : EthUtils} {EA : EthAccount} `{AL : ChainApiLaws} (cfg : Settings).
Context (vault key : string).

Section req.
Context (pl : RescuePlan) (p : RiskParams) (s : string) (r m : Z).
Let P : req → Prop := submission_req vault (keeper_address key) pl p s r m.

Lemma submission_req_read q : is_read q = true → P q.
Proof. by destruct q as [ep []| | | | | | | |]. Qed.

Lemma guar_req_rpc ep c w : P (Rpc ep c) → guar same_service P (rpc_ ep c) w.
Proof. apply guar_await. Qed.

Lemma guar_reads {B} (q : prog B) w : reads q → guar same_service P q w.
Proof.
  intros Hq. specialize (Hq w). revert w Hq.
  induction q as [a|e|k IH|s1 q IH|q k IH]; intros w Hq; cbn in *; auto.
  - destruct Hq. auto.
  - destruct Hq. split; [by apply submission_req_read|]. auto.
Qed.

Lemma guar_client_call {B} (fn : nat → prog B) w :
  (∀ ep w, guar same_service P (fn ep) w) → guar same_service P (client_call cfg fn) w.
Proof.
  intros Hfn. unfold client_call, Client.call. generalize (n_providers cfg) at 2 as n.
  intros n. generalize 0%nat, (@None exn). revert w.
  induction n as [|n IH]; intros w o l; cbn [Client.endpoints]; [done|].
  apply guar_bind; [apply guar_gets|]. intros act w1. apply guar_bind.
  - generalize (Z.to_nat (rpc_max_retries cfg)), 1, l. clear w. revert w1.
    intros w k. revert w. induction k as [|k IHk]; intros w t l'; cbn [Client.attempts]; [done|].
    apply guar_try_catch.
    + apply guar_bind; [apply Hfn|]. intros a w2. apply guar_bind; [|done].
      by apply guar_modify.
    + intros e w2. apply guar_bind; [by apply guar_await, submission_req_read|]. auto.
  - intros [a|l'] w2; [done|]. apply IH.
Qed.

Lemma send_guar sig ep w :
  fromhex (removeprefix "0x" s) = Ok sig →
  guar same_service P (send vault key pl p sig r m ep) w.
Proof.
  intros Hsig. unfold send. apply guar_lift_bind. intros a Ha. apply guar_try_catch.
  - unfold send_vault. apply guar_bind; [by apply guar_req_rpc|]. intros nonce w1.
    apply guar_bind; [by apply guar_req_rpc|]. intros chain w2.
    apply guar_bind; [apply guar_req_rpc; cbn; eauto|]. intros tx w3.
    apply guar_bind; [apply guar_req_rpc; cbn; eauto|]. intros h w4.
    apply guar_bind; [by apply guar_req_rpc|]. intros rc w5. by repeat case_match.
  - intros _ w1. unfold send_fallback. apply guar_lift_bind. intros debt Hd.
    apply guar_lift_bind. intros bo Hb.
    apply guar_bind; [by apply guar_req_rpc|]. intros tx1 w2.
    apply guar_bind; [by apply guar_req_rpc|]. intros _ w3.
    apply guar_bind; [by apply guar_req_rpc|]. intros tx2 w4.
    apply guar_bind; [by apply guar_req_rpc|]. done.
Qed.

Lemma submit_guar w : guar same_service P (submit cfg vault key pl p s r m) w.
Proof.
  unfold submit. apply guar_lift_bind. intros sig Hsig.
  apply guar_bind; [apply guar_client_call; intros; by apply send_guar|].
  intros [[[h st] gas] fb] w1. apply guar_bind; [|by intros []].
  destruct (st =? 1); [|done]. apply guar_bind; [by apply guar_reads, api_user_account_data_reads|].
  intros acc w2. apply guar_bind; [apply guar_lift|done].
Qed.
End req.

Lemma submit_returns pl p s r m :
  returns (submit cfg vault key pl p s r m) submission_ok.
Proof.
  unfold submit. apply returns_bind_any; intros sig.
  apply returns_bind_any; intros [[[h st] gas] fb].
  apply (returns_bind _ _ (λ hs, (st = 1 ∧ is_Some hs.1 ∧ hs.2 = RESTORED) ∨
                                 (st ≠ 1 ∧ hs.1 = None ∧ hs.2 = REVERTED))).
  - destruct (Z.eqb_spec st 1) as [->|Hne]; [|cbn; naive_solver].
    do 2 (apply returns_bind_any; intros ?). cbn. naive_solver.
  - intros [hf s'] Hs. cbn in *. unfold submission_ok. cbn.
    pose proof (hex_prefixed_0x h). split_and!; [| | |done];
      destruct Hs as [(->&[? ->]&->)|(?&->&->)]; split; intros; try done; try by eexists.
Qed.

(** A trace that shows a sent transaction and its receipt. *)
Definition sent_for_real (tr : list event) (h : string) (status : Z) (fb : bool) : Prop :=
  ∃ ep t rc, Ev (Rpc ep (WaitForTransactionReceipt h t)) (Ok rc) ∈ tr ∧
    if fb then
      status = default 1 (rc_status rc) ∧
      ∃ pool asset amount mode b from,
        Ev (Rpc ep (RepayTransact pool asset amount mode b from)) (Ok h) ∈ tr
    else
      rc_status rc = Some status ∧ ∃ a raw, Ev (Rpc ep (SendRawTransaction a raw)) (Ok h) ∈ tr.

Lemma sent_for_real_app tr tr' h st fb :
  sent_for_real tr' h st fb → sent_for_real (tr ++ tr') h st fb.
Proof.
  intros (ep & t & rc & H1 & H2). exists ep, t, rc. split; [set_solver|].
  destruct fb; naive_solver set_solver.
Qed.

Context (R : World → World → Prop).

(** One RPC step: the answer is in the trace. *)
Lemma wp_rpc_bind {B} ep c (f : rpc_resp c → prog B) Q w :
  (∀ (v : rpc_resp c) w', wp R (f v) (λ tr, Q (Ev (Rpc ep c) (Ok v) :: tr)) w') →
  (∀ e w', Q [Ev (Rpc ep c) (Err e)] (Err e) w') →
  wp R (v ← rpc_ ep c; f v) Q w.
Proof. intros Hok Herr. rewrite wp_bind, wp_rpc. intros [v|e] w' _; [apply Hok|apply Herr]. Qed.

Lemma send_wp pl p sig r m ep w :
  wp R (send vault key pl p sig r m ep)
    (λ tr out _, ∀ h st gas fb, out = Ok (h, st, gas, fb) → sent_for_real tr h st fb) w.
Proof.
  unfold send. rewrite wp_bind, wp_lift. destruct (protection_call _ _ _ _ _ _ _) as [a|e]; [|done].
  rewrite wp_try_catch. cbn [app]. unfold send_vault.
  assert (∀ tr w, wp R (send_fallback ep pl r) (λ tr' out _, ∀ h st gas fb,
    out = Ok (h, st, gas, fb) → sent_for_real (tr ++ tr') h st fb) w) as Hfb.
  { intros tr w'. unfold send_fallback. rewrite wp_bind, wp_lift.
    destruct (to_checksum_address _) as [debt|]; [|done]. rewrite wp_bind, wp_lift.
    destruct (to_checksum_address _) as [bo|]; [|done].
    apply wp_rpc_bind; [|done]. intros tx1 w1. apply wp_rpc_bind; [|done]. intros rc1 w2.
    apply wp_rpc_bind; [|done]. intros tx2 w3. apply wp_rpc_bind; [|done]. intros rc w4.
    apply wp_ret. intros h st gas fb [= <- <- <- <-]. apply sent_for_real_app.
    exists ep, None, rc. split; [set_solver|]. split; [done|].
    eexists _, _, _, _, _, _. eauto using list_elem_of_here, list_elem_of_further. }
  apply wp_rpc_bind; [|intros e w'; destruct (fallback_trigger e); [apply Hfb|done]].
  intros nonce w1. apply wp_rpc_bind; [|intros e w'; destruct (fallback_trigger e); [apply Hfb|done]].
  intros chain w2. apply wp_rpc_bind; [|intros e w'; destruct (fallback_trigger e); [apply Hfb|done]].
  intros tx w3. apply wp_rpc_bind; [|intros e w'; destruct (fallback_trigger e); [apply Hfb|done]].
  intros hash w4. apply wp_rpc_bind; [|intros e w'; destruct (fallback_trigger e); [apply Hfb|done]].
  intros rc w5. destruct (rc_status rc) as [st|] eqn:Hst, (rc_gas_used rc) as [gas|]; try done.
  apply wp_ret. intros h st' gas' fb [= <- <- <- <-].
  exists ep, (Some 120), rc. split; [set_solver|]. split; [done|].
  eexists _, _. eauto 10 using list_elem_of_here, list_elem_of_further.
Qed.

Lemma submit_real pl p s r m w tr out w' :
  exec R (submit cfg vault key pl p s r m) w tr (Ok out) w' →
  ∃ h, sub_tx_hash out = hex_prefixed h ∧
    sent_for_real tr h (sub_status out) (sub_via_fallback out).
Proof.
  intros He. set (Q := λ (tr : list event) (o : res SubmissionResult) (_ : World), ∀ out, o = Ok out →
    ∃ h, sub_tx_hash out = hex_prefixed h ∧
      sent_for_real tr h (sub_status out) (sub_via_fallback out)).
  apply (wp_exec R _ Q w) in He; [by apply He|]. unfold submit. rewrite wp_bind, wp_lift.
  destruct (fromhex _) as [sig|]; [|done]. rewrite wp_bind. apply exec_wp.
  intros tr1 [[[[h st] gas] fb]|e] w1 He1; [|done]. apply call_ends in He1.
  destruct He1 as (tr0 & tr2 & ep & w2 & w3 & -> & He1).
  assert (sent_for_real tr2 h st fb) as Hreal.
  { eapply (wp_exec R (send vault key pl p sig r m ep) _ w2) in He1; [|apply send_wp].
    by apply (He1 h st gas fb). }
  rewrite wp_bind. apply exec_wp. intros tr3 [[hf s']|e] w4 _; [|done].
  apply wp_ret. intros o [= <-]. exists h. split; [done|]. cbn.
  rewrite app_nil_r. destruct Hreal as (ep' & t & rc & H1 & H2).
  exists ep', t, rc. split; [set_solver|]. destruct fb; naive_solver set_solver.
Qed.
End submitter_lemmas.

(** ** Claims *)

(** C10: What a submission may send, and what its result means, whatever the node answers and
    whatever runs in between.  Every request is a read, the vault call for exactly this
    mandate, plan, amount and swap bound, or the fallback's approval and repayment of this
    amount for this borrower.  A returned result is backed by the trace: its hash is the one
    the node gave for the broadcast, its status the one of that transaction's receipt, and it
    is RESTORED exactly when the status is 1, with the health factor read again. *)
Theorem submit_accountable {U : EthUtils} {EA : EthAccount} {A : ChainApi} {AL : ChainApiLaws A}
    cfg vault key (R : World → World → Prop) pl p s r m w tr out w' :
  exec R (submit cfg vault key pl p s r m) w tr out w' →
  Forall (λ ev, submission_req vault (keeper_address key) pl p s r m (ev_req ev)) tr ∧
  ∀ o, out = Ok o →
    submission_ok o ∧
    ∃ h, sub_tx_hash o = hex_prefixed h ∧ sent_for_real tr h (sub_status o) (sub_via_fallback o).
Proof.
  intros He. split; [by eapply guar_trace; [apply submit_guar|]|].
  intros o ->. split; [by eapply returns_exec; [apply submit_returns|]|by eapply submit_real].
Qed.

(** A node for concrete runs: [build] and [wait n] answer the transaction's construction and
    the [n]-th wait for a receipt. *)
Definition demo_tx_node (build : res string) (wait : nat → res receipt) : handler nat := λ q n,
  (match q return answer q with
   | Rpc _ GetChainId | Rpc _ (GetTransactionCount _) => Ok 1
   | Rpc _ (BuildTransaction _ _ _) => build
   | Rpc _ (SendRawTransaction _ _) => Ok "aa"%string
   | Rpc _ (ApproveTransact _ _ _ _) | Rpc _ (RepayTransact _ _ _ _ _ _) => Ok "bb"%string
   | Rpc _ (WaitForTransactionReceipt _ _) => wait n
   | Rpc _ (GetPool _) => Ok "0x9001"%string
   | Rpc _ (GetUserAccountData _ _) => Ok (1000, 500, 0, 8000, 7500, 1600000000000000000)
   | Rpc _ _ => Err (Exn ConnectionError "refused")
   | Sleep _ | ThreadJoin => Elapsed
   | ThreadStart => Ok tt
   | PerfCounter => fzero
   | Uuid4 => ""%string
   | ModelCall _ _ _ => Err (Exn TimeoutError "")
   | Monotonic | Time => fzero
   end, match q with Rpc _ (WaitForTransactionReceipt _ _) => S n | _ => n end).

Definition demo_submit (cfg : Settings) : prog SubmissionResult :=
  @submit eth_plain eth_account_plain (@chain_api eth_plain cfg) cfg "0xva" "0x1" demo_plan
    demo_params "0x00" 1000000 1007010.

Definition rc_ok : receipt := {| rc_status := Some 1; rc_gas_used := Some 21000 |}.

Lemma submit_accountable_witness :
  ∃ tr o w', seq_exec (demo_submit demo_settings) world0 tr (Ok o) w' ∧
    sub_tx_hash o = "0xaa"%string ∧ sub_state o = RESTORED ∧ sub_via_fallback o = false ∧
    submission_ok o.
Proof.
  destruct (run (demo_tx_node (Ok "tx"%string) (λ _, Ok rc_ok)) (demo_submit demo_settings) world0
    0%nat) as [[[tr r] w'] u] eqn:E.
  pose proof (run_exec _ eq _ _ _ _ _ _ _ E) as He. vm_compute in E. injection E as _ <- _ _.
  eexists _, _, _. split; [exact He|]. do 3 (split; [reflexivity|]).
  exact (proj1 (proj2 (@submit_accountable eth_plain eth_account_plain _
    (@chain_api_laws eth_plain demo_settings) demo_settings "0xva" "0x1" eq demo_plan demo_params
    "0x00" 1000000 1007010 _ _ _ _ He) _ eq_refl)).
Defined.

(** The number of transactions a trace puts on the chain. *)
Definition broadcast_count (tr : list event) : nat :=
  length (filter (λ ev, broadcasts (ev_req ev) = true) tr).

(** Two attempts per endpoint. *)
Definition demo_settings_retry : Settings :=
  {| chain_id_setting := 42161; arbitrum_rpc_url := "http://a"; arbitrum_rpc_url_fallback := "";
     rpc_timeout_seconds := flit 20; rpc_max_retries := 2; poll_interval_seconds := 12;
     vault_address := "0xva";
     pool_addresses_provider := pool_addresses_provider demo_settings;
     swap_router := swap_router demo_settings; quoter_v2 := quoter_v2 demo_settings;
     chainlink_eth_usd := chainlink_eth_usd demo_settings;
     chainlink_usdc_usd := chainlink_usdc_usd demo_settings;
     oracle_max_staleness_seconds := 3600; keeper_private_key := "0x1";
     breaker_max_consecutive_failures := 3; inflight_cooldown_seconds := 30;
     max_simulation_bumps := 3; autonomous_enabled_setting := true; worker_enabled := true;
     demo_mode := false; agent_enabled := false; gemini_api_key := "";
     agent_model := "gemini-2.5-flash"; agent_timeout_seconds := flit 30;
     agent_max_tool_loops := 6; agent_db_path := ".agent/finax_agent.db"; agent_chat_history_turns := 20;
     agent_max_repay_fraction := fhalf; agent_max_cost_bps := 200; agent_min_hf_gap_bps := 25;
     agent_proposal_ttl_seconds := 900; agent_max_proposals_per_hour := 3;
     agent_max_proposals_global_per_hour := 12 |}.


