(* ===== verification/Abi.v ===== *)
(** * config/arbitrum.py: the ABI tables, and the calls the program makes through them

    The tables as data, next to the Solidity declarations they mirror, and for every contract
    call of the clients the table it binds, the function it names and the arguments it passes.
    Encoding is web3's: [AbiCodec], whose law is that it accepts exactly the arguments that
    conform to the declared types. *)
From S2P Require Import Prelude PyFloat PyText Config State InFlight Breaker Observability Models.
From S2P Require Import Risk Events Io Logic World Api Chain Simulator Submitter.

(** ** ABI entries *)
Inductive abi_type :=
  | TAddress
  | TUint (bits : Z)
  | TInt (bits : Z)
  | TBool
  | TString
  | TBytes
  | TFixed (bytes : Z)
  | TArray (t : abi_type)
  | TTuple (components : list (string * abi_type)).

Inductive mutability := View | Nonpayable | Payable.

Record abi_fn := {
  f_name : string;
  f_mutability : mutability;
  f_inputs : list (string * abi_type);
  f_outputs : list (string * abi_type);
}.

Definition fn (name : string) (m : mutability) (inputs outputs : list (string * abi_type)) : abi_fn :=
  {| f_name := name; f_mutability := m; f_inputs := inputs; f_outputs := outputs |}.

Definition find_fn (abi : list abi_fn) (name : string) : option abi_fn :=
  head (filter (λ f, f_name f = name) abi).

(** ** The tables *)
Definition AAVE_POOL_ABI : list abi_fn := [
  fn "getUserAccountData" View
    [("user", TAddress)]
    [("totalCollateralBase", TUint 256); ("totalDebtBase", TUint 256);
     ("availableBorrowsBase", TUint 256); ("currentLiquidationThreshold", TUint 256);
     ("ltv", TUint 256); ("healthFactor", TUint 256)];
  fn "getReserveData" View
    [("asset", TAddress)]
    [("", TTuple [("configuration", TTuple [("data", TUint 256)]);
     ("liquidityIndex", TUint 128); ("currentLiquidityRate", TUint 128);
     ("variableBorrowIndex", TUint 128); ("currentVariableBorrowRate", TUint 128);
     ("currentStableBorrowRate", TUint 128); ("lastUpdateTimestamp", TUint 40);
     ("id", TUint 16); ("aTokenAddress", TAddress); ("stableDebtTokenAddress", TAddress);
     ("variableDebtTokenAddress", TAddress); ("interestRateStrategyAddress", TAddress);
     ("accruedToTreasury", TUint 128); ("unbacked", TUint 128);
     ("isolationModeTotalDebt", TUint 128)])];
  fn "repay" Nonpayable
    [("asset", TAddress); ("amount", TUint 256); ("interestRateMode", TUint 256);
     ("onBehalfOf", TAddress)]
    [("", TUint 256)];
  fn "withdraw" Nonpayable
    [("asset", TAddress); ("amount", TUint 256); ("to", TAddress)]
    [("", TUint 256)]]%string.

Definition POOL_ADDRESSES_PROVIDER_ABI : list abi_fn := [
  fn "getPool" View
    []
    [("", TAddress)];
  fn "getPriceOracle" View
    []
    [("", TAddress)]]%string.

Definition AAVE_ORACLE_ABI : list abi_fn := [
  fn "getAssetPrice" View
    [("asset", TAddress)]
    [("", TUint 256)];
  fn "BASE_CURRENCY_UNIT" View
    []
    [("", TUint 256)]]%string.

Definition QUOTER_V2_ABI : list abi_fn := [
  fn "quoteExactOutputSingle" Nonpayable
    [("params", TTuple [("tokenIn", TAddress); ("tokenOut", TAddress); ("amount", TUint 256);
     ("fee", TUint 24); ("sqrtPriceLimitX96", TUint 160)])]
    [("amountIn", TUint 256); ("sqrtPriceX96After", TUint 160);
     ("initializedTicksCrossed", TUint 32); ("gasEstimate", TUint 256)]]%string.

Definition SWAP_ROUTER_ABI : list abi_fn := [
  fn "exactOutputSingle" Payable
    [("params", TTuple [("tokenIn", TAddress); ("tokenOut", TAddress); ("fee", TUint 24);
     ("recipient", TAddress); ("amountOut", TUint 256); ("amountInMaximum", TUint 256);
     ("sqrtPriceLimitX96", TUint 160)])]
    [("amountIn", TUint 256)]]%string.

Definition CHAINLINK_AGGREGATOR_ABI : list abi_fn := [
  fn "latestRoundData" View
    []
    [("roundId", TUint 80); ("answer", TInt 256); ("startedAt", TUint 256);
     ("updatedAt", TUint 256); ("answeredInRound", TUint 80)];
  fn "decimals" View
    []
    [("", TUint 8)]]%string.

Definition ERC20_ABI : list abi_fn := [
  fn "decimals" View
    []
    [("", TUint 8)];
  fn "symbol" View
    []
    [("", TString)];
  fn "balanceOf" View
    [("account", TAddress)]
    [("", TUint 256)];
  fn "allowance" View
    [("owner", TAddress); ("spender", TAddress)]
    [("", TUint 256)]]%string.

(** The functions of [app/abi/LiquidationShieldVault.json]. *)
Definition vault_abi : list abi_fn := [
  fn "ADDRESSES_PROVIDER" View
    []
    [("", TAddress)];
  fn "POOL" View
    []
    [("", TAddress)];
  fn "SWAP_ROUTER" View
    []
    [("", TAddress)];
  fn "domainSeparator" View
    []
    [("", TFixed 32)];
  fn "eip712Domain" View
    []
    [("fields", TFixed 1); ("name", TString); ("version", TString); ("chainId", TUint 256);
     ("verifyingContract", TAddress); ("salt", TFixed 32); ("extensions", TArray (TUint 256))];
  fn "executeOperation" Nonpayable
    [("asset", TAddress); ("amount", TUint 256); ("premium", TUint 256);
     ("initiator", TAddress); ("params", TBytes)]
    [("", TBool)];
  fn "executeProtection" Nonpayable
    [("p", TTuple [("borrower", TAddress); ("hfTriggerBps", TUint 256);
     ("hfTargetBaseBps", TUint 256); ("volCoeffK", TUint 256); ("hfTargetMaxBps", TUint 256);
     ("maxSlippageBps", TUint 16); ("maxCostBps", TUint 16);
     ("allowedCollaterals", TArray TAddress); ("nonce", TUint 256); ("deadline", TUint 256)]);
     ("sig", TBytes); ("debtAsset", TAddress); ("repayAmount", TUint 256);
     ("collateralAsset", TAddress); ("amountInMaximum", TUint 256); ("uniFeeTier", TUint 24);
     ("hfTargetBps", TUint 256)]
    [];
  fn "hashRiskParams" View
    [("p", TTuple [("borrower", TAddress); ("hfTriggerBps", TUint 256);
     ("hfTargetBaseBps", TUint 256); ("volCoeffK", TUint 256); ("hfTargetMaxBps", TUint 256);
     ("maxSlippageBps", TUint 16); ("maxCostBps", TUint 16);
     ("allowedCollaterals", TArray TAddress); ("nonce", TUint 256); ("deadline", TUint 256)])]
    [("", TFixed 32)];
  fn "keeper" View
    []
    [("", TAddress)];
  fn "owner" View
    []
    [("", TAddress)];
  fn "renounceOwnership" Nonpayable
    []
    [];
  fn "setKeeper" Nonpayable
    [("keeper_", TAddress)]
    [];
  fn "transferOwnership" Nonpayable
    [("newOwner", TAddress)]
    [];
  fn "usedNonces" View
    [("", TAddress); ("", TUint 256)]
    [("", TBool)]]%string.

(** The tables [Submitter] writes out for its fallback. *)
Definition fallback_pool_abi : list abi_fn := [
  fn "repay" Nonpayable
    [("asset", TAddress); ("amount", TUint 256); ("rateMode", TUint 256); ("onBehalfOf", TAddress)]
    [("", TUint 256)]]%string.

Definition fallback_erc20_abi : list abi_fn := [
  fn "approve" Nonpayable [("s", TAddress); ("a", TUint 256)] [("", TBool)]]%string.

(** ** The Solidity declarations the tables mirror (contracts/src) *)
Module Sol.
Local Open Scope string_scope.

Definition ReserveConfigurationMap : abi_type := TTuple [("data", TUint 256)].

Definition ReserveDataLegacy : abi_type := TTuple
  [("configuration", ReserveConfigurationMap); ("liquidityIndex", TUint 128);
   ("currentLiquidityRate", TUint 128); ("variableBorrowIndex", TUint 128);
   ("currentVariableBorrowRate", TUint 128); ("currentStableBorrowRate", TUint 128);
   ("lastUpdateTimestamp", TUint 40); ("id", TUint 16); ("aTokenAddress", TAddress);
   ("stableDebtTokenAddress", TAddress); ("variableDebtTokenAddress", TAddress);
   ("interestRateStrategyAddress", TAddress); ("accruedToTreasury", TUint 128);
   ("unbacked", TUint 128); ("isolationModeTotalDebt", TUint 128)].

(** interfaces/IPool.sol *)
Definition IPool : list abi_fn := [
  fn "supply" Nonpayable
    [("asset", TAddress); ("amount", TUint 256); ("onBehalfOf", TAddress);
     ("referralCode", TUint 16)] [];
  fn "borrow" Nonpayable
    [("asset", TAddress); ("amount", TUint 256); ("interestRateMode", TUint 256);
     ("referralCode", TUint 16); ("onBehalfOf", TAddress)] [];
  fn "repay" Nonpayable
    [("asset", TAddress); ("amount", TUint 256); ("interestRateMode", TUint 256);
     ("onBehalfOf", TAddress)] [("", TUint 256)];
  fn "withdraw" Nonpayable
    [("asset", TAddress); ("amount", TUint 256); ("to", TAddress)] [("", TUint 256)];
  fn "flashLoanSimple" Nonpayable
    [("receiverAddress", TAddress); ("asset", TAddress); ("amount", TUint 256);
     ("params", TBytes); ("referralCode", TUint 16)] [];
  fn "setUserUseReserveAsCollateral" Nonpayable
    [("asset", TAddress); ("useAsCollateral", TBool)] [];
  fn "getUserAccountData" View [("user", TAddress)]
    [("totalCollateralBase", TUint 256); ("totalDebtBase", TUint 256);
     ("availableBorrowsBase", TUint 256); ("currentLiquidationThreshold", TUint 256);
     ("ltv", TUint 256); ("healthFactor", TUint 256)];
  fn "getReserveData" View [("asset", TAddress)] [("", ReserveDataLegacy)]].

Definition IPoolAddressesProvider : list abi_fn := [
  fn "getPool" View [] [("", TAddress)]; fn "getPriceOracle" View [] [("", TAddress)]].

Definition IPriceOracleGetter : list abi_fn := [
  fn "BASE_CURRENCY_UNIT" View [] [("", TUint 256)];
  fn "getAssetPrice" View [("asset", TAddress)] [("", TUint 256)]].

Definition QuoteExactOutputSingleParams : abi_type := TTuple
  [("tokenIn", TAddress); ("tokenOut", TAddress); ("amount", TUint 256); ("fee", TUint 24);
   ("sqrtPriceLimitX96", TUint 160)].

Definition IQuoterV2 : list abi_fn := [
  fn "quoteExactOutputSingle" Nonpayable [("params", QuoteExactOutputSingleParams)]
    [("amountIn", TUint 256); ("sqrtPriceX96After", TUint 160);
     ("initializedTicksCrossed", TUint 32); ("gasEstimate", TUint 256)]].

Definition ExactOutputSingleParams : abi_type := TTuple
  [("tokenIn", TAddress); ("tokenOut", TAddress); ("fee", TUint 24); ("recipient", TAddress);
   ("amountOut", TUint 256); ("amountInMaximum", TUint 256); ("sqrtPriceLimitX96", TUint 160)].

Definition ISwapRouter02 : list abi_fn := [
  fn "exactOutputSingle" Payable [("params", ExactOutputSingleParams)] [("amountIn", TUint 256)]].

(** LiquidationShieldVault.sol: the struct, its typehash preimage, the functions it declares
    (the constructor and the inherited [Ownable] and [EIP712] functions apart). *)
Definition RiskParams_struct : list (string * abi_type) :=
  [("borrower", TAddress); ("hfTriggerBps", TUint 256); ("hfTargetBaseBps", TUint 256);
   ("volCoeffK", TUint 256); ("hfTargetMaxBps", TUint 256); ("maxSlippageBps", TUint 16);
   ("maxCostBps", TUint 16); ("allowedCollaterals", TArray TAddress); ("nonce", TUint 256);
   ("deadline", TUint 256)].

Definition RISK_PARAMS_TYPE : string :=
  "RiskParams(address borrower,uint256 hfTriggerBps,uint256 hfTargetBaseBps,uint256 volCoeffK,uint256 hfTargetMaxBps,uint16 maxSlippageBps,uint16 maxCostBps,address[] allowedCollaterals,uint256 nonce,uint256 deadline)".

Definition LiquidationShieldVault : list abi_fn := [
  fn "ADDRESSES_PROVIDER" View [] [("", TAddress)];
  fn "POOL" View [] [("", TAddress)];
  fn "SWAP_ROUTER" View [] [("", TAddress)];
  fn "keeper" View [] [("", TAddress)];
  fn "usedNonces" View [("", TAddress); ("", TUint 256)] [("", TBool)];
  fn "setKeeper" Nonpayable [("keeper_", TAddress)] [];
  fn "executeProtection" Nonpayable
    [("p", TTuple RiskParams_struct); ("sig", TBytes); ("debtAsset", TAddress);
     ("repayAmount", TUint 256); ("collateralAsset", TAddress); ("amountInMaximum", TUint 256);
     ("uniFeeTier", TUint 24); ("hfTargetBps", TUint 256)] [];
  fn "executeOperation" Nonpayable
    [("asset", TAddress); ("amount", TUint 256); ("premium", TUint 256);
     ("initiator", TAddress); ("params", TBytes)] [("", TBool)];
  fn "hashRiskParams" View [("p", TTuple RiskParams_struct)] [("", TFixed 32)];
  fn "domainSeparator" View [] [("", TFixed 32)]].
End Sol.

(** The canonical type name of EIP-712 and of function signatures. *)
Fixpoint type_name (t : abi_type) : string :=
  match t with
  | TAddress => "address" | TBool => "bool" | TString => "string" | TBytes => "bytes"
  | TUint n => "uint" +:+ string_of_Z n
  | TInt n => "int" +:+ string_of_Z n
  | TFixed n => "bytes" +:+ string_of_Z n
  | TArray t => type_name t +:+ "[]"
  | TTuple cs => "(" +:+ String.concat "," ((λ c, type_name c.2) <$> cs) +:+ ")"
  end.

Definition signature_of (f : abi_fn) : string := f_name f +:+ type_name (TTuple (f_inputs f)).

(** EIP-712's [encodeType] of a struct without nested structs. *)
Definition encode_type (name : string) (cs : list (string * abi_type)) : string :=
  name +:+ "(" +:+ String.concat "," ((λ c, type_name c.2 +:+ " " +:+ c.1) <$> cs) +:+ ")".

(** The parameter names of a function's result, and of the tuple it returns. *)
Definition output_names (f : abi_fn) : list string :=
  match f_outputs f with
  | [(_, TTuple cs)] => cs.*1
  | os => os.*1
  end.

(** ** Values, and what web3 accepts for a type *)
Inductive abi_value :=
  | VAddress (a : string)
  | VInt (n : Z)
  | VBool (b : bool)
  | VString (s : string)
  | VBytes (l : list Z)
  | VList (l : list abi_value).

Definition of_sol (v : sol_value) : abi_value :=
  match v with
  | SolAddress a => VAddress a
  | SolUint n => VInt n
  | SolAddresses l => VList (VAddress <$> l)
  end.

Definition in_uint (bits n : Z) : bool := (0 <=? n) && (n <? 2 ^ bits).

Lemma in_uint_spec bits n : in_uint bits n = true ↔ 0 ≤ n < 2 ^ bits.
Proof. unfold in_uint. rewrite andb_true_iff, Z.leb_le, Z.ltb_lt. done. Qed.

Section abi.
Context `{U : EthUtils}.

Definition checksummed (a : string) : Prop := to_checksum_address a = Ok a.

Definition is_checksummed (a : string) : bool :=
  match to_checksum_address a with Ok c => String.eqb c a | Err _ => false end.

Lemma is_checksummed_spec a : is_checksummed a = true ↔ checksummed a.
Proof.
  unfold is_checksummed, checksummed. destruct (to_checksum_address a) as [c|]; [|done].
  rewrite String.eqb_eq. split; congruence.
Qed.

(** web3 encodes an address only in its EIP-55 form, an integer only within its width, a
    tuple or array element by element. *)
Fixpoint conforms (t : abi_type) (v : abi_value) {struct t} : bool :=
  match t, v with
  | TAddress, VAddress a => is_checksummed a
  | TUint bits, VInt n => in_uint bits n
  | TInt bits, VInt n => (- 2 ^ (bits - 1) <=? n) && (n <? 2 ^ (bits - 1))
  | TBool, VBool _ => true
  | TString, VString _ => true
  | TBytes, VBytes l => forallb (in_uint 8) l
  | TFixed n, VBytes l => (Z.of_nat (length l) <=? n) && forallb (in_uint 8) l
  | TArray t, VList l => forallb (conforms t) l
  | TTuple cs, VList l =>
      (fix fields (cs : list (string * abi_type)) (l : list abi_value) : bool :=
         match cs, l with
         | [], [] => true
         | (_, t) :: cs, v :: l => conforms t v && fields cs l
         | _, _ => false
         end) cs l
  | _, _ => false
  end.

(** A call of a contract: the table the code binds, the address, the function, the arguments. *)
Record contract_call := {
  cc_abi : list abi_fn;
  cc_address : string;
  cc_fn : string;
  cc_args : list abi_value;
}.

Definition args_conform (abi : list abi_fn) (name : string) (args : list abi_value) : bool :=
  match find_fn abi name with
  | Some f => conforms (TTuple (f_inputs f)) (VList args)
  | None => false
  end.

(** web3 builds the request: the address is checksummed and the arguments conform. *)
Definition encodable (c : contract_call) : bool :=
  is_checksummed (cc_address c) && args_conform (cc_abi c) (cc_fn c) (cc_args c).

Definition mk_call (abi : list abi_fn) (address name : string) (args : list abi_value)
  : contract_call := {| cc_abi := abi; cc_address := address; cc_fn := name; cc_args := args |}.

(** *** The calls, file by file *)
Definition aave_contract (c : rpc) : option contract_call :=
  match c with
  | GetPool provider => Some (mk_call POOL_ADDRESSES_PROVIDER_ABI provider "getPool" [])
  | GetUserAccountData pool user =>
      Some (mk_call AAVE_POOL_ABI pool "getUserAccountData" [VAddress user])
  | GetReserveData pool asset =>
      Some (mk_call AAVE_POOL_ABI pool "getReserveData" [VAddress asset])
  | _ => None
  end.

Definition oracle_contract (c : rpc) : option contract_call :=
  match c with
  | GetPriceOracle provider =>
      Some (mk_call POOL_ADDRESSES_PROVIDER_ABI provider "getPriceOracle" [])
  | GetAssetPrice oracle asset =>
      Some (mk_call AAVE_ORACLE_ABI oracle "getAssetPrice" [VAddress asset])
  | LatestRoundData feed => Some (mk_call CHAINLINK_AGGREGATOR_ABI feed "latestRoundData" [])
  | FeedDecimals feed => Some (mk_call CHAINLINK_AGGREGATOR_ABI feed "decimals" [])
  | _ => None
  end.

Definition uniswap_contract (c : rpc) : option contract_call :=
  match c with
  | QuoteExactOutputSingle quoter i o amount fee =>
      Some (mk_call QUOTER_V2_ABI quoter "quoteExactOutputSingle"
              [VList [VAddress i; VAddress o; VInt amount; VInt fee; VInt 0]])
  | _ => None
  end.

Definition erc20_contract (c : rpc) : option contract_call :=
  match c with
  | Erc20Decimals token => Some (mk_call ERC20_ABI token "decimals" [])
  | BalanceOf token holder => Some (mk_call ERC20_ABI token "balanceOf" [VAddress holder])
  | Allowance token owner spender =>
      Some (mk_call ERC20_ABI token "allowance" [VAddress owner; VAddress spender])
  | _ => None
  end.

(** [vault.functions.executeProtection(...)], the same arguments in the simulator and in the
    submitter; the sender is not an argument of the function. *)
Definition execute_call (a : exec_args) : contract_call :=
  mk_call vault_abi (ea_vault a) "executeProtection"
    [VList (of_sol <$> ea_params a); VBytes (ea_sig a); VAddress (ea_debt_asset a);
     VInt (ea_repay_amount a); VAddress (ea_collateral_asset a); VInt (ea_amount_in_maximum a);
     VInt (ea_fee_tier a); VInt (ea_hf_target_bps a)].

Definition hash_call (vault : string) (params : list sol_value) : contract_call :=
  mk_call vault_abi vault "hashRiskParams" [VList (of_sol <$> params)].

Definition vault_contract (c : rpc) : option contract_call :=
  match c with
  | CallExecuteProtection a | BuildTransaction a _ _ => Some (execute_call a)
  | HashRiskParams vault params => Some (hash_call vault params)
  | _ => None
  end.

Definition fallback_contract (c : rpc) : option contract_call :=
  match c with
  | ApproveTransact token spender amount _ =>
      Some (mk_call fallback_erc20_abi token "approve" [VAddress spender; VInt amount])
  | RepayTransact pool asset amount mode behalf _ =>
      Some (mk_call fallback_pool_abi pool "repay"
              [VAddress asset; VInt amount; VInt mode; VAddress behalf])
  | _ => None
  end.

Definition contract_of (c : rpc) : option contract_call :=
  head (omap (λ f, f c)
    [aave_contract; oracle_contract; uniswap_contract; erc20_contract; vault_contract;
     fallback_contract]).

(** A request that web3 can put on the wire. *)
Definition well_typed (q : req) : Prop :=
  match q with
  | Rpc _ c => match contract_of c with Some k => encodable k = true | None => True end
  | _ => True
  end.
End abi.

(** ** Calldata encoders *)

(** [web3]'s [contract.encode_abi(name, args=...)]: the calldata, or an exception. *)
Class AbiCodec := {
  encode_abi : list abi_fn → string → list abi_value → res (list Z);
}.

Class AbiCodecLaws (U : EthUtils) (C : AbiCodec) := {
  encode_abi_ok abi name args :
    is_Some (match encode_abi abi name args with Ok d => Some d | Err _ => None end) ↔
    args_conform abi name args = true;
}.

Section encoders.
Context `{U : EthUtils} `{C : AbiCodec} (cfg : Settings).

(** [AaveClient.encode_repay] *)
Definition encode_repay (asset : string) (amount : Z) (on_behalf_of : string) : res (list Z) :=
  a ← to_checksum_address asset;
  b ← to_checksum_address on_behalf_of;
  encode_abi AAVE_POOL_ABI "repay" [VAddress a; VInt amount; VInt VARIABLE_RATE_MODE; VAddress b].

(** [AaveClient.encode_withdraw] *)
Definition encode_withdraw (asset : string) (amount : Z) (to : string) : res (list Z) :=
  a ← to_checksum_address asset;
  t ← to_checksum_address to;
  encode_abi AAVE_POOL_ABI "withdraw" [VAddress a; VInt amount; VAddress t].

(** [UniswapClient.encode_exact_output_single] *)
Definition encode_exact_output_single (token_in token_out : string) (fee : Z) (recipient : string)
    (amount_out amount_in_maximum : Z) : res (list Z) :=
  i ← to_checksum_address token_in;
  o ← to_checksum_address token_out;
  r ← to_checksum_address recipient;
  encode_abi SWAP_ROUTER_ABI "exactOutputSingle"
    [VList [VAddress i; VAddress o; VInt fee; VAddress r; VInt amount_out;
            VInt amount_in_maximum; VInt 0]].

(** [UniswapClient.swap_router_address] *)
Definition swap_router_address : string := UNISWAP_SWAP_ROUTER cfg.

(** *** [ChainClient.contract]

    A contract object is what it is bound to: the provider, the checksummed address, the
    table.  A table is known by its identity, [id(abi)]. *)
Record bound_contract := { bc_provider : nat; bc_address : string; bc_abi : nat }.

Definition contract_cache : Type := dict (nat * string * nat) bound_contract.

Definition contract (active : nat) (address : string) (abi : nat) (cache : contract_cache)
  : res (bound_contract * contract_cache) :=
  checksum ← to_checksum_address address;
  match dget cache (active, checksum, abi) with
  | Some cached => Ok (cached, cache)
  | None =>
      let c := {| bc_provider := active; bc_address := checksum; bc_abi := abi |} in
      Ok (c, dset cache (active, checksum, abi) c)
  end.

(** The cache after [close]. *)
Definition contracts_clear (_ : contract_cache) : contract_cache := [].

(** Every object is bound to its key. *)
Definition cache_bound (cache : contract_cache) : Prop :=
  ∀ k c, dget cache k = Some c → k = (bc_provider c, bc_address c, bc_abi c).
End encoders.

(** A codec for concrete runs: it accepts what conforms. *)
Definition plain_codec `{EthUtils} : AbiCodec := {|
  encode_abi := λ abi name args,
    if args_conform abi name args then Ok [] else Err (Exn ValueError "MismatchedABI")
|}.

#[global] Instance plain_codec_laws `{U : EthUtils} : AbiCodecLaws U plain_codec.
Proof. split. intros. cbn. destruct (args_conform _ _ _); split; done || by eexists. Qed.
