(* ===== verification/AbiSpec.v ===== *)
(** * The ABI layer: theorems

    The tables against the Solidity sources; which mandates and calls web3 can encode; every
    request of the typed clients is well typed. *)
From S2P Require Import Prelude PyFloat PyText Config State InFlight Breaker Observability Models.
From S2P Require Import Risk Events Io Logic World Api Chain Simulator Submitter Abi.

(** Look a function up in a concrete table. *)
Ltac resolve_fn :=
  match goal with
  | |- context [find_fn ?t ?n] =>
      let r := eval vm_compute in (find_fn t n) in change (find_fn t n) with r
  end; cbn [f_inputs].

(** ** Mandates on the wire *)
Section mandates.
Context `{U : EthUtils}.

(** Conformance, one component at a time. *)
Lemma conforms_nil : conforms (TTuple []) (VList []) = true.
Proof. done. Qed.

Lemma conforms_cons n t cs v vs :
  conforms (TTuple ((n, t) :: cs)) (VList (v :: vs)) = conforms t v && conforms (TTuple cs) (VList vs).
Proof. done. Qed.

Lemma conforms_address a : conforms TAddress (VAddress a) = true ↔ checksummed a.
Proof. apply is_checksummed_spec. Qed.

Lemma conforms_uint bits n : conforms (TUint bits) (VInt n) = true ↔ 0 ≤ n < 2 ^ bits.
Proof. apply in_uint_spec. Qed.

Lemma conforms_addresses l :
  conforms (TArray TAddress) (VList (VAddress <$> l)) = true ↔ Forall checksummed l.
Proof.
  cbn [conforms]. rewrite forallb_forall, Forall_forall. setoid_rewrite <-is_checksummed_spec.
  split; intros H x Hx.
  - apply (H (VAddress x)). apply list_elem_of_In. by apply list_elem_of_fmap_2.
  - apply list_elem_of_In, list_elem_of_fmap in Hx as (a & -> & Ha). by apply H.
Qed.

(** The 256-bit fields of a mandate. *)
Definition uint256_fields (p : RiskParams) : list Z :=
  [rp_hf_trigger_bps p; rp_hf_target_base_bps p; rp_vol_coeff_k p; rp_hf_target_max_bps p;
   rp_nonce p; rp_deadline p].

Definition mandate_value (p : RiskParams) : abi_value := VList (of_sol <$> to_solidity_tuple p).

Lemma mandate_conforms p :
  RiskParams_wf p →
  conforms (TTuple Sol.RiskParams_struct) (mandate_value p) = true ↔
  Forall (λ n, n < 2 ^ 256) (uint256_fields p).
Proof.
  intros (?&?&?&?&Hs&Hc&?&?&Hb&Hl). unfold BPS in *.
  unfold mandate_value, uint256_fields, Sol.RiskParams_struct, to_solidity_tuple.
  rewrite !fmap_cons, fmap_nil. cbn [of_sol].
  rewrite !conforms_cons, conforms_nil, !andb_true_iff, conforms_address, conforms_addresses,
    !conforms_uint, !Forall_cons, Forall_nil.
  intuition lia.
Qed.

(** What [protection_call] builds is encodable up to the widths of the numbers. *)
Lemma execute_args_conform a p :
  ea_params a = to_solidity_tuple p →
  args_conform vault_abi "executeProtection" (cc_args (execute_call a)) = true ↔
  conforms (TTuple Sol.RiskParams_struct) (mandate_value p) = true ∧
  forallb (in_uint 8) (ea_sig a) = true ∧
  checksummed (ea_debt_asset a) ∧ in_uint 256 (ea_repay_amount a) = true ∧
  checksummed (ea_collateral_asset a) ∧ in_uint 256 (ea_amount_in_maximum a) = true ∧
  in_uint 24 (ea_fee_tier a) = true ∧ in_uint 256 (ea_hf_target_bps a) = true.
Proof.
  intros Hp. unfold execute_call, mk_call, args_conform. cbn [cc_args].
  rewrite Hp. fold (mandate_value p).
  change (find_fn vault_abi "executeProtection") with (Some (fn "executeProtection" Nonpayable
    [("p", TTuple Sol.RiskParams_struct); ("sig", TBytes); ("debtAsset", TAddress);
     ("repayAmount", TUint 256); ("collateralAsset", TAddress); ("amountInMaximum", TUint 256);
     ("uniFeeTier", TUint 24); ("hfTargetBps", TUint 256)]%string [])).
  cbn [f_inputs fn]. unfold mandate_value.
  rewrite !conforms_cons, conforms_nil, !andb_true_iff, !conforms_address. tauto.
Qed.

Lemma fromhex_bytes s l : fromhex s = Ok l → forallb (in_uint 8) l = true.
Proof.
  assert (∀ n s l, (String.length s ≤ n)%nat → fromhex s = Ok l → forallb (in_uint 8) l = true)
    as H; [|by apply (H (String.length s))].
  clear. induction n as [|n IH]; intros s l Hn H.
  - destruct s; cbn in *; [by simplify_eq|lia].
  - destruct s as [|c s]; cbn [fromhex] in H; [by simplify_eq|].
    cbn [String.length] in Hn.
    destruct (is_space c); [apply (IH s); [lia|done]|].
    destruct s as [|c2 s]; [done|]. cbn [String.length] in Hn.
    destruct (hex_digit c) as [h|] eqn:Eh; [|done].
    destruct (hex_digit c2) as [l2|] eqn:El; [|done].
    apply res_bind_ok in H as (r & Hr & [= <-]). cbn [forallb].
    apply andb_true_iff. split; [|apply (IH s); [lia|done]].
    apply in_uint_spec. unfold hex_digit in *. repeat case_match; simplify_eq; lia.
Qed.

Lemma mapM_res_Forall {A B} (f : A → res B) (P : B → Prop) l l' :
  (∀ a b, f a = Ok b → P b) → mapM_res f l = Ok l' → Forall P l'.
Proof.
  intros Hf. revert l'. induction l as [|x l IH]; intros l' H; cbn in H; simplify_eq; [constructor|].
  apply res_bind_ok in H as (y & Hy & (ys & Hys & [= <-])%res_bind_ok). constructor; eauto.
Qed.
End mandates.

(** C19: Which accepted mandates web3 can put on the wire.  For a mandate the model's validators
    accepted, [hashRiskParams] can be encoded exactly when its six 256-bit numbers are below
    2^256, and [executeProtection], as the simulator and the submitter build it from any plan,
    exactly when in addition the repayment, the maximum input, the fee tier and the target fit
    their widths: everything else the ABI demands (checksummed addresses, 16-bit slippage and
    cost, a decoded signature) the validators already guarantee.  The validators bound those
    six numbers from below only, so an accepted mandate need not be encodable. *)
Theorem mandate_encodable `{U : EthUtils} `{!EthUtilsLaws U} vault pl p s sig repay amount_in_max k a :
  checksummed vault → RiskParams_wf p → fromhex s = Ok sig →
  protection_call vault pl p sig repay amount_in_max k = Ok a →
  (encodable (hash_call vault (to_solidity_tuple p)) = true ↔
   Forall (λ n, n < 2 ^ 256) (uint256_fields p)) ∧
  (encodable (execute_call a) = true ↔
   Forall (λ n, n < 2 ^ 256) (uint256_fields p) ∧ 0 ≤ repay < 2 ^ 256 ∧
   0 ≤ amount_in_max < 2 ^ 256 ∧ 0 ≤ pl_fee_tier pl < 2 ^ 24 ∧
   0 ≤ pl_hf_target_bps pl < 2 ^ 256).
Proof.
  intros Hv Hp Hs Ha. apply is_checksummed_spec in Hv as Hv'.
  unfold protection_call in Ha. apply res_bind_ok in Ha as (d & Hd & (c & Hc & [= <-])%res_bind_ok).
  apply checksum_idemp in Hd, Hc. unfold encodable. split.
  - cbn [hash_call mk_call cc_address cc_abi cc_fn cc_args]. rewrite Hv', andb_true_l.
    unfold args_conform. change (find_fn vault_abi "hashRiskParams") with
      (Some (fn "hashRiskParams" View [("p"%string, TTuple Sol.RiskParams_struct)] [(""%string, TFixed 32)])).
    cbn [f_inputs fn]. fold (mandate_value p).
    by rewrite conforms_cons, conforms_nil, andb_true_r, mandate_conforms.
  - change (cc_address (execute_call _)) with vault. rewrite Hv', andb_true_l.
    change (cc_abi (execute_call _)) with vault_abi.
    change (cc_fn (execute_call _)) with "executeProtection"%string.
    rewrite (execute_args_conform _ p), mandate_conforms, !in_uint_spec by done. cbn.
    apply fromhex_bytes in Hs. unfold checksummed. tauto.
Qed.

(** An accepted mandate that cannot be encoded. *)
Definition mandate_wide : RiskParams := {|
  rp_borrower := "0xb"; rp_hf_trigger_bps := 13500; rp_hf_target_base_bps := 14000;
  rp_vol_coeff_k := 0; rp_hf_target_max_bps := 16000; rp_max_slippage_bps := 50;
  rp_max_cost_bps := 150; rp_allowed_collaterals := ["0xc"%string]; rp_nonce := 2 ^ 256;
  rp_deadline := 4102444800 |}.

Definition plan_wide : RescuePlan := {|
  pl_borrower := "0xb"; pl_debt_asset := "0xd"; pl_repay_amount := 5; pl_collateral_asset := "0xc";
  pl_fee_tier := 500; pl_amount_in := 7; pl_hf_target_bps := 14000; pl_max_slippage_bps := 50 |}.

Lemma mandate_encodable_witness :
  let a := match protection_call (H := eth_plain) "0xva" plan_wide mandate_wide [1; 255] 5 7 "0xk" with
           | Ok a => Some a | Err _ => None end in
  RiskParams_validate (H := eth_plain) mandate_wide = Ok mandate_wide ∧
  ¬ encodable (U := eth_plain) (hash_call "0xva" (to_solidity_tuple mandate_wide)) = true ∧
  match a with Some a => ¬ encodable (U := eth_plain) (execute_call a) = true | None => False end.
Proof.
  destruct (mandate_encodable (U := eth_plain) "0xva" plan_wide mandate_wide "01ff" [1; 255] 5 7 "0xk"
    {| ea_vault := "0xva"; ea_params := to_solidity_tuple mandate_wide; ea_sig := [1; 255];
       ea_debt_asset := "0xd"; ea_repay_amount := 5; ea_collateral_asset := "0xc";
       ea_amount_in_maximum := 7; ea_fee_tier := 500; ea_hf_target_bps := 14000; ea_from := "0xk" |})
    as [H1 H2]; [done| |done|done|].
  { unfold RiskParams_wf, BPS. cbn. split_and!; try lia; repeat constructor. }
  assert (¬ Forall (λ n, n < 2 ^ 256) (uint256_fields mandate_wide)) as Hn.
  { intros H. by apply (Forall_cons_1 _ _ _) in H as [_ (_&(_&(_&(Hn&_)%Forall_cons)%Forall_cons)%Forall_cons)%Forall_cons]. }
  split_and!; [by vm_compute|by rewrite H1|].
  change (¬ encodable (U := eth_plain) (execute_call
    {| ea_vault := "0xva"; ea_params := to_solidity_tuple mandate_wide; ea_sig := [1; 255];
       ea_debt_asset := "0xd"; ea_repay_amount := 5; ea_collateral_asset := "0xc";
       ea_amount_in_maximum := 7; ea_fee_tier := 500; ea_hf_target_bps := 14000; ea_from := "0xk" |}) = true).
  rewrite H2. tauto.
Defined.

(** ** The tables and the contracts *)

(** The ABI layer against the Solidity sources.  Every function of the pool, provider,
    oracle, quoter and router tables is declared so in contracts/src/interfaces, and every
    function LiquidationShieldVault.sol declares is in the exported vault ABI; the result
    components the clients read by position are the ones they name; the EIP-712 type string
    built from the ABI's struct is the preimage of [RISK_PARAMS_TYPEHASH], and the typed-data
    message lists the struct's components in order with the values of the ABI tuple. *)
Theorem abi_mirrors_contracts (p : RiskParams) :
  (Forall (.∈ Sol.IPool) AAVE_POOL_ABI ∧
   Forall (.∈ Sol.IPoolAddressesProvider) POOL_ADDRESSES_PROVIDER_ABI ∧
   Forall (.∈ Sol.IPriceOracleGetter) AAVE_ORACLE_ABI ∧
   Forall (.∈ Sol.IQuoterV2) QUOTER_V2_ABI ∧ Forall (.∈ Sol.ISwapRouter02) SWAP_ROUTER_ABI ∧
   Forall (.∈ vault_abi) Sol.LiquidationShieldVault) ∧
  (output_names <$> find_fn AAVE_POOL_ABI "getUserAccountData" = Some
     ["totalCollateralBase"; "totalDebtBase"; "availableBorrowsBase";
      "currentLiquidationThreshold"; "ltv"; "healthFactor"]%string ∧
   (λ f, (output_names f !! 0, output_names f !! 8, output_names f !! 10)%nat)
     <$> find_fn AAVE_POOL_ABI "getReserveData" =
     Some (Some "configuration", Some "aTokenAddress", Some "variableDebtTokenAddress")%string ∧
   (λ f, (output_names f !! 1, output_names f !! 3)%nat)
     <$> find_fn CHAINLINK_AGGREGATOR_ABI "latestRoundData" =
     Some (Some "answer", Some "updatedAt")%string ∧
   output_names <$> find_fn QUOTER_V2_ABI "quoteExactOutputSingle" = Some
     ["amountIn"; "sqrtPriceX96After"; "initializedTicksCrossed"; "gasEstimate"]%string) ∧
  ((λ f, match f_inputs f with [(_, TTuple cs)] => encode_type "RiskParams" cs | _ => ""%string end)
     <$> find_fn vault_abi "hashRiskParams" = Some Sol.RISK_PARAMS_TYPE ∧
   (eip712_message p).*1 = Sol.RiskParams_struct.*1 ∧ (eip712_message p).*2 = to_solidity_tuple p).
Proof.
  split_and!; try reflexivity;
    repeat constructor; repeat first [apply list_elem_of_here | apply list_elem_of_further].
Qed.

(** ** The typed clients *)
Section typed.
Context `{U : EthUtils} `{L : !EthUtilsLaws U} (cfg : Settings).

(** The address caches of the clients hold checksummed addresses. *)
Definition caches_checksummed (w : World) : Prop :=
  (∀ a, cl_pool_address (w_chain w) = Some a → checksummed a) ∧
  (∀ a, cl_oracle_address (w_chain w) = Some a → checksummed a).

(** [typed p Q]: while the caches are checksummed, and stay so whatever the other coroutines
    do, every request of [p] is well typed, the caches are checksummed at its end and a
    returned value satisfies [Q]. *)
Definition typed {A} (p : prog A) (Q : A → Prop) : Prop :=
  ∀ (R : World → World → Prop) w,
    (∀ w1 w2, R w1 w2 → caches_checksummed w1 → caches_checksummed w2) →
    caches_checksummed w →
    wp R p (λ tr r w', Forall (λ ev, well_typed (ev_req ev)) tr ∧ caches_checksummed w' ∧
                       match r with Ok a => Q a | Err _ => True end) w.

Lemma typed_bind {A B} (p : prog A) (f : A → prog B) Q Q' :
  typed p Q → (∀ a, Q a → typed (f a) Q') → typed (a ← p; f a) Q'.
Proof.
  intros Hp Hf R w HR Hw. rewrite wp_bind. eapply wp_mono; [|by apply Hp].
  intros tr [a|e] w1 (Ht & Hw1 & Ha); [|done].
  eapply wp_mono; [|by apply Hf]. intros tr' r w2 (Ht' & ? & ?).
  split_and!; [by apply Forall_app|done|done].
Qed.

Lemma typed_mono {A} (p : prog A) (Q Q' : A → Prop) : (∀ a, Q a → Q' a) → typed p Q → typed p Q'.
Proof.
  intros H Hp R w HR Hw. eapply wp_mono; [|by apply Hp]. intros tr [a|e] w1; naive_solver.
Qed.

Lemma typed_ret {A} (a : A) (Q : A → Prop) : Q a → typed (Ret a) Q.
Proof. intros H R w HR Hw. rewrite wp_ret. split_and!; [constructor|done|done]. Qed.

Lemma typed_raise {A} e (Q : A → Prop) : typed (@Raise World A e) Q.
Proof. intros R w HR Hw. rewrite wp_raise. split_and!; [constructor|done|done]. Qed.

Lemma typed_lift {A} (r : res A) (Q : A → Prop) : (∀ a, r = Ok a → Q a) → typed (lift r) Q.
Proof. destruct r; intros H; [apply typed_ret; auto|apply typed_raise]. Qed.

Lemma typed_gets {A} (f : World → A) (Q : A → Prop) :
  (∀ w, caches_checksummed w → Q (f w)) → typed (gets f) Q.
Proof. intros H R w HR Hw. rewrite wp_gets. split_and!; [constructor|done|auto]. Qed.

Lemma typed_modify f :
  (∀ w, caches_checksummed w → caches_checksummed (f w)) → typed (modify f) (λ _, True).
Proof. intros H R w HR Hw. rewrite wp_modify. split_and!; [constructor|auto|done]. Qed.

Lemma typed_await q : well_typed q → typed (await q) (λ _, True).
Proof.
  intros H R w HR Hw. rewrite wp_await. intros ans w1 Hr. split_and!.
  - by repeat constructor.
  - unfold rely in Hr. destruct (yields q); [by eapply HR|by subst].
  - by destruct (outcome_of q ans).
Qed.

Lemma typed_rpc ep c : well_typed (Rpc ep c) → typed (rpc_ ep c) (λ _, True).
Proof. apply typed_await. Qed.

Lemma typed_try_catch {A} (p : prog A) t h Q :
  typed p Q → (∀ e, typed (h e) Q) → typed (try_catch p t h) Q.
Proof.
  intros Hp Hh R w HR Hw. rewrite wp_try_catch. eapply wp_mono; [|by apply Hp].
  intros tr [a|e] w1 (Ht & Hw1 & Ha); [done|]. destruct (t e); [|done].
  eapply wp_mono; [|by apply Hh]. intros tr' r w2 (Ht' & ? & ?).
  split_and!; [by apply Forall_app|done|done].
Qed.

(** Retry and failover keep the discipline. *)
Lemma typed_client_call {A} (fn : nat → prog A) Q :
  (∀ ep, typed (fn ep) Q) → typed (client_call cfg fn) Q.
Proof.
  intros Hfn. unfold client_call, Client.call. generalize (n_providers cfg) at 2 as n.
  intros n. generalize 0%nat, (@None exn).
  induction n as [|n IH]; intros o l; cbn [Client.endpoints]; [apply typed_raise|].
  apply (typed_bind _ _ (λ _, True)); [by apply typed_gets|]. intros act _.
  apply (typed_bind _ _ (λ r, match r with inl a => Q a | inr _ => True end)).
  - generalize (Z.to_nat (rpc_max_retries cfg)), 1, l.
    intros k. induction k as [|k IHk]; intros t l'; cbn [Client.attempts]; [by apply typed_ret|].
    apply typed_try_catch.
    + eapply typed_bind; [apply Hfn|]. intros a Ha.
      eapply typed_bind; [by apply typed_modify|]. intros _ _. by apply typed_ret.
    + intros e. eapply typed_bind; [by apply typed_await|]. auto.
  - intros [a|l'] Ha; [by apply typed_ret|apply IH].
Qed.

Lemma typed_checksum a : typed (lift (to_checksum_address a)) checksummed.
Proof. apply typed_lift. intros c. apply checksum_idemp. Qed.

(** The addresses of the configuration checksum, as the import of arbitrum.py demands. *)
Definition imported : Prop :=
  checksummed (AAVE_POOL_ADDRESSES_PROVIDER cfg) ∧ checksummed (UNISWAP_QUOTER_V2 cfg) ∧
  checksummed (UNISWAP_SWAP_ROUTER cfg) ∧ Forall (λ kv, checksummed kv.2) (CHAINLINK_FEEDS cfg).

Hypothesis Himp : imported.

(** A call whose address and arguments are checksummed addresses. *)
Ltac well_typed_tac :=
  cbn [well_typed contract_of omap list_omap head aave_contract oracle_contract uniswap_contract
       erc20_contract vault_contract fallback_contract];
  unfold encodable, args_conform; cbn [mk_call cc_address cc_abi cc_fn cc_args];
  rewrite andb_true_iff, is_checksummed_spec; split; [done|];
  resolve_fn;
  rewrite ?conforms_cons, ?conforms_nil, ?andb_true_r, ?andb_true_iff, ?conforms_address,
    ?conforms_uint.

(** [await self._c.call(f)] where nothing is promised about the value. *)
Ltac typed_call_ := apply (typed_bind _ _ (λ _, True)); [apply (typed_client_call _ (λ _, True)); intros ep|].
Ltac typed_checksum_ a H := eapply typed_bind; [apply typed_checksum|]; intros a H.

(** A cached address: resolved once through [c], checksummed, stored by [set]. *)
Lemma typed_cached (get : World → option string) (p : prog string) (set : string → World → World) :
  (∀ w a, caches_checksummed w → get w = Some a → checksummed a) →
  typed p (λ _, True) →
  (∀ w a, checksummed a → caches_checksummed w → caches_checksummed (set a w)) →
  typed (cached ← gets get;
         match cached with
         | Some a => Ret a
         | None => raw ← p; a ← lift (to_checksum_address raw); _ ← modify (set a); Ret a
         end) checksummed.
Proof.
  intros Hget Hp Hset. eapply typed_bind.
  { apply (typed_gets _ (λ o, ∀ a, o = Some a → checksummed a)). eauto. }
  intros [a|] Ha; [apply typed_ret; auto|].
  eapply typed_bind; [done|]. intros raw _. typed_checksum_ a Hc.
  eapply typed_bind; [apply typed_modify; auto|by intros; apply typed_ret].
Qed.

Lemma typed_pool_address : typed (pool_address cfg) checksummed.
Proof.
  apply typed_cached.
  - intros w a [H _]. apply H.
  - apply (typed_client_call _ (λ _, True)). intros ep. apply (typed_rpc ep (GetPool _)).
    destruct Himp. by well_typed_tac.
  - intros w a Ha [H1 H2]. split; cbn; [by intros ? [= <-]|done].
Qed.

Lemma typed_oracle_address : typed (oracle_address cfg) checksummed.
Proof.
  apply typed_cached.
  - intros w a [_ H]. apply H.
  - apply (typed_client_call _ (λ _, True)). intros ep. apply (typed_rpc ep (GetPriceOracle _)).
    destruct Himp. by well_typed_tac.
  - intros w a Ha [H1 H2]. split; cbn; [done|by intros ? [= <-]].
Qed.

Lemma typed_user_account_data b : typed (get_user_account_data cfg b) (λ _, True).
Proof.
  unfold get_user_account_data. typed_checksum_ user Hu. typed_call_.
  - eapply typed_bind; [apply typed_pool_address|]. intros pool Hpool.
    apply (typed_rpc ep (GetUserAccountData _ _)). by well_typed_tac.
  - intros [[[[[]]]]] _. by apply typed_ret.
Qed.

Lemma typed_reserve_info a : typed (get_reserve_info cfg a) (λ _, True).
Proof.
  unfold get_reserve_info. typed_checksum_ token Ht. typed_call_.
  - eapply typed_bind; [apply typed_pool_address|]. intros pool Hpool.
    apply (typed_rpc ep (GetReserveData _ _)). by well_typed_tac.
  - intros data _. typed_checksum_ x Hx. typed_checksum_ y Hy. by apply typed_ret.
Qed.

Lemma typed_asset_price a : typed (get_asset_price cfg a) (λ _, True).
Proof.
  unfold get_asset_price. typed_checksum_ token Ht. typed_call_.
  - eapply typed_bind; [apply typed_oracle_address|]. intros oracle Ho.
    apply (typed_rpc ep (GetAssetPrice _ _)). by well_typed_tac.
  - intros p _. by apply typed_ret.
Qed.

Lemma typed_chainlink_price k : typed (get_chainlink_price cfg k) (λ _, True).
Proof.
  unfold get_chainlink_price. apply (typed_bind _ _ checksummed).
  { destruct (dget _ _); [apply typed_checksum|apply typed_raise]. }
  intros feed Hf. typed_call_.
  - apply (typed_bind _ _ (λ _, True)).
    { apply (typed_rpc ep (LatestRoundData _)). by well_typed_tac. }
    intros rd _. apply (typed_bind _ _ (λ _, True)).
    { apply (typed_rpc ep (FeedDecimals _)). by well_typed_tac. }
    intros d _. apply (typed_bind _ _ (λ _, True)).
    { by apply (typed_rpc ep GetLatestBlockTimestamp). }
    intros t _. by apply typed_ret.
  - intros [[[[[[]]]]]] _. by apply typed_ret.
Qed.

Lemma typed_quote i o amount fee :
  0 ≤ amount < 2 ^ 256 → (∀ f, fee = Some f → 0 ≤ f < 2 ^ 24) →
  typed (quote_exact_output_single cfg i o amount fee) (λ _, True).
Proof.
  intros Ha Hfee. unfold quote_exact_output_single.
  typed_checksum_ t_in Hi. typed_checksum_ t_out Ho.
  apply (typed_bind _ _ (λ f, 0 ≤ f < 2 ^ 24)).
  { destruct fee as [f|]; [by apply typed_ret, Hfee|]. apply typed_lift.
    intros f ->%fee_tier_default. lia. }
  intros f Hf. typed_call_.
  - apply (typed_rpc ep (QuoteExactOutputSingle _ _ _ _ _)). destruct Himp as (_&?&_).
    well_typed_tac. split_and!; try done; lia.
  - intros [[[]]] _. by apply typed_ret.
Qed.

Lemma typed_erc20_decimals t : typed (erc20_decimals cfg t) (λ _, True).
Proof.
  unfold erc20_decimals. typed_checksum_ a Ha.
  eapply (typed_bind _ _ (λ _, True)); [by apply typed_gets|]. intros [d|] _; [by apply typed_ret|].
  typed_call_; [apply (typed_rpc ep (Erc20Decimals _)); by well_typed_tac|].
  intros v _. eapply typed_bind; [by apply typed_modify|]. intros; by apply typed_ret.
Qed.

Lemma typed_balance_of t a : typed (balance_of cfg t a) (λ _, True).
Proof.
  unfold balance_of. typed_checksum_ x Hx. typed_checksum_ y Hy.
  apply (typed_client_call _ (λ _, True)). intros ep.
  apply (typed_rpc ep (BalanceOf _ _)). by well_typed_tac.
Qed.

Lemma typed_allowance t o s : typed (allowance cfg t o s) (λ _, True).
Proof.
  unfold allowance. typed_checksum_ x Hx. typed_checksum_ y Hy. typed_checksum_ z Hz.
  apply (typed_client_call _ (λ _, True)). intros ep.
  apply (typed_rpc ep (Allowance _ _ _)). by well_typed_tac.
Qed.
End typed.

(** The reads a client of the chain may ask for. *)
Inductive client_op :=
  | OpAccount (borrower : string)
  | OpReserve (asset : string)
  | OpPrice (asset : string)
  | OpFeed (key : string)
  | OpQuote (token_in token_out : string) (amount : Z) (fee : option Z)
  | OpDecimals (token : string)
  | OpBalance (token account : string)
  | OpAllowance (token owner spender : string).

Definition client_prog `{EthUtils} (cfg : Settings) (op : client_op) : prog unit :=
  match op with
  | OpAccount b => _ ← get_user_account_data cfg b; Ret tt
  | OpReserve a => _ ← get_reserve_info cfg a; Ret tt
  | OpPrice a => _ ← get_asset_price cfg a; Ret tt
  | OpFeed k => _ ← get_chainlink_price cfg k; Ret tt
  | OpQuote i o n f => _ ← quote_exact_output_single cfg i o n f; Ret tt
  | OpDecimals t => _ ← erc20_decimals cfg t; Ret tt
  | OpBalance t a => _ ← balance_of cfg t a; Ret tt
  | OpAllowance t o s => _ ← allowance cfg t o s; Ret tt
  end.

(** Only a quotation carries numbers. *)
Definition op_in_range (op : client_op) : Prop :=
  match op with
  | OpQuote _ _ n f => 0 ≤ n < 2 ^ 256 ∧ (∀ t, f = Some t → 0 ≤ t < 2 ^ 24)
  | _ => True
  end.

(** C20: Every contract request the typed clients make is one web3 can encode: whatever addresses
    they are handed, whatever the node answers, however often a call is retried, fails over or
    is interleaved with other coroutines that keep the caches, each request is addressed to a
    checksummed contract, names a function of the table it binds, and passes arguments that
    conform to the declared types; for a quotation this takes an amount and a fee tier within
    their widths.  The address caches stay checksummed. *)
Theorem client_requests_typed `{U : EthUtils} `{!EthUtilsLaws U} cfg op R w tr r w' :
  imported cfg → op_in_range op →
  (∀ w1 w2, R w1 w2 → caches_checksummed w1 → caches_checksummed w2) →
  caches_checksummed w →
  exec R (client_prog cfg op) w tr r w' →
  Forall (λ ev, well_typed (ev_req ev)) tr ∧ caches_checksummed w'.
Proof.
  intros Himp Hop HR Hw He.
  assert (typed (client_prog cfg op) (λ _, True)) as Ht.
  { destruct op; cbn [client_prog]; (eapply (typed_bind _ _ (λ _, True)); [|by intros; apply typed_ret]).
    - by apply typed_user_account_data.
    - by apply typed_reserve_info.
    - by apply typed_asset_price.
    - by apply typed_chainlink_price.
    - destruct Hop. by apply typed_quote.
    - by apply typed_erc20_decimals.
    - by apply typed_balance_of.
    - by apply typed_allowance. }
  destruct (wp_exec _ _ _ _ (Ht R w HR Hw) _ _ _ He) as (H1 & H2 & _). done.
Qed.

Lemma client_requests_typed_witness :
  let '(tr, _, _, _) := run primary_down (client_prog (H := eth_plain) demo_settings
    (OpQuote "0xc" "0xd" 5 None)) world0 tt in
  tr ≠ [] ∧ Forall (λ ev, well_typed (U := eth_plain) (ev_req ev)) tr.
Proof.
  destruct (run primary_down _ world0 tt) as [[[tr r] w'] u] eqn:E.
  destruct (client_requests_typed (U := eth_plain) demo_settings (OpQuote "0xc" "0xd" 5 None)
              eq world0 tr r w') as [H _].
  - split_and!; [reflexivity|reflexivity|reflexivity|by repeat constructor].
  - split; [lia|done].
  - by intros ?? ->.
  - split; intros a Ha; reflexivity.
  - by apply (run_exec primary_down eq _ _ tt _ _ _ u).
  - vm_compute in E. simplify_eq. split; [discriminate|exact H].
Defined.

(** ** The encoders *)
Section encoders.
Context `{U : EthUtils} `{L : !EthUtilsLaws U} `{C : AbiCodec} `{CL : !AbiCodecLaws U C}.

Lemma encode_abi_iff abi name args :
  (∃ d, encode_abi abi name args = Ok d) ↔ args_conform abi name args = true.
Proof.
  rewrite <-encode_abi_ok. destruct (encode_abi abi name args) as [d|].
  - split; eauto.
  - split; [by intros [? ?]|by intros [? ?]].
Qed.

(** The encoders succeed exactly on checksummable addresses and amounts within their widths. *)
Lemma encode_repay_ok asset amount behalf :
  (∃ d, encode_repay asset amount behalf = Ok d) ↔
  (∃ a b, to_checksum_address asset = Ok a ∧ to_checksum_address behalf = Ok b) ∧
  0 ≤ amount < 2 ^ 256.
Proof.
  unfold encode_repay. destruct (to_checksum_address asset) as [a|] eqn:Ha; cbn; [|naive_solver].
  destruct (to_checksum_address behalf) as [b|] eqn:Hb; cbn; [|naive_solver].
  apply checksum_idemp in Ha, Hb.
  rewrite encode_abi_iff. unfold args_conform. resolve_fn.
  rewrite !conforms_cons, !conforms_nil, !andb_true_iff, !conforms_address, !conforms_uint.
  unfold checksummed, VARIABLE_RATE_MODE. naive_solver lia.
Qed.

Lemma encode_withdraw_ok asset amount to :
  (∃ d, encode_withdraw asset amount to = Ok d) ↔
  (∃ a t, to_checksum_address asset = Ok a ∧ to_checksum_address to = Ok t) ∧
  0 ≤ amount < 2 ^ 256.
Proof.
  unfold encode_withdraw. destruct (to_checksum_address asset) as [a|] eqn:Ha; cbn; [|naive_solver].
  destruct (to_checksum_address to) as [b|] eqn:Hb; cbn; [|naive_solver].
  apply checksum_idemp in Ha, Hb.
  rewrite encode_abi_iff. unfold args_conform. resolve_fn.
  rewrite !conforms_cons, !conforms_nil, !andb_true_iff, !conforms_address, !conforms_uint.
  unfold checksummed, VARIABLE_RATE_MODE. naive_solver lia.
Qed.

Lemma encode_exact_output_single_ok i o fee r n m :
  (∃ d, encode_exact_output_single i o fee r n m = Ok d) ↔
  (∃ a b c, to_checksum_address i = Ok a ∧ to_checksum_address o = Ok b ∧
            to_checksum_address r = Ok c) ∧
  0 ≤ fee < 2 ^ 24 ∧ 0 ≤ n < 2 ^ 256 ∧ 0 ≤ m < 2 ^ 256.
Proof.
  unfold encode_exact_output_single.
  destruct (to_checksum_address i) as [a|] eqn:Ha; cbn; [|naive_solver].
  destruct (to_checksum_address o) as [b|] eqn:Hb; cbn; [|naive_solver].
  destruct (to_checksum_address r) as [c|] eqn:Hc; cbn; [|naive_solver].
  apply checksum_idemp in Ha, Hb, Hc.
  rewrite encode_abi_iff. unfold args_conform. resolve_fn.
  rewrite !conforms_cons, !conforms_nil, !andb_true_iff, !conforms_address, !conforms_uint.
  unfold checksummed, VARIABLE_RATE_MODE. naive_solver lia.
Qed.
End encoders.

(** ** The contract cache *)
Section contract_cache.
Context `{U : EthUtils}.

(** [contract] returns an object bound to the active provider, the checksummed address and the
    table, keeps the cache's invariant, and hands the same object to the next caller. *)
Lemma contract_spec active address abi cache c cache' :
  cache_bound cache → contract active address abi cache = Ok (c, cache') →
  bc_provider c = active ∧ to_checksum_address address = Ok (bc_address c) ∧ bc_abi c = abi ∧
  cache_bound cache' ∧ contract active address abi cache' = Ok (c, cache').
Proof.
  unfold contract. intros Hb (a & Ha & H)%res_bind_ok. rewrite Ha. cbn.
  destruct (dget cache (active, a, abi)) as [c0|] eqn:E; simplify_eq.
  - apply Hb in E as Hk. simplify_eq. rewrite E. done.
  - rewrite dget_dset_eq. split_and!; try done.
    intros k c. rewrite dget_dset. case_decide; [|apply Hb]. by intros [= <-]; subst.
Qed.

Lemma contracts_clear_bound cache : cache_bound (contracts_clear cache).
Proof. done. Qed.
End contract_cache.
