(* ===== verification/Service.v ===== *)
(** * core/protection_service.py: the shared protection service

    The service is written against an interface, [ProtectionDeps]: the decision pipeline, its
    monitor's operations, and the optional simulator and submitter.  [ProtectionDepsLaws] is
    what the service's theorems use of them; [Deps.v] discharges it for the real ones. *)
From S2P Require Import Prelude PyFloat Config State InFlight Breaker Observability Models.
From S2P Require Import Risk Events Io Logic World Api Monitor Pipeline Simulator.

Class ProtectionDeps := {
  dep_evaluate : RiskParams → option f64 → prog (AssessmentResponse * option RescuePlan);
  dep_assess : RiskParams → option f64 → prog AssessmentResponse;
  dep_poll_once : string → Z → prog PositionSnapshot;
  dep_sample_price : string → prog f64;
  dep_sigma_for : string → prog f64;
  dep_simulate : option (RescuePlan → RiskParams → string → prog (SimulationResult * RescuePlan));
  dep_submit : option (RescuePlan → RiskParams → string → Z → Z → prog SubmissionResult);
  dep_demo_mode : bool;
  dep_demo_signature : string → RiskParams → string → prog string;
}.

(** *** Attribute assignments *)
Definition set_state (b : string) (s : PositionState) : prog unit :=
  modify (λ w, set_states (dset (w_states w) b s) w).

Definition inc (name : string) : prog unit :=
  modify (λ w, set_counters (counter_inc (w_counters w) name 1) w).

Definition state_of (w : World) (b : string) : PositionState := default HEALTHY (dget (w_states w) b).

Definition register (params : RiskParams) (signature : string) : prog unit :=
  _ ← modify (λ w, set_registry (dset (w_registry w) (rp_borrower params) (params, signature)) w);
  modify (λ w, set_states (dsetdefault (w_states w) (rp_borrower params) HEALTHY) w).

Definition unregister (b : string) : prog unit :=
  _ ← modify (λ w, set_registry (dpop (w_registry w) b) w);
  modify (λ w, set_states (dpop (w_states w) b) w).

Definition registered (w : World) : list string := dkeys (w_registry w).

Definition params_of (w : World) (b : string) : option (RiskParams * string) :=
  dget (w_registry w) b.

(** *** The in-flight registry, with the clock readings it makes *)
Definition inflight_can_start (b : string) : prog bool :=
  r ← gets w_inflight;
  if is_locked r b then Ret false
  else match dget (if_cooldown_until r) b with
       | None => Ret true
       | Some until => now ← await Monotonic; Ret (negb (flt now until))
       end.

Definition inflight_acquire (b : string) : prog bool :=
  ok ← inflight_can_start b;
  if negb ok then Ret false
  else
    now ← await Monotonic;
    _ ← modify (λ w, set_inflight (lock_at (w_inflight w) b now) w);
    Ret true.

Definition inflight_release (b : string) : prog unit :=
  now ← await Monotonic;
  modify (λ w, set_inflight (release (w_inflight w) b now) w).

(** *** Replies *)
Definition refused (b : string) (s : PositionState) (a : option AssessmentResponse)
    (reason : option string) : ProtectResponse :=
  {| resp_borrower := b; resp_state := s; resp_submitted := false; resp_tx_hash := None;
     resp_assessment := a; resp_reason := reason; resp_via_fallback := false |}.

Definition FALLBACK_REASON : string :=
  "HF restored via direct Aave repay - the atomic vault path was unavailable on this fork (executeProtection did not execute)".

Definition submitted_reply (b : string) (s : PositionState) (sub : SubmissionResult)
    (a : AssessmentResponse) : ProtectResponse :=
  {| resp_borrower := b; resp_state := s; resp_submitted := sub_status sub =? 1;
     resp_tx_hash := Some (sub_tx_hash sub); resp_assessment := Some a;
     resp_reason :=
       if (sub_status sub =? 1) && sub_via_fallback sub then Some FALLBACK_REASON
       else if sub_status sub =? 1 then None
       else Some "transaction reverted (position unchanged)"%string;
     resp_via_fallback := sub_via_fallback sub |}.

(** [not clean_sig or clean_sig == "00" * (len(clean_sig) // 2)] *)
Fixpoint zero_pairs (n : nat) : string :=
  match n with O => "" | S n => "00" +:+ zero_pairs n end.

Definition empty_signature (signature : string) : bool :=
  let clean := removeprefix "0x" signature in
  String.eqb clean "" || String.eqb clean (zero_pairs (Nat.div (String.length clean) 2)).

Section service.
Context `{ProtectionDeps}.

(** The submission under the in-flight lock: the [try] block, the [except] block; the
    [finally] block is [inflight_release]. *)
Definition submit_block (sub : prog SubmissionResult) (b : string) : prog SubmissionResult :=
  _ ← set_state b SUBMITTED;
  _ ← inc C_SUBMITTED;
  sub ← sub;
  if sub_status sub =? 1 then
    _ ← inc C_RESTORED;
    _ ← modify (λ w, set_breaker (record_success (w_breaker w)) w);
    _ ← set_state b RESTORED;
    Ret sub
  else
    _ ← inc C_REVERTED;
    _ ← modify (λ w, set_breaker (record_failure (w_breaker w)) w);
    _ ← set_state b REVERTED;
    paused ← gets (λ w, br_paused (w_breaker w));
    _ ← (if paused : bool then inc BREAKER_TRIPPED else Ret tt);
    Ret sub.

Definition submit_failed (b : string) (response : AssessmentResponse) (e : exn)
  : prog ProtectResponse :=
  _ ← inc C_REVERTED;
  _ ← inc ERRORS;
  _ ← modify (λ w, set_breaker (record_failure (w_breaker w)) w);
  _ ← set_state b REVERTED;
  paused ← gets (λ w, br_paused (w_breaker w));
  _ ← (if paused : bool then inc BREAKER_TRIPPED else Ret tt);
  Ret (refused b REVERTED (Some response) (Some ("submission failed: " +:+ exn_msg e))).

Definition guarded_submission (sub : prog SubmissionResult) (b : string)
    (response : AssessmentResponse) : prog (SubmissionResult + ProtectResponse) :=
  finally
    (try_except (s ← submit_block sub b; Ret (inl s))
       (λ e, r ← submit_failed b response e; Ret (inr r)))
    (inflight_release b).

(** From the successful dry-run on: acquire the lock, submit, reply. *)
Definition submit_phase (submit : RescuePlan → RiskParams → string → Z → Z → prog SubmissionResult)
    (params : RiskParams) (signature : string) (plan : RescuePlan) (sim : SimulationResult)
    (response : AssessmentResponse) : prog ProtectResponse :=
  let b := rp_borrower params in
  ok ← inflight_acquire b;
  if negb ok then
    _ ← inc DOUBLE_SUBMIT_BLOCKED;
    s ← gets (λ w, state_of w b);
    Ret (refused b s (Some response) (Some "rescue already in flight (race)"%string))
  else
    out ← guarded_submission
            (submit plan params signature (sim_repay_amount sim) (sim_amount_in_maximum sim))
            b response;
    match out with
    | inr reply => Ret reply
    | inl sub =>
        st ← gets (λ w, dget (w_states w) b);
        match st with
        | Some s => Ret (submitted_reply b s sub response)
        | None => Raise (Exn KeyError b)
        end
    end.

(** From the viable plan on: demo signature, dry-run, submission. *)
Definition rescue_phase (params : RiskParams) (signature : string) (plan : RescuePlan)
    (response : AssessmentResponse) : prog ProtectResponse :=
  let b := rp_borrower params in
  match dep_simulate with
  | None =>
      _ ← set_state b READY;
      Ret (refused b READY (Some response)
             (Some "assessment-only (no simulator configured)"%string))
  | Some simulate =>
      signature ← (if dep_demo_mode && empty_signature signature
                   then dep_demo_signature b params signature else Ret signature);
      '(sim, plan) ← simulate plan params signature;
      if negb (sim_success sim) then
        _ ← set_state b DECLINED;
        _ ← inc SIMULATED_FAIL;
        Ret (refused b DECLINED (Some response)
               (Some ("simulation reverted: " +:+ default "None" (sim_revert_reason sim))))
      else
        _ ← inc SIMULATED_OK;
        match dep_submit with
        | None =>
            _ ← set_state b READY;
            Ret (refused b READY (Some response) (Some "dry-run only (no submitter configured)"%string))
        | Some submit => submit_phase submit params signature plan sim response
        end
  end.

(** [ProtectionService.protect] *)
Definition protect (params : RiskParams) (signature : string) : prog ProtectResponse :=
  let b := rp_borrower params in
  _ ← register params signature;
  br ← gets w_breaker;
  if negb (allow br) then
    _ ← inc BREAKER_BLOCKED;
    s ← gets (λ w, state_of w b);
    Ret (refused b s None (Some ("circuit breaker paused (" +:+ default "None" (trip_reason br) +:+ ")")))
  else
    can ← inflight_can_start b;
    if negb can then
      _ ← inc DOUBLE_SUBMIT_BLOCKED;
      s ← gets (λ w, state_of w b);
      Ret (refused b s None (Some "rescue already in flight / cooling down"%string))
    else
      _ ← set_state b ASSESSING;
      sigma ← match rp_allowed_collaterals params with
              | a :: _ => dep_sigma_for a
              | [] => Ret fzero
              end;
      '(response, plan) ← dep_evaluate params (Some sigma);
      _ ← inc ASSESSED;
      match plan with
      | Some plan =>
          if negb (as_viable response) then
            _ ← set_state b DECLINED;
            _ ← inc C_DECLINED;
            Ret (refused b DECLINED (Some response) (as_reason response))
          else rescue_phase params signature plan response
      | None =>
          _ ← set_state b DECLINED;
          _ ← inc C_DECLINED;
          Ret (refused b DECLINED (Some response) (as_reason response))
      end.

(** [ProtectionService.assess], [snapshot] *)
Definition service_assess (params : RiskParams) (sigma : option f64) : prog AssessmentResponse :=
  dep_assess params sigma.

Definition snapshot (b : string) (hf_trigger_bps : Z) : prog PositionSnapshot :=
  snap ← dep_poll_once b hf_trigger_bps;
  locked ← gets (λ w, is_locked (w_inflight w) b);
  _ ← (if locked : bool then Ret tt else set_state b (ps_state snap));
  Ret snap.

(** The body of [tick] for one registered borrower. *)
Definition tick_one (b : string) (params : RiskParams) (signature : string) : prog unit :=
  try_except
    (snap ← dep_poll_once b (rp_hf_trigger_bps params);
     _ ← match rp_allowed_collaterals params with
         | a :: _ => _ ← dep_sample_price a; Ret tt
         | [] => Ret tt
         end;
     locked ← gets (λ w, is_locked (w_inflight w) b);
     _ ← (if locked : bool then Ret tt else set_state b (ps_state snap));
     if decide (ps_state snap = ASSESSING) then
       br ← gets w_breaker;
       if allow br then
         can ← inflight_can_start b;
         if can : bool then _ ← protect params signature; Ret tt else Ret tt
       else Ret tt
     else Ret tt)
    (λ _, inc ERRORS).

Fixpoint tick_all (entries : list (string * (RiskParams * string))) : prog unit :=
  match entries with
  | [] => Ret tt
  | (b, (params, signature)) :: rest => _ ← tick_one b params signature; tick_all rest
  end.

(** [ProtectionService.tick] *)
Definition tick : prog unit :=
  enabled ← gets w_autonomous;
  if negb enabled then Ret tt
  else entries ← gets w_registry; tick_all entries.
End service.

(** [metrics] *)
Definition metrics (w : World) : MetricsSnapshot :=
  {| breaker_paused := br_paused (w_breaker w);
     breaker_consecutive_failures := br_consecutive (w_breaker w);
     breaker_trip_reason := trip_reason (w_breaker w);
     in_flight_borrowers := locked_borrowers (w_inflight w);
     registered_positions := Z.of_nat (length (w_registry w));
     ms_counters := counter_snapshot (w_counters w);
     ms_states := (λ bs, (bs.1, state_value bs.2)) <$> w_states w |}.

Definition reset_breaker : prog unit := modify (λ w, set_breaker (reset (w_breaker w)) w).

(** ** What the service relies on *)
Class ProtectionDepsLaws (D : ProtectionDeps) := {
  (** The mandates the validators let through. *)
  dep_valid : RiskParams → Prop;
  dep_evaluate_reads p s : reads (dep_evaluate p s);
  dep_evaluate_plan p s :
    returns (dep_evaluate p s) (λ rp, ∀ pl, rp.2 = Some pl →
      pl_borrower pl = rp_borrower p ∧ as_viable rp.1 = true);
  dep_assess_reads p s : reads (dep_assess p s);
  dep_poll_once_reads b t : reads (dep_poll_once b t);
  dep_sample_price_reads a : reads (dep_sample_price a);
  dep_sigma_for_reads a : reads (dep_sigma_for a);
  dep_demo_signature_reads b p s : reads (dep_demo_signature b p s);
  dep_simulate_reads f pl p s : dep_simulate = Some f → reads (f pl p s);
  dep_simulate_borrower f pl p s :
    dep_simulate = Some f → returns (f pl p s) (λ out, pl_borrower out.2 = pl_borrower pl);
  dep_submit_guar f pl p s r m w :
    dep_submit = Some f → dep_valid p → pl_borrower pl = rp_borrower p →
    guar same_service (λ q, ∀ b, on_behalf q = Some b → b = rp_borrower p) (f pl p s r m) w;
  dep_submit_same f pl p s r m w :
    dep_submit = Some f → guar same_service (λ _, True) (f pl p s r m) w;
  dep_submit_status f pl p s r m :
    dep_submit = Some f → returns (f pl p s r m) (λ o, sub_status o = 1 ↔ sub_state o = RESTORED);
}.

#[export] Hint Resolve dep_evaluate_reads dep_assess_reads dep_poll_once_reads
  dep_sample_price_reads dep_sigma_for_reads dep_demo_signature_reads dep_simulate_reads : finax.

(** A request on nobody's behalf, or on this borrower's. *)
Definition only_for (b : string) (q : req) : Prop := ∀ b', on_behalf q = Some b' → b' = b.

Lemma only_for_read b q : is_read q = true → only_for b q.
Proof. intros Hq%is_read_on_behalf b'. by rewrite Hq. Qed.

(** ** The writes of a protection run

    [StepLaws b G]: every kind of write [protect] makes for borrower [b] is a [G] step. *)
Record StepLaws (b : string) (G : World → World → Prop) : Prop := {
  sl_same w w' : same_service w w' → G w w';
  sl_registry w ps : rp_borrower ps.1 = b → G w (set_registry (dset (w_registry w) b ps) w);
  sl_default w s : G w (set_states (dsetdefault (w_states w) b s) w);
  sl_state w s : G w (set_states (dset (w_states w) b s) w);
  sl_inc w n : G w (set_counters (counter_inc (w_counters w) n 1) w);
  sl_lock w t : G w (set_inflight (lock_at (w_inflight w) b t) w);
  sl_release w t : G w (set_inflight (release (w_inflight w) b t) w);
  sl_success w : G w (set_breaker (record_success (w_breaker w)) w);
  sl_failure w : G w (set_breaker (record_failure (w_breaker w)) w);
}.

Lemma guar_mono {S A} (G G' : S → S → Prop) (P P' : req → Prop) (p : io S A) s :
  (∀ s s', G s s' → G' s s') → (∀ q, P q → P' q) → guar G P p s → guar G' P' p s.
Proof.
  intros HG HP. revert s. induction p as [a|e|k IH|s1 p IH|q k IH]; intros s; cbn; auto.
  - intros [? ?]. auto.
  - intros [? ?]. auto.
Qed.

Section protect_guar.
Context {D : ProtectionDeps} {DL : ProtectionDepsLaws D}.
Context (b : string) (G : World → World → Prop) (SL : StepLaws b G).
Context (P : req → Prop) (HP : ∀ q, is_read q = true → P q).

Lemma guar_from_reads {A} (p : prog A) w : reads p → guar G P p w.
Proof.
  intros Hp. eapply guar_mono; [apply (sl_same b G SL)|exact HP|apply Hp].
Qed.

Lemma set_state_guar s w : guar G P (set_state b s) w.
Proof. apply guar_modify. intros. by apply sl_state. Qed.

Lemma inc_guar n w : guar G P (inc n) w.
Proof. apply guar_modify. intros. by apply (sl_inc b). Qed.

Lemma inflight_can_start_guar w : guar G P (inflight_can_start b) w.
Proof. apply guar_from_reads. unfold inflight_can_start. reads_auto. Qed.

Lemma inflight_release_guar w : guar G P (inflight_release b) w.
Proof.
  apply guar_bind; [by apply guar_from_reads, reads_await|].
  intros t w1. apply guar_modify. intros. by apply sl_release.
Qed.

Lemma inflight_acquire_guar w : guar G P (inflight_acquire b) w.
Proof.
  apply guar_bind; [apply inflight_can_start_guar|]. intros [] w1; [|done]. cbn [negb].
  apply guar_bind; [by apply guar_from_reads, reads_await|]. intros t w2.
  apply guar_bind; [|done]. apply guar_modify. intros. by apply sl_lock.
Qed.

Lemma guar_finally {A} (p : prog A) f w :
  guar G P p w → (∀ w, guar G P f w) → guar G P (finally p f) w.
Proof.
  intros Hp Hf. unfold finally. apply guar_bind.
  - apply guar_catch; [|done]. by apply guar_bind.
  - intros r w1. apply guar_bind; [apply Hf|]. intros. apply guar_lift.
Qed.

Ltac guar_step :=
  match goal with
  | |- guar _ _ (set_state _ _) _ => apply set_state_guar
  | |- guar _ _ (inc _) _ => apply inc_guar
  | |- guar _ _ (modify _) _ => apply guar_modify; intros; first
      [by apply sl_registry | by apply (sl_default b G SL) | by apply (sl_success b G SL)
      | by apply (sl_failure b G SL)]
  | |- guar _ _ (inflight_can_start _) _ => apply inflight_can_start_guar
  | |- guar _ _ (inflight_acquire _) _ => apply inflight_acquire_guar
  | |- guar _ _ (inflight_release _) _ => apply inflight_release_guar
  | |- guar _ _ (finally _ _) _ => apply guar_finally
  | |- guar _ _ (try_except _ _) _ => apply guar_try_except
  | |- guar _ _ (mbind _ _) _ => apply guar_bind
  | |- guar _ _ (gets _) _ => apply guar_gets
  | |- guar _ _ (match ?x with _ => _ end) _ => destruct x eqn:?
  | |- ∀ _, _ => intros
  | |- guar _ _ (Ret _) _ => exact I
  | |- guar _ _ (Raise _) _ => exact I
  | |- guar _ _ _ _ => apply guar_from_reads; by eauto with finax
  end.

Lemma register_guar p s w : rp_borrower p = b → guar G P (register p s) w.
Proof. intros Hb. unfold register. rewrite Hb. repeat guar_step. Qed.

Lemma submit_block_guar sub w :
  (∀ w, guar G P sub w) → guar G P (submit_block sub b) w.
Proof. intros Hsub. unfold submit_block. repeat first [apply Hsub | guar_step]. Qed.

Lemma guarded_submission_guar sub r w :
  (∀ w, guar G P sub w) → guar G P (guarded_submission sub b r) w.
Proof.
  intros Hsub. unfold guarded_submission, submit_failed.
  repeat first [apply submit_block_guar, Hsub | guar_step].
Qed.

Context (Hsubmit : ∀ f pl p s r m w, dep_submit = Some f → rp_borrower p = b →
  pl_borrower pl = b → guar same_service P (f pl p s r m) w).

Lemma submit_phase_guar f p s pl sim r w :
  dep_submit = Some f → rp_borrower p = b → pl_borrower pl = b →
  guar G P (submit_phase f p s pl sim r) w.
Proof.
  intros Hf Hb Hpl. unfold submit_phase. rewrite Hb.
  repeat first [apply guarded_submission_guar | guar_step].
  eapply guar_mono; [apply (sl_same b G SL)|done|by apply Hsubmit].
Qed.

(** The dry-run hands back a plan for the same borrower. *)
Lemma guar_reads_returns {A B} (p : prog A) (f : A → prog B) Φ w :
  reads p → returns p Φ → (∀ a w, Φ a → guar G P (f a) w) → guar G P (a ← p; f a) w.
Proof.
  intros Hp HΦ Hf. pose proof (guar_from_reads p w Hp) as Hg. clear Hp.
  revert w Hg. unfold mbind, io_bind.
  induction p as [a|e|k IH|s1 p IH|q k IH]; intros w Hg; cbn in *; auto.
  - destruct Hg. auto.
  - destruct Hg. auto.
Qed.

Lemma rescue_phase_guar p s pl r w :
  rp_borrower p = b → pl_borrower pl = b → guar G P (rescue_phase p s pl r) w.
Proof.
  intros Hb Hpl. unfold rescue_phase. rewrite Hb. destruct dep_simulate as [f|] eqn:Ef;
    [|by repeat guar_step].
  apply guar_bind; [by repeat guar_step|]. intros sig w1.
  eapply guar_reads_returns; [by apply dep_simulate_reads|by apply dep_simulate_borrower|].
  intros [sim pl'] w2 Hpl'. cbn in Hpl'. destruct (negb _); [by repeat guar_step|].
  apply guar_bind; [by repeat guar_step|]. intros _ w3.
  pose proof submit_phase_guar as Hphase.
  destruct dep_submit as [g|] eqn:Eg; [|by repeat guar_step]. apply Hphase; congruence.
Qed.

Lemma protect_guar p s w : rp_borrower p = b → guar G P (protect p s) w.
Proof.
  intros Hb. unfold protect. rewrite Hb.
  apply guar_bind; [by apply register_guar|]. intros _ w1.
  apply guar_bind; [by repeat guar_step|]. intros br w2. destruct (negb _); [by repeat guar_step|].
  apply guar_bind; [by repeat guar_step|]. intros can w3. destruct (negb _); [by repeat guar_step|].
  apply guar_bind; [by repeat guar_step|]. intros _ w4.
  apply guar_bind; [by repeat guar_step|]. intros sigma w5.
  eapply guar_reads_returns; [by apply dep_evaluate_reads|by apply dep_evaluate_plan|].
  intros [r [pl|]] w6 Hpl; (apply guar_bind; [by repeat guar_step|]); intros _ w7;
    [|by repeat guar_step].
  destruct (negb _); [by repeat guar_step|].
  destruct (Hpl pl eq_refl). apply rescue_phase_guar; congruence.
Qed.
End protect_guar.

(** ** The well-formedness invariant *)
Definition keeps_wf (w w' : World) : Prop := world_wf w → world_wf w'.

Lemma keeps_wf_laws b : StepLaws b keeps_wf.
Proof.
  split; unfold keeps_wf, world_wf, same_service, service_view; cbn;
    intros; destruct_and?; split_and?; simplify_eq; try done; auto with finax.
  all: try congruence.
  - by apply (breaker_step_wf _ Success).
  - by apply (breaker_step_wf _ Failure).
Qed.

(** ** Frames: a protection run for [b] leaves the other borrowers alone *)
Definition frame (b : string) (w w' : World) : Prop :=
  w_autonomous w' = w_autonomous w ∧ w_max_bumps w' = w_max_bumps w ∧
  br_max (w_breaker w') = br_max (w_breaker w) ∧
  (∀ b', b' ≠ b →
     dget (w_states w') b' = dget (w_states w) b' ∧
     dget (w_registry w') b' = dget (w_registry w) b' ∧
     ∀ now, can_start (w_inflight w') b' now = can_start (w_inflight w) b' now).

#[global] Instance frame_preorder b : PreOrder (frame b).
Proof.
  split.
  - intros w. by split_and!.
  - intros w1 w2 w3 (?&?&?&HA) (?&?&?&HB). split_and!; [congruence..|].
    intros b' Hb. destruct (HA b' Hb) as (?&?&E1), (HB b' Hb) as (?&?&E2).
    split_and!; [congruence..|]. intros now. by rewrite E2.
Qed.

Lemma lock_at_other r b b' t now : b' ≠ b → can_start (lock_at r b t) b' now = can_start r b' now.
Proof.
  intros. unfold can_start, is_locked, in_cooldown, din; simpl. by rewrite dget_dset_ne.
Qed.

Lemma record_failure_max b : br_max (record_failure b) = br_max b.
Proof. unfold record_failure; simpl. by destruct (_ && _). Qed.

Lemma frame_laws b : StepLaws b (frame b).
Proof.
  split; unfold frame; cbn.
  - intros w w' Hs. unfold same_service, service_view in Hs. simplify_eq. intros.
    split_and!; congruence || (intros; split_and!; congruence).
  - intros w ps _. split_and!; [done..|]. intros. by rewrite dget_dset_ne.
  - intros w s. split_and!; [done..|]. intros. by rewrite dget_dsetdefault, decide_False.
  - intros w s. split_and!; [done..|]. intros. by rewrite dget_dset_ne.
  - intros. by split_and!.
  - intros. split_and!; [done..|]. intros. split_and!; [done..|]. intros. by apply lock_at_other.
  - intros. split_and!; [done..|]. intros. split_and!; [done..|]. intros. by apply release_other.
  - intros. by split_and!.
  - intros. split_and!; [done..|apply record_failure_max|done].
Qed.

(** ** The order of a protection run

    Either a trace sends nothing, or it is: reads; an assessment that ends with a viable plan;
    reads (the demo signature); a dry-run of that plan that succeeds; clock readings (the
    lock); the submission of the amounts the dry-run validated; clock readings. *)
Definition quiet (tr : list event) : Prop := Forall (λ ev, is_read (ev_req ev) = true) tr.

Section run_order.
Context {D : ProtectionDeps} {DL : ProtectionDepsLaws D} (R : World → World → Prop).
Context (p : RiskParams).

Definition submission_run (pl : RescuePlan) (sig : string) (sim : SimulationResult)
    (tr : list event) : Prop :=
  quiet tr ∨ ∃ q t q' g r w w',
    tr = q ++ t ++ q' ∧ quiet q ∧ quiet q' ∧ dep_submit = Some g ∧
    exec R (g pl p sig (sim_repay_amount sim) (sim_amount_in_maximum sim)) w t r w'.

Definition dry_run_first (plan0 : RescuePlan) (tr : list event) : Prop :=
  quiet tr ∨ ∃ q t tr' f sig sim pl w w',
    tr = q ++ t ++ tr' ∧ quiet q ∧ dep_simulate = Some f ∧
    exec R (f plan0 p sig) w t (Ok (sim, pl)) w' ∧ sim_success sim = true ∧
    submission_run pl sig sim tr'.

Definition assessed_first (tr : list event) : Prop :=
  quiet tr ∨ ∃ q t tr' sigma resp plan0 w w',
    tr = q ++ t ++ tr' ∧ quiet q ∧
    exec R (dep_evaluate p sigma) w t (Ok (resp, Some plan0)) w' ∧ as_viable resp = true ∧
    dry_run_first plan0 tr'.

(** The three predicates hold of quiet traces and may be preceded by one. *)
Definition closed (Φ : list event → Prop) : Prop :=
  (∀ tr, quiet tr → Φ tr) ∧ (∀ tr tr', quiet tr → Φ tr' → Φ (tr ++ tr')).

Lemma quiet_app tr tr' : quiet tr → quiet tr' → quiet (tr ++ tr').
Proof. intros. by apply Forall_app. Qed.

Lemma closed_intro (Ψ : list event → Prop) :
  (∀ tr tr', quiet tr → Ψ tr' → Ψ (tr ++ tr')) → closed (λ tr, quiet tr ∨ Ψ tr).
Proof.
  intros HΨ. split; [auto|]. intros tr tr' Ht [?|?]; [left; by apply quiet_app|auto].
Qed.

Lemma closed_submission pl sig sim : closed (submission_run pl sig sim).
Proof.
  apply closed_intro. intros tr ? Ht (q&t&q'&g&r&w&w'&->&?&?). exists (tr ++ q), t, q', g, r, w, w'.
  rewrite app_assoc. split; [done|]. split; [by apply quiet_app|done].
Qed.

Lemma closed_dry_run pl : closed (dry_run_first pl).
Proof.
  apply closed_intro. intros tr ? Ht (q&t&q'&f&sig&sim&pl'&w&w'&->&?&?).
  exists (tr ++ q), t, q', f, sig, sim, pl', w, w'.
  rewrite app_assoc. split; [done|]. split; [by apply quiet_app|done].
Qed.

Lemma closed_assessed : closed assessed_first.
Proof.
  apply closed_intro. intros tr ? Ht (q&t&q'&sg&rs&pl&w&w'&->&?&?).
  exists (tr ++ q), t, q', sg, rs, pl, w, w'.
  rewrite app_assoc. split; [done|]. split; [by apply quiet_app|done].
Qed.

(** Programs that send nothing. *)
Definition sends_nothing {A} (q : prog A) : Prop :=
  ∀ w, guar (λ _ _, True) (λ q, is_read q = true) q w.

Lemma sends_quiet {A} (q : prog A) w tr r w' : sends_nothing q → exec R q w tr r w' → quiet tr.
Proof. intros Hq. apply (guar_trace (λ _ _, True) (λ q, is_read q = true)), Hq. Qed.

Lemma true_laws b : StepLaws b (λ _ _, True).
Proof. by split. Qed.

Lemma wp_sends_bind {A B} (q : prog A) (f : A → prog B) Φ w :
  closed Φ → sends_nothing q → (∀ a w, wp R (f a) (λ tr _ _, Φ tr) w) →
  wp R (a ← q; f a) (λ tr _ _, Φ tr) w.
Proof.
  intros [HΦ HΦ'] Hq Hf. rewrite wp_bind. apply exec_wp. intros tr [a|e] w' He;
    apply sends_quiet in He; auto.
  eapply wp_mono; [|apply Hf]. auto.
Qed.

Lemma wp_sends {A} (q : prog A) Φ w : closed Φ → sends_nothing q → wp R q (λ tr _ _, Φ tr) w.
Proof. intros [HΦ _] Hq. apply exec_wp. intros tr r w' He. apply sends_quiet in He; auto. Qed.

Lemma reads_sends {A} (q : prog A) : reads q → sends_nothing q.
Proof. intros Hq w. eapply guar_mono; [| |apply Hq]; done. Qed.

Lemma inc_sends n : sends_nothing (inc n).
Proof. intros w. by apply guar_modify. Qed.

Lemma modify_sends f : sends_nothing (modify f).
Proof. intros w. by apply guar_modify. Qed.

Lemma set_state_sends b s : sends_nothing (set_state b s).
Proof. apply modify_sends. Qed.

Lemma bind_sends {A B} (q : prog A) (f : A → prog B) :
  sends_nothing q → (∀ a, sends_nothing (f a)) → sends_nothing (a ← q; f a).
Proof. intros Hq Hf w. apply guar_bind; [apply Hq|]. intros. apply Hf. Qed.

Lemma gets_sends {A} (f : World → A) : sends_nothing (gets f).
Proof. by intros w. Qed.

Lemma ret_sends {A} (a : A) : sends_nothing (Ret a).
Proof. by intros w. Qed.

Lemma can_start_sends b : sends_nothing (inflight_can_start b).
Proof. apply reads_sends. unfold inflight_can_start. reads_auto. Qed.

Lemma acquire_sends b : sends_nothing (inflight_acquire b).
Proof.
  intros w. apply (inflight_acquire_guar b); [apply true_laws|done].
Qed.

Lemma release_sends b : sends_nothing (inflight_release b).
Proof. intros w. apply (inflight_release_guar b); [apply true_laws|done]. Qed.

Lemma failed_sends b r e : sends_nothing (submit_failed b r e).
Proof.
  unfold submit_failed. repeat (apply bind_sends; [|intros]);
    try apply inc_sends; try apply modify_sends; try apply gets_sends; try apply ret_sends.
  destruct a3; [apply inc_sends|apply ret_sends].
Qed.
End run_order.

#[export] Hint Resolve reads_sends inc_sends modify_sends set_state_sends gets_sends ret_sends
  can_start_sends acquire_sends release_sends failed_sends closed_submission closed_dry_run
  closed_assessed : finax.

Section run_order_proof.
Context {D : ProtectionDeps} {DL : ProtectionDepsLaws D} (R : World → World → Prop).
Context (p : RiskParams).

Lemma wp_quiet_tail {A} (q : prog A) (Φ : list event → Prop) w :
  sends_nothing q → (∀ tr, quiet tr → Φ tr) → wp R q (λ tr _ _, Φ tr) w.
Proof. intros Hq HΦ. apply exec_wp. intros tr r w' He. by apply HΦ, (sends_quiet R q w tr r w'). Qed.

Lemma wp_inc n Q w :
  wp R (inc n) Q w ↔ Q [] (Ok tt) (set_counters (counter_inc (w_counters w) n 1) w).
Proof. done. Qed.

(** What follows the submission inside its block sends nothing. *)
Lemma submit_block_wp sub b w :
  wp R (submit_block sub b) (λ tr _ _, ∃ t q r w1 w2, tr = t ++ q ∧ quiet q ∧ exec R sub w1 t r w2) w.
Proof.
  unfold submit_block, set_state, inc. rewrite wp_bind, wp_modify, wp_bind, wp_modify, wp_bind.
  eapply wp_mono; [|apply wp_self]. intros t [o|e] w' He; cbn [app].
  - apply wp_quiet_tail.
    + destruct (_ =? 1); repeat (apply bind_sends; [|intros]); auto with finax.
      match goal with |- sends_nothing (if ?x then _ else _) => destruct x end; auto with finax.
    + intros q Hq. rewrite ?app_nil_l. eexists t, q, (Ok o), _, w'.
      split; [done|]. split; [done|exact He].
  - eexists t, [], (Err e), _, w'. rewrite app_nil_r. split; [done|]. split; [constructor|exact He].
Qed.

Lemma guarded_submission_wp sub b r w :
  wp R (guarded_submission sub b r)
    (λ tr _ _, ∃ t q o w1 w2, tr = t ++ q ∧ quiet q ∧ exec R sub w1 t o w2) w.
Proof.
  unfold guarded_submission. rewrite wp_finally, wp_try_except, wp_bind.
  eapply wp_mono; [|apply submit_block_wp]. intros tr o w' (t&q&o'&w1&w2&->&Hq&He).
  assert (∀ q' w (Q : res unit → World → Prop), quiet q' →
    wp R (inflight_release b) (λ tr' r' w'', ∃ t' qq o w1 w2,
      ((t ++ q) ++ q') ++ tr' = t' ++ qq ∧ quiet qq ∧ exec R sub w1 t' o w2) w) as Hrel.
  { intros q' w3 _ Hq'. apply (wp_quiet_tail (inflight_release b) (λ tr', ∃ t' qq o w1 w2,
      ((t ++ q) ++ q') ++ tr' = t' ++ qq ∧ quiet qq ∧ exec R sub w1 t' o w2)); [auto with finax|].
    intros tr' Htr'. exists t, (q ++ q' ++ tr'), o', w1, w2.
    split; [by rewrite <-!app_assoc|]. split; [by repeat apply quiet_app|exact He]. }
  destruct o as [o|e].
  - rewrite wp_ret, app_nil_r. eapply wp_mono; [|apply (Hrel [] w' (λ _ _, True)); constructor].
    intros tr' [|] w3; by rewrite app_nil_r.
  - destruct (is_Exception e).
    + rewrite wp_bind. apply exec_wp. intros tr1 o w3 He1.
      assert (quiet tr1) as Hq1 by (eapply sends_quiet; [apply failed_sends|exact He1]).
      destruct o as [o|e1].
      * rewrite wp_ret, app_nil_r. eapply wp_mono; [|by apply (Hrel tr1 w3 (λ _ _, True))].
        by intros tr' [|] w4.
      * eapply wp_mono; [|by apply (Hrel tr1 w3 (λ _ _, True))]. by intros tr' [|] w4.
    + eapply wp_mono; [|apply (Hrel [] w' (λ _ _, True)); constructor].
      intros tr' [|] w3; by rewrite app_nil_r.
Qed.

Lemma submit_phase_wp g sig pl sim resp w :
  dep_submit = Some g →
  wp R (submit_phase g p sig pl sim resp) (λ tr _ _, submission_run R p pl sig sim tr) w.
Proof.
  intros Hg. unfold submit_phase. apply wp_sends_bind; [auto with finax..|]. intros [] w1; cbn [negb].
  - rewrite wp_bind. eapply wp_mono; [|apply guarded_submission_wp].
    intros tr o w2 (t&q&o'&w3&w4&->&Hq&He).
    assert (∀ q', quiet q' → submission_run R p pl sig sim ((t ++ q) ++ q')) as Hrun.
    { intros q' ?. right. exists [], t, (q ++ q'), g, o', w3, w4. rewrite <-app_assoc.
      split; [done|]. split; [constructor|]. split; [by apply quiet_app|done]. }
    destruct o as [[sub|reply]|e].
    + eapply wp_mono; [|apply (wp_quiet_tail _ quiet); [|done]]; [by auto|].
      apply bind_sends; [auto with finax|]. by intros [].
    + rewrite wp_ret. apply Hrun. constructor.
    + rewrite <-(app_nil_r (t ++ q)). apply Hrun. constructor.
  - apply wp_sends; [auto with finax|]. apply bind_sends; [auto with finax|]. intros _.
    apply bind_sends; auto with finax.
Qed.

Lemma rescue_phase_wp sig pl resp w :
  wp R (rescue_phase p sig pl resp) (λ tr _ _, dry_run_first R p pl tr) w.
Proof.
  pose proof submit_phase_wp as Hphase. pose proof dep_simulate_reads as Hreads.
  unfold rescue_phase. destruct dep_simulate as [f|] eqn:Ef.
  - apply wp_sends_bind; [auto with finax| |].
    { destruct (_ && _); auto with finax. }
    intros sig' w1. rewrite wp_bind. apply exec_wp. intros t o w2 He.
    assert (quiet t) as Ht.
    { eapply sends_quiet; [|exact He]. apply reads_sends. by apply Hreads. }
    destruct o as [[sim pl']|e]; [|by left].
    assert (∀ (q : prog ProtectResponse) w, sends_nothing q →
      wp R q (λ tr _ _, dry_run_first R p pl (t ++ tr)) w) as Hsends.
    { intros q w3 Hq. apply wp_quiet_tail; [done|]. intros. left. by apply quiet_app. }
    destruct (negb _) eqn:Hs.
    + apply Hsends. repeat (apply bind_sends; [|intros]); auto with finax.
    + apply negb_false_iff in Hs. rewrite wp_bind, wp_inc. cbn [app].
      destruct dep_submit as [g|] eqn:Eg.
      * eapply wp_mono; [|apply Hphase; done]. intros tr r w3 Hr. rewrite ?app_nil_l.
        right. exists [], t, tr, f, sig', sim, pl', w1, w2. rewrite ?app_nil_l.
        split; [done|]. split; [constructor|]. done.
      * apply Hsends. apply bind_sends; auto with finax.
  - apply wp_sends; [auto with finax|]. apply bind_sends; auto with finax.
Qed.

Lemma protect_wp sig w : wp R (protect p sig) (λ tr _ _, assessed_first R p tr) w.
Proof.
  unfold protect. pose proof (closed_assessed R p) as Hc.
  apply wp_sends_bind; [done|unfold register; apply bind_sends; auto with finax|]. intros _ w1.
  apply wp_sends_bind; [done|auto with finax|]. intros br w2. destruct (negb _).
  { apply wp_sends; [done|]. repeat (apply bind_sends; [|intros]); auto with finax. }
  apply wp_sends_bind; [done|auto with finax|]. intros can w3. destruct (negb _).
  { apply wp_sends; [done|]. repeat (apply bind_sends; [|intros]); auto with finax. }
  apply wp_sends_bind; [done|auto with finax|]. intros _ w4.
  apply wp_sends_bind; [done|destruct (rp_allowed_collaterals p); auto with finax|]. intros sigma w5.
  rewrite wp_bind. apply exec_wp. intros t o w6 He.
  assert (quiet t) as Ht by (eapply sends_quiet; [|exact He]; auto with finax).
  destruct o as [[resp pl]|e]; [|by left].
  assert (∀ (q : prog ProtectResponse) w, sends_nothing q →
    wp R q (λ tr _ _, assessed_first R p (t ++ tr)) w) as Hsends.
  { intros q w7 Hq. apply wp_quiet_tail; [done|]. intros. left. by apply quiet_app. }
  rewrite wp_bind, wp_inc. cbn [app].
  assert (∀ w, wp R (_ ← set_state (rp_borrower p) DECLINED; _ ← inc C_DECLINED;
    Ret (refused (rp_borrower p) DECLINED (Some resp) (as_reason resp)))
    (λ tr _ _, assessed_first R p (t ++ tr)) w) as Hdecl.
  { intros w7. apply Hsends. repeat (apply bind_sends; [|intros]); auto with finax. }
  destruct pl as [pl|]; [|apply Hdecl]. destruct (negb _) eqn:Hv; [apply Hdecl|].
  apply negb_false_iff in Hv. eapply wp_mono; [|apply rescue_phase_wp]. intros tr r w7 Hr.
  rewrite ?app_nil_l. right. exists [], t, tr, (Some sigma), resp, pl, w5, w6.
  split; [done|]. split; [constructor|]. done.
Qed.
End run_order_proof.

(** ** Replies *)
Section replies.
Context {D : ProtectionDeps} {DL : ProtectionDepsLaws D} (R : World → World → Prop).

Lemma wp_set_state b s Q w :
  wp R (set_state b s) Q w ↔ Q [] (Ok tt) (set_states (dset (w_states w) b s) w).
Proof. done. Qed.

(** The registry operations suspend nothing: their clock readings are synchronous. *)
Lemma wp_release b (Q : list event → res unit → World → Prop) w :
  (∀ t, Q [Ev Monotonic t] (Ok tt) (set_inflight (release (w_inflight w) b t) w)) →
  wp R (inflight_release b) Q w.
Proof.
  intros HQ. unfold inflight_release. apply wp_monotonic. intros t. rewrite wp_modify. apply HQ.
Qed.

Lemma wp_can_start b (Q : list event → res bool → World → Prop) w :
  (∀ tr ok, (ok = true → b ∉ lock_set (w_inflight w)) → Q tr (Ok ok) w) →
  wp R (inflight_can_start b) Q w.
Proof.
  intros HQ. unfold inflight_can_start. rewrite wp_bind, wp_gets.
  destruct (is_locked (w_inflight w) b) eqn:El; [by rewrite wp_ret; apply HQ|].
  assert (b ∉ lock_set (w_inflight w)) by (rewrite elem_of_lock_set; congruence).
  destruct (dget _ b) as [u|]; [|by rewrite wp_ret; apply HQ].
  apply wp_monotonic. intros t. rewrite wp_ret. by apply HQ.
Qed.

Lemma wp_acquire b (Q : list event → res bool → World → Prop) w :
  (∀ tr, Q tr (Ok false) w) →
  (∀ tr t, b ∉ lock_set (w_inflight w) →
     Q tr (Ok true) (set_inflight (lock_at (w_inflight w) b t) w)) →
  wp R (inflight_acquire b) Q w.
Proof.
  intros Hf Ht. unfold inflight_acquire. rewrite wp_bind. apply wp_can_start.
  intros tr [] Hok; cbn [negb]; [|by rewrite wp_ret].
  apply wp_monotonic. intros t. rewrite wp_bind, wp_modify, wp_ret. auto.
Qed.

Definition outcome_state (o : SubmissionResult) : PositionState :=
  if sub_status o =? 1 then RESTORED else REVERTED.

Lemma submit_block_state sub b w :
  wp R (submit_block sub b)
    (λ _ o w', ∀ s, o = Ok s → dget (w_states w') b = Some (outcome_state s)) w.
Proof.
  unfold submit_block. rewrite wp_bind, wp_set_state, wp_bind, wp_inc, wp_bind. apply exec_wp.
  intros t [o|e] w' _; [|done]. unfold outcome_state. destruct (sub_status o =? 1) eqn:Eo.
  - rewrite wp_bind, wp_inc, wp_bind, wp_modify, wp_bind, wp_set_state, wp_ret.
    intros s [= <-]. rewrite Eo. cbn. apply dget_dset_eq.
  - rewrite wp_bind, wp_inc, wp_bind, wp_modify, wp_bind, wp_set_state, wp_bind, wp_gets, wp_bind.
    destruct (br_paused _); [rewrite wp_inc|]; rewrite wp_ret; try rewrite wp_ret;
      intros s [= <-]; rewrite Eo; cbn; apply dget_dset_eq.
Qed.

Lemma guarded_submission_state sub b r w :
  wp R (guarded_submission sub b r)
    (λ _ o w', match o with
               | Ok (inl s) => dget (w_states w') b = Some (outcome_state s)
               | Ok (inr rep) =>
                   dget (w_states w') b = Some REVERTED ∧ ∃ msg, rep = refused b REVERTED (Some r) msg
               | Err _ => True
               end) w.
Proof.
  unfold guarded_submission. rewrite wp_finally, wp_try_except, wp_bind.
  eapply wp_mono; [|apply submit_block_state]. intros tr [o|e] w' Ho.
  - rewrite wp_ret. apply wp_release. intros t. cbn. by apply Ho.
  - destruct (is_Exception e); [|by apply wp_release].
    rewrite wp_bind. unfold submit_failed.
    rewrite wp_bind, wp_inc, wp_bind, wp_inc, wp_bind, wp_modify, wp_bind, wp_set_state, wp_bind,
      wp_gets, wp_bind.
    destruct (br_paused _); [rewrite wp_inc|]; rewrite wp_ret; try rewrite wp_ret;
      rewrite ?wp_ret; apply wp_release; intros t; cbn; rewrite dget_dset_eq; eauto.
Qed.

(** What every reply of [protect] satisfies at the moment it is returned. *)
Definition reply_ok (b : string) (w : World) (r : ProtectResponse) : Prop :=
  resp_borrower r = b ∧ resp_state r = state_of w b ∧
  match resp_tx_hash r with
  | Some _ => (resp_submitted r = true ↔ resp_state r = RESTORED) ∧
              (resp_submitted r = false ↔ resp_state r = REVERTED)
  | None => resp_submitted r = false ∧ resp_via_fallback r = false
  end.

Lemma reply_refused b w a m : reply_ok b w (refused b (state_of w b) a m).
Proof. done. Qed.

Lemma reply_set b w s a m :
  reply_ok b (set_states (dset (w_states w) b s) w) (refused b s a m).
Proof. split; [done|]. split; [|done]. unfold state_of; cbn. by rewrite dget_dset_eq. Qed.

Lemma wp_decline b a m n w Q :
  (∀ tr w', reply_ok b w' (refused b DECLINED a m) → Q tr (Ok (refused b DECLINED a m)) w') →
  wp R (_ ← set_state b DECLINED; _ ← inc n; Ret (refused b DECLINED a m)) Q w.
Proof.
  intros HQ. rewrite wp_bind, wp_set_state, wp_bind, wp_inc, wp_ret. apply HQ.
  split; [done|]. split; [|done]. unfold state_of; cbn. by rewrite dget_dset_eq.
Qed.

Lemma wp_blocked b n (a : option AssessmentResponse) m w Q :
  (∀ tr w' r, reply_ok b w' r → Q tr (Ok r) w') →
  wp R (_ ← inc n; s ← gets (λ w, state_of w b); Ret (refused b s a m)) Q w.
Proof. intros HQ. rewrite wp_bind, wp_inc, wp_bind, wp_gets, wp_ret. by apply HQ. Qed.

Lemma submit_phase_reply g p s pl sim resp w :
  wp R (submit_phase g p s pl sim resp)
    (λ _ r w', ∀ rep, r = Ok rep → reply_ok (rp_borrower p) w' rep) w.
Proof.
  unfold submit_phase. rewrite wp_bind. apply wp_acquire; cbn [negb].
  - intros tr. apply wp_blocked. naive_solver.
  - intros tr t Hb. rewrite wp_bind. eapply wp_mono; [|apply guarded_submission_state].
    intros tr1 [[o|rep]|e] w1 Ho; [| |done].
    + rewrite wp_bind, wp_gets, Ho, wp_ret. intros rep [= <-]. unfold reply_ok, state_of; cbn.
      rewrite Ho. cbn. unfold outcome_state. split_and!; [done|done|..];
        destruct (sub_status o =? 1); done.
    + destruct Ho as (Hs & m & ->). rewrite wp_ret. intros rep [= <-].
      split_and!; try done. unfold state_of. by rewrite Hs.
Qed.

Lemma rescue_phase_reply p s pl resp w :
  wp R (rescue_phase p s pl resp)
    (λ _ r w', ∀ rep, r = Ok rep → reply_ok (rp_borrower p) w' rep) w.
Proof.
  pose proof submit_phase_reply as Hphase. unfold rescue_phase. destruct dep_simulate as [f|].
  - rewrite wp_bind. apply exec_wp. intros tr [sig|e] w1 _; [|done].
    rewrite wp_bind. apply exec_wp. intros tr1 [[sim pl']|e] w2 _; [|done].
    destruct (negb _); [apply wp_decline; naive_solver|].
    rewrite wp_bind, wp_inc. destruct dep_submit as [g|]; [apply Hphase|].
    rewrite wp_bind, wp_set_state, wp_ret. intros rep [= <-]. apply reply_set.
  - rewrite wp_bind, wp_set_state, wp_ret. intros rep [= <-]. apply reply_set.
Qed.

Lemma protect_reply p s w :
  wp R (protect p s) (λ _ r w', ∀ rep, r = Ok rep → reply_ok (rp_borrower p) w' rep) w.
Proof.
  unfold protect. rewrite wp_bind. apply exec_wp. intros tr [[]|e] w1 _; [|done].
  rewrite wp_bind, wp_gets. destruct (negb _); [apply wp_blocked; naive_solver|].
  rewrite wp_bind. apply wp_can_start. intros tr1 [] _; cbn [negb];
    [|apply wp_blocked; naive_solver].
  rewrite wp_bind, wp_set_state, wp_bind. apply exec_wp. intros tr2 [sigma|e] w2 _; [|done].
  rewrite wp_bind. apply exec_wp. intros tr3 [[resp [pl|]]|e] w3 _; [| |done];
    rewrite wp_bind, wp_inc; [|apply wp_decline; naive_solver].
  destruct (negb _); [apply wp_decline; naive_solver|]. apply rescue_phase_reply.
Qed.
End replies.

(** ** The worker's pass *)
Section tick.
Context {D : ProtectionDeps} (R : World → World → Prop).

(** The trace contains a poll of this borrower. *)
Definition polled (tr : list event) (b : string) (trigger : Z) : Prop :=
  ∃ tr0 tr1 tr2 o w1 w2, tr = tr0 ++ tr1 ++ tr2 ∧ exec R (dep_poll_once b trigger) w1 tr1 o w2.

Lemma polled_app tr tr' b t : polled tr b t ∨ polled tr' b t → polled (tr ++ tr') b t.
Proof.
  intros [(t0&t1&t2&o&w1&w2&->&?)|(t0&t1&t2&o&w1&w2&->&?)].
  - exists t0, t1, (t2 ++ tr'), o, w1, w2. by rewrite <-!app_assoc.
  - exists (tr ++ t0), t1, t2, o, w1, w2. by rewrite <-!app_assoc.
Qed.

Lemma tick_one_wp b p s w :
  wp R (tick_one b p s)
    (λ tr r _, polled tr b (rp_hf_trigger_bps p) ∧ ∀ e, r = Err e → is_Exception e = false) w.
Proof.
  unfold tick_one. rewrite wp_try_except, wp_bind. eapply wp_mono; [|apply wp_self].
  intros t0 o w1 He.
  assert (∀ tr, polled (t0 ++ tr) b (rp_hf_trigger_bps p)) as Hp.
  { intros tr. exists [], t0, tr, o, w, w1. done. }
  assert (∀ (r : res unit) tr w, match r with
    | Ok a => polled (t0 ++ tr) b (rp_hf_trigger_bps p) ∧ ∀ e, Ok a = Err e → is_Exception e = false
    | Err e => if is_Exception e then wp R (inc ERRORS) (λ tr' r _,
         polled ((t0 ++ tr) ++ tr') b (rp_hf_trigger_bps p) ∧ ∀ e, r = Err e → is_Exception e = false) w
         else polled (t0 ++ tr) b (rp_hf_trigger_bps p) ∧ ∀ e', Err (A := unit) e = Err e' → is_Exception e' = false
    end) as Hend.
  { intros [a|e] tr w2; [by split|]. destruct (is_Exception e) eqn:Ex.
    - rewrite wp_inc, app_nil_r. by split.
    - split; [done|]. congruence. }
  destruct o as [snap|e].
  - apply exec_wp. intros tr r w2 _. by apply Hend.
  - specialize (Hend (Err e) [] w1). rewrite app_nil_r in Hend. exact Hend.
Qed.

Lemma tick_all_wp entries w :
  wp R (tick_all entries)
    (λ tr r _, match r with
               | Ok _ => ∀ b p s, (b, (p, s)) ∈ entries → polled tr b (rp_hf_trigger_bps p)
               | Err e => is_Exception e = false
               end) w.
Proof.
  revert w. induction entries as [|[b [p s]] rest IH]; intros w; cbn [tick_all].
  - rewrite wp_ret. by intros b p s ?%not_elem_of_nil.
  - rewrite wp_bind. eapply wp_mono; [|apply tick_one_wp]. intros tr [u|e] w1 [Hp He]; [|by apply He].
    eapply wp_mono; [|apply IH]. intros tr' [u'|e] w2 Hr; [|done].
    intros b' p' s' [Heq|Hin]%elem_of_cons; apply polled_app; [left; congruence|right].
    by eapply Hr.
Qed.
End tick.

(** ** Claims *)

(** What a reply of [protect] says is what the service recorded, whatever happened during
    the run: it is for the mandate's borrower and carries the state in the map at that moment;
    a reply with a transaction hash says submitted exactly when the state is RESTORED and not
    submitted exactly when it is REVERTED; without a hash nothing was submitted. *)
Theorem protect_replies {D : ProtectionDeps} (R : World → World → Prop) p s w tr rep w' :
  exec R (protect p s) w tr (Ok rep) w' → reply_ok (rp_borrower p) w' rep.
Proof. intros He. by apply (wp_exec R _ _ w (protect_reply R p s w) _ _ _ He). Qed.

(** The two gates of [protect] refuse before any request. *)
Lemma protect_gated {D : ProtectionDeps} (R : World → World → Prop) p s w tr r w' :
  let b := rp_borrower p in
  br_paused (w_breaker w) = true ∨ is_locked (w_inflight w) b = true →
  exec R (protect p s) w tr r w' →
  tr = [] ∧
  (∃ rep, r = Ok rep ∧ resp_submitted rep = false ∧ resp_tx_hash rep = None ∧
          resp_state rep = state_of w b) ∧
  w_breaker w' = w_breaker w ∧ w_inflight w' = w_inflight w ∧
  params_of w' b = Some (p, s) ∧
  w_counters w' = counter_inc (w_counters w)
    (if br_paused (w_breaker w) then BREAKER_BLOCKED else DOUBLE_SUBMIT_BLOCKED) 1.
Proof.
  intros b Hgate. set (Q := λ (tr : list event) (r : res ProtectResponse) (w' : World),
    tr = [] ∧
    (∃ rep, r = Ok rep ∧ resp_submitted rep = false ∧ resp_tx_hash rep = None ∧
            resp_state rep = state_of w b) ∧
    w_breaker w' = w_breaker w ∧ w_inflight w' = w_inflight w ∧
    params_of w' b = Some (p, s) ∧
    w_counters w' = counter_inc (w_counters w)
      (if br_paused (w_breaker w) then BREAKER_BLOCKED else DOUBLE_SUBMIT_BLOCKED) 1).
  apply (wp_exec R (protect p s) Q). unfold protect, register. fold b.
  assert (∀ v, state_of (set_states (dsetdefault (w_states w) b HEALTHY) v) b = state_of w b) as Hst.
  { intros v. unfold state_of; cbn. rewrite dget_dsetdefault, decide_True by done. done. }
  rewrite wp_bind, wp_bind, wp_modify, wp_modify, wp_bind, wp_gets.
  unfold allow. rewrite negb_involutive. cbn [w_breaker set_states set_registry].
  destruct (br_paused (w_breaker w)) eqn:Hp.
  - rewrite wp_bind, wp_inc, wp_bind, wp_gets, wp_ret. unfold Q; rewrite ?Hp.
    split; [done|]. split.
    + eexists; split; [done|]. split; [done|]. split; [done|]. cbn. by apply (Hst w).
    + split_and!; [done|done| |done]. unfold params_of; cbn. apply dget_dset_eq.
  - destruct Hgate as [|Hl]; [done|].
    rewrite wp_bind. unfold inflight_can_start. rewrite wp_bind, wp_gets.
    cbn [w_inflight set_states set_registry]. fold b in Hl. rewrite Hl, wp_ret. cbn [negb].
    rewrite wp_bind, wp_inc, wp_bind, wp_gets, wp_ret. unfold Q; rewrite ?Hp.
    split; [done|]. split.
    + eexists; split; [done|]. split; [done|]. split; [done|]. cbn. by apply (Hst w).
    + split_and!; [done|done| |done]. unfold params_of; cbn. apply dget_dset_eq.
Qed.

(** C7: The two gates of [protect] (FR-16, FR-17): while the breaker is paused, or a rescue is
    in flight for the borrower, a call asks nothing of the outside world, changes neither the
    breaker nor the lock registry, only stores the mandate and counts the refusal, and
    replies that nothing was submitted. *)
Theorem protect_gates {D : ProtectionDeps} (R : World → World → Prop) p s w tr r w' :
  let b := rp_borrower p in
  br_paused (w_breaker w) = true ∨ is_locked (w_inflight w) b = true →
  exec R (protect p s) w tr r w' →
  tr = [] ∧
  (∃ rep, r = Ok rep ∧ resp_submitted rep = false ∧ resp_tx_hash rep = None ∧
          resp_state rep = state_of w b) ∧
  w_breaker w' = w_breaker w ∧ w_inflight w' = w_inflight w ∧
  params_of w' b = Some (p, s) ∧
  w_counters w' = counter_inc (w_counters w)
    (if br_paused (w_breaker w) then BREAKER_BLOCKED else DOUBLE_SUBMIT_BLOCKED) 1.
Proof. apply protect_gated. Qed.

(** C17: The worker's pass is robust (FR-1): whatever goes wrong for a borrower, [tick] raises
    nothing but a cancellation, and a pass that completes has polled every borrower that was
    registered when it started; a disabled worker does nothing at all. *)
Theorem tick_robust {D : ProtectionDeps} (R : World → World → Prop) w tr r w' :
  exec R tick w tr r w' →
  (w_autonomous w = false → tr = [] ∧ r = Ok tt ∧ w' = w) ∧
  (w_autonomous w = true →
   match r with
   | Ok _ => ∀ b p s, (b, (p, s)) ∈ w_registry w → polled R tr b (rp_hf_trigger_bps p)
   | Err e => is_Exception e = false
   end).
Proof.
  set (Q := λ (tr : list event) (r : res unit) (w' : World),
    (w_autonomous w = false → tr = [] ∧ r = Ok tt ∧ w' = w) ∧
    (w_autonomous w = true →
     match r with
     | Ok _ => ∀ b p s, (b, (p, s)) ∈ w_registry w → polled R tr b (rp_hf_trigger_bps p)
     | Err e => is_Exception e = false
     end)).
  apply (wp_exec R tick Q). unfold tick. rewrite wp_bind, wp_gets.
  destruct (w_autonomous w) eqn:Ha; cbn [negb].
  - rewrite wp_bind, wp_gets. eapply wp_mono; [|apply tick_all_wp].
    intros tr1 r1 w1 Hr. unfold Q; rewrite ?Ha; by split.
  - rewrite wp_ret. unfold Q; rewrite ?Ha; by split.
Qed.
