(* ===== verification/Accounting.v ===== *)
(** * The books of the protection service (NFR-5, FR-17)

    The counters and the breaker change together: one run, one submission at most, and the
    submission is entered exactly once as restored or reverted. *)
From S2P Require Import Prelude PyFloat Config State InFlight Breaker Observability Models.
From S2P Require Import Risk Events Io Logic World Api Monitor Pipeline Simulator Service.

Definition tally (w : World) : Z * Z * Z * CircuitBreaker :=
  (counter_get (w_counters w) C_SUBMITTED, counter_get (w_counters w) C_RESTORED,
   counter_get (w_counters w) C_REVERTED, w_breaker w).

Definition same_tally (w w' : World) : Prop := tally w' = tally w.

#[global] Instance same_tally_preorder : PreOrder same_tally.
Proof. split; unfold same_tally; [done|]. intros ??? H1 H2. congruence. Qed.

(** One restored, or one failed, submission entered in the books. *)
Definition restored_once (w w' : World) : Prop :=
  let '(s, a, f, b) := tally w in tally w' = (s + 1, a + 1, f, record_success b).

Definition reverted_once (w w' : World) : Prop :=
  let '(s, a, f, b) := tally w in tally w' = (s + 1, a, f + 1, record_failure b).

Definition accounted (w w' : World) (rep : ProtectResponse) : Prop :=
  (same_tally w w' ∧ resp_submitted rep = false) ∨
  (restored_once w w' ∧ resp_submitted rep = true) ∨
  (reverted_once w w' ∧ resp_submitted rep = false).

Lemma tally_inc w n :
  tally (set_counters (counter_inc (w_counters w) n 1) w) =
    let '(s, a, f, b) := tally w in
    (s + (if decide (C_SUBMITTED = n) then 1 else 0),
     a + (if decide (C_RESTORED = n) then 1 else 0),
     f + (if decide (C_REVERTED = n) then 1 else 0), b).
Proof. unfold tally. cbn [w_counters w_breaker set_counters]. by rewrite !counter_get_inc. Qed.

Lemma tally_set_state w b s : tally (set_states (dset (w_states w) b s) w) = tally w.
Proof. done. Qed.

Lemma tally_set_inflight w i : tally (set_inflight i w) = tally w.
Proof. done. Qed.

Lemma tally_success w :
  tally (set_breaker (record_success (w_breaker w)) w) =
    let '(s, a, f, b) := tally w in (s, a, f, record_success b).
Proof. done. Qed.

Lemma tally_failure w :
  tally (set_breaker (record_failure (w_breaker w)) w) =
    let '(s, a, f, b) := tally w in (s, a, f, record_failure b).
Proof. done. Qed.

(** Entering one result, after the submission itself was counted. *)
Ltac enter_result He :=
  repeat first
    [ rewrite tally_set_inflight | rewrite tally_set_state | rewrite tally_success
    | rewrite tally_failure | rewrite tally_inc ];
  rewrite He; match goal with |- context [tally ?w] => destruct (tally w) as [[[? ?] ?] ?] end;
  rewrite ?decide_False by done; rewrite ?decide_True by done; rewrite ?Z.add_0_r; done.

Section accounting.
Context {D : ProtectionDeps} {DL : ProtectionDepsLaws D}.

(** Programs that leave the books alone. *)
Definition off_books {A} (q : prog A) : Prop := ∀ w, guar same_tally (λ _, True) q w.

Lemma reads_off {A} (q : prog A) : reads q → off_books q.
Proof.
  intros Hq w. eapply guar_mono; [|done|apply Hq]. intros w1 w2 Hs.
  unfold same_service, service_view in Hs. simplify_eq. unfold same_tally, tally. congruence.
Qed.

Lemma modify_off f : (∀ w, same_tally w (f w)) → off_books (modify f).
Proof. intros Hf w. by apply guar_modify. Qed.

Lemma set_state_off b s : off_books (set_state b s).
Proof. by apply modify_off. Qed.

Lemma inc_off n :
  n ≠ C_SUBMITTED → n ≠ C_RESTORED → n ≠ C_REVERTED → off_books (inc n).
Proof.
  intros ???. apply modify_off. intros w. unfold same_tally. rewrite tally_inc.
  destruct (tally w) as [[[s a] f] b]. rewrite !decide_False by done. by rewrite !Z.add_0_r.
Qed.

Lemma bind_off {A B} (q : prog A) (f : A → prog B) :
  off_books q → (∀ a, off_books (f a)) → off_books (a ← q; f a).
Proof. intros Hq Hf w. apply guar_bind; [apply Hq|]. intros. apply Hf. Qed.

Lemma ret_off {A} (a : A) : off_books (Ret a).
Proof. by intros w. Qed.

Lemma gets_off {A} (f : World → A) : off_books (gets f).
Proof. by intros w. Qed.

Lemma can_start_off b : off_books (inflight_can_start b).
Proof. apply reads_off. unfold inflight_can_start. reads_auto. Qed.

Lemma off_exec {A} (q : prog A) w tr r w' : off_books q → seq_exec q w tr r w' → same_tally w w'.
Proof.
  intros Hq He. apply (guar_exec same_tally (λ _, True) q w tr r w'); [|apply Hq].
  eapply exec_rely_mono; [|exact He]. by intros ?? ->.
Qed.

(** The running claim: if it returns a reply, the books changed accordingly. *)
Definition books (w : World) (q : prog ProtectResponse) (w1 : World) : Prop :=
  seq_wp q (λ _ r w', ∀ rep, r = Ok rep → accounted w w' rep) w1.

Lemma books_bind {A} w w1 (q : prog A) f :
  same_tally w w1 → off_books q → (∀ a w2, same_tally w w2 → books w (f a) w2) →
  books w (a ← q; f a) w1.
Proof.
  intros Hw Hq Hf. unfold books. rewrite wp_bind. apply exec_wp. intros tr [a|e] w2 He; [|done].
  apply (Hf a w2). transitivity w1; [done|]. by eapply off_exec.
Qed.

Lemma books_ret w w1 rep : same_tally w w1 → resp_submitted rep = false → books w (Ret rep) w1.
Proof. intros ??. unfold books. rewrite wp_ret. intros ? [= <-]. by left. Qed.

Lemma guarded_submission_books sub b r w :
  off_books sub →
  seq_wp (guarded_submission sub b r)
    (λ _ o w', match o with
               | Ok (inl s) => if sub_status s =? 1 then restored_once w w' else reverted_once w w'
               | Ok (inr rep) => reverted_once w w' ∧ resp_submitted rep = false
               | Err _ => True
               end) w.
Proof.
  intros Hsub. unfold guarded_submission. rewrite wp_finally, wp_try_except, wp_bind.
  unfold submit_block. rewrite wp_bind, wp_set_state, wp_bind, wp_inc, wp_bind.
  set (w0 := set_counters _ _).
  assert (tally w0 = let '(s, a, f, br) := tally w in (s + 1, a, f, br)) as H0.
  { unfold w0. rewrite tally_inc, tally_set_state. destruct (tally w) as [[[s a] f] br].
    by rewrite !decide_True, !decide_False, !Z.add_0_r by done. }
  apply exec_wp. intros t [o|e] w1 He; apply off_exec in He; try done;
    unfold same_tally in He; rewrite H0 in He.
  - destruct (sub_status o =? 1) eqn:Eo.
    + rewrite wp_bind, wp_inc, wp_bind, wp_modify, wp_bind, wp_set_state, wp_ret, wp_ret.
      apply wp_release. intros tm. rewrite Eo. unfold restored_once. enter_result He.
    + rewrite wp_bind, wp_inc, wp_bind, wp_modify, wp_bind, wp_set_state, wp_bind, wp_gets, wp_bind.
      destruct (br_paused _); [rewrite wp_inc|]; rewrite wp_ret, wp_ret; [|rewrite wp_ret];
        apply wp_release; intros tm; rewrite Eo; unfold reverted_once; enter_result He.
  - destruct (is_Exception e); [|by apply wp_release].
    rewrite wp_bind. unfold submit_failed.
    rewrite wp_bind, wp_inc, wp_bind, wp_inc, wp_bind, wp_modify, wp_bind, wp_set_state, wp_bind,
      wp_gets, wp_bind.
    destruct (br_paused _); [rewrite wp_inc|]; rewrite wp_ret, wp_ret; [|rewrite wp_ret];
      apply wp_release; intros tm; (split; [|done]); unfold reverted_once; enter_result He.
Qed.

Lemma acquire_off b : off_books (inflight_acquire b).
Proof.
  apply bind_off; [apply can_start_off|]. intros []; cbn [negb]; [|apply ret_off].
  apply bind_off; [by apply reads_off, reads_await|]. intros t.
  apply bind_off; [by apply modify_off|intros; apply ret_off].
Qed.

Lemma inc_off_names n :
  n = ASSESSED ∨ n = C_DECLINED ∨ n = SIMULATED_OK ∨ n = SIMULATED_FAIL ∨
  n = DOUBLE_SUBMIT_BLOCKED ∨ n = BREAKER_BLOCKED → off_books (inc n).
Proof. intros Hn. apply inc_off; destruct_or!; by subst. Qed.

(** A refusal is not a submission. *)
Lemma refusal_books w w1 (q : prog unit) (s : prog PositionState) b a m :
  same_tally w w1 → off_books q → off_books s →
  books w (_ ← q; st ← s; Ret (refused b st a m)) w1.
Proof.
  intros Hw Hq Hs. apply books_bind; [done..|]. intros _ w2 Hw2.
  apply books_bind; [done..|]. intros st w3 Hw3. by apply books_ret.
Qed.

Lemma decline_books w w1 b a m n :
  same_tally w w1 → off_books (inc n) →
  books w (_ ← set_state b DECLINED; _ ← inc n; Ret (refused b DECLINED a m)) w1.
Proof.
  intros Hw Hn. apply books_bind; [done|apply set_state_off|]. intros _ w2 Hw2.
  apply books_bind; [done..|]. intros _ w3 Hw3. by apply books_ret.
Qed.

Lemma ready_books w w1 b a m :
  same_tally w w1 → books w (_ ← set_state b READY; Ret (refused b READY a m)) w1.
Proof.
  intros Hw. apply books_bind; [done|apply set_state_off|]. intros _ w2 Hw2. by apply books_ret.
Qed.

Lemma tally_transfer w w1 w' :
  same_tally w w1 →
  (restored_once w1 w' → restored_once w w') ∧ (reverted_once w1 w' → reverted_once w w').
Proof. unfold same_tally, restored_once, reverted_once. by intros ->. Qed.

Lemma submit_phase_books g p s pl sim resp w w1 :
  dep_submit = Some g → same_tally w w1 → books w (submit_phase g p s pl sim resp) w1.
Proof.
  intros Hg Hw. unfold submit_phase. apply books_bind; [done|apply acquire_off|].
  intros [] w2 Hw2; cbn [negb].
  - unfold books. rewrite wp_bind. eapply wp_mono; [|apply guarded_submission_books].
    2:{ intros w3. eapply guar_mono; [|done|by apply dep_submit_same].
        intros u v Hs. unfold same_service, service_view in Hs. simplify_eq.
        unfold same_tally, tally. congruence. }
    intros tr [[o|rep]|e] w3 Ho; [| |done].
    + rewrite wp_bind, wp_gets. destruct (dget _ _); [|done]. rewrite wp_ret.
      intros ? [= <-]. right. destruct (tally_transfer w w2 w3 Hw2).
      cbn [resp_submitted submitted_reply].
      destruct (sub_status o =? 1); [left|right]; auto.
    + rewrite wp_ret. intros ? [= <-]. right; right. destruct Ho.
      destruct (tally_transfer w w2 w3 Hw2). auto.
  - apply refusal_books; [done|by apply inc_off_names; auto 7|apply gets_off].
Qed.

Lemma rescue_phase_books p s pl resp w w1 :
  same_tally w w1 → books w (rescue_phase p s pl resp) w1.
Proof.
  pose proof submit_phase_books as Hphase. pose proof dep_simulate_reads as Hsim.
  intros Hw. unfold rescue_phase. destruct dep_simulate as [f|]; [|by apply ready_books].
  apply books_bind; [done| |].
  { destruct (_ && _); [apply reads_off, dep_demo_signature_reads|apply ret_off]. }
  intros sig w2 Hw2. apply books_bind; [done|by apply reads_off, Hsim|].
  intros [sim pl'] w3 Hw3. destruct (negb _).
  - apply decline_books; [done|apply inc_off_names; auto 7].
  - apply books_bind; [done|apply inc_off_names; auto 7|]. intros _ w4 Hw4.
    destruct dep_submit as [g|]; [by apply Hphase|by apply ready_books].
Qed.

Lemma protect_books p s w : books w (protect p s) w.
Proof.
  unfold protect. apply books_bind; [done|apply bind_off; [|intros _]; by apply modify_off|].
  intros _ w1 Hw1. apply books_bind; [done|apply gets_off|]. intros br w2 Hw2.
  destruct (negb _); [apply refusal_books; [done|apply inc_off_names; auto 7|apply gets_off]|].
  apply books_bind; [done|apply can_start_off|]. intros can w3 Hw3.
  destruct (negb _); [apply refusal_books; [done|apply inc_off_names; auto 7|apply gets_off]|].
  apply books_bind; [done|apply set_state_off|]. intros _ w4 Hw4.
  apply books_bind; [done| |].
  { destruct (rp_allowed_collaterals p); [apply ret_off|apply reads_off, dep_sigma_for_reads]. }
  intros sigma w5 Hw5. apply books_bind; [done|apply reads_off, dep_evaluate_reads|].
  intros [resp pl] w6 Hw6. apply books_bind; [done|apply inc_off_names; auto 7|]. intros _ w7 Hw7.
  destruct pl as [pl|]; [|apply decline_books; [done|apply inc_off_names; auto 7]].
  destruct (negb _); [apply decline_books; [done|apply inc_off_names; auto 7]|].
  by apply rescue_phase_books.
Qed.
End accounting.

(** ** Claims *)

