(* ===== verification/Deps.v ===== *)
(** * deps.py and scheduler.py: the composition root, the live configuration, the worker

    [real_deps] is the implementation of the service's interface by the real pipeline, monitor,
    simulator and submitter; [real_deps_laws] discharges the interface's laws. *)
From S2P Require Import Prelude PyFloat Config State InFlight Breaker Observability Models.
From S2P Require Import Risk Events Io Logic World Api Chain Monitor Selector Pipeline.
From S2P Require Import Simulator Submitter Service Accounting.

(** [eth_account] derives EIP-55 addresses. *)
Class EthAccountLaws (U : EthUtils) (E : EthAccount) := {
  account_address_checksum k : to_checksum_address (account_address k) = Ok (account_address k);
}.

Section deps.
Context `{EthUtils} `{EthAccount} `{Libm} (cfg : Settings).

Definition raw_vault : string := vault_address cfg.
Definition keeper_key : string := keeper_private_key cfg.

(** [if settings.vault_address and settings.keeper_private_key] *)
Definition wired : bool := negb (String.eqb raw_vault "") && negb (String.eqb keeper_key "").

(** The addresses the constructors of [Simulator] and [Submitter] checksum. *)
Definition vault_checksum : string := checked raw_vault.
Definition keeper_checksum : string := checked (keeper_address keeper_key).

(** [ProtectionService._resolve_demo_signature]; the ten accounts of the test mnemonic. *)
Definition find_demo (borrower : string) : option (string * string) :=
  head (filter (λ a, str_lower a.1 = str_lower borrower) (demo_account <$> seq 0 10)).

Definition resolve_demo_signature (borrower : string) (params : RiskParams) (raw_signature : string)
  : prog string :=
  try_except
    match find_demo borrower with
    | None => Ret raw_signature
    | Some (_, key) =>
        if String.eqb raw_vault "" || negb wired then Ret raw_signature
        else
          digest ← client_call cfg (λ ep,
            v ← lift (to_checksum_address raw_vault);
            rpc_ ep (HashRiskParams v (to_solidity_tuple params)));
          Ret ("0x" +:+ removeprefix "0x" (unsafe_sign_hash digest key))
    end
    (λ _, Ret raw_signature).

(** The objects [build_container] wires, behind the service's interface. *)
Definition real_deps : ProtectionDeps :=
  let api := chain_api cfg in
  {| dep_evaluate := λ p s, evaluate raw_vault p s DEFAULT_GAS_COST_BASE;
     dep_assess := λ p s, assess raw_vault p s DEFAULT_GAS_COST_BASE;
     dep_poll_once := λ b t, poll_once b t;
     dep_sample_price := λ a, sample_price service_monitor a;
     dep_sigma_for := λ a, sigma_for service_monitor a;
     dep_simulate := if wired then Some (simulate cfg vault_checksum keeper_checksum) else None;
     dep_submit := if wired then Some (submit cfg vault_checksum keeper_key) else None;
     dep_demo_mode := demo_mode cfg;
     dep_demo_signature := resolve_demo_signature |}.

(** [build_container]: the initial state of the process, or the exception of a constructor. *)
Definition build_container : res World :=
  if bool_decide (Client.urls cfg = []) then
    Err (Exn ChainClientError "No RPC URL configured (set ARBITRUM_RPC_URL).")
  else
    breaker ← breaker_init (breaker_max_consecutive_failures cfg);
    _ ← (if wired then
           _ ← to_checksum_address raw_vault; _ ← from_key keeper_key;
           _ ← to_checksum_address (keeper_address keeper_key); Ok tt
         else Ok tt);
    config ← KeeperConfig_validate
      {| kc_poll_interval_seconds := poll_interval_seconds cfg;
         kc_breaker_max_consecutive_failures := breaker_max_consecutive_failures cfg;
         kc_inflight_cooldown_seconds := inflight_cooldown_seconds cfg;
         kc_max_simulation_bumps := max_simulation_bumps cfg;
         kc_autonomous_enabled := autonomous_enabled_setting cfg |};
    Ok {| w_chain := {| cl_active := 0; cl_pool_address := None; cl_oracle_address := None;
                        cl_decimals := TOKEN_DECIMALS |};
          w_vols := []; w_pvols := []; w_inflight := inflight_init (flit (inflight_cooldown_seconds cfg));
          w_breaker := breaker; w_counters := []; w_registry := []; w_states := [];
          w_autonomous := autonomous_enabled_setting cfg;
          w_max_bumps := max_simulation_bumps cfg; w_config := config |}.

(** [apply_config]; the request body was validated by [KeeperConfig]. *)
Definition apply_config (new : KeeperConfig) : prog KeeperConfig :=
  _ ← modify (set_autonomous (kc_autonomous_enabled new));
  br ← gets w_breaker;
  br ← lift (set_max_consecutive_failures br (kc_breaker_max_consecutive_failures new));
  _ ← modify (set_breaker br);
  _ ← modify (λ w, set_inflight
        (set_cooldown_seconds (w_inflight w) (flit (kc_inflight_cooldown_seconds new))) w);
  _ ← (if wired then modify (set_max_bumps (kc_max_simulation_bumps new)) else Ret tt);
  _ ← modify (set_config new);
  gets w_config.

Definition put_config (new : KeeperConfig) : prog KeeperConfig :=
  new ← lift (KeeperConfig_validate new); apply_config new.
End deps.

(** [Worker._run], for a given number of rounds: a tick whose exceptions are logged, then the
    interval; [stop] sets the event and cancels the task, which ends the wait. *)
Fixpoint worker_rounds `{ProtectionDeps} (interval : f64) (n : nat) : prog unit :=
  match n with
  | O => Ret tt
  | S n =>
      _ ← try_except tick (λ _, Ret tt);
      _ ← await (Sleep interval);
      worker_rounds interval n
  end.

(** ** The interface's laws, for the real components *)
Section deps_laws.
Context {U : EthUtils} {UL : EthUtilsLaws U} {E : EthAccount} {L : Libm} (cfg : Settings).

Lemma resolve_demo_signature_reads b p s : reads (resolve_demo_signature cfg b p s).
Proof.
  unfold resolve_demo_signature. repeat first [apply client_call_reads | reads_step].
Qed.

Lemma real_simulate_inv f :
  @dep_simulate (real_deps cfg) = Some f →
  wired cfg = true ∧
  f = simulate (H0 := chain_api cfg) cfg (vault_checksum cfg) (keeper_checksum cfg).
Proof. cbn. destruct (wired cfg); naive_solver. Qed.

Lemma real_submit_inv f :
  @dep_submit (real_deps cfg) = Some f →
  wired cfg = true ∧
  f = submit (H1 := chain_api cfg) cfg (vault_checksum cfg) (keeper_key cfg).
Proof. cbn. destruct (wired cfg); naive_solver. Qed.

(** The validators guarantee a checksummed borrower. *)
Definition valid_mandate (p : RiskParams) : Prop :=
  to_checksum_address (rp_borrower p) = Ok (rp_borrower p).

Lemma protection_call_borrower v pl p s r m f a :
  protection_call v pl p s r m f = Ok a → ea_borrower a = rp_borrower p.
Proof.
  unfold protection_call. by intros (d & _ & (c & _ & [= <-])%res_bind_ok)%res_bind_ok.
Qed.

Lemma submission_only_for v k pl p s r m q :
  valid_mandate p → pl_borrower pl = rp_borrower p →
  submission_req v k pl p s r m q → only_for (rp_borrower p) q.
Proof.
  unfold valid_mandate, only_for. intros Hv Hpl Hq b Hb.
  destruct q as [ep []| | | | | | | |]; cbn in *; simplify_eq; try done.
  - destruct Hq as (sig & _ & Ha). by eapply protection_call_borrower.
  - destruct Hq as (sig & _ & Ha). by eapply protection_call_borrower.
  - destruct Hq as (_ & _ & Hc). congruence.
  - destruct Hq as (_ & _ & Hc & _). congruence.
Qed.

#[global] Instance real_deps_laws : ProtectionDepsLaws (real_deps cfg).
Proof.
  refine {| dep_valid := valid_mandate |}.
  - intros p s. exact (evaluate_reads _ p s _).
  - intros p s. eapply returns_mono; [exact (evaluate_returns _ p s _)|].
    intros [r [pl|]] Hout pl' Hpl'; cbn [fst snd] in *; [|done].
    destruct Hout as (Hv & _ & _ & _ & [Hb _] & _). by simplify_eq.
  - intros p s. exact (reads_bind _ _ (evaluate_reads _ p s _) (λ a, reads_ret _)).
  - intros b t. exact (poll_once_reads b t).
  - intros a. exact (sample_price_reads service_monitor a).
  - intros a. exact (sigma_for_reads service_monitor a).
  - intros b p s. exact (resolve_demo_signature_reads b p s).
  - intros f pl p s [_ ->]%real_simulate_inv. exact (simulate_reads _ _ _ pl p s).
  - intros f pl p s [_ ->]%real_simulate_inv.
    eapply returns_mono; [exact (simulate_returns _ _ _ pl p s)|]. by intros out [? _].
  - intros f pl p s r m w [_ ->]%real_submit_inv Hv Hpl.
    eapply guar_mono; [done| |exact (submit_guar _ _ _ pl p s r m w)].
    intros q. by apply submission_only_for.
  - intros f pl p s r m w [_ ->]%real_submit_inv.
    eapply guar_mono; [done| |exact (submit_guar _ _ _ pl p s r m w)]. done.
  - intros f pl p s r m [_ ->]%real_submit_inv.
    eapply returns_mono; [exact (submit_returns _ _ _ pl p s r m)|]. by intros o [? _].
Defined.
End deps_laws.

(** ** Nothing is sent that was not dry-run *)

(** The transaction the request puts on the chain is the dry-run call [a], or the fallback's
    approval and repayment of the same debt and amount for the same borrower. *)
Definition carries_out (a : exec_args) (q : req) : Prop :=
  match q with
  | Rpc _ (SendRawTransaction a' _) => a' = a
  | Rpc _ (ApproveTransact token _ _ from) => token = ea_debt_asset a ∧ from = ea_borrower a
  | Rpc _ (RepayTransact _ asset amount _ b from) =>
      asset = ea_debt_asset a ∧ amount = ea_repay_amount a ∧ b = ea_borrower a ∧ from = b
  | _ => False
  end.

(** The call stays within what the borrower signed. *)
Definition within_mandate `{EthUtils} (vault : string) (p : RiskParams) (a : exec_args) : Prop :=
  ea_vault a = vault ∧ ea_params a = to_solidity_tuple p ∧ ea_borrower a = rp_borrower p ∧
  rp_hf_target_base_bps p ≤ ea_hf_target_bps a ≤ rp_hf_target_max_bps p ∧
  (∃ c, c ∈ rp_allowed_collaterals p ∧ to_checksum_address c = Ok (ea_collateral_asset a)) ∧
  to_checksum_address USDC = Ok (ea_debt_asset a).

Section dry_run.
Context {U : EthUtils} {UL : EthUtilsLaws U} {E : EthAccount} {EL : EthAccountLaws U E} {L : Libm}.
Context (cfg : Settings) (R : World → World → Prop) (p : RiskParams).

Lemma quiet_no_broadcast tr ev : quiet tr → ev ∈ tr → broadcasts (ev_req ev) = true → False.
Proof.
  unfold quiet. rewrite Forall_forall. intros Hq Hin Hb.
  specialize (Hq ev Hin). apply is_read_broadcasts in Hq. congruence.
Qed.

Lemma protection_call_route v pl pl' sig r m k :
  same_route pl pl' → protection_call v pl' p sig r m k = protection_call v pl p sig r m k.
Proof. intros (_&H1&H2&H3&H4&_). unfold protection_call. by rewrite H1, H2, H3, H4. Qed.

Lemma protection_call_within v pl sig r m k a :
  plan_within_mandate p pl → protection_call v pl p sig r m k = Ok a → within_mandate v p a.
Proof.
  intros (Hb&Hd&Ht&Hc&_) Ha. pose proof (protection_call_borrower _ _ _ _ _ _ _ _ Ha).
  unfold protection_call in Ha. rewrite Hd in Ha.
  apply res_bind_ok in Ha as (d & Hd' & (c & Hc' & [= <-])%res_bind_ok).
  split_and!; try done; cbn; [lia|lia|by exists (pl_collateral_asset pl)].
Qed.

Lemma submission_carries v pl s r m sig a q :
  valid_mandate p → pl_borrower pl = rp_borrower p →
  fromhex (removeprefix "0x" s) = Ok sig →
  protection_call v pl p sig r m (keeper_address (keeper_key cfg)) = Ok a →
  submission_req v (keeper_address (keeper_key cfg)) pl p s r m q →
  broadcasts q = true → carries_out a q.
Proof.
  intros Hv Hpl Hsig Ha Hq Hb. pose proof (protection_call_borrower _ _ _ _ _ _ _ _ Ha) as Hbo.
  assert (to_checksum_address (pl_debt_asset pl) = Ok (ea_debt_asset a) ∧ ea_repay_amount a = r)
    as [Hd Hr].
  { unfold protection_call in Ha. apply res_bind_ok in Ha as (d & Hd' & (c & Hc' & [= <-])%res_bind_ok).
    done. }
  unfold valid_mandate in Hv.
  destruct q as [ep []| | | | | | | |]; cbn in Hq, Hb |- *; try done; rewrite ?Hpl, ?Hv, ?Hd in Hq.
  - destruct Hq as (sig' & Hsig' & Ha'). congruence.
  - destruct Hq as (Ht & _ & Hf). split; congruence.
  - destruct Hq as (Ht & Hm & Hf & Hfrom). split_and!; congruence.
Qed.

Lemma broadcast_dry_run tr ev :
  valid_mandate p → assessed_first (D := real_deps cfg) R p tr → ev ∈ tr →
  broadcasts (ev_req ev) = true →
  ∃ tr1 tr2 a ep (ans : res unit),
    tr = tr1 ++ tr2 ∧ Ev (Rpc ep (CallExecuteProtection a)) ans ∈ tr1 ∧ ev ∈ tr2 ∧
    match ans with Ok _ => True | Err e => bare_revert (exn_msg e) = true end ∧
    carries_out a (ev_req ev) ∧ within_mandate (vault_checksum cfg) p a.
Proof.
  intros Hv [Hq|(q1&t1&tr1&sigma&resp&plan0&w1&w1'&->&Hq1&Heval&Hvi&Hdry)] Hin Hb;
    [by destruct (quiet_no_broadcast tr ev)|].
  assert (quiet t1) as Ht1.
  { apply (reads_trace R _ _ _ _ _ (dep_evaluate_reads p sigma) Heval). }
  apply elem_of_app in Hin as [Hin|Hin]; [by destruct (quiet_no_broadcast q1 ev)|].
  apply elem_of_app in Hin as [Hin|Hin]; [by destruct (quiet_no_broadcast t1 ev)|].
  destruct Hdry as [Hq|(q2&t2&tr2&f&s&sim&pl&w2&w2'&->&Hq2&Hf&Hsim&Hs&Hsub)];
    [by destruct (quiet_no_broadcast tr1 ev)|].
  assert (quiet t2) as Ht2.
  { apply (reads_trace R _ _ _ _ _ (dep_simulate_reads f plan0 p s Hf) Hsim). }
  apply elem_of_app in Hin as [Hin|Hin]; [by destruct (quiet_no_broadcast q2 ev)|].
  apply elem_of_app in Hin as [Hin|Hin]; [by destruct (quiet_no_broadcast t2 ev)|].
  destruct Hsub as [Hq|(q3&t3&q4&g&r&w3&w3'&->&Hq3&Hq4&Hg&Hsubmit)];
    [by destruct (quiet_no_broadcast tr2 ev)|].
  apply elem_of_app in Hin as [Hin|Hin]; [by destruct (quiet_no_broadcast q3 ev)|].
  apply elem_of_app in Hin as [Hin|Hin]; [|by destruct (quiet_no_broadcast q4 ev)].
  apply real_simulate_inv in Hf as [Hw ->]. apply real_submit_inv in Hg as [_ ->].
  apply (returns_exec _ _ _ _ _ _ _ (evaluate_returns _ p sigma _)) in Heval.
  destruct Heval as (_&_&_&_&Hplan&_).
  apply (simulate_ok _ _ _ R) in Hsim as (Hroute&_&Hdry).
  destruct (Hdry Hs) as (ep&sig&a&ans&Hsig&Ha&Hev&Hans).
  apply (guar_trace _ _ R _ _ _ _ _ (submit_guar _ _ _ pl p s _ _ _)) in Hsubmit.
  rewrite Forall_forall in Hsubmit. specialize (Hsubmit ev Hin).
  assert (keeper_checksum cfg = keeper_address (keeper_key cfg)) as Hk.
  { unfold keeper_checksum, checked, keeper_address. by rewrite account_address_checksum. }
  rewrite Hk in Ha. exists (q1 ++ t1 ++ q2 ++ t2), (q3 ++ t3 ++ q4), a, ep, ans.
  split; [by rewrite <-!app_assoc|]. split; [by rewrite !elem_of_app; auto|].
  split; [by rewrite !elem_of_app; auto|]. split; [done|].
  split; [|by eapply protection_call_within].
  eapply (submission_carries _ pl s); [done| |exact Hsig| |exact Hsubmit|done].
  - destruct Hroute as [Hpb _]. cbn in Hpb. rewrite Hpb. by destruct Hplan.
  - by rewrite (protection_call_route _ plan0 pl).
Qed.
End dry_run.

(** ** A whole node, for concrete runs *)
#[global] Instance eth_account_plain_laws : EthAccountLaws eth_plain eth_account_plain.
Proof. by split. Qed.

(** An indebted, under-collateralised position; a quoted collateral; [dry] answers the
    dry-runs, [rc] the receipts. *)
Definition demo_chain (dry : res unit) (rc : res receipt) : handler unit := λ q w,
  (match q return answer q with
   | Rpc _ (GetPool _) => Ok "0x9001"%string
   | Rpc _ (GetPriceOracle _) => Ok "0x0rac1e"%string
   | Rpc _ (GetUserAccountData _ _) =>
       Ok (1000000000000, 800000000000, 0, 8250, 8000, 1031250000000000000)
   | Rpc _ (GetReserveData _ _) =>
       Ok {| rd_configuration := pack_reserve_config 8000 8250 10500 6 0;
             rd_aToken := "0xa"; rd_variable_debt := "0xd" |}
   | Rpc _ (GetAssetPrice _ _) => Ok 100000000
   | Rpc _ (QuoteExactOutputSingle _ _ _ n _) => Ok (n + n / 1000, 0, 1, 90000)
   | Rpc _ (Allowance _ _ _) => Ok (10 ^ 18)
   | Rpc _ (CallExecuteProtection _) => dry
   | Rpc _ GetChainId | Rpc _ (GetTransactionCount _) => Ok 1
   | Rpc _ (BuildTransaction _ _ _) => Ok "tx"%string
   | Rpc _ (SendRawTransaction _ _) => Ok "aa"%string
   | Rpc _ (WaitForTransactionReceipt _ _) => rc
   | Rpc _ _ => Err (Exn ConnectionError "refused")
   | Sleep _ | ThreadJoin => Elapsed
   | ThreadStart => Ok tt
   | PerfCounter => fzero
   | Uuid4 => ""%string
   | ModelCall _ _ _ => Err (Exn TimeoutError "")
   | Monotonic | Time => flit 1000
   end, w).

Definition demo_deps : ProtectionDeps :=
  @real_deps eth_plain eth_account_plain libm_test demo_settings.

Definition demo_deps_laws : ProtectionDepsLaws demo_deps :=
  @real_deps_laws eth_plain eth_account_plain libm_test demo_settings.

Definition demo_protect : prog ProtectResponse := @protect demo_deps demo_params "0x01".

Lemma find_broadcast tr :
  existsb (λ ev, broadcasts (ev_req ev)) tr = true → ∃ ev, ev ∈ tr ∧ broadcasts (ev_req ev) = true.
Proof. intros (ev & Hin & Hb)%existsb_exists. exists ev. by rewrite list_elem_of_In. Qed.

Lemma demo_params_wf : @RiskParams_wf eth_plain demo_params.
Proof. unfold RiskParams_wf. cbn. split_and!; try lia; try done; [..|by repeat constructor]; unfold BPS; lia. Qed.

(** The cooldowns [KeeperConfig] lets through are not negative, so the setter's clamp keeps
    them. *)
Lemma cooldown_not_clamped n : 0 ≤ n ≤ 3600 → fmax fzero (flit n) = flit n.
Proof.
  intros Hn.
  assert (forallb (λ n, bool_decide (fmax fzero (flit n) = flit n)) (seqZ 0 3601) = true) as H
    by (vm_compute; reflexivity).
  rewrite forallb_forall in H. specialize (H n). rewrite <-list_elem_of_In, elem_of_seqZ in H.
  eapply bool_decide_eq_true_1, H. lia.
Qed.

(** The effect of a configuration update. *)
Definition reconfigured (cfg : Settings) (new : KeeperConfig) (w w' : World) : Prop :=
  w_config w' = new ∧ w_autonomous w' = kc_autonomous_enabled new ∧
  w_breaker w' = {| br_max := kc_breaker_max_consecutive_failures new;
                    br_consecutive := br_consecutive (w_breaker w);
                    br_paused := br_paused (w_breaker w);
                    br_reason := br_reason (w_breaker w) |} ∧
  w_inflight w' = {| if_cooldown := flit (kc_inflight_cooldown_seconds new);
                     if_locked := if_locked (w_inflight w);
                     if_cooldown_until := if_cooldown_until (w_inflight w) |} ∧
  w_max_bumps w' = (if wired cfg then kc_max_simulation_bumps new else w_max_bumps w) ∧
  w_registry w' = w_registry w ∧ w_states w' = w_states w ∧ w_counters w' = w_counters w ∧
  w_chain w' = w_chain w.

Lemma apply_config_wp R cfg new w (Q : list event → res KeeperConfig → World → Prop) :
  1 ≤ kc_breaker_max_consecutive_failures new → 0 ≤ kc_inflight_cooldown_seconds new ≤ 3600 →
  (∀ w', reconfigured cfg new w w' → Q [] (Ok new) w') → wp R (apply_config cfg new) Q w.
Proof.
  intros Hb Hcool HQ. unfold apply_config.
  rewrite wp_bind, wp_modify, wp_bind, wp_gets, wp_bind, wp_lift.
  unfold set_max_consecutive_failures. rewrite (proj2 (Z.ltb_ge _ _)) by lia.
  rewrite wp_bind, wp_modify, wp_bind, wp_modify, wp_bind. unfold set_cooldown_seconds.
  rewrite cooldown_not_clamped by done.
  destruct (wired cfg) eqn:Hw; [rewrite wp_modify|rewrite wp_ret];
    rewrite wp_bind, wp_modify, wp_gets; apply HQ; unfold reconfigured; rewrite ?Hw; by split_and!.
Qed.

(** *** The service's theorems on that node *)
Lemma protect_replies_witness :
  ∃ tr rep w', seq_exec demo_protect world0 tr (Ok rep) w' ∧ resp_submitted rep = true ∧
    reply_ok "0xb0b" w' rep.
Proof.
  destruct (run (demo_chain (Ok tt) (Ok rc_ok)) demo_protect world0 tt) as [[[tr r] w'] u] eqn:E.
  pose proof (run_exec _ eq _ _ _ _ _ _ _ E) as He. vm_compute in E. injection E as _ Er _ _.
  subst r. eexists tr, _, w'. split; [exact He|]. split; [reflexivity|].
  exact (protect_replies eq demo_params "0x01" _ _ _ _ He).
Defined.


Definition paused_world : World := set_breaker (trip (w_breaker world0) MANUAL) world0.

Lemma protect_gates_witness :
  ∃ tr r w', seq_exec demo_protect paused_world tr r w' ∧ tr = [] ∧
    w_counters w' = counter_inc [] BREAKER_BLOCKED 1.
Proof.
  destruct (run (demo_chain (Ok tt) (Ok rc_ok)) demo_protect paused_world tt)
    as [[[tr r] w'] u] eqn:E.
  pose proof (run_exec _ eq _ _ _ _ _ _ _ E) as He.
  destruct (protect_gates eq demo_params "0x01" paused_world _ _ _ (or_introl eq_refl) He) as (Ht&_&_&_&_&Hc).
  exists tr, r, w'. split; [exact He|]. split; [exact Ht|exact Hc].
Defined.

Definition watched_world : World := set_registry [("0xb0b", (demo_params, "0x01"))] world0.

(** Every call of the worker's pass fails, and the pass ends normally. *)
Lemma tick_robust_witness :
  ∃ tr w', seq_exec (@tick demo_deps) watched_world tr (Ok tt) w' ∧
    @polled demo_deps eq tr "0xb0b" (rp_hf_trigger_bps demo_params) ∧
    counter_get (w_counters w') ERRORS = 1.
Proof.
  destruct (run no_chain (@tick demo_deps) watched_world tt) as [[[tr r] w'] u] eqn:E.
  pose proof (run_exec _ eq _ _ _ _ _ _ _ E) as He. vm_compute in E. injection E as _ Er Ew _.
  subst r. exists tr, w'. split; [exact He|].
  destruct (tick_robust eq _ _ _ _ He) as [_ H]. split.
  - apply (H eq_refl "0xb0b"%string demo_params "0x01"%string). left.
  - subst w'. reflexivity.
Defined.

(** ** Claims *)

(** The composition root starts where the event loop's theorem does: when every
    constructor accepts the settings, the process begins with a well-formed state, no rescue
    in flight, no mandate, a closed breaker with a threshold between 1 and 20, at most ten
    dry-run bumps, and a [KeeperConfig] within its bounds that repeats the settings; and it
    refuses to start only when no RPC endpoint is configured, the breaker threshold or
    another knob is out of bounds, the keeper's key is not a key, or the vault or keeper
    address does not checksum. *)
Theorem build_container_start {U : EthUtils} {E : EthAccount} cfg :
  match build_container cfg with
  | Ok w =>
      world_wf w ∧ lock_set (w_inflight w) = ∅ ∧ w_registry w = [] ∧
      allow (w_breaker w) = true ∧ 1 ≤ br_max (w_breaker w) ≤ 20 ∧ 0 ≤ w_max_bumps w ≤ 10 ∧
      KeeperConfig_validate (w_config w) = Ok (w_config w) ∧
      w_max_bumps w = kc_max_simulation_bumps (w_config w) ∧
      w_autonomous w = kc_autonomous_enabled (w_config w) ∧
      if_cooldown (w_inflight w) = flit (kc_inflight_cooldown_seconds (w_config w))
  | Err e =>
      Client.urls cfg = [] ∨
      ¬ (1 ≤ poll_interval_seconds cfg ≤ 3600 ∧ 1 ≤ breaker_max_consecutive_failures cfg ≤ 20 ∧
         0 ≤ inflight_cooldown_seconds cfg ≤ 3600 ∧ 0 ≤ max_simulation_bumps cfg ≤ 10) ∨
      to_checksum_address (raw_vault cfg) = Err e ∨ from_key (keeper_key cfg) = Err e ∨
      to_checksum_address (keeper_address (keeper_key cfg)) = Err e
  end.
Proof.
  unfold build_container. case_bool_decide as Hu; [by left|].
  destruct (breaker_init _) as [br|e] eqn:Hbr; cbn [mbind res_bind];
    pose proof Hbr as Hb; unfold breaker_init in Hb;
    destruct (_ <? 1) eqn:Hlt; simplify_eq; [|right; left; lia].
  match goal with |- context[if wired cfg then ?x else ?y] =>
    destruct (if wired cfg then x else y) as [u|e] eqn:Ew end; cbn.
  - destruct (KeeperConfig_validate _) as [c'|e] eqn:Hc; cbn.
    + pose proof (KeeperConfig_validate_ok _ _ Hc) as (->&?&?&?&?); cbn in *.
      split; [|by split_and!; (done || lia)].
      apply fresh_wf; [|lia]. by apply (breaker_init_wf (breaker_max_consecutive_failures cfg)).
    + right; left. intros (?&?&?&?). by rewrite KeeperConfig_validate_bounds in Hc.
  - right; right. destruct (wired cfg); [|done].
    destruct (to_checksum_address (raw_vault cfg)) eqn:H1; cbn in Ew; [|left; congruence].
    destruct (from_key (keeper_key cfg)) eqn:H2; cbn in Ew; [|right; left; congruence].
    destruct (to_checksum_address (keeper_address (keeper_key cfg))) eqn:H3; cbn in Ew; [done|].
    right; right; congruence.
Qed.



(** [PUT /config]: a body out of bounds changes nothing; any other becomes the live
    configuration at once, with no [await] in between: the autonomy switch, the breaker's
    threshold, the cooldown and, on a configured deployment, the bump budget take the new
    values, while the breaker's streak and pause, the locks and cooldowns already running,
    the mandates, the states and the counters stay as they are. *)
Theorem put_config_effect (R : World → World → Prop) cfg new w tr r w' :
  exec R (put_config cfg new) w tr r w' →
  tr = [] ∧
  ((r = Ok new ∧ reconfigured cfg new w w') ∨
   (r = Err validation_error ∧ w' = w ∧
    ¬ (1 ≤ kc_poll_interval_seconds new ≤ 3600 ∧
       1 ≤ kc_breaker_max_consecutive_failures new ≤ 20 ∧
       0 ≤ kc_inflight_cooldown_seconds new ≤ 3600 ∧
       0 ≤ kc_max_simulation_bumps new ≤ 10))).
Proof.
  revert tr r w'. apply wp_exec. unfold put_config. rewrite wp_bind, wp_lift.
  destruct (KeeperConfig_validate new) as [c|e] eqn:Hc.
  - apply KeeperConfig_validate_ok in Hc as (->&?&?&?&?). apply apply_config_wp; [lia|done|].
    intros w' Hr. split; [done|]. by left.
  - split; [done|]. right. pose proof (KeeperConfig_validate_err _ _ Hc) as ->.
    split_and!; [done|done|]. intros (?&?&?&?). by rewrite KeeperConfig_validate_bounds in Hc.
Qed.

Lemma put_config_effect_witness :
  ∃ r w', seq_exec (put_config demo_settings (w_config world0)) paused_world [] r w' ∧
    br_paused (w_breaker w') = true.
Proof.
  destruct (run (demo_chain (Ok tt) (Ok rc_ok)) (put_config demo_settings (w_config world0))
    paused_world tt) as [[[tr r] w'] u] eqn:E.
  pose proof (run_exec _ eq _ _ _ _ _ _ _ E) as He. vm_compute in E. injection E as Et Er Ew _.
  destruct (put_config_effect eq _ _ _ _ _ _ He) as [-> [[_ Hr]|[Hr _]]]; [|congruence].
  exists r, w'. split; [exact He|]. destruct Hr as (_&_&->&_). reflexivity.
Defined.
