(* ===== verification/Vault.v ===== *)
(** * LiquidationShieldVault.sol: what the contract demands of the keeper's call

    The Solidity contract as a reference: the EIP-712 struct hash, the checks of
    [executeProtection] and of the flash-loan callback in their order, with the revert each
    ends in.  The pool, the router, the tokens, the hash and ECDSA are the chain's: answers of
    a record, a class.  The theorems say what a call built by the keeper can still be refused
    for, and what the refusals of the dry-run imply about the transactions the service sends.
    [VaultLife] runs whole sequences of calls of the contract. *)
From S2P Require Import Prelude PyFloat Config State InFlight Breaker Observability Models.
From S2P Require Import Risk Events Io Logic World Api Chain Monitor Selector Pipeline.
From S2P Require Import Simulator Submitter Service Accounting Deps Abi AbiSpec.

(** The custom errors of the contract; [BadEncoding] is a signature [ECDSA.recover] itself
    refuses, [External] a revert of a called contract, [Panic] a checked-arithmetic overflow. *)
Inductive vault_error :=
  | NotAuthorized | BadSignature | NonceUsed | Expired | CollateralNotAllowed | NoDebt
  | TargetOutOfBand | CallerNotPool | BadInitiator | AssetMismatch | CostExceeded
  | HealthBelowTarget | DebtNotReduced | LeverageIncreased
  | BadEncoding | External | Panic.

Definition error_name (e : vault_error) : string :=
  match e with
  | NotAuthorized => "NotAuthorized" | BadSignature => "BadSignature" | NonceUsed => "NonceUsed"
  | Expired => "Expired" | CollateralNotAllowed => "CollateralNotAllowed" | NoDebt => "NoDebt"
  | TargetOutOfBand => "TargetOutOfBand" | CallerNotPool => "CallerNotPool"
  | BadInitiator => "BadInitiator" | AssetMismatch => "AssetMismatch"
  | CostExceeded => "CostExceeded" | HealthBelowTarget => "HealthBelowTarget"
  | DebtNotReduced => "DebtNotReduced" | LeverageIncreased => "LeverageIncreased"
  | BadEncoding => "ECDSAInvalidSignature" | External => "" | Panic => "Panic"
  end.

(** Code of the EVM and of OpenZeppelin: the hash, the 32-byte word of an address in ABI
    encoding, [_hashTypedDataV4] and [ECDSA.recover], the signer or its own revert. *)
Class Ecdsa := {
  keccak256 : list Z → list Z;
  address_word : string → list Z;
  hash_typed_data_v4 : list Z → list Z;
  ecdsa_recover : list Z → list Z → option string;
}.

(** Hashes and address words have 32 bytes. *)
Class EcdsaLaws (Ec : Ecdsa) := {
  keccak256_length l : length (keccak256 l) = 32%nat;
  address_word_length a : length (address_word a) = 32%nat;
}.

(** The ABI encoding of a [uint256]: 32 bytes, the most significant first. *)
Fixpoint be_bytes (n : nat) (z : Z) : list Z :=
  match n with O => [] | S n => be_bytes n (z / 256) ++ [z mod 256] end.
Definition uint_word (z : Z) : list Z := be_bytes 32 z.
Definition string_bytes (s : string) : list Z :=
  (λ c, Z.of_N (Ascii.N_of_ascii c)) <$> String.list_ascii_of_string s.

Section hashing.
Context `{Ecdsa}.

Definition RISK_PARAMS_TYPEHASH : list Z := keccak256 (string_bytes Sol.RISK_PARAMS_TYPE).

(** The arguments of [abi.encode] in [_structHash], a word each. *)
Definition struct_words (p : RiskParams) : list (list Z) :=
  [RISK_PARAMS_TYPEHASH; address_word (rp_borrower p); uint_word (rp_hf_trigger_bps p);
   uint_word (rp_hf_target_base_bps p); uint_word (rp_vol_coeff_k p);
   uint_word (rp_hf_target_max_bps p); uint_word (rp_max_slippage_bps p);
   uint_word (rp_max_cost_bps p); keccak256 (concat (address_word <$> rp_allowed_collaterals p));
   uint_word (rp_nonce p); uint_word (rp_deadline p)].

(** [_structHash] *)
Definition struct_hash (p : RiskParams) : list Z := keccak256 (concat (struct_words p)).

(** [hashRiskParams] *)
Definition hash_risk_params (p : RiskParams) : list Z := hash_typed_data_v4 (struct_hash p).

(** The digest and its signer, in [_validateParams]. *)
Definition recover (p : RiskParams) (sig : list Z) : option string :=
  ecdsa_recover (hash_risk_params p) sig.
End hashing.

(** The storage of the vault, and the block's timestamp. *)
Record vault_state := {
  vs_keeper : string;
  vs_used : list (string * Z);
  vs_now : Z;
}.

Definition nonce_used (st : vault_state) (p : RiskParams) : bool :=
  bool_decide ((rp_borrower p, rp_nonce p) ∈ vs_used st).

Definition use_nonce (st : vault_state) (p : RiskParams) : vault_state :=
  {| vs_keeper := vs_keeper st; vs_used := (rp_borrower p, rp_nonce p) :: vs_used st;
     vs_now := vs_now st |}.

(** [_isAllowed] *)
Fixpoint is_allowed (l : list string) (asset : string) : bool :=
  match l with [] => false | a :: l => String.eqb a asset || is_allowed l asset end.

(** A call returns or reverts; a revert undoes the storage. *)
Definition vres (A : Type) : Type := vault_error + A.
Definition require (b : bool) (e : vault_error) : vres unit := if b then inr tt else inl e.
#[global] Instance vres_ret : MRet vres := λ A a, inr a.
#[global] Instance vres_bind : MBind vres := λ A B f m, match m with inl e => inl e | inr a => f a end.

(** *** HealthMath.sol *)
Definition uint256 (n : Z) : vres Z := if in_uint 256 n then inr n else inl Panic.
Definition mul256 (a b : Z) : vres Z := uint256 (a * b).
Definition bps_to_wad (bps : Z) : vres Z := mul256 bps (10 ^ 14).

Definition leverage_wad (debt collateral : Z) : vres Z :=
  if collateral =? 0 then inr 0 else n ← mul256 debt (10 ^ 18); inr (n / collateral).

Section vault.
Context `{Ecdsa}.

(** [_validateParams] *)
Definition validate_params (st : vault_state) (sender : string) (p : RiskParams) (sig : list Z)
    (collateral : string) : vres vault_state :=
  _ ← require (String.eqb sender (vs_keeper st) || String.eqb sender (rp_borrower p)) NotAuthorized;
  _ ← require (vs_now st <=? rp_deadline p) Expired;
  _ ← require (negb (nonce_used st p)) NonceUsed;
  _ ← require (is_allowed (rp_allowed_collaterals p) collateral) CollateralNotAllowed;
  match recover p sig with
  | None => inl BadEncoding
  | Some signer => _ ← require (String.eqb signer (rp_borrower p)) BadSignature;
                   inr (use_nonce st p)
  end.

(** What [getUserAccountData] gives the vault: collateral, debt, health factor. *)
Record holdings := { sn_collateral : Z; sn_debt : Z; sn_hf : Z }.

(** The struct carried through the flash loan. *)
Record FlashParams := {
  fp_borrower : string;
  fp_collateralAsset : string;
  fp_amountInMaximum : Z;
  fp_uniFeeTier : Z;
  fp_hfTargetWad : Z;
  fp_maxCostBps : Z;
  fp_debtBefore : Z;
  fp_collatBefore : Z;
}.

(** The call the vault receives in its callback; [None] where [abi.decode] reverts. *)
Record callback := {
  cb_sender : string;
  cb_asset : string;
  cb_amount : Z;
  cb_premium : Z;
  cb_initiator : string;
  cb_params : option (FlashParams * string);
}.

(** What the contracts the callback calls do: whether [_repayDebt] and [_withdrawCollateral]
    return, the input of the swap for an output and a maximum, whether the rest goes back to
    the borrower, the oracle's prices and the tokens' decimals, the account afterwards,
    whether the approval of the pool returns; [None] or [false] is a revert. *)
Record externals := {
  ex_repay : string → Z → string → bool;
  ex_withdraw : string → string → Z → bool;
  ex_swap : string → string → Z → Z → Z → option Z;
  ex_leftover_returned : bool;
  ex_price : string → option Z;
  ex_decimals : string → option Z;
  ex_after : string → option holdings;
  ex_approve : string → Z → bool;
}.

(** The answer of a called contract. *)
Definition external {A} (r : option A) : vres A :=
  match r with Some a => inr a | None => inl External end.

(** [amount * oracle.getAssetPrice(asset) / 10 ** IERC20Metadata(asset).decimals()] *)
Definition value_of (ex : externals) (asset : string) (amount : Z) : vres Z :=
  price ← external (ex_price ex asset);
  n ← mul256 amount price;
  decimals ← external (ex_decimals ex asset);
  unit ← uint256 (10 ^ decimals);
  inr (n / unit).

(** [_enforceCost] *)
Definition enforce_cost (ex : externals) (collat debt : string) (amount_in out_needed max_cost_bps : Z)
  : vres unit :=
  val_in ← value_of ex collat amount_in;
  val_out ← value_of ex debt out_needed;
  b ← mul256 val_out (BPS + max_cost_bps);
  require (val_in <=? b / BPS) CostExceeded.

(** [_verifyHealthFactor] *)
Definition verify_health_factor (ex : externals) (fp : FlashParams) : vres unit :=
  after ← external (ex_after ex (fp_borrower fp));
  _ ← require (fp_hfTargetWad fp <=? sn_hf after) HealthBelowTarget;
  _ ← require (sn_debt after <? fp_debtBefore fp) DebtNotReduced;
  l1 ← leverage_wad (sn_debt after) (sn_collateral after);
  l0 ← leverage_wad (fp_debtBefore fp) (fp_collatBefore fp);
  require (l1 <=? l0) LeverageIncreased.

(** [executeOperation], of the vault at [self] whose pool is [pool]. *)
Definition execute_operation (pool self : string) (cb : callback) (ex : externals) : vres unit :=
  _ ← require (String.eqb (cb_sender cb) pool) CallerNotPool;
  _ ← require (String.eqb (cb_initiator cb) self) BadInitiator;
  '(fp, debt_asset) ← external (cb_params cb);
  _ ← require (String.eqb (cb_asset cb) debt_asset) AssetMismatch;
  _ ← require (ex_repay ex debt_asset (cb_amount cb) (fp_borrower fp)) External;
  _ ← require (ex_withdraw ex (fp_collateralAsset fp) (fp_borrower fp) (fp_amountInMaximum fp)) External;
  out_needed ← uint256 (cb_amount cb + cb_premium cb);
  amount_in ← external (ex_swap ex (fp_collateralAsset fp) debt_asset (fp_uniFeeTier fp) out_needed
                                (fp_amountInMaximum fp));
  _ ← require (ex_leftover_returned ex) External;
  _ ← enforce_cost ex (fp_collateralAsset fp) debt_asset amount_in out_needed (fp_maxCostBps fp);
  _ ← verify_health_factor ex fp;
  require (ex_approve ex debt_asset out_needed) External.

(** [executeProtection] from the signature checks to the target band. *)
Definition entry_check (st : vault_state) (a : exec_args) (p : RiskParams) : vres vault_state :=
  st' ← validate_params st (ea_from a) p (ea_sig a) (ea_collateral_asset a);
  _ ← require ((rp_hf_target_base_bps p <=? ea_hf_target_bps a)
               && (ea_hf_target_bps a <=? rp_hf_target_max_bps p)) TargetOutOfBand;
  inr st'.

(** [executeProtection] up to the flash loan: the storage and the struct passed through it;
    [before] is the answer of [POOL.getUserAccountData]. *)
Definition protection_entry (st : vault_state) (a : exec_args) (p : RiskParams)
    (before : option holdings) : vres (vault_state * FlashParams) :=
  st' ← entry_check st a p;
  before ← external before;
  _ ← require (negb (sn_debt before =? 0)) NoDebt;
  target ← bps_to_wad (ea_hf_target_bps a);
  inr (st', {| fp_borrower := rp_borrower p; fp_collateralAsset := ea_collateral_asset a;
               fp_amountInMaximum := ea_amount_in_maximum a; fp_uniFeeTier := ea_fee_tier a;
               fp_hfTargetWad := target; fp_maxCostBps := rp_max_cost_bps p;
               fp_debtBefore := sn_debt before; fp_collatBefore := sn_collateral before |}).
End vault.

(** The mandate a call carries, from its ABI tuple. *)
Definition decode_params (l : list sol_value) : option RiskParams :=
  match l with
  | [SolAddress b; SolUint t; SolUint base; SolUint k; SolUint mx; SolUint sl; SolUint co;
     SolAddresses cs; SolUint n; SolUint d] =>
      Some {| rp_borrower := b; rp_hf_trigger_bps := t; rp_hf_target_base_bps := base;
              rp_vol_coeff_k := k; rp_hf_target_max_bps := mx; rp_max_slippage_bps := sl;
              rp_max_cost_bps := co; rp_allowed_collaterals := cs; rp_nonce := n;
              rp_deadline := d |}
  | _ => None
  end.

Lemma decode_params_encode p : decode_params (to_solidity_tuple p) = Some p.
Proof. by destruct p. Qed.

(** ** Theorems *)
Lemma vres_bind_inr {A B} (m : vres A) (f : A → vres B) b :
  (a ← m; f a) = inr b ↔ ∃ a, m = inr a ∧ f a = inr b.
Proof. destruct m; cbn; naive_solver. Qed.

Lemma require_inr b e u : require b e = inr u ↔ b = true.
Proof. destruct u, b; cbn; naive_solver. Qed.

Lemma is_allowed_spec l a : is_allowed l a = true ↔ a ∈ l.
Proof.
  induction l as [|b l IH]; cbn; [by rewrite elem_of_nil|].
  rewrite orb_true_iff, String.eqb_eq, IH, elem_of_cons. naive_solver.
Qed.

Lemma uint256_inr n m : uint256 n = inr m ↔ m = n ∧ 0 ≤ n < 2 ^ 256.
Proof. unfold uint256. pose proof (in_uint_spec 256 n). destruct (in_uint 256 n); naive_solver. Qed.

Section vault_laws.
Context `{Ecdsa}.

Lemma validate_params_inr st sender p sig c st' :
  validate_params st sender p sig c = inr st' ↔
  (sender = vs_keeper st ∨ sender = rp_borrower p) ∧ vs_now st ≤ rp_deadline p ∧
  nonce_used st p = false ∧ c ∈ rp_allowed_collaterals p ∧
  recover p sig = Some (rp_borrower p) ∧ st' = use_nonce st p.
Proof.
  unfold validate_params. split.
  - intros (?&Ha%require_inr&(?&Hd%require_inr&(?&Hn%require_inr&(?&Hc%require_inr&Hr)
      %vres_bind_inr)%vres_bind_inr)%vres_bind_inr)%vres_bind_inr.
    apply orb_true_iff in Ha. rewrite !String.eqb_eq in Ha.
    apply Z.leb_le in Hd. apply negb_true_iff in Hn. apply is_allowed_spec in Hc.
    destruct (recover p sig) as [signer|]; [|done].
    apply vres_bind_inr in Hr as (? & ->%require_inr%String.eqb_eq & [= <-]). done.
  - intros (Ha&Hd&Hn&Hc&->&->). rewrite <-!String.eqb_eq, <-orb_true_iff in Ha.
    apply Z.leb_le in Hd. apply is_allowed_spec in Hc.
    rewrite Ha, Hd, Hn, Hc, String.eqb_refl. done.
Qed.

Lemma entry_check_inr st a p st' :
  entry_check st a p = inr st' ↔
  validate_params st (ea_from a) p (ea_sig a) (ea_collateral_asset a) = inr st' ∧
  rp_hf_target_base_bps p ≤ ea_hf_target_bps a ≤ rp_hf_target_max_bps p.
Proof.
  unfold entry_check. split.
  - intros (? & ? & (? & H1%require_inr & [= <-])%vres_bind_inr)%vres_bind_inr.
    rewrite andb_true_iff, !Z.leb_le in H1. done.
  - intros [-> [H1 H2]]. apply Z.leb_le in H1, H2. by rewrite H1, H2.
Qed.

(** The entry of a rescue, when it passes. *)
Lemma protection_entry_inr st a p before st' fp :
  protection_entry st a p before = inr (st', fp) ↔
  entry_check st a p = inr st' ∧ ∃ h, before = Some h ∧ sn_debt h ≠ 0 ∧
    0 ≤ ea_hf_target_bps a * 10 ^ 14 < 2 ^ 256 ∧
    fp = {| fp_borrower := rp_borrower p; fp_collateralAsset := ea_collateral_asset a;
            fp_amountInMaximum := ea_amount_in_maximum a; fp_uniFeeTier := ea_fee_tier a;
            fp_hfTargetWad := ea_hf_target_bps a * 10 ^ 14; fp_maxCostBps := rp_max_cost_bps p;
            fp_debtBefore := sn_debt h; fp_collatBefore := sn_collateral h |}.
Proof.
  unfold protection_entry. split.
  - intros (st1 & He & (h & Hh & (? & Hd%require_inr & (t & [-> Ht]%uint256_inr & [= <- <-])%vres_bind_inr)
      %vres_bind_inr)%vres_bind_inr)%vres_bind_inr.
    split; [done|]. exists h. destruct before; simplify_eq/=.
    apply negb_true_iff, Z.eqb_neq in Hd. done.
  - intros (He & h & -> & Hd & Ht & ->). rewrite He. cbn. apply Z.eqb_neq in Hd. rewrite Hd. cbn.
    unfold bps_to_wad, mul256. apply vres_bind_inr. exists (ea_hf_target_bps a * 10 ^ 14).
    split; [by apply uint256_inr|done].
Qed.

(** A refusal that the ledger alone decides: whoever calls, whatever the rest of the call. *)
Lemma used_nonce_refused st a p : nonce_used st p = true → ∃ e, entry_check st a p = inl e.
Proof.
  intros Hn. destruct (entry_check st a p) as [e|st'] eqn:E; [by exists e|].
  apply entry_check_inr in E as [(_&_&Hn'&_)%validate_params_inr _]. congruence.
Qed.
End vault_laws.

(** *** The service against the contract *)
Section service.
Context {U : EthUtils} {UL : EthUtilsLaws U} {E : EthAccount} {EL : EthAccountLaws U E} {L : Libm}.
Context `{Ec : Ecdsa}.

(** The node answers the dry-runs of a trace by running the vault in states of [P]: a call the
    entry checks refuse is answered with an exception whose text is not the bare revert (a
    custom error carries its selector). *)
Definition vault_answers (P : vault_state → Prop) (tr : list event) : Prop :=
  ∀ ep a (ans : res unit), Ev (Rpc ep (CallExecuteProtection a)) ans ∈ tr →
    ∃ st, P st ∧ ∀ p e, decode_params (ea_params a) = Some p → entry_check st a p = inl e →
      ∃ x, ans = Err x ∧ bare_revert (exn_msg x) = false.

(** What the contract can still refuse.  For a call within the borrower's mandate, sent by
    the vault's keeper, every check [executeProtection] makes before it touches the position
    comes down to three: the deadline, the nonce, and the signature; authorisation, the
    collateral allow-list and the target band the service has already settled. *)
Theorem keeper_call_refusals vault p st a :
  within_mandate vault p a → RiskParams_wf p → ea_from a = vs_keeper st →
  entry_check st a p =
    if rp_deadline p <? vs_now st then inl Expired
    else if nonce_used st p then inl NonceUsed
    else match recover p (ea_sig a) with
         | None => inl BadEncoding
         | Some signer => if String.eqb signer (rp_borrower p) then inr (use_nonce st p)
                          else inl BadSignature
         end.
Proof.
  intros (_&_&_&[Hlo Hhi]&(c&Hc&Hcc)&_) Hwf Hk.
  assert (is_allowed (rp_allowed_collaterals p) (ea_collateral_asset a) = true) as Hal.
  { apply is_allowed_spec. destruct Hwf as (_&_&_&_&_&_&_&_&_&Hl).
    rewrite Forall_forall in Hl. specialize (Hl c Hc). congruence. }
  unfold entry_check, validate_params. rewrite Hk, String.eqb_refl, Hal, (Z.leb_antisym (rp_deadline p) (vs_now st)).
  apply Z.leb_le in Hlo, Hhi.
  destruct (rp_deadline p <? vs_now st); [done|]. destruct (nonce_used st p); [done|]. cbn.
  destruct (recover p (ea_sig a)) as [signer|]; [|done].
  destruct (String.eqb signer _); [|done]. cbn. by rewrite Hlo, Hhi.
Qed.

(** Whatever puts a transaction on the chain was dry-run in a vault state that accepted the
    borrower's signature on an unexpired and unused mandate. *)
Lemma broadcast_signed cfg (R : World → World → Prop) p s w tr r w' P :
  RiskParams_wf p → vault_answers P tr →
  exec R (@protect (real_deps cfg) p s) w tr r w' →
  ∀ ev, ev ∈ tr → broadcasts (ev_req ev) = true →
    ∃ st a, P st ∧ carries_out a (ev_req ev) ∧ within_mandate (vault_checksum cfg) p a ∧
      vs_now st ≤ rp_deadline p ∧ nonce_used st p = false ∧
      recover p (ea_sig a) = Some (rp_borrower p).
Proof.
  intros Hp Hvault He ev Hin Hb.
  assert (valid_mandate p) as Hv by (by destruct Hp as (?&?&?&?&?&?&?&?&?&?)).
  destruct (broadcast_dry_run cfg R p tr ev Hv
    (wp_exec R _ _ w (protect_wp (D := real_deps cfg) R p s w) _ _ _ He) Hin Hb)
    as (tr1&tr2&a&ep&ans&->&Hdry&_&Hans&Hc&Hm).
  destruct (Hvault ep a ans) as (st & HP & Hst); [apply elem_of_app; by left|].
  exists st, a. split; [done|]. split; [done|]. split; [done|].
  destruct (entry_check st a p) as [e|st'] eqn:Hent.
  - destruct (Hst p e) as (x & -> & Hx); [|done|congruence].
    destruct Hm as (_&->&_). apply decode_params_encode.
  - apply entry_check_inr in Hent as [(_&?&?&_&?&_)%validate_params_inr _]. done.
Qed.
End service.

(** *** Concrete runs *)

(** A contract whose [recover] accepts the one-byte signature 01 of the borrower. *)
Definition ecdsa_demo : Ecdsa := {|
  keccak256 := λ l, uint_word (foldl (λ h b, (h * 257 + b) mod 2 ^ 255) 1 l);
  address_word := λ a, take 32 (string_bytes a ++ replicate 32 0);
  hash_typed_data_v4 := id;
  ecdsa_recover := λ _ sig,
    if bool_decide (sig = [1]) then Some (rp_borrower demo_params) else None |}.

Definition vault0 : vault_state := {| vs_keeper := "0xacc0x1"; vs_used := []; vs_now := 1000 |}.

Definition call0 : exec_args := {|
  ea_vault := "0xva"; ea_params := to_solidity_tuple demo_params; ea_sig := [1];
  ea_debt_asset := @USDC eth_plain; ea_repay_amount := 5; ea_collateral_asset := "0xc011";
  ea_amount_in_maximum := 7; ea_fee_tier := 500; ea_hf_target_bps := 12500;
  ea_from := "0xacc0x1" |}.

Lemma keeper_call_refusals_witness :
  @within_mandate eth_plain "0xva" demo_params call0 ∧
  @entry_check ecdsa_demo vault0 call0 demo_params = inr (use_nonce vault0 demo_params) ∧
  @entry_check ecdsa_demo (use_nonce vault0 demo_params) call0 demo_params = inl NonceUsed.
Proof.
  assert (@within_mandate eth_plain "0xva" demo_params call0) as Hm.
  { split_and!; try reflexivity; cbn; try lia. exists "0xc011"%string. split; [left|reflexivity]. }
  split; [exact Hm|]. split.
  - rewrite (@keeper_call_refusals eth_plain ecdsa_demo "0xva" demo_params vault0 call0 Hm
      demo_params_wf eq_refl). vm_compute. reflexivity.
  - rewrite (@keeper_call_refusals eth_plain ecdsa_demo "0xva" demo_params
      (use_nonce vault0 demo_params) call0 Hm demo_params_wf eq_refl). vm_compute. reflexivity.
Defined.
