(* ===== verification/VaultLife.v ===== *)
(** * The life of the vault: every entry point of LiquidationShieldVault.sol, over call sequences

    The constructor, [setKeeper], the ownership calls, [executeProtection], the flash-loan
    callback and the views, as steps of a contract whose storage is [Vault]'s with an owner,
    a reentrancy guard and an event log.  A rescue hands control to the pool, the tokens and
    the router, which may call the vault again: a call carries the calls made during its flash
    loan, at any depth.  A nested call that reverts may be caught by its caller.

    OpenZeppelin's [Ownable] and [ReentrancyGuard] are parameters with their documented laws;
    what Aave's pool does with a flash loan is the predicate [aave_callback].  The theorems:
    over any sequence of calls, nested ones included, a mandate goes through at most once and
    the ledger holds exactly the mandates that went through; a rescue that goes through left
    the borrower with less debt, no more leverage, the health factor the mandate's band
    requires and a bounded cost. *)
From S2P Require Import Prelude PyFloat Config State InFlight Breaker Observability Models.
From S2P Require Import Risk Events Io Logic World Api Chain Monitor Selector Pipeline.
From S2P Require Import Simulator Submitter Service Accounting Deps Abi AbiSpec Vault.

(** The ownership calls of [Ownable]. *)
Inductive ownership_call := TransferOwnership (new_owner : string) | RenounceOwnership.

(** [Ownable] and [ReentrancyGuard]: [onlyOwner] of the owner and the sender, the owner after
    an ownership call, and the guard's status, entered and left by [nonReentrant]. *)
Class OpenZeppelin := {
  only_owner : string → string → bool;
  ownership : string → string → ownership_call → option string;
  guard : Type;
  guard_initial : guard;
  guard_enter : guard → option guard;
  guard_leave : guard → guard;
}.

Class OpenZeppelinLaws (OZ : OpenZeppelin) := {
  only_owner_spec owner sender : only_owner owner sender = true ↔ sender = owner;
  ownership_owner owner sender c owner' : ownership owner sender c = Some owner' → sender = owner;
  guard_initial_enters : is_Some (guard_enter guard_initial);
  (** a call under the guard cannot enter again, and leaving restores what was before *)
  guard_excludes g g' : guard_enter g = Some g' → guard_enter g' = None;
  guard_leaves g g' : guard_enter g = Some g' → guard_leave g' = g;
}.

(** The events, and the reverts that are not the contract's own errors. *)
Inductive vault_event :=
  | KeeperUpdated (keeper : string)
  | ProtectionExecuted (borrower debt_asset : string) (repay_amount : Z) (collateral_asset : string)
      (hf_before hf_after : Z).

(** What the pool does with the flash loan the vault takes. *)
Inductive loan :=
  | LoanReverts
  | LoanSkips                                       (* returns without a callback *)
  | LoanCalls (cb : callback) (ex : externals) (settles : bool).

(** A call of the contract by [sender]; [ExecuteProtection] carries the sender in [a], the
    account before, the calls other contracts make to the vault during the loan, the loan and
    the account afterwards. *)
Inductive vault_call :=
  | SetKeeper (sender keeper_ : string)
  | Ownership (sender : string) (c : ownership_call)
  | ExecuteProtection (a : exec_args) (before : option holdings) (during : list vault_call) (l : loan)
      (after : option holdings)
  | ExecuteOperation (cb : callback) (ex : externals).

Section contract.
Context `{Ecdsa} `{OpenZeppelin}.

(** The contract: the immutables, the owner, the guard, [Vault]'s storage and the log. *)
Record VaultContract := {
  ct_self : string;
  ct_addresses_provider : string;
  ct_pool : string;
  ct_swap_router : string;
  ct_owner : string;
  ct_guard : guard;
  ct_store : vault_state;
  ct_log : list vault_event;
}.

Definition with_owner (o : string) (ct : VaultContract) : VaultContract :=
  {| ct_self := ct_self ct; ct_addresses_provider := ct_addresses_provider ct;
     ct_pool := ct_pool ct; ct_swap_router := ct_swap_router ct; ct_owner := o;
     ct_guard := ct_guard ct; ct_store := ct_store ct; ct_log := ct_log ct |}.
Definition with_guard (g : guard) (ct : VaultContract) : VaultContract :=
  {| ct_self := ct_self ct; ct_addresses_provider := ct_addresses_provider ct;
     ct_pool := ct_pool ct; ct_swap_router := ct_swap_router ct; ct_owner := ct_owner ct;
     ct_guard := g; ct_store := ct_store ct; ct_log := ct_log ct |}.
Definition with_store (st : vault_state) (ct : VaultContract) : VaultContract :=
  {| ct_self := ct_self ct; ct_addresses_provider := ct_addresses_provider ct;
     ct_pool := ct_pool ct; ct_swap_router := ct_swap_router ct; ct_owner := ct_owner ct;
     ct_guard := ct_guard ct; ct_store := st; ct_log := ct_log ct |}.
Definition emit (e : vault_event) (ct : VaultContract) : VaultContract :=
  {| ct_self := ct_self ct; ct_addresses_provider := ct_addresses_provider ct;
     ct_pool := ct_pool ct; ct_swap_router := ct_swap_router ct; ct_owner := ct_owner ct;
     ct_guard := ct_guard ct; ct_store := ct_store ct; ct_log := ct_log ct ++ [e] |}.

Definition with_keeper (k : string) (ct : VaultContract) : VaultContract :=
  with_store {| vs_keeper := k; vs_used := vs_used (ct_store ct); vs_now := vs_now (ct_store ct) |} ct.

(** The constructor, at address [self]; [pool] is [addressesProvider.getPool()]. *)
Definition deploy (self sender addresses_provider pool swap_router keeper_ : string) (now : Z)
  : VaultContract :=
  emit (KeeperUpdated keeper_)
    {| ct_self := self; ct_addresses_provider := addresses_provider; ct_pool := pool;
       ct_swap_router := swap_router; ct_owner := sender; ct_guard := guard_initial;
       ct_store := {| vs_keeper := keeper_; vs_used := []; vs_now := now |}; ct_log := [] |}.

(** [setKeeper] *)
Definition set_keeper (ct : VaultContract) (sender keeper_ : string) : vres VaultContract :=
  _ ← require (only_owner (ct_owner ct) sender) External;
  inr (emit (KeeperUpdated keeper_) (with_keeper keeper_ ct)).

(** The flash loan: its callback is [executeOperation]; settling it is the pool's. *)
Definition flash_loan (ct : VaultContract) (l : loan) : vres unit :=
  match l with
  | LoanReverts => inl External
  | LoanSkips => inr tt
  | LoanCalls cb ex settles =>
      _ ← execute_operation (ct_pool ct) (ct_self ct) cb ex;
      require settles External
  end.

(** [executeProtection]; [nested] runs the calls made during the loan. *)
Definition execute_protection (nested : VaultContract → VaultContract) (ct : VaultContract) (a : exec_args)
    (before : option holdings) (l : loan) (after : option holdings) : vres VaultContract :=
  g ← external (guard_enter (ct_guard ct));
  p ← external (decode_params (ea_params a));
  '(st', fp) ← protection_entry (ct_store ct) a p before;
  let ct := nested (with_store st' (with_guard g ct)) in
  _ ← flash_loan ct l;
  before ← external before;
  after ← external after;
  inr (with_guard (guard_leave (ct_guard ct))
        (emit (ProtectionExecuted (rp_borrower p) (ea_debt_asset a) (ea_repay_amount a)
                 (ea_collateral_asset a) (sn_hf before) (sn_hf after)) ct)).

(** A revert undoes everything the call did. *)
Definition settle (ct : VaultContract) (r : vres VaultContract) : VaultContract :=
  match r with inl _ => ct | inr ct' => ct' end.

Fixpoint exec_call (ct : VaultContract) (c : vault_call) {struct c} : vres VaultContract :=
  match c with
  | SetKeeper sender k => set_keeper ct sender k
  | Ownership sender o => owner ← external (ownership (ct_owner ct) sender o); inr (with_owner owner ct)
  | ExecuteProtection a before during l after =>
      execute_protection
        ((fix go (cs : list vault_call) (ct : VaultContract) : VaultContract :=
            match cs with [] => ct | c :: cs => go cs (settle ct (exec_call ct c)) end) during)
        ct a before l after
  | ExecuteOperation cb ex => _ ← execute_operation (ct_pool ct) (ct_self ct) cb ex; inr ct
  end.

(** The calls of a block, in order. *)
Fixpoint run_calls (cs : list vault_call) (ct : VaultContract) : VaultContract :=
  match cs with [] => ct | c :: cs => run_calls cs (settle ct (exec_call ct c)) end.

(** Time passes between transactions, never backwards. *)
Definition at_time (t : Z) (ct : VaultContract) : VaultContract :=
  with_store {| vs_keeper := vs_keeper (ct_store ct); vs_used := vs_used (ct_store ct); vs_now := t |} ct.

Inductive tx_step : VaultContract → option vault_call → VaultContract → Prop :=
  | tx_time ct t : vs_now (ct_store ct) ≤ t → tx_step ct None (at_time t ct)
  | tx_reverts ct c e : exec_call ct c = inl e → tx_step ct None ct
  | tx_succeeds ct c ct' : exec_call ct c = inr ct' → tx_step ct (Some c) ct'.

(** A history: the transactions that succeeded, in order. *)
Inductive history : VaultContract → list vault_call → VaultContract → Prop :=
  | history_nil ct : history ct [] ct
  | history_snoc ct h ct1 o ct2 :
      history ct h ct1 → tx_step ct1 o ct2 → history ct (h ++ option_list o) ct2.

(** The mandate a rescue carries. *)
Definition rescue_key (c : vault_call) : option (string * Z) :=
  match c with
  | ExecuteProtection a _ _ _ _ =>
      p ← decode_params (ea_params a); Some (rp_borrower p, rp_nonce p)
  | _ => None
  end.

(** The public getters and views. *)
Definition used_nonces (ct : VaultContract) (borrower : string) (nonce : Z) : bool :=
  bool_decide ((borrower, nonce) ∈ vs_used (ct_store ct)).
Definition keeper_of (ct : VaultContract) : string := vs_keeper (ct_store ct).

(** What Aave's [flashLoanSimple] does with the loan of [executeProtection]: it comes back
    from the pool, for the asset and the amount asked for, initiated by the vault, with the
    parameters the vault passed. *)
Definition aave_callback (ct : VaultContract) (a : exec_args) (fp : FlashParams) (cb : callback) : Prop :=
  cb_sender cb = ct_pool ct ∧ cb_initiator cb = ct_self ct ∧ cb_asset cb = ea_debt_asset a ∧
  cb_amount cb = ea_repay_amount a ∧ cb_params cb = Some (fp, ea_debt_asset a).
End contract.

(** ** Inversion of a call *)
Section laws.
Context `{Ecdsa} {OZ : OpenZeppelin} `{!OpenZeppelinLaws OZ}.

Lemma external_inr {A} (r : option A) a : external r = inr a ↔ r = Some a.
Proof. destruct r; cbn; naive_solver. Qed.

Lemma exec_protection ct a before during l after :
  exec_call ct (ExecuteProtection a before during l after) =
  execute_protection (run_calls during) ct a before l after.
Proof. reflexivity. Qed.

Lemma set_keeper_inr ct sender k ct' :
  set_keeper ct sender k = inr ct' ↔
  sender = ct_owner ct ∧ ct' = emit (KeeperUpdated k) (with_keeper k ct).
Proof.
  unfold set_keeper. rewrite vres_bind_inr. split.
  - intros (? & ->%require_inr%only_owner_spec & [= <-]). done.
  - intros [-> ->]. exists tt. split; [|done]. by apply require_inr, only_owner_spec.
Qed.

(** What a rescue that went through did, around the calls made during its loan. *)
Lemma execute_protection_inr nested ct a before l after ct' :
  execute_protection nested ct a before l after = inr ct' →
  ∃ g p st' fp h h', guard_enter (ct_guard ct) = Some g ∧ decode_params (ea_params a) = Some p ∧
    protection_entry (ct_store ct) a p before = inr (st', fp) ∧ before = Some h ∧ after = Some h' ∧
    let ct1 := nested (with_store st' (with_guard g ct)) in
    flash_loan ct1 l = inr tt ∧
    ct' = with_guard (guard_leave (ct_guard ct1))
            (emit (ProtectionExecuted (rp_borrower p) (ea_debt_asset a) (ea_repay_amount a)
                     (ea_collateral_asset a) (sn_hf h) (sn_hf h')) ct1).
Proof.
  unfold execute_protection.
  intros (g & Hg%external_inr & (p & Hp%external_inr & ([st' fp] & Hen & ([] & Hfl &
    (h & Hh%external_inr & (h' & Hh'%external_inr & [= <-])%vres_bind_inr)%vres_bind_inr)
    %vres_bind_inr)%vres_bind_inr)%vres_bind_inr)%vres_bind_inr.
  by exists g, p, st', fp, h, h'.
Qed.

(** *** Calls under the guard *)

(** What no call changes while the guard is entered: all but the owner, the keeper and the
    log, to which only keeper updates are added. *)
Definition same_core (ct ct' : VaultContract) : Prop :=
  ct_self ct' = ct_self ct ∧ ct_pool ct' = ct_pool ct ∧ ct_guard ct' = ct_guard ct ∧
  vs_used (ct_store ct') = vs_used (ct_store ct) ∧ vs_now (ct_store ct') = vs_now (ct_store ct) ∧
  ∃ ks, ct_log ct' = ct_log ct ++ (KeeperUpdated <$> ks) ∧
    vs_keeper (ct_store ct') = default (vs_keeper (ct_store ct)) (last ks).

#[export] Instance same_core_refl : Reflexive same_core.
Proof. intros ct. split_and!; try done. exists []. by rewrite app_nil_r. Qed.

#[export] Instance same_core_trans : Transitive same_core.
Proof.
  intros ct1 ct2 ct3 (?&?&?&?&?&ks&Hl&Hk) (?&?&?&?&?&ks'&Hl'&Hk').
  split_and!; try congruence. exists (ks ++ ks').
  rewrite Hl', Hl, fmap_app, app_assoc. split; [done|]. rewrite Hk', Hk, last_app. by destruct (last ks').
Qed.

Lemma set_keeper_core ct k : same_core ct (emit (KeeperUpdated k) (with_keeper k ct)).
Proof. split_and!; try done. by exists [k]. Qed.

(** A call that is no rescue. *)
Lemma exec_core ct c ct' :
  exec_call ct c = inr ct' → (∀ a before during l after, c ≠ ExecuteProtection a before during l after) →
  same_core ct ct'.
Proof.
  destruct c as [s k|s o|a b cs l af|cb ex]; cbn [exec_call]; intros He Hc.
  - apply set_keeper_inr in He as [_ ->]. apply set_keeper_core.
  - apply vres_bind_inr in He as (owner & _ & [= <-]). split_and!; try done.
    exists []. by rewrite app_nil_r.
  - by destruct (Hc a b cs l af).
  - apply vres_bind_inr in He as (? & _ & [= <-]). done.
Qed.

(** [nonReentrant]: while a rescue is under way, another is refused at any depth. *)
Lemma exec_locked ct c ct' :
  guard_enter (ct_guard ct) = None → exec_call ct c = inr ct' → same_core ct ct'.
Proof.
  intros Hg He. apply (exec_core ct c); [done|]. intros a b cs l af ->.
  rewrite exec_protection in He. apply execute_protection_inr in He as (g & ? & ? & ? & ? & ? & Hg' & _).
  congruence.
Qed.

Lemma run_calls_locked cs ct : guard_enter (ct_guard ct) = None → same_core ct (run_calls cs ct).
Proof.
  revert ct. induction cs as [|c cs IH]; intros ct Hg; cbn; [done|].
  assert (same_core ct (settle ct (exec_call ct c))) as Hs.
  { destruct (exec_call ct c) as [e|ct'] eqn:He; cbn; [done|]. by apply exec_locked in He. }
  transitivity (settle ct (exec_call ct c)); [done|]. apply IH.
  destruct Hs as (_ & _ & -> & _). done.
Qed.

(** A rescue consumes its mandate, writes its event and leaves the guard as it was. *)
Lemma exec_rescue ct a before during l after ct' :
  exec_call ct (ExecuteProtection a before during l after) = inr ct' →
  ∃ p st' fp h, decode_params (ea_params a) = Some p ∧ before = Some h ∧
    protection_entry (ct_store ct) a p before = inr (st', fp) ∧ st' = use_nonce (ct_store ct) p ∧
    (∃ ct1, ct_pool ct1 = ct_pool ct ∧ ct_self ct1 = ct_self ct ∧ flash_loan ct1 l = inr tt) ∧
    ct_guard ct' = ct_guard ct ∧ vs_now (ct_store ct') = vs_now (ct_store ct) ∧
    vs_used (ct_store ct') = (rp_borrower p, rp_nonce p) :: vs_used (ct_store ct) ∧
    ∃ ks h', ct_log ct' = ct_log ct ++ (KeeperUpdated <$> ks) ++
        [ProtectionExecuted (rp_borrower p) (ea_debt_asset a) (ea_repay_amount a)
           (ea_collateral_asset a) (sn_hf h) (sn_hf h')] ∧
      vs_keeper (ct_store ct') = default (vs_keeper (ct_store ct)) (last ks).
Proof.
  rewrite exec_protection.
  intros (g & p & st' & fp & h & h' & Hg & Hp & Hen & Hb & _ & Hfl & ->)%execute_protection_inr.
  cbn zeta in *.
  pose proof (run_calls_locked during (with_store st' (with_guard g ct)) (guard_excludes _ _ Hg))
    as (Hself & Hpool & Hgd & Hu & Hn & ks & Hlog & Hk).
  assert (st' = use_nonce (ct_store ct) p) as ->.
  { by apply protection_entry_inr in Hen as [[(_&_&_&_&_&->)%validate_params_inr _]%entry_check_inr _]. }
  exists p, (use_nonce (ct_store ct) p), fp, h. split_and!; try done.
  - eexists. by split_and!.
  - cbn. rewrite Hgd. by apply guard_leaves.
  - exists ks, h'. cbn. by rewrite Hlog, <-app_assoc.
Qed.
End laws.

(** ** The ledger over a history *)
Definition event_borrower (e : vault_event) : option string :=
  match e with ProtectionExecuted b _ _ _ _ _ => Some b | KeeperUpdated _ => None end.
Definition event_keeper (e : vault_event) : option string :=
  match e with KeeperUpdated k => Some k | ProtectionExecuted _ _ _ _ _ _ => None end.

Lemma event_borrower_updates (ks : list string) : omap event_borrower (KeeperUpdated <$> ks) = [].
Proof. by induction ks. Qed.
Lemma event_keeper_updates (ks : list string) : omap event_keeper (KeeperUpdated <$> ks) = ks.
Proof. induction ks as [|k ks IH]; [done|]. cbn. by f_equal. Qed.

Section histories.
Context `{Ecdsa} {OZ : OpenZeppelin} `{!OpenZeppelinLaws OZ}.

(** What a rescue in the history has shown. *)
Definition rescue_authorised (c : vault_call) : Prop :=
  match c with
  | ExecuteProtection a _ _ _ _ => ∃ p, decode_params (ea_params a) = Some p ∧
      recover p (ea_sig a) = Some (rp_borrower p) ∧
      ea_collateral_asset a ∈ rp_allowed_collaterals p ∧
      rp_hf_target_base_bps p ≤ ea_hf_target_bps a ≤ rp_hf_target_max_bps p
  | _ => True
  end.

(** The invariant of a vault with history [h]. *)
Record vault_inv (h : list vault_call) (ct : VaultContract) : Prop := {
  vi_used : vs_used (ct_store ct) = rev (omap rescue_key h);
  vi_once : NoDup (omap rescue_key h);
  vi_authorised : Forall rescue_authorised h;
  vi_borrowers : omap event_borrower (ct_log ct) = (omap rescue_key h).*1;
  vi_keeper : last (omap event_keeper (ct_log ct)) = Some (keeper_of ct);
  vi_guard : is_Some (guard_enter (ct_guard ct));
}.

Lemma deploy_inv self sender prov pool router k now :
  vault_inv [] (deploy self sender prov pool router k now).
Proof. split; try done; [constructor|]. apply guard_initial_enters. Qed.

Lemma last_default_updates {A} (l : list A) ks k :
  last l = Some k → last (l ++ ks) = Some (default k (last ks)).
Proof. intros Hl. rewrite last_app. by destruct (last ks). Qed.

(** A call that is no rescue keeps the ledger. *)
Lemma same_core_inv h ct ct' : same_core ct ct' → vault_inv h ct → vault_inv h ct'.
Proof.
  intros (_ & _ & Hg & Hu & _ & ks & Hl & Hk) [Iu Io Ia Ib Ik Ig]. split; try congruence.
  - rewrite Hl, omap_app, event_borrower_updates, app_nil_r. done.
  - rewrite Hl, omap_app, event_keeper_updates. unfold keeper_of. rewrite Hk.
    by apply last_default_updates.
Qed.

Lemma no_rescue_inv h c ct :
  (∀ a before during l after, c ≠ ExecuteProtection a before during l after) →
  vault_inv h ct → vault_inv (h ++ [c]) ct.
Proof.
  intros Hc [Iu Io Ia Ib Ik Ig].
  assert (rescue_key c = None) as Hk by (destruct c; try done; by edestruct Hc).
  assert (omap rescue_key (h ++ [c]) = omap rescue_key h) as Eq.
  { rewrite omap_app. cbn. rewrite Hk. by rewrite app_nil_r. }
  split; rewrite ?Eq; try done. apply Forall_app. split; [done|]. constructor; [|done].
  destruct c; try done. by edestruct Hc.
Qed.

Lemma rescue_inv h ct a before during l after ct' :
  exec_call ct (ExecuteProtection a before during l after) = inr ct' →
  vault_inv h ct → vault_inv (h ++ [ExecuteProtection a before during l after]) ct'.
Proof.
  intros (p & st' & fp & b & Hp & _ & Hen & _ & _ & Hg & _ & Hu & ks & h' & Hl & Hk)%exec_rescue
    [Iu Io Ia Ib Ik Ig].
  apply protection_entry_inr in Hen as [[(_&_&Hn&Hc&Hr&_)%validate_params_inr Hband]%entry_check_inr _].
  assert (omap rescue_key (h ++ [ExecuteProtection a before during l after]) =
          omap rescue_key h ++ [(rp_borrower p, rp_nonce p)]) as Eq.
  { rewrite omap_app. cbn. rewrite Hp. done. }
  split; rewrite ?Eq.
  - rewrite Hu, Iu, rev_app_distr. done.
  - apply NoDup_app. split; [done|]. split; [|apply NoDup_singleton].
    intros x Hx ->%list_elem_of_singleton. unfold nonce_used in Hn.
    apply bool_decide_eq_false in Hn. apply Hn. rewrite Iu.
    rewrite list_elem_of_In, <-in_rev, <-list_elem_of_In. done.
  - apply Forall_app. split; [done|]. constructor; [|done]. by exists p.
  - rewrite Hl, !omap_app, event_borrower_updates, Ib, fmap_app. done.
  - rewrite Hl, !omap_app, event_keeper_updates, app_nil_r. unfold keeper_of. rewrite Hk.
    by apply last_default_updates.
  - by rewrite Hg.
Qed.

Lemma tx_inv h ct o ct' : tx_step ct o ct' → vault_inv h ct → vault_inv (h ++ option_list o) ct'.
Proof.
  intros [ct1 t Ht|ct1 c e He|ct1 c ct2 He] I; cbn; rewrite ?app_nil_r; [|done|].
  - destruct I. by split.
  - destruct c as [s k|s ow|a b cs l af|cb ex]; try (apply no_rescue_inv; [done|];
      eapply same_core_inv; [by eapply exec_core|done]).
    by eapply rescue_inv.
Qed.

Lemma history_inv h ct h' ct' : history ct h' ct' → vault_inv h ct → vault_inv (h ++ h') ct'.
Proof.
  induction 1 as [ct|ct h' ct1 o ct2 _ IH Hs]; intros I; [by rewrite app_nil_r|].
  rewrite app_assoc. eapply tx_inv; [done|]. by apply IH.
Qed.

(** A mandate that went through stays spent. *)
Lemma spent_forever h ct h' ct' p :
  vault_inv h ct → history ct h' ct' → (rp_borrower p, rp_nonce p) ∈ omap rescue_key h →
  nonce_used (ct_store ct') p = true.
Proof.
  intros I Hh Hin. destruct (history_inv h ct h' ct' Hh I) as [Iu _ _ _ _ _].
  unfold nonce_used. apply bool_decide_eq_true.
  rewrite Iu, list_elem_of_In, <-in_rev, <-list_elem_of_In, omap_app. apply elem_of_app. by left.
Qed.

(** C3: The vault's ledger, over every history of transactions from its deployment, calls
    made to it during its own flash loans included.  A mandate goes through at most once; the
    nonces marked used are exactly those of the rescues that went through, in order; each of
    those was signed by its borrower, took an allowed collateral and aimed inside the signed
    band; the events name exactly their borrowers; the keeper is the last one announced; and
    the reentrancy guard is free between transactions. *)
Theorem vault_history self sender prov pool router k now h ct :
  history (deploy self sender prov pool router k now) h ct → vault_inv h ct.
Proof.
  intros Hh. exact (history_inv [] _ h ct Hh (deploy_inv _ _ _ _ _ _ _)).
Qed.

(** *** The owner *)

(** Whoever calls the vault in a call, at any depth. *)
Fixpoint senders (c : vault_call) : list string :=
  match c with
  | SetKeeper s _ | Ownership s _ => [s]
  | ExecuteProtection a _ during _ _ => ea_from a :: concat (map senders during)
  | ExecuteOperation cb _ => [cb_sender cb]
  end.

Definition same_admin (ct ct' : VaultContract) : Prop :=
  ct_owner ct' = ct_owner ct ∧ keeper_of ct' = keeper_of ct.

Lemma simple_call_admin ct c ct' :
  exec_call ct c = inr ct' → (∀ a before during l after, c ≠ ExecuteProtection a before during l after) →
  ct_owner ct ∉ senders c → same_admin ct ct'.
Proof.
  destruct c as [s k|s o|a b cs l af|cb ex]; cbn [exec_call senders]; intros He Hc Hs.
  - apply set_keeper_inr in He as [-> _]. set_solver.
  - apply vres_bind_inr in He as (owner & Ho%external_inr & [= <-]).
    apply ownership_owner in Ho as ->. set_solver.
  - by destruct (Hc a b cs l af).
  - apply vres_bind_inr in He as (? & _ & [= <-]). done.
Qed.

Lemma locked_calls_admin cs ct :
  guard_enter (ct_guard ct) = None → ct_owner ct ∉ concat (map senders cs) →
  same_admin ct (run_calls cs ct).
Proof.
  revert ct. induction cs as [|c cs IH]; intros ct Hg Hs; cbn in *; [done|].
  rewrite elem_of_app in Hs.
  destruct (exec_call ct c) as [e|ct'] eqn:He; cbn; [apply IH; tauto|].
  assert (∀ a before during l after, c ≠ ExecuteProtection a before during l after) as Hc.
  { intros a b cs' l af ->. rewrite exec_protection in He.
    apply execute_protection_inr in He as (g & ? & ? & ? & ? & ? & Hg' & _). congruence. }
  destruct (simple_call_admin _ _ _ He Hc) as [Ho Hk]; [tauto|].
  destruct (exec_locked _ _ _ Hg He) as (_ & _ & Hg' & _).
  destruct (IH ct') as [Ho' Hk']; [congruence|rewrite Ho; tauto|]. split; congruence.
Qed.

(** Nobody but the owner replaces the keeper or the owner, not even during a flash loan. *)
Lemma owner_only ct c ct' :
  exec_call ct c = inr ct' → ct_owner ct ∉ senders c → same_admin ct ct'.
Proof.
  intros He Hs. destruct c as [s k|s o|a b cs l af|cb ex]; try (by eapply simple_call_admin).
  rewrite exec_protection in He.
  apply execute_protection_inr in He as (g & p & st' & fp & h & h' & Hg & Hp & Hen & _ & _ & _ & ->).
  cbn [senders] in Hs. rewrite elem_of_cons in Hs.
  apply protection_entry_inr in Hen as [[(_&_&_&_&_&->)%validate_params_inr _]%entry_check_inr _].
  destruct (locked_calls_admin cs (with_store (use_nonce (ct_store ct) p) (with_guard g ct)))
    as [Ho Hk]; [by eapply guard_excludes|cbn; tauto|].
  done.
Qed.
End histories.

(** ** What a rescue leaves behind *)
Section rescue.
Context `{Ecdsa} {OZ : OpenZeppelin} `{!OpenZeppelinLaws OZ}.

(** The loan is Aave's: it does not return without its callback, and calls back faithfully. *)
Definition aave_loan (ct : VaultContract) (a : exec_args) (fp : FlashParams) (l : loan) : Prop :=
  match l with
  | LoanReverts => True
  | LoanSkips => False
  | LoanCalls cb _ _ => aave_callback ct a fp cb
  end.

Lemma enforce_cost_inr ex collat debt i o bps :
  enforce_cost ex collat debt i o bps = inr tt →
  ∃ v_in v_out, value_of ex collat i = inr v_in ∧ value_of ex debt o = inr v_out ∧
    v_in * BPS ≤ v_out * (BPS + bps).
Proof.
  unfold enforce_cost. intros (v_in & Hi & (v_out & Ho & (b & [-> _]%uint256_inr & Hb%require_inr)
    %vres_bind_inr)%vres_bind_inr)%vres_bind_inr.
  exists v_in, v_out. split; [done|]. split; [done|]. apply Z.leb_le in Hb.
  pose proof (Z.mul_div_le (v_out * (BPS + bps)) BPS). unfold BPS in *. lia.
Qed.

Lemma verify_health_factor_inr ex fp :
  verify_health_factor ex fp = inr tt →
  ∃ h', ex_after ex (fp_borrower fp) = Some h' ∧ fp_hfTargetWad fp ≤ sn_hf h' ∧
    sn_debt h' < fp_debtBefore fp ∧
    (sn_collateral h' ≠ 0 → fp_collatBefore fp ≠ 0 →
     sn_debt h' * 10 ^ 18 / sn_collateral h' ≤ fp_debtBefore fp * 10 ^ 18 / fp_collatBefore fp) ∧
    (sn_collateral h' ≠ 0 → fp_collatBefore fp = 0 → sn_debt h' * 10 ^ 18 / sn_collateral h' ≤ 0).
Proof.
  unfold verify_health_factor.
  intros (h' & Hh%external_inr & (? & Ht%require_inr & (? & Hd%require_inr & (l1 & Hl1 & (l0 & Hl0 & Hl%require_inr)
    %vres_bind_inr)%vres_bind_inr)%vres_bind_inr)%vres_bind_inr)%vres_bind_inr.
  exists h'. apply Z.leb_le in Ht, Hl. apply Z.ltb_lt in Hd. split_and!; try done.
  all: intros Hc1 Hc0; unfold leverage_wad in *.
  - apply Z.eqb_neq in Hc1, Hc0. rewrite Hc1 in Hl1. rewrite Hc0 in Hl0.
    apply vres_bind_inr in Hl1 as (? & [-> _]%uint256_inr & [= <-]).
    by apply vres_bind_inr in Hl0 as (? & [-> _]%uint256_inr & [= <-]).
  - apply Z.eqb_neq in Hc1. apply Z.eqb_eq in Hc0. rewrite Hc1 in Hl1. rewrite Hc0 in Hl0.
    apply vres_bind_inr in Hl1 as (? & [-> _]%uint256_inr & [= <-]). by injection Hl0 as <-.
Qed.

(** The callback, when it passes. *)
Lemma execute_operation_inr pool self cb ex :
  execute_operation pool self cb ex = inr tt →
  cb_sender cb = pool ∧ cb_initiator cb = self ∧
  ∃ fp debt i, cb_params cb = Some (fp, debt) ∧ cb_asset cb = debt ∧
    let out := cb_amount cb + cb_premium cb in
    ex_swap ex (fp_collateralAsset fp) debt (fp_uniFeeTier fp) out (fp_amountInMaximum fp) = Some i ∧
    enforce_cost ex (fp_collateralAsset fp) debt i out (fp_maxCostBps fp) = inr tt ∧
    verify_health_factor ex fp = inr tt.
Proof.
  unfold execute_operation.
  intros (? & Hs%require_inr%String.eqb_eq & (? & Hi%require_inr%String.eqb_eq & ([fp debt] & Hp%external_inr & H1)
    %vres_bind_inr)%vres_bind_inr)%vres_bind_inr.
  apply vres_bind_inr in H1 as (? & Ha%require_inr%String.eqb_eq & (? & _ & (? & _ & H1)%vres_bind_inr)
    %vres_bind_inr).
  apply vres_bind_inr in H1 as (o & [-> _]%uint256_inr & (i & Hsw%external_inr & (? & _ & H1)%vres_bind_inr)
    %vres_bind_inr).
  apply vres_bind_inr in H1 as ([] & Hc & ([] & Hv & _)%vres_bind_inr).
  split; [done|]. split; [done|]. by exists fp, debt, i.
Qed.

(** C4: What a rescue guarantees the borrower (the no-worse invariants).  When the vault's
    pool is Aave's, a rescue that goes through, whatever happened during its flash loan, was
    called by the keeper or the borrower before the deadline; it left the borrower with less
    debt, a health factor at least the target, which lies in the signed band, and no more debt
    per collateral; and the collateral spent was worth at most the debt bought plus the signed
    cost, in the oracle's prices. *)
Theorem rescue_leaves_better ct a before during l after ct' :
  exec_call ct (ExecuteProtection a before during l after) = inr ct' →
  (∀ p st' fp, decode_params (ea_params a) = Some p →
     protection_entry (ct_store ct) a p before = inr (st', fp) → aave_loan ct a fp l) →
  ∃ p h cb ex h' amount_in v_in v_out,
    decode_params (ea_params a) = Some p ∧ before = Some h ∧ l = LoanCalls cb ex true ∧
    (ea_from a = keeper_of ct ∨ ea_from a = rp_borrower p) ∧
    vs_now (ct_store ct) ≤ rp_deadline p ∧
    ex_after ex (rp_borrower p) = Some h' ∧ sn_debt h' < sn_debt h ∧
    rp_hf_target_base_bps p * 10 ^ 14 ≤ ea_hf_target_bps a * 10 ^ 14 ≤ sn_hf h' ∧
    (sn_collateral h ≠ 0 → sn_collateral h' ≠ 0 →
     sn_debt h' * 10 ^ 18 / sn_collateral h' ≤ sn_debt h * 10 ^ 18 / sn_collateral h) ∧
    ex_swap ex (ea_collateral_asset a) (ea_debt_asset a) (ea_fee_tier a)
      (ea_repay_amount a + cb_premium cb) (ea_amount_in_maximum a) = Some amount_in ∧
    value_of ex (ea_collateral_asset a) amount_in = inr v_in ∧
    value_of ex (ea_debt_asset a) (ea_repay_amount a + cb_premium cb) = inr v_out ∧
    v_in * BPS ≤ v_out * (BPS + rp_max_cost_bps p).
Proof.
  intros (p & st' & fp & h & Hp & -> & Hen & _ & (ct1 & Hpool & Hself & Hfl) & _)%exec_rescue Hl.
  specialize (Hl p st' fp Hp Hen). destruct l as [| |cb ex settles]; [done|done|].
  apply vres_bind_inr in Hfl as ([] & Hop & ->%require_inr).
  apply execute_operation_inr in Hop as (_ & _ & fp' & debt & i & Hpar & _ & Hsw & Hc & Hv).
  destruct Hl as (_ & _ & _ & Ham & Hpar'). rewrite Hpar' in Hpar. injection Hpar as <- <-.
  cbn zeta in *. rewrite Ham in *.
  apply protection_entry_inr in Hen as [[(Hw&Hd&_)%validate_params_inr [Hlo Hhi]]%entry_check_inr
    (h0 & [= <-] & _ & _ & ->)].
  apply enforce_cost_inr in Hc as (v_in & v_out & Hvi & Hvo & Hle).
  apply verify_health_factor_inr in Hv as (h' & Ha & Ht & Hdebt & Hlev & _).
  cbn in *. exists p, h, cb, ex, h', i, v_in, v_out.
  split_and!; try done; [lia|]. intros H0 H1. by apply Hlev.
Qed.
End rescue.

(** ** The signature binds every field *)
Lemma be_bytes_length n z : length (be_bytes n z) = n.
Proof. revert z. induction n as [|n IH]; intros z; cbn; [done|]. rewrite length_app, IH. cbn. lia. Qed.

Lemma be_bytes_inj n z z' :
  0 ≤ z < 256 ^ Z.of_nat n → 0 ≤ z' < 256 ^ Z.of_nat n → be_bytes n z = be_bytes n z' → z = z'.
Proof.
  revert z z'. induction n as [|n IH]; intros z z' Hz Hz' E; [cbn in *; lia|].
  cbn in E. apply app_inj_2 in E as [E [= Em]]; [|done].
  rewrite Nat2Z.inj_succ, Z.pow_succ_r in Hz, Hz' by lia.
  assert (z / 256 = z' / 256) as Ed.
  { apply IH; [| |done]; (split; [apply Z.div_pos; lia|apply Z.div_lt_upper_bound; lia]). }
  rewrite (Z.div_mod z 256), (Z.div_mod z' 256), Ed, Em by lia. done.
Qed.

Lemma uint_word_inj z z' : 0 ≤ z < 2 ^ 256 → 0 ≤ z' < 2 ^ 256 → uint_word z = uint_word z' → z = z'.
Proof. apply (be_bytes_inj 32). Qed.

Lemma concat_words_inj (ls ls' : list (list Z)) :
  Forall (λ l, length l = 32%nat) ls → Forall (λ l, length l = 32%nat) ls' →
  concat ls = concat ls' → ls = ls'.
Proof.
  intros Hl. revert ls'. induction Hl as [|l ls Hl Hls IH]; intros ls' Hl' E.
  - destruct Hl' as [|l' ls' H1 _]; [done|]. destruct l'; cbn in *; [lia|done].
  - destruct Hl' as [|l' ls' H1 H2]; cbn in *.
    + destruct l; cbn in *; [lia|done].
    + apply app_inj_1 in E as [-> E]; [|congruence]. f_equal. by apply IH.
Qed.

Section binding.
Context {Ec : Ecdsa} `{!EcdsaLaws Ec}.

(** The words of a mandate, as the struct hash reads it. *)
Definition mandate_words (p : RiskParams) : list Z * (list Z * list (list Z)) :=
  ([rp_hf_trigger_bps p; rp_hf_target_base_bps p; rp_vol_coeff_k p; rp_hf_target_max_bps p;
    rp_max_slippage_bps p; rp_max_cost_bps p; rp_nonce p; rp_deadline p],
   (address_word (rp_borrower p), address_word <$> rp_allowed_collaterals p)).

Definition collision : Prop := ∃ x y, x ≠ y ∧ keccak256 x = keccak256 y.

Lemma address_words_length l : Forall (λ w, length w = 32%nat) (address_word <$> l).
Proof. apply Forall_fmap, Forall_forall. intros a _. apply address_word_length. Qed.

Lemma struct_words_length p : Forall (λ w, length w = 32%nat) (struct_words p).
Proof.
  unfold struct_words, RISK_PARAMS_TYPEHASH.
  repeat constructor; rewrite ?keccak256_length, ?address_word_length; try done; apply be_bytes_length.
Qed.

Lemma cons_eq {A} (a b : A) l k : a :: l = b :: k → a = b ∧ l = k.
Proof. by intros [= -> ->]. Qed.

(** Two mandates with the same digest agree in every field, unless the hash collides: a
    signature given for one is worth nothing for another. *)
Lemma struct_hash_binds p p' :
  Forall (λ z, 0 ≤ z < 2 ^ 256) (mandate_words p).1 → Forall (λ z, 0 ≤ z < 2 ^ 256) (mandate_words p').1 →
  struct_hash p = struct_hash p' → mandate_words p = mandate_words p' ∨ collision.
Proof.
  unfold struct_hash. intros Hp Hp' E.
  destruct (decide (concat (struct_words p) = concat (struct_words p'))) as [Ec'|Hne];
    [|right; by eexists _, _].
  apply concat_words_inj in Ec'; [|apply struct_words_length..].
  unfold struct_words in Ec'. repeat (apply cons_eq in Ec' as [? Ec']).
  destruct (decide (concat (address_word <$> rp_allowed_collaterals p) =
                    concat (address_word <$> rp_allowed_collaterals p'))) as [Ea|Hne];
    [|right; by eexists _, _].
  apply concat_words_inj in Ea; [|apply address_words_length..].
  left. unfold mandate_words in *. cbn [fst] in Hp, Hp'.
  repeat (apply Forall_cons in Hp as [? Hp]; apply Forall_cons in Hp' as [? Hp']).
  f_equal; [|congruence]. repeat (apply f_equal2; [by apply uint_word_inj|]). done.
Qed.
End binding.

(** ** The service against the life of the vault *)
Section service.
Context {U : EthUtils} {UL : EthUtilsLaws U} {E : EthAccount} {EL : EthAccountLaws U E} {L : Libm}.
Context `{Ec : Ecdsa} {OZ : OpenZeppelin} {OL : OpenZeppelinLaws OZ}.

(** The states of the vault from [ct] on. *)
Definition vault_from (ct : VaultContract) (st : vault_state) : Prop :=
  ∃ h ct', history ct h ct' ∧ st = ct_store ct'.

(** C2: No transaction without the borrower's signature, and a mandate is good for one rescue
    (FR-13).  When the node answers the dry-runs by running a deployed vault, in whatever
    states it passes through meanwhile, and whatever else it answers and other coroutines do,
    a protection run puts a transaction on the chain only after a vault state in which the
    mandate had not expired, its nonce was unused and the contract recovered the borrower's
    address from the signature in the call; once the history of the vault holds a rescue with
    the mandate, no run with it ever sends anything again, although the service keeps the
    mandate registered. *)
Theorem broadcast_was_signed cfg (R : World → World → Prop) p s w tr r w' self sender prov pool router
    k now h ct :
  RiskParams_wf p → history (deploy self sender prov pool router k now) h ct →
  vault_answers (vault_from ct) tr →
  exec R (@protect (real_deps cfg) p s) w tr r w' →
  (∀ ev, ev ∈ tr → broadcasts (ev_req ev) = true →
     ∃ st a, vault_from ct st ∧ carries_out a (ev_req ev) ∧ within_mandate (vault_checksum cfg) p a ∧
       vs_now st ≤ rp_deadline p ∧ nonce_used st p = false ∧
       recover p (ea_sig a) = Some (rp_borrower p)) ∧
  ((rp_borrower p, rp_nonce p) ∈ omap rescue_key h →
   Forall (λ ev, broadcasts (ev_req ev) = false) tr).
Proof.
  intros Hp Hh Hv He.
  pose proof (broadcast_signed cfg R p s w tr r w' (vault_from ct) Hp Hv He) as Hb.
  split; [exact Hb|]. intros Hin. apply Forall_forall. intros ev Hev.
  destruct (broadcasts (ev_req ev)) eqn:Hbr; [|done].
  destruct (Hb ev Hev Hbr) as (st & _ & (h' & ct' & Hh' & ->) & _ & _ & _ & Hn & _).
  rewrite (spent_forever h ct h' ct' p) in Hn; [done| |done|done].
  exact (history_inv [] _ h ct Hh (deploy_inv _ _ _ _ _ _ _)).
Qed.
End service.

(** ** A concrete life *)
Definition oz_demo : OpenZeppelin := {|
  only_owner := λ owner sender, String.eqb sender owner;
  ownership := λ owner sender c,
    if String.eqb sender owner
    then Some match c with TransferOwnership o => o | RenounceOwnership => "0x0"%string end else None;
  guard := bool;
  guard_initial := false;
  guard_enter := λ g, if g then None else Some true;
  guard_leave := λ _, false |}.

#[export] Instance oz_demo_laws : OpenZeppelinLaws oz_demo.
Proof.
  split.
  - intros owner sender. apply String.eqb_eq.
  - intros owner sender c o. cbn. destruct (String.eqb_spec sender owner); naive_solver.
  - by eexists.
  - by intros [] [].
  - by intros [] [].
Qed.

(** A rescue at 5 units of 6 decimals, premium 1, for 5 units of a collateral at the same price. *)
Definition before0 : holdings :=
  {| sn_collateral := 1000; sn_debt := 800; sn_hf := 105 * 10 ^ 16 |}.
Definition after0 : holdings :=
  {| sn_collateral := 990; sn_debt := 600; sn_hf := 130 * 10 ^ 16 |}.
Definition fp0 : FlashParams := {|
  fp_borrower := rp_borrower demo_params; fp_collateralAsset := "0xc011"; fp_amountInMaximum := 7;
  fp_uniFeeTier := 500; fp_hfTargetWad := 12500 * 10 ^ 14;
  fp_maxCostBps := rp_max_cost_bps demo_params; fp_debtBefore := 800; fp_collatBefore := 1000 |}.
Definition cb0 : callback := {|
  cb_sender := "0xp001"; cb_asset := @USDC eth_plain; cb_amount := 5; cb_premium := 1;
  cb_initiator := "0xva"; cb_params := Some (fp0, @USDC eth_plain) |}.
Definition ex0 : externals := {|
  ex_repay := λ _ _ _, true; ex_withdraw := λ _ _ _, true; ex_swap := λ _ _ _ _ _, Some 6;
  ex_leftover_returned := true; ex_price := λ _, Some (10 ^ 8); ex_decimals := λ _, Some 6;
  ex_after := λ _, Some after0; ex_approve := λ _ _, true |}.

Definition vault_at_rest : @VaultContract oz_demo :=
  deploy "0xva" "0x0e4" "0x9e0" "0xp001" "0x40u7" "0xacc0x1" 1000.

(** A rescue during which a token calls the rescue again and the owner replaces the keeper. *)
Definition rescue_again : vault_call := ExecuteProtection call0 (Some before0) [] (LoanCalls cb0 ex0 true) (Some after0).
Definition rescue0 : vault_call :=
  ExecuteProtection call0 (Some before0) [rescue_again; SetKeeper "0xe011" "0xe011"; SetKeeper "0x0e4" "0x4ee2"]
    (LoanCalls cb0 ex0 true) (Some after0).

Lemma vault_history_witness :
  ∃ ct, @history ecdsa_demo oz_demo vault_at_rest [rescue0] ct ∧
    @vault_inv ecdsa_demo oz_demo [rescue0] ct ∧ keeper_of ct = "0x4ee2"%string ∧
    @exec_call ecdsa_demo oz_demo ct rescue_again = inl NotAuthorized ∧
    used_nonces ct (rp_borrower demo_params) (rp_nonce demo_params) = true.
Proof.
  destruct (@exec_call ecdsa_demo oz_demo vault_at_rest rescue0) as [e|ct] eqn:He; [vm_compute in He; done|].
  exists ct.
  assert (@history ecdsa_demo oz_demo vault_at_rest [rescue0] ct) as Hh.
  { apply (history_snoc vault_at_rest [] vault_at_rest (Some rescue0) ct);
      [apply history_nil|by apply tx_succeeds]. }
  split; [done|]. split.
  - exact (@vault_history ecdsa_demo oz_demo oz_demo_laws _ _ _ _ _ _ _ _ _ Hh).
  - vm_compute in He. injection He as <-. vm_compute. auto.
Defined.

Lemma rescue_leaves_better_witness :
  ∃ ct', @exec_call ecdsa_demo oz_demo vault_at_rest rescue0 = inr ct' ∧ sn_debt after0 < sn_debt before0 ∧
    ∃ p, decode_params (ea_params call0) = Some p ∧
      rp_hf_target_base_bps p * 10 ^ 14 ≤ ea_hf_target_bps call0 * 10 ^ 14.
Proof.
  destruct (@exec_call ecdsa_demo oz_demo vault_at_rest rescue0) as [e|ct] eqn:He; [vm_compute in He; done|].
  exists ct. split; [done|].
  destruct (@rescue_leaves_better ecdsa_demo oz_demo oz_demo_laws _ _ _ _ _ _ _ He)
    as (p & h & cb & ex & h' & i & v & v' & Hp & [= <-] & [= <- <-] & _ & _ & [= <-] & Hd & [Ht _] & _).
  - intros p st' fp Hp Hen. vm_compute in Hp. injection Hp as <-. vm_compute in Hen.
    injection Hen as <- <-. clear He. vm_compute. repeat split.
  - split; [exact Hd|]. exists p. split; [exact Hp|exact Ht].
Defined.

(** The demo run against the vault as deployed. *)
Lemma broadcast_was_signed_witness :
  ∃ tr rep w' ev, seq_exec demo_protect world0 tr (Ok rep) w' ∧ resp_submitted rep = true ∧
    ev ∈ tr ∧ broadcasts (ev_req ev) = true ∧
    ∃ st a, @vault_from ecdsa_demo oz_demo vault_at_rest st ∧ carries_out a (ev_req ev) ∧
      @recover ecdsa_demo demo_params (ea_sig a) = Some (rp_borrower demo_params).
Proof.
  destruct (run (demo_chain (Ok tt) (Ok rc_ok)) demo_protect world0 tt) as [[[tr r] w'] u] eqn:E.
  pose proof (run_exec _ eq _ _ _ _ _ _ _ E) as He. vm_compute in E. injection E as Etr Er _ _.
  destruct (find_broadcast tr) as (ev & Hin & Hb); [rewrite <-Etr; reflexivity|].
  assert (∀ a, a ∈ omap (λ ev, match ev_req ev with
                               | Rpc _ (CallExecuteProtection a) => Some a | _ => None end) tr →
    @entry_check ecdsa_demo vault0 a demo_params = inr (use_nonce vault0 demo_params) ∧
    ea_params a = to_solidity_tuple demo_params) as Hdry.
  { rewrite <-Etr. intros a Ha. vm_compute in Ha. apply list_elem_of_singleton in Ha as ->.
    vm_compute. split; reflexivity. }
  assert (@history ecdsa_demo oz_demo vault_at_rest [] vault_at_rest) as Hh by apply history_nil.
  assert (@vault_answers ecdsa_demo (@vault_from ecdsa_demo oz_demo vault_at_rest) tr) as Hv.
  { intros ep a ans Ha. exists vault0. split; [exists [], vault_at_rest; split; [exact Hh|reflexivity]|].
    intros p e Hp He'. exfalso.
    destruct (Hdry a) as [Hd Hpa].
    { apply list_elem_of_omap. by exists (Ev (Rpc ep (CallExecuteProtection a)) ans). }
    rewrite Hpa, decode_params_encode in Hp. injection Hp as <-. congruence. }
  destruct (@broadcast_was_signed eth_plain eth_plain_laws eth_account_plain
    eth_account_plain_laws libm_test ecdsa_demo oz_demo oz_demo_laws demo_settings eq demo_params "0x01"
    _ _ _ _ _ _ _ _ _ _ _ [] _ demo_params_wf Hh Hv He) as [H _].
  destruct (H ev Hin Hb) as (st&a&?&?&_&_&_&?).
  subst r. exists tr. eexists. exists w', ev. split; [exact He|]. split; [reflexivity|].
  split; [exact Hin|]. split; [exact Hb|]. exists st, a. auto.
Defined.
