(* ===== verification/Wiring.v ===== *)
(** * The object graph: the constructors of chain/ and core/, and build_container

    [World] keeps the mutable attributes of the objects the event loop shares in one record.
    This file models the objects themselves: a heap of Python objects that refer to one
    another, the constructors in the order [deps.build_container] calls them, the
    process-wide client, the accessors of [ProtectionService], and [apply_config] through
    them.  [rep] says that a heap holds the graph whose attributes are a [World]: it fixes
    which object every attribute refers to, so a write through one path is seen through all.
    The theorems: the constructors build exactly the state [Deps.build_container] starts
    with, or raise its exception; a write to an object is the write of [World] that models
    it; [apply_config] through the accessors is [Deps.apply_config]. *)
From S2P Require Import Prelude PyFloat Config State InFlight Breaker Observability Models.
From S2P Require Import Risk Events Io Logic World Api Chain Monitor Selector Pipeline.
From S2P Require Import Simulator Submitter Service Accounting Deps Abi.

Abbreviation loc := nat (only parsing).

(** [AsyncWeb3] over an HTTP provider, as [ChainClient._build] makes it. *)
Record provider := { pr_url : string; pr_timeout : f64 }.

(** The objects, with the attributes their constructors set. *)
Inductive obj :=
  | OChainClient (urls : list string) (timeout : f64) (max_retries : Z) (providers : list provider)
      (active : nat) (contracts : contract_cache)
  | OAaveClient (c : loc) (pool_address : option string)
  | OUniswapClient (c : loc)
  | OOracleClient (c : loc) (oracle_address : option string)
  | OERC20Client (c : loc) (decimals : dict string Z)
  | OPositionMonitor (aave oracle : loc) (vols : dict string RollingVolatility) (vol_window : Z)
  | OCollateralSelector (aave uniswap oracle erc20 : loc)
  | OAssessmentPipeline (aave oracle monitor selector : loc) (vault_address : string)
  | OInFlightRegistry (r : InFlightRegistry)
  | OCircuitBreaker (b : CircuitBreaker)
  | OCounters (c : Counters)
  | OSubmitter (c aave : loc) (vault account : string)
  | OSimulator (c uni : loc) (vault keeper : string) (max_bumps : Z)
  | OProtectionService (pipeline monitor inflight breaker counters : loc)
      (simulator submitter : option loc) (registry : dict string (RiskParams * string))
      (states : dict string PositionState) (autonomous_enabled : bool)
  | OWorker (service : loc) (interval : f64)
  | OServiceContainer (service worker : loc) (config : KeeperConfig) (client : loc).

(** The interpreter: the heap, in allocation order, and the globals [client._client] and
    [deps._container]. *)
Record machine := {
  mc_heap : list obj;
  mc_client : option loc;
  mc_container : option loc;
}.

(** An exception leaves what was allocated and assigned before it. *)
Definition py (A : Type) : Type := machine → res A * machine.
#[global] Instance py_ret : MRet py := λ A a m, (Ok a, m).
#[global] Instance py_bind : MBind py := λ A B f p m,
  match p m with (Ok a, m) => f a m | (Err e, m) => (Err e, m) end.

Definition raise {A} (e : exn) : py A := λ m, (Err e, m).
Definition of_res {A} (r : res A) : py A := λ m, (r, m).
Definition alloc (o : obj) : py loc := λ m,
  (Ok (length (mc_heap m)),
   {| mc_heap := mc_heap m ++ [o]; mc_client := mc_client m; mc_container := mc_container m |}).
Definition load (l : loc) : py obj := λ m,
  (match mc_heap m !! l with Some o => Ok o | None => Err (Exn AttributeError "") end, m).
Definition store (l : loc) (o : obj) : py unit := λ m,
  (Ok tt, {| mc_heap := <[l := o]> (mc_heap m); mc_client := mc_client m;
             mc_container := mc_container m |}).
Definition global_client : py (option loc) := λ m, (Ok (mc_client m), m).
Definition set_global_client (l : loc) : py unit := λ m,
  (Ok tt, {| mc_heap := mc_heap m; mc_client := Some l; mc_container := mc_container m |}).
Definition global_container : py (option loc) := λ m, (Ok (mc_container m), m).
Definition set_global_container (l : loc) : py unit := λ m,
  (Ok tt, {| mc_heap := mc_heap m; mc_client := mc_client m; mc_container := Some l |}).
Definition attribute_error {A} : py A := raise (Exn AttributeError "").

Section constructors.
Context `{EthUtils} `{EthAccount} (cfg : Settings).

(** [ChainClient._build] *)
Definition build_provider (url : string) : provider :=
  {| pr_url := url; pr_timeout := rpc_timeout_seconds cfg |}.

(** [ChainClient()], on the settings' defaults. *)
Definition ChainClient_init : py loc :=
  let urls := Client.urls cfg in
  if bool_decide (urls = []) then
    raise (Exn ChainClientError "No RPC URL configured (set ARBITRUM_RPC_URL).")
  else alloc (OChainClient urls (rpc_timeout_seconds cfg) (rpc_max_retries cfg)
                (build_provider <$> urls) 0 []).

(** [get_client] *)
Definition get_client : py loc :=
  c ← global_client;
  match c with
  | Some l => mret l
  | None => l ← ChainClient_init; _ ← set_global_client l; mret l
  end.

(** [client or get_client()] *)
Definition client_or_global (client : option loc) : py loc :=
  match client with Some l => mret l | None => get_client end.

Definition AaveClient_init (client : option loc) : py loc :=
  c ← client_or_global client; alloc (OAaveClient c None).
Definition UniswapClient_init (client : option loc) : py loc :=
  c ← client_or_global client; alloc (OUniswapClient c).
Definition OracleClient_init (client : option loc) : py loc :=
  c ← client_or_global client; alloc (OOracleClient c None).
Definition ERC20Client_init (client : option loc) : py loc :=
  c ← client_or_global client; alloc (OERC20Client c TOKEN_DECIMALS).

Definition PositionMonitor_init (aave oracle : loc) : py loc :=
  alloc (OPositionMonitor aave oracle [] VOL_WINDOW).
Definition CollateralSelector_init (aave uniswap oracle erc20 : loc) : py loc :=
  alloc (OCollateralSelector aave uniswap oracle erc20).

(** [AssessmentPipeline.__init__]: a monitor and a selector of its own. *)
Definition AssessmentPipeline_init (aave uniswap oracle erc20 : loc) (vault_address : string) : py loc :=
  monitor ← PositionMonitor_init aave oracle;
  selector ← CollateralSelector_init aave uniswap oracle erc20;
  alloc (OAssessmentPipeline aave oracle monitor selector vault_address).

(** [Submitter.__init__] *)
Definition Submitter_init (client aave : loc) (vault_address keeper_private_key : string) : py loc :=
  if String.eqb keeper_private_key "" then
    raise (Exn SubmitterError "KEEPER_PRIVATE_KEY not configured")
  else
    vault ← of_res (to_checksum_address vault_address);
    _ ← of_res (from_key keeper_private_key);
    alloc (OSubmitter client aave vault keeper_private_key).

(** [Simulator.__init__] *)
Definition Simulator_init (client uniswap : loc) (vault_address keeper_address : string)
    (max_bumps : Z) : py loc :=
  vault ← of_res (to_checksum_address vault_address);
  keeper ← of_res (to_checksum_address keeper_address);
  alloc (OSimulator client uniswap vault keeper max_bumps).

(** [Submitter.keeper_address]: the address of the account. *)
Definition submitter_keeper_address (l : loc) : py string :=
  o ← load l;
  match o with
  | OSubmitter _ _ _ account => mret (account_address account)
  | _ => attribute_error
  end.

(** [ProtectionService.__init__] *)
Definition ProtectionService_init (pipeline monitor inflight breaker counters : loc)
    (simulator submitter : option loc) : py loc :=
  alloc (OProtectionService pipeline monitor inflight breaker counters simulator submitter [] [] true).

(** [service.autonomous_enabled = value] *)
Definition set_autonomous_enabled (service : loc) (value : bool) : py unit :=
  o ← load service;
  match o with
  | OProtectionService p mo i b c si su rg st _ =>
      store service (OProtectionService p mo i b c si su rg st value)
  | _ => attribute_error
  end.

(** The [if settings.vault_address and settings.keeper_private_key] of [build_container]. *)
Definition make_signers (client aave uniswap : loc) : py (option loc * option loc) :=
  if wired cfg then
    submitter ← Submitter_init client aave (vault_address cfg) (keeper_private_key cfg);
    keeper ← submitter_keeper_address submitter;
    simulator ← Simulator_init client uniswap (vault_address cfg) keeper (max_simulation_bumps cfg);
    mret (Some simulator, Some submitter)
  else mret (None, None).

(** [build_container]; [config] is validated by [KeeperConfig]. *)
Definition make_container : py loc :=
  client ← ChainClient_init;
  aave ← AaveClient_init (Some client);
  uniswap ← UniswapClient_init (Some client);
  oracle ← OracleClient_init (Some client);
  erc20 ← ERC20Client_init (Some client);
  pipeline ← AssessmentPipeline_init aave uniswap oracle erc20 (vault_address cfg);
  monitor ← PositionMonitor_init aave oracle;
  inflight ← alloc (OInFlightRegistry (inflight_init (flit (inflight_cooldown_seconds cfg))));
  br ← of_res (breaker_init (breaker_max_consecutive_failures cfg));
  breaker ← alloc (OCircuitBreaker br);
  counters ← alloc (OCounters []);
  '(simulator, submitter) ← make_signers client aave uniswap;
  service ← ProtectionService_init pipeline monitor inflight breaker counters simulator submitter;
  _ ← set_autonomous_enabled service (autonomous_enabled_setting cfg);
  worker ← alloc (OWorker service (flit (poll_interval_seconds cfg)));
  config ← of_res (KeeperConfig_validate
    {| kc_poll_interval_seconds := poll_interval_seconds cfg;
       kc_breaker_max_consecutive_failures := breaker_max_consecutive_failures cfg;
       kc_inflight_cooldown_seconds := inflight_cooldown_seconds cfg;
       kc_max_simulation_bumps := max_simulation_bumps cfg;
       kc_autonomous_enabled := autonomous_enabled_setting cfg |});
  alloc (OServiceContainer service worker config client).

(** [get_container], [get_service] *)
Definition get_container : py loc :=
  c ← global_container;
  match c with
  | Some l => mret l
  | None => l ← make_container; _ ← set_global_container l; mret l
  end.

Definition container_service (container : loc) : py loc :=
  o ← load container;
  match o with OServiceContainer s _ _ _ => mret s | _ => attribute_error end.

Definition get_service : py loc := c ← get_container; container_service c.

(** [ProtectionService.breaker], [inflight], [monitor], [simulator] *)
Definition service_breaker (service : loc) : py loc :=
  o ← load service;
  match o with OProtectionService _ _ _ b _ _ _ _ _ _ => mret b | _ => attribute_error end.
Definition service_inflight (service : loc) : py loc :=
  o ← load service;
  match o with OProtectionService _ _ i _ _ _ _ _ _ _ => mret i | _ => attribute_error end.
Definition service_monitor_ref (service : loc) : py loc :=
  o ← load service;
  match o with OProtectionService _ mo _ _ _ _ _ _ _ _ => mret mo | _ => attribute_error end.
Definition service_simulator (service : loc) : py (option loc) :=
  o ← load service;
  match o with OProtectionService _ _ _ _ _ si _ _ _ _ => mret si | _ => attribute_error end.

(** The setters of [CircuitBreaker], [InFlightRegistry] and [Simulator]. *)
Definition set_breaker_max (breaker : loc) (value : Z) : py unit :=
  o ← load breaker;
  match o with
  | OCircuitBreaker b => b ← of_res (set_max_consecutive_failures b value); store breaker (OCircuitBreaker b)
  | _ => attribute_error
  end.
Definition set_inflight_cooldown (inflight : loc) (value : f64) : py unit :=
  o ← load inflight;
  match o with
  | OInFlightRegistry r => store inflight (OInFlightRegistry (set_cooldown_seconds r value))
  | _ => attribute_error
  end.
Definition set_simulator_bumps (simulator : loc) (value : Z) : py unit :=
  o ← load simulator;
  match o with
  | OSimulator c u v k _ => store simulator (OSimulator c u v k value)
  | _ => attribute_error
  end.
Definition set_container_config (container : loc) (new : KeeperConfig) : py unit :=
  o ← load container;
  match o with
  | OServiceContainer s w _ cl => store container (OServiceContainer s w new cl)
  | _ => attribute_error
  end.
Definition container_config (container : loc) : py KeeperConfig :=
  o ← load container;
  match o with OServiceContainer _ _ k _ => mret k | _ => attribute_error end.

(** [apply_config], through the accessors. *)
Definition apply_config_objects (new : KeeperConfig) : py KeeperConfig :=
  c ← get_container;
  s ← container_service c;
  _ ← set_autonomous_enabled s (kc_autonomous_enabled new);
  s ← container_service c;
  b ← service_breaker s;
  _ ← set_breaker_max b (kc_breaker_max_consecutive_failures new);
  s ← container_service c;
  i ← service_inflight s;
  _ ← set_inflight_cooldown i (flit (kc_inflight_cooldown_seconds new));
  s ← container_service c;
  si ← service_simulator s;
  _ ← match si with
      | None => mret tt
      | Some _ =>
          s ← container_service c;
          si ← service_simulator s;
          match si with
          | Some l => set_simulator_bumps l (kc_max_simulation_bumps new)
          | None => attribute_error
          end
      end;
  _ ← set_container_config c new;
  container_config c.
End constructors.

(** ** The graph of a world *)

(** Where the objects of the graph are. *)
Record refs := {
  r_client : loc; r_aave : loc; r_uniswap : loc; r_oracle : loc; r_erc20 : loc;
  r_pmonitor : loc; r_selector : loc; r_pipeline : loc; r_monitor : loc; r_inflight : loc;
  r_breaker : loc; r_counters : loc; r_submitter : loc; r_simulator : loc; r_service : loc;
  r_worker : loc; r_container : loc;
}.

Section graph.
Context `{EthUtils} `{EthAccount} (cfg : Settings).

(** The objects [build_container] makes, with the attributes of a world: one chain client
    under all the typed clients, one of each of these under both monitors, the pipeline, the
    selector, the simulator and the submitter, and two monitors. *)
Definition layout (r : refs) (w : World) : list (loc * obj) :=
  let c := w_chain w in
  [(r_client r, OChainClient (Client.urls cfg) (rpc_timeout_seconds cfg) (rpc_max_retries cfg)
                  (build_provider cfg <$> Client.urls cfg) (cl_active c) []);
   (r_aave r, OAaveClient (r_client r) (cl_pool_address c));
   (r_uniswap r, OUniswapClient (r_client r));
   (r_oracle r, OOracleClient (r_client r) (cl_oracle_address c));
   (r_erc20 r, OERC20Client (r_client r) (cl_decimals c));
   (r_pmonitor r, OPositionMonitor (r_aave r) (r_oracle r) (w_pvols w) VOL_WINDOW);
   (r_selector r, OCollateralSelector (r_aave r) (r_uniswap r) (r_oracle r) (r_erc20 r));
   (r_pipeline r, OAssessmentPipeline (r_aave r) (r_oracle r) (r_pmonitor r) (r_selector r)
                    (raw_vault cfg));
   (r_monitor r, OPositionMonitor (r_aave r) (r_oracle r) (w_vols w) VOL_WINDOW);
   (r_inflight r, OInFlightRegistry (w_inflight w));
   (r_breaker r, OCircuitBreaker (w_breaker w));
   (r_counters r, OCounters (w_counters w));
   (r_service r, OProtectionService (r_pipeline r) (r_monitor r) (r_inflight r) (r_breaker r)
      (r_counters r) (if wired cfg then Some (r_simulator r) else None)
      (if wired cfg then Some (r_submitter r) else None)
      (w_registry w) (w_states w) (w_autonomous w));
   (r_worker r, OWorker (r_service r) (flit (poll_interval_seconds cfg)));
   (r_container r, OServiceContainer (r_service r) (r_worker r) (w_config w) (r_client r))] ++
  (if wired cfg then
     [(r_submitter r, OSubmitter (r_client r) (r_aave r) (vault_checksum cfg) (keeper_key cfg));
      (r_simulator r, OSimulator (r_client r) (r_uniswap r) (vault_checksum cfg)
                        (keeper_checksum cfg) (w_max_bumps w))]
   else []).

(** The heap holds the graph, its objects are distinct. *)
Definition rep (r : refs) (w : World) (h : list obj) : Prop :=
  (∀ i l o, layout r w !! i = Some (l, o) → h !! l = Some o) ∧ NoDup (layout r w).*1.

(** A write to one object of the graph. *)
Lemma rep_write i r w w' l o0 o h :
  rep r w h → layout r w !! i = Some (l, o0) → layout r w' = <[i := (l, o)]> (layout r w) →
  rep r w' (<[l := o]> h).
Proof.
  intros [Hr Hn] Hi Hw'. split.
  - intros j l' o'. rewrite Hw'. destruct (decide (i = j)) as [<-|Hne].
    + rewrite list_lookup_insert_eq by (by apply lookup_lt_Some in Hi).
      intros [= <- <-]. apply list_lookup_insert_eq. by eapply lookup_lt_Some, Hr.
    + rewrite list_lookup_insert_ne by done. intros Hj.
      rewrite list_lookup_insert_ne; [by eapply Hr|]. intros ->. apply Hne.
      eapply (NoDup_lookup _ i j l' Hn); rewrite list_lookup_fmap; [by rewrite Hi|by rewrite Hj].
  - rewrite Hw', list_fmap_insert. rewrite list_insert_id; [done|].
    rewrite list_lookup_fmap, Hi. done.
Qed.

Lemma rep_lookup i r w h l o : rep r w h → layout r w !! i = Some (l, o) → h !! l = Some o.
Proof. intros [Hr _]. apply Hr. Qed.

(** *** The interpreter's steps *)
Lemma py_bind_ok {A B} (p : py A) (f : A → py B) m a m' :
  p m = (Ok a, m') → (x ← p; f x) m = f a m'.
Proof. unfold mbind, py_bind. by intros ->. Qed.

Lemma py_bind_err {A B} (p : py A) (f : A → py B) m e m' :
  p m = (Err e, m') → (x ← p; f x) m = (Err e, m').
Proof. unfold mbind, py_bind. by intros ->. Qed.

Lemma load_ok l m o : mc_heap m !! l = Some o → load l m = (Ok o, m).
Proof. unfold load. by intros ->. Qed.

(** The heap after [os] were allocated on [m]. *)
Definition grown (m : machine) (os : list obj) : machine :=
  {| mc_heap := mc_heap m ++ os; mc_client := mc_client m; mc_container := mc_container m |}.

Lemma alloc_grown m os o :
  alloc o (grown m os) = (Ok (length (mc_heap m) + length os)%nat, grown m (os ++ [o])).
Proof. unfold alloc, grown. cbn. by rewrite length_app, app_assoc. Qed.

Lemma load_grown m os k o :
  os !! k = Some o → load (length (mc_heap m) + k) (grown m os) = (Ok o, grown m os).
Proof.
  intros Hk. apply load_ok. cbn. rewrite lookup_app_r by lia.
  by replace (length (mc_heap m) + k - length (mc_heap m))%nat with k by lia.
Qed.

Lemma store_grown m os k o :
  store (length (mc_heap m) + k) o (grown m os) = (Ok tt, grown m (<[k := o]> os)).
Proof. unfold store, grown. cbn. by rewrite insert_app_r. Qed.
End graph.

(** ** The composition root builds the graph *)
Section build.
Context `{EthUtils} `{EthAccount} (cfg : Settings).

(** The objects in the order [build_container] allocates them, on a heap of [n] objects. *)
Definition refs_at (n : nat) : refs :=
  let s := (n + if wired cfg then 14 else 12)%nat in
  {| r_client := n + 0; r_aave := n + 1; r_uniswap := n + 2; r_oracle := n + 3; r_erc20 := n + 4;
     r_pmonitor := n + 5; r_selector := n + 6; r_pipeline := n + 7; r_monitor := n + 8;
     r_inflight := n + 9; r_breaker := n + 10; r_counters := n + 11; r_submitter := n + 12;
     r_simulator := n + 13; r_service := s; r_worker := s + 1; r_container := s + 2 |}%nat.

Lemma of_res_ok {A B} (r : res A) (f : A → py B) m a :
  r = Ok a → (x ← of_res r; f x) m = f a m.
Proof. intros ->. done. Qed.

Lemma alloc_then {B} o (f : loc → py B) m os :
  (l ← alloc o; f l) (grown m os) = f (length (mc_heap m) + length os)%nat (grown m (os ++ [o])).
Proof. exact (py_bind_ok _ _ _ _ _ (alloc_grown m os o)). Qed.

(** The typed clients take the client they are given. *)
Lemma typed_clients c :
  AaveClient_init cfg (Some c) = alloc (OAaveClient c None) ∧
  UniswapClient_init cfg (Some c) = alloc (OUniswapClient c) ∧
  OracleClient_init cfg (Some c) = alloc (OOracleClient c None) ∧
  ERC20Client_init cfg (Some c) = alloc (OERC20Client c TOKEN_DECIMALS).
Proof. done. Qed.

Lemma py_bind_assoc {A B C} (p : py A) (f : A → py B) (g : B → py C) m :
  (y ← (x ← p; f x); g y) m = (x ← p; y ← f x; g y) m.
Proof. unfold mbind, py_bind. by destruct (p m) as [[a|e] m']. Qed.

Lemma grown_nil m : grown m [] = m.
Proof. destruct m. unfold grown. cbn. by rewrite app_nil_r. Qed.

(** The constructors that only allocate. *)
Lemma aave_then {B} c (f : loc → py B) m os :
  (l ← AaveClient_init cfg (Some c); f l) (grown m os) =
  f (length (mc_heap m) + length os)%nat (grown m (os ++ [OAaveClient c None])).
Proof. exact (alloc_then _ f m os). Qed.
Lemma uniswap_then {B} c (f : loc → py B) m os :
  (l ← UniswapClient_init cfg (Some c); f l) (grown m os) =
  f (length (mc_heap m) + length os)%nat (grown m (os ++ [OUniswapClient c])).
Proof. exact (alloc_then _ f m os). Qed.
Lemma oracle_then {B} c (f : loc → py B) m os :
  (l ← OracleClient_init cfg (Some c); f l) (grown m os) =
  f (length (mc_heap m) + length os)%nat (grown m (os ++ [OOracleClient c None])).
Proof. exact (alloc_then _ f m os). Qed.
Lemma erc20_then {B} c (f : loc → py B) m os :
  (l ← ERC20Client_init cfg (Some c); f l) (grown m os) =
  f (length (mc_heap m) + length os)%nat (grown m (os ++ [OERC20Client c TOKEN_DECIMALS])).
Proof. exact (alloc_then _ f m os). Qed.

Ltac allocs := repeat (first
  [rewrite alloc_then | rewrite aave_then | rewrite uniswap_then | rewrite oracle_then
  | rewrite erc20_then | rewrite py_bind_assoc | erewrite of_res_ok by eassumption]; cbn [app length]).

(** The objects [build_container] allocates before the breaker, on a heap of [n]. *)
Definition core_objects (n : nat) : list obj :=
  [OChainClient (Client.urls cfg) (rpc_timeout_seconds cfg) (rpc_max_retries cfg)
     (build_provider cfg <$> Client.urls cfg) 0 [];
   OAaveClient (n + 0) None; OUniswapClient (n + 0); OOracleClient (n + 0) None;
   OERC20Client (n + 0) TOKEN_DECIMALS; OPositionMonitor (n + 1) (n + 3) [] VOL_WINDOW;
   OCollateralSelector (n + 1) (n + 2) (n + 3) (n + 4);
   OAssessmentPipeline (n + 1) (n + 3) (n + 5) (n + 6) (vault_address cfg);
   OPositionMonitor (n + 1) (n + 3) [] VOL_WINDOW;
   OInFlightRegistry (inflight_init (flit (inflight_cooldown_seconds cfg)))].

Lemma core_step {B} m (f : loc → loc → loc → loc → loc → loc → py B) :
  Client.urls cfg ≠ [] →
  let n := length (mc_heap m) in
  (client ← ChainClient_init cfg;
   aave ← AaveClient_init cfg (Some client);
   uniswap ← UniswapClient_init cfg (Some client);
   oracle ← OracleClient_init cfg (Some client);
   erc20 ← ERC20Client_init cfg (Some client);
   pipeline ← AssessmentPipeline_init aave uniswap oracle erc20 (vault_address cfg);
   monitor ← PositionMonitor_init aave oracle;
   inflight ← alloc (OInFlightRegistry (inflight_init (flit (inflight_cooldown_seconds cfg))));
   f client aave uniswap pipeline monitor inflight) m =
  f (n + 0)%nat (n + 1)%nat (n + 2)%nat (n + 7)%nat (n + 8)%nat (n + 9)%nat (grown m (core_objects n)).
Proof.
  intros Hu n. rewrite <-(grown_nil m). unfold ChainClient_init.
  rewrite bool_decide_eq_false_2 by done. allocs.
  unfold AssessmentPipeline_init, PositionMonitor_init, CollateralSelector_init. allocs.
  by rewrite grown_nil.
Qed.

(** The submitter and the simulator. *)
Lemma Submitter_init_ok m os client aave vault :
  String.eqb (keeper_private_key cfg) "" = false →
  to_checksum_address (vault_address cfg) = Ok vault → from_key (keeper_private_key cfg) = Ok tt →
  Submitter_init client aave (vault_address cfg) (keeper_private_key cfg) (grown m os) =
  (Ok (length (mc_heap m) + length os)%nat,
   grown m (os ++ [OSubmitter client aave vault (keeper_private_key cfg)])).
Proof.
  intros Hk Hv Hkey. unfold Submitter_init. rewrite Hk, (of_res_ok _ _ _ vault) by done.
  rewrite (of_res_ok _ _ _ tt) by done. apply alloc_grown.
Qed.

Lemma Simulator_init_ok m os client uniswap vault keeper address :
  to_checksum_address (vault_address cfg) = Ok vault → to_checksum_address address = Ok keeper →
  Simulator_init client uniswap (vault_address cfg) address (max_simulation_bumps cfg) (grown m os) =
  (Ok (length (mc_heap m) + length os)%nat,
   grown m (os ++ [OSimulator client uniswap vault keeper (max_simulation_bumps cfg)])).
Proof.
  intros Hv Ha. unfold Simulator_init. rewrite (of_res_ok _ _ _ vault), (of_res_ok _ _ _ keeper) by done.
  apply alloc_grown.
Qed.

Lemma keeper_address_ok m os client aave vault key :
  submitter_keeper_address (length (mc_heap m) + length os) (grown m (os ++ [OSubmitter client aave vault key]))
  = (Ok (account_address key), grown m (os ++ [OSubmitter client aave vault key])).
Proof.
  unfold submitter_keeper_address.
  erewrite py_bind_ok by (apply load_grown; by rewrite list_lookup_middle). done.
Qed.

(** The submitter and the simulator, on a configured deployment. *)
Definition signer_objects (client aave uniswap : loc) : list obj :=
  if wired cfg then
    [OSubmitter client aave (vault_checksum cfg) (keeper_key cfg);
     OSimulator client uniswap (vault_checksum cfg) (keeper_checksum cfg) (max_simulation_bumps cfg)]
  else [].

(** What [Deps.build_container] demands of them. *)
Definition signers_valid : res unit :=
  if wired cfg then
    _ ← to_checksum_address (raw_vault cfg); _ ← from_key (keeper_key cfg);
    _ ← to_checksum_address (keeper_address (keeper_key cfg)); Ok tt
  else Ok tt.

Lemma signers_ok m os client aave uniswap :
  signers_valid = Ok tt →
  let n := (length (mc_heap m) + length os)%nat in
  make_signers cfg client aave uniswap (grown m os) =
  (Ok (if wired cfg then (Some (n + 1)%nat, Some n) else (None, None)),
   grown m (os ++ signer_objects client aave uniswap)).
Proof.
  unfold signers_valid, make_signers, signer_objects, vault_checksum, keeper_checksum, checked.
  destruct (wired cfg) eqn:Hw; [|intros _; by rewrite app_nil_r].
  intros (vault & Hv & ([] & Hkey & (keeper & Hkeep & _)%res_bind_ok)%res_bind_ok)%res_bind_ok.
  unfold wired in Hw. apply andb_true_iff in Hw as [_ Hkk%negb_true_iff].
  rewrite Hv, Hkeep. unfold raw_vault, keeper_key, keeper_address in *.
  erewrite py_bind_ok by (by apply Submitter_init_ok).
  erewrite py_bind_ok by apply keeper_address_ok.
  erewrite py_bind_ok by (by apply Simulator_init_ok).
  rewrite <-app_assoc, length_app, Nat.add_assoc. done.
Qed.

Lemma signers_err m os client aave uniswap e :
  signers_valid = Err e →
  ∃ os', make_signers cfg client aave uniswap (grown m os) = (Err e, grown m os').
Proof.
  unfold signers_valid, make_signers. destruct (wired cfg) eqn:Hw; [|done].
  unfold wired in Hw. apply andb_true_iff in Hw as [_ Hkk%negb_true_iff].
  unfold raw_vault, keeper_key, keeper_address in *.
  intros [Hv|(vault & Hv & [Hk|([] & Hk & [Ha|(keeper & _ & He)]%res_bind_err)]%res_bind_err)]%res_bind_err; [..|done].
  - exists os. apply py_bind_err. unfold Submitter_init. by rewrite Hkk, (py_bind_err _ _ _ e (grown m os)) by
      (unfold of_res; by rewrite Hv).
  - exists os. apply py_bind_err. unfold Submitter_init. rewrite Hkk, (of_res_ok _ _ _ vault) by done.
    apply py_bind_err. unfold of_res. by rewrite Hk.
  - eexists. erewrite py_bind_ok by (by apply Submitter_init_ok).
    erewrite py_bind_ok by apply keeper_address_ok. apply py_bind_err. unfold Simulator_init.
    rewrite (of_res_ok _ _ _ vault) by done. apply py_bind_err. unfold of_res. by rewrite Ha.
Qed.

(** The service, with the switch of the settings; the worker. *)
Lemma service_worker_step {B} m os p mo i b c si su (f : loc → loc → py B) :
  let n := (length (mc_heap m) + length os)%nat in
  (service ← ProtectionService_init p mo i b c si su;
   _ ← set_autonomous_enabled service (autonomous_enabled_setting cfg);
   worker ← alloc (OWorker service (flit (poll_interval_seconds cfg))); f service worker) (grown m os) =
  f n (n + 1)%nat
    (grown m (os ++ [OProtectionService p mo i b c si su [] [] (autonomous_enabled_setting cfg);
                     OWorker n (flit (poll_interval_seconds cfg))])).
Proof.
  intros n. unfold ProtectionService_init. rewrite alloc_then.
  set (os1 := os ++ [_]).
  assert (set_autonomous_enabled n (autonomous_enabled_setting cfg) (grown m os1) =
    (Ok tt, grown m (os ++ [OProtectionService p mo i b c si su [] [] (autonomous_enabled_setting cfg)]))) as E.
  { unfold set_autonomous_enabled, n, os1.
    erewrite py_bind_ok by (apply load_grown; by rewrite list_lookup_middle).
    cbv beta iota. rewrite store_grown, insert_app_r_alt, Nat.sub_diag by lia. done. }
  rewrite (py_bind_ok _ _ _ _ _ E), alloc_then, <-app_assoc, length_app, Nat.add_assoc. done.
Qed.

Lemma lookup_at {A} (h os : list A) k : (h ++ os) !! (length h + k)%nat = os !! k.
Proof. rewrite lookup_app_r by lia. f_equal. lia. Qed.

Lemma NoDup_at n ks : bool_decide (NoDup ks) = true → NoDup (Nat.add n <$> ks).
Proof. intros Hk%bool_decide_eq_true. apply NoDup_fmap_2; [|done]. intros x y. lia. Qed.

(** Every object of the layout is where it should be: a computation. *)
Ltac in_layout := intros i l o; do 17 (destruct i as [|i];
  [intros [= <- <-]; rewrite <-?Nat.add_assoc, lookup_at; reflexivity|]); done.

(** The graph that [make_container] leaves, when every constructor accepts the settings. *)
Lemma make_container_ok m w :
  build_container cfg = Ok w →
  ∃ os, make_container cfg m = (Ok (r_container (refs_at (length (mc_heap m)))), grown m os) ∧
    rep cfg (refs_at (length (mc_heap m))) w (mc_heap m ++ os).
Proof.
  unfold build_container. case_bool_decide as Hu; [done|].
  intros (br & Hbr & ([] & Hs & (k & Hk & [= <-])%res_bind_ok)%res_bind_ok)%res_bind_ok.
  pose proof (KeeperConfig_validate_ok _ _ Hk) as [-> _].
  unfold make_container. rewrite core_step by done. set (n := length (mc_heap m)).
  rewrite (of_res_ok _ _ _ br) by done. allocs.
  rewrite (py_bind_ok _ _ _ _ _ (signers_ok _ _ _ _ _ Hs)).
  unfold rep, layout, refs_at, signer_objects. destruct (wired cfg) eqn:Hw; cbv beta iota.
  - rewrite service_worker_step, (of_res_ok _ _ _ _ Hk), alloc_grown. cbn [app length core_objects].
    eexists. split; [f_equal; f_equal; cbn; lia|].
    cbn -[Nat.add]. subst n. split; [in_layout|].
    rewrite <-!Nat.add_assoc. by apply (NoDup_at _ [0;1;2;3;4;5;6;7;8;9;10;11;14;15;16;12;13])%nat.
  - rewrite service_worker_step, (of_res_ok _ _ _ _ Hk), alloc_grown. cbn [app length core_objects].
    eexists. split; [f_equal; f_equal; cbn; lia|].
    cbn -[Nat.add]. subst n. split; [in_layout|].
    rewrite <-!Nat.add_assoc. by apply (NoDup_at _ [0;1;2;3;4;5;6;7;8;9;10;11;12;13;14])%nat.
Qed.

(** When a constructor raises, so does [make_container]; what it allocated is garbage. *)
Lemma make_container_err m e :
  build_container cfg = Err e → ∃ os, make_container cfg m = (Err e, grown m os).
Proof.
  unfold build_container, make_container. case_bool_decide as Hu.
  { intros [= <-]. exists []. unfold ChainClient_init. by rewrite bool_decide_eq_true_2, grown_nil. }
  rewrite core_step by done. intros [Hb|(br & Hbr & Hs)]%res_bind_err.
  { eexists. apply py_bind_err. unfold of_res. by rewrite Hb. }
  rewrite (of_res_ok _ _ _ br) by done. allocs.
  apply res_bind_err in Hs as [Hs|([] & Hs & Hk)].
  - destruct (signers_err m ((core_objects (length (mc_heap m)) ++ [OCircuitBreaker br]) ++ [OCounters []])
      (length (mc_heap m) + 0) (length (mc_heap m) + 1) (length (mc_heap m) + 2) e Hs) as [os Ho].
    exists os. by apply py_bind_err.
  - rewrite (py_bind_ok _ _ _ _ _ (signers_ok _ _ _ _ _ Hs)). apply res_bind_err in Hk as [Hk|(? & _ & ?)]; [|done].
    destruct (wired cfg); (eexists; cbv beta iota; rewrite service_worker_step;
      apply py_bind_err; unfold of_res; by rewrite Hk).
Qed.

End build.

(** ** Writes *)
Section writes.
Context `{EthUtils} `{EthAccount} (cfg : Settings) (r : refs).

(** One write to an object of the graph is one write to the world. *)
Ltac written i := intros Hr; eapply (rep_write cfg i r); [exact Hr|reflexivity|];
  unfold layout; destruct (wired cfg); reflexivity.

Lemma write_active w h n :
  rep cfg r w h →
  rep cfg r (Client.set_active n w)
    (<[r_client r := OChainClient (Client.urls cfg) (rpc_timeout_seconds cfg) (rpc_max_retries cfg)
                       (build_provider cfg <$> Client.urls cfg) n []]> h).
Proof. written 0%nat. Qed.

Lemma write_pool_address w h a :
  rep cfg r w h →
  rep cfg r (set_pool_address a w) (<[r_aave r := OAaveClient (r_client r) (Some a)]> h).
Proof. written 1%nat. Qed.

Lemma write_oracle_address w h a :
  rep cfg r w h →
  rep cfg r (set_oracle_address a w) (<[r_oracle r := OOracleClient (r_client r) (Some a)]> h).
Proof. written 3%nat. Qed.

Lemma write_decimals w h t d :
  rep cfg r w h →
  rep cfg r (set_decimals t d w)
    (<[r_erc20 r := OERC20Client (r_client r) (dset (cl_decimals (w_chain w)) t d)]> h).
Proof. written 4%nat. Qed.

Lemma write_pvols w h v :
  rep cfg r w h →
  rep cfg r (set_pvols v w) (<[r_pmonitor r := OPositionMonitor (r_aave r) (r_oracle r) v VOL_WINDOW]> h).
Proof. written 5%nat. Qed.

Lemma write_vols w h v :
  rep cfg r w h →
  rep cfg r (set_vols v w) (<[r_monitor r := OPositionMonitor (r_aave r) (r_oracle r) v VOL_WINDOW]> h).
Proof. written 8%nat. Qed.

Lemma write_inflight w h i :
  rep cfg r w h → rep cfg r (set_inflight i w) (<[r_inflight r := OInFlightRegistry i]> h).
Proof. written 9%nat. Qed.

Lemma write_breaker w h b :
  rep cfg r w h → rep cfg r (set_breaker b w) (<[r_breaker r := OCircuitBreaker b]> h).
Proof. written 10%nat. Qed.

Lemma write_counters w h c :
  rep cfg r w h → rep cfg r (set_counters c w) (<[r_counters r := OCounters c]> h).
Proof. written 11%nat. Qed.

Definition service_obj (registry : dict string (RiskParams * string)) (states : dict string PositionState)
    (autonomous : bool) : obj :=
  OProtectionService (r_pipeline r) (r_monitor r) (r_inflight r) (r_breaker r) (r_counters r)
    (if wired cfg then Some (r_simulator r) else None) (if wired cfg then Some (r_submitter r) else None)
    registry states autonomous.

Lemma write_registry w h g :
  rep cfg r w h →
  rep cfg r (set_registry g w) (<[r_service r := service_obj g (w_states w) (w_autonomous w)]> h).
Proof. unfold service_obj. written 12%nat. Qed.

Lemma write_states w h d :
  rep cfg r w h →
  rep cfg r (set_states d w) (<[r_service r := service_obj (w_registry w) d (w_autonomous w)]> h).
Proof. unfold service_obj. written 12%nat. Qed.

Lemma write_autonomous w h b :
  rep cfg r w h →
  rep cfg r (set_autonomous b w) (<[r_service r := service_obj (w_registry w) (w_states w) b]> h).
Proof. unfold service_obj. written 12%nat. Qed.

Lemma write_config w h k :
  rep cfg r w h →
  rep cfg r (set_config k w) (<[r_container r := OServiceContainer (r_service r) (r_worker r) k (r_client r)]> h).
Proof. written 14%nat. Qed.

Lemma write_max_bumps w h n :
  wired cfg = true → rep cfg r w h →
  rep cfg r (set_max_bumps n w)
    (<[r_simulator r := OSimulator (r_client r) (r_uniswap r) (vault_checksum cfg) (keeper_checksum cfg) n]> h).
Proof.
  intros Hw Hr. eapply (rep_write cfg 16 r); [exact Hr| |]; unfold layout; rewrite Hw; reflexivity.
Qed.
End writes.

(** ** The configuration, through the accessors *)
Definition with_heap (h : list obj) (m : machine) : machine :=
  {| mc_heap := h; mc_client := mc_client m; mc_container := mc_container m |}.

Section accessors.
Context `{EthUtils} `{EthAccount} (cfg : Settings) (r : refs) (w : World) (m : machine).
Context (Hr : rep cfg r w (mc_heap m)).

Ltac accessed i := erewrite py_bind_ok by (apply load_ok; eapply (rep_lookup cfg i r w); [exact Hr|reflexivity]);
  reflexivity.

Lemma container_service_ok : container_service (r_container r) m = (Ok (r_service r), m).
Proof using Hr. unfold container_service. accessed 14%nat. Qed.
Lemma container_config_ok : container_config (r_container r) m = (Ok (w_config w), m).
Proof using Hr. unfold container_config. accessed 14%nat. Qed.
Lemma service_breaker_ok : service_breaker (r_service r) m = (Ok (r_breaker r), m).
Proof using Hr. unfold service_breaker. accessed 12%nat. Qed.
Lemma service_inflight_ok : service_inflight (r_service r) m = (Ok (r_inflight r), m).
Proof using Hr. unfold service_inflight. accessed 12%nat. Qed.
Lemma service_monitor_ok : service_monitor_ref (r_service r) m = (Ok (r_monitor r), m).
Proof using Hr. unfold service_monitor_ref. accessed 12%nat. Qed.
Lemma service_simulator_ok :
  service_simulator (r_service r) m = (Ok (if wired cfg then Some (r_simulator r) else None), m).
Proof using Hr. unfold service_simulator. accessed 12%nat. Qed.

Lemma set_autonomous_ok v :
  set_autonomous_enabled (r_service r) v m =
  (Ok tt, with_heap (<[r_service r := service_obj cfg r (w_registry w) (w_states w) v]> (mc_heap m)) m).
Proof using Hr. unfold set_autonomous_enabled. accessed 12%nat. Qed.

Lemma set_breaker_max_ok v :
  set_breaker_max (r_breaker r) v m =
  match set_max_consecutive_failures (w_breaker w) v with
  | Ok b => (Ok tt, with_heap (<[r_breaker r := OCircuitBreaker b]> (mc_heap m)) m)
  | Err e => (Err e, m)
  end.
Proof using Hr.
  unfold set_breaker_max.
  erewrite py_bind_ok by (apply load_ok; eapply (rep_lookup cfg 10 r w); [exact Hr|reflexivity]).
  unfold mbind, py_bind, of_res. by destruct (set_max_consecutive_failures _ v).
Qed.

Lemma set_cooldown_ok v :
  set_inflight_cooldown (r_inflight r) v m =
  (Ok tt, with_heap (<[r_inflight r := OInFlightRegistry (set_cooldown_seconds (w_inflight w) v)]> (mc_heap m)) m).
Proof using Hr. unfold set_inflight_cooldown. accessed 9%nat. Qed.

Lemma set_bumps_ok v :
  wired cfg = true →
  set_simulator_bumps (r_simulator r) v m =
  (Ok tt, with_heap (<[r_simulator r := OSimulator (r_client r) (r_uniswap r) (vault_checksum cfg)
                         (keeper_checksum cfg) v]> (mc_heap m)) m).
Proof using Hr.
  intros Hw. unfold set_simulator_bumps.
  erewrite py_bind_ok by (apply load_ok; eapply (rep_lookup cfg 16 r w); [exact Hr|unfold layout; by rewrite Hw]).
  reflexivity.
Qed.

Lemma set_config_ok k :
  set_container_config (r_container r) k m =
  (Ok tt, with_heap (<[r_container r := OServiceContainer (r_service r) (r_worker r) k (r_client r)]> (mc_heap m)) m).
Proof using Hr. unfold set_container_config. accessed 14%nat. Qed.
End accessors.

Section refinement.
Context `{EthUtils} `{EthAccount} (cfg : Settings).

(** The [if c.service.simulator is not None] of [apply_config]. *)
Lemma apply_bumps r w m n :
  rep cfg r w (mc_heap m) →
  ∃ h, rep cfg r (if wired cfg then set_max_bumps n w else w) h ∧
    (match (if wired cfg then Some (r_simulator r) else None) with
     | None => mret tt
     | Some _ => s ← container_service (r_container r); si ← service_simulator s;
         match si with Some l => set_simulator_bumps l n | None => attribute_error end
     end) m = (Ok tt, with_heap h m).
Proof.
  intros Hr. destruct (wired cfg) eqn:Hw.
  - eexists. split; [by apply write_max_bumps|].
    erewrite py_bind_ok by (by eapply container_service_ok).
    erewrite py_bind_ok by (by eapply service_simulator_ok). rewrite Hw. by apply (set_bumps_ok cfg r w m Hr).
  - exists (mc_heap m). by destruct m.
Qed.

(** [apply_config] as the coroutine of [Deps] and as the writes to the objects. *)
Lemma apply_config_objects_refines (R : World → World → Prop) r w m new :
  rep cfg r w (mc_heap m) → mc_container m = Some (r_container r) →
  ∃ res w' h', exec R (apply_config cfg new) w [] res w' ∧
    apply_config_objects cfg new m = (res, with_heap h' m) ∧ rep cfg r w' h'.
Proof.
  intros Hr Hc. unfold apply_config_objects, get_container. rewrite py_bind_assoc.
  erewrite (py_bind_ok global_container) by reflexivity. rewrite Hc. cbv beta iota.
  erewrite (py_bind_ok (mret _)) by reflexivity.
  erewrite py_bind_ok by (by eapply container_service_ok).
  erewrite py_bind_ok by (by eapply set_autonomous_ok).
  apply (write_autonomous cfg r _ _ (kc_autonomous_enabled new)) in Hr.
  set (w1 := set_autonomous _ w) in Hr. set (m1 := with_heap _ m).
  change (rep cfg r w1 (mc_heap m1)) in Hr.
  erewrite py_bind_ok by (by eapply container_service_ok).
  erewrite py_bind_ok by (by eapply service_breaker_ok).
  pose proof (set_breaker_max_ok cfg r w1 m1 Hr (kc_breaker_max_consecutive_failures new)) as Hb.
  destruct (set_max_consecutive_failures (w_breaker w1) _) as [b|e] eqn:Hset.
  2:{ exists (Err e), w1, (mc_heap m1). split; [|split; [|done]].
      - unfold apply_config. cbn -[set_max_consecutive_failures set_cooldown_seconds].
        do 3 constructor. unfold w1 in Hset. rewrite Hset. constructor.
      - by apply py_bind_err. }
  erewrite py_bind_ok by exact Hb.
  apply (write_breaker cfg r _ _ b) in Hr.
  set (w2 := set_breaker _ w1) in Hr. set (m2 := with_heap _ m1). change (rep cfg r w2 (mc_heap m2)) in Hr.
  erewrite py_bind_ok by (by eapply container_service_ok).
  erewrite py_bind_ok by (by eapply service_inflight_ok).
  erewrite py_bind_ok by (by eapply set_cooldown_ok).
  apply (write_inflight cfg r _ _ (set_cooldown_seconds (w_inflight w2) (flit (kc_inflight_cooldown_seconds new)))) in Hr.
  set (w3 := set_inflight _ w2) in Hr. set (m3 := with_heap _ m2). change (rep cfg r w3 (mc_heap m3)) in Hr.
  erewrite py_bind_ok by (by eapply container_service_ok).
  erewrite py_bind_ok by (by eapply service_simulator_ok).
  destruct (apply_bumps r w3 m3 (kc_max_simulation_bumps new) Hr) as (h4 & Hr4 & E4).
  erewrite py_bind_ok by exact E4. set (m4 := with_heap h4 m3). set (w4 := if wired cfg then _ else _) in Hr4. change (rep cfg r w4 (mc_heap m4)) in Hr4.
  erewrite py_bind_ok by (by eapply set_config_ok).
  apply (write_config cfg r _ _ new) in Hr4. set (m5 := with_heap _ m4).
  exists (Ok new), (set_config new w4), (mc_heap m5). split; [|split; [|done]].
  - unfold apply_config. cbn -[set_max_consecutive_failures set_cooldown_seconds].
    do 3 constructor. unfold w1 in Hset. rewrite Hset. cbn -[set_cooldown_seconds]. do 4 constructor.
    subst w4. destruct (wired cfg); cbn -[set_cooldown_seconds]; repeat constructor.
  - rewrite (container_config_ok cfg r (set_config new w4) m5 Hr4). done.
Qed.
(** C39: The object graph behind the shared state.  The first [get_container] either raises the
    exception of [Deps.build_container] and leaves no container, or builds the graph whose
    attributes are exactly its initial state: one chain client under every typed client, one
    Aave, oracle, Uniswap and ERC20 client under both monitors, the pipeline, the selector,
    the simulator and the submitter, two distinct monitors, and a simulator and a submitter
    exactly when a vault and a key are configured; the process-wide client is not touched and
    no object that existed before is written.  From then on [apply_config] through the
    accessors of the service does to the objects what [Deps.apply_config] does to the state. *)
Theorem wiring_refines (R : World → World → Prop) m :
  mc_container m = None →
  match build_container cfg with
  | Err e => ∃ m', get_container cfg m = (Err e, m') ∧ mc_container m' = None ∧
      mc_client m' = mc_client m ∧ mc_heap m `prefix_of` mc_heap m'
  | Ok w => ∃ r m', get_container cfg m = (Ok (r_container r), m') ∧
      get_container cfg m' = (Ok (r_container r), m') ∧
      mc_client m' = mc_client m ∧ mc_heap m `prefix_of` mc_heap m' ∧ rep cfg r w (mc_heap m') ∧
      ∀ w1 h1 new, rep cfg r w1 h1 → ∃ res w2 h2,
        exec R (apply_config cfg new) w1 [] res w2 ∧
        apply_config_objects cfg new (with_heap h1 m') = (res, with_heap h2 m') ∧ rep cfg r w2 h2
  end.
Proof.
  intros Hn. unfold get_container.
  erewrite (py_bind_ok global_container) by reflexivity. rewrite Hn. cbv beta iota.
  destruct (build_container cfg) as [w|e] eqn:Hb.
  - destruct (make_container_ok cfg m w Hb) as (os & Hm & Hr).
    set (r := refs_at cfg _) in *. exists r.
    exists {| mc_heap := mc_heap m ++ os; mc_client := mc_client m; mc_container := Some (r_container r) |}.
    split; [by rewrite (py_bind_ok _ _ _ _ _ Hm)|]. split; [done|]. split; [done|].
    split; [by eexists|]. split; [done|]. intros w1 h1 new Hr1.
    set (m1 := with_heap h1 _).
    destruct (apply_config_objects_refines R r w1 m1 new) as (res & w2 & h2 & He & Ha & Hr2); [done..|].
    by exists res, w2, h2.
  - destruct (make_container_err cfg m e Hb) as [os Hm]. eexists.
    split; [by apply py_bind_err|]. split; [done|]. split; [done|]. by eexists.
Qed.
End refinement.

(** A process that has already made its process-wide client. *)
Definition demo_machine : machine := {|
  mc_heap := [OChainClient ["http://other"] (flit 20) 3 [] 0 []]; mc_client := Some 0%nat;
  mc_container := None |}.

Lemma wiring_refines_witness :
  wired demo_settings = true ∧
  ∃ r m', @get_container eth_plain eth_account_plain demo_settings demo_machine = (Ok (r_container r), m') ∧
    r_monitor r ≠ r_pmonitor r ∧ mc_client m' = Some 0%nat ∧
    ∃ res h, @apply_config_objects eth_plain eth_account_plain demo_settings (w_config world0)
      (with_heap (mc_heap m') m') = (res, with_heap h m').
Proof.
  split; [reflexivity|].
  pose proof (@wiring_refines eth_plain eth_account_plain demo_settings eq demo_machine eq_refl) as Hw.
  destruct (@build_container eth_plain eth_account_plain demo_settings) as [w|e] eqn:E;
    [|vm_compute in E; discriminate E].
  destruct Hw as (r & m' & Hg & _ & Hc & _ & Hr & Ha). exists r, m'. split; [exact Hg|].
  split; [|split; [exact Hc|]].
  - destruct Hr as [_ Hn]. intros Heq.
    discriminate (NoDup_lookup _ 5 8 (r_monitor r) Hn); [cbn; rewrite Heq; reflexivity|reflexivity].
  - destruct (Ha w (mc_heap m') (w_config world0) Hr) as (res & w2 & h2 & _ & He & _).
    exists res, h2. exact He.
Defined.
