(* ===== verification/Routes.v ===== *)
(** * api/routes_positions.py, routes_config.py, routes_metrics.py: the control API

    Each handler as a coroutine; an [HTTPException] is the exception it ends with. *)
From S2P Require Import Prelude PyFloat Config State InFlight Breaker Observability Models.
From S2P Require Import Risk Events Io Logic World Api Chain Monitor Pipeline Simulator.
From S2P Require Import Submitter Service Deps.

Definition http_error (status : Z) (detail : string) : exn := Exn (HTTPException status) detail.

(** [_require_match] *)
Definition require_match (borrower : string) (body : ProtectRequest) : res unit :=
  if String.eqb (str_lower (rp_borrower (pr_params body))) (str_lower borrower) then Ok tt
  else Err (http_error 400 "path borrower != signed params.borrower").

(** [_chain_error] *)
Definition chain_error (e : exn) : exn :=
  if is_ValueError e then http_error 400 ("Invalid request: " +:+ exn_msg e)
  else http_error 503 ("Chain RPC error: " +:+ exn_msg e).

(** The dictionary [get_position] returns. *)
Record PositionView := {
  pv_borrower : string;
  pv_state : string;
  pv_hf : f64;
  pv_collateral_usd : f64;
  pv_debt_usd : f64;
  pv_has_debt : bool;
  pv_registered : bool;
}.

Section routes.
Context `{ProtectionDeps}.

Definition get_position (borrower : string) : prog PositionView :=
  registered ← gets (λ w, params_of w borrower);
  let trigger := match registered with Some (p, _) => rp_hf_trigger_bps p | None => 11500 end in
  try_except
    (snap ← snapshot borrower trigger;
     c ← lift (collateral_usd (ps_account snap));
     d ← lift (debt_usd (ps_account snap));
     Ret {| pv_borrower := borrower; pv_state := state_value (ps_state snap);
            pv_hf := ps_hf snap; pv_collateral_usd := c; pv_debt_usd := d;
            pv_has_debt := has_debt (ps_account snap);
            pv_registered := match registered with Some _ => true | None => false end |})
    (λ e, Raise (http_error 503 ("Chain RPC error querying borrower state: " +:+ exn_msg e))).

Definition get_assessment (borrower : string) : prog AssessmentResponse :=
  registered ← gets (λ w, params_of w borrower);
  match registered with
  | None => Raise (http_error 404 "borrower not registered; POST params first")
  | Some (params, _) =>
      try_except (service_assess params None) (λ e, Raise (chain_error e))
  end.

Definition post_assessment (borrower : string) (body : ProtectRequest) : prog AssessmentResponse :=
  _ ← lift (require_match borrower body);
  _ ← register (pr_params body) (pr_signature body);
  try_except (service_assess (pr_params body) None) (λ e, Raise (chain_error e)).

Definition post_protect (borrower : string) (body : ProtectRequest) : prog ProtectResponse :=
  _ ← lift (require_match borrower body);
  try_except (protect (pr_params body) (pr_signature body)) (λ e, Raise (chain_error e)).
End routes.

(** [GET /metrics], [POST /breaker/reset], [GET /config] *)
Definition get_metrics : prog MetricsSnapshot := gets metrics.
Definition post_reset : prog MetricsSnapshot := _ ← reset_breaker; gets metrics.
Definition get_config : prog KeeperConfig := gets w_config.

(** ** Lemmas *)
Definition is_http (e : exn) : Prop := ∃ st, exn_kind e = HTTPException st ∧ 400 ≤ st < 600.

Lemma chain_error_http e : is_http (chain_error e).
Proof.
  unfold chain_error. destruct (is_ValueError e); eexists; (split; [done|lia]).
Qed.

Section route_lemmas.
Context {D : ProtectionDeps} {DL : ProtectionDepsLaws D} (R : World → World → Prop).

Lemma wp_http_boundary {A} (q : prog A) (h : exn → exn) w :
  (∀ e, is_http (h e)) →
  wp R (try_except q (λ e, Raise (h e)))
    (λ _ r _, ∀ e, r = Err e → is_http e ∨ is_Exception e = false) w.
Proof.
  intros Hh. rewrite wp_try_except. apply exec_wp. intros tr [a|e] w1 _; [done|].
  destruct (is_Exception e) eqn:E; [rewrite wp_raise|]; intros ? [= <-]; auto.
Qed.

Lemma require_match_http b body e : require_match b body = Err e → is_http e.
Proof.
  unfold require_match. destruct (String.eqb _ _); [done|]. intros [= <-].
  eexists. split; [done|lia].
Qed.

Lemma get_position_http b w :
  wp R (get_position b) (λ _ r _, ∀ e, r = Err e → is_http e ∨ is_Exception e = false) w.
Proof.
  unfold get_position. rewrite wp_bind, wp_gets. apply wp_http_boundary.
  intros e. eexists. split; [done|lia].
Qed.

Lemma get_assessment_http b w :
  wp R (get_assessment b) (λ _ r _, ∀ e, r = Err e → is_http e ∨ is_Exception e = false) w.
Proof.
  unfold get_assessment. rewrite wp_bind, wp_gets. destruct (params_of _ _) as [[p s]|].
  - apply wp_http_boundary, chain_error_http.
  - rewrite wp_raise. intros ? [= <-]. left. eexists. split; [done|lia].
Qed.

Lemma post_protect_http b body w :
  wp R (post_protect b body) (λ _ r _, ∀ e, r = Err e → is_http e ∨ is_Exception e = false) w.
Proof.
  unfold post_protect. rewrite wp_bind, wp_lift.
  destruct (require_match b body) as [u|e] eqn:E; [|naive_solver eauto using require_match_http].
  apply wp_http_boundary, chain_error_http.
Qed.

Lemma post_assessment_http b body w :
  wp R (post_assessment b body) (λ _ r _, ∀ e, r = Err e → is_http e ∨ is_Exception e = false) w.
Proof.
  unfold post_assessment. rewrite wp_bind, wp_lift.
  destruct (require_match b body) as [u|e] eqn:E; [|naive_solver eauto using require_match_http].
  unfold register. rewrite wp_bind, wp_bind, wp_modify, wp_modify.
  apply wp_http_boundary, chain_error_http.
Qed.
End route_lemmas.

Lemma exec_err_http {A} {D : ProtectionDeps} R (p : prog A) w tr e w' :
  wp R p (λ _ r _, ∀ e, r = Err e → is_http e ∨ is_Exception e = false) w →
  exec R p w tr (Err e) w' → is_http e ∨ is_Exception e = false.
Proof. intros Hp He. by apply (wp_exec R _ _ w Hp _ _ _ He). Qed.

(** ** Claims *)

(** The position routes fail cleanly: whatever the chain answers, a handler that does not
    return ends with an HTTP error in the 4xx or 5xx range or with a cancellation, never with
    a bare exception of the pipeline; and a protect call whose path names another borrower
    than the signed mandate is a 400 that asks the chain nothing and stores nothing
    (FR-13). *)
Theorem control_api_errors {D : ProtectionDeps} (R : World → World → Prop) b body w tr w' :
  (∀ e, exec R (get_position b) w tr (Err e) w' ∨ exec R (get_assessment b) w tr (Err e) w' ∨
        exec R (post_assessment b body) w tr (Err e) w' ∨
        exec R (post_protect b body) w tr (Err e) w' → is_http e ∨ is_Exception e = false) ∧
  (∀ r, str_lower (rp_borrower (pr_params body)) ≠ str_lower b →
        exec R (post_protect b body) w tr r w' →
        tr = [] ∧ w' = w ∧ r = Err (http_error 400 "path borrower != signed params.borrower")).
Proof.
  split.
  - intros e [He|[He|[He|He]]]; eapply exec_err_http; try exact He.
    + apply get_position_http.
    + apply get_assessment_http.
    + apply post_assessment_http.
    + apply post_protect_http.
  - intros r Hne. revert tr r w'. apply wp_exec. unfold post_protect.
    rewrite wp_bind, wp_lift. unfold require_match.
    by destruct (String.eqb_spec (str_lower (rp_borrower (pr_params body))) (str_lower b)).
Qed.

Lemma control_api_errors_witness :
  ∃ tr e w', seq_exec (@get_position demo_deps "0xb0b") world0 tr (Err e) w' ∧ is_http e ∧
    (∀ r tr1 w1,
      seq_exec (@post_protect demo_deps "0xother"
        {| pr_params := demo_params; pr_signature := "0x01" |}) world0 tr1 r w1 →
      tr1 = [] ∧ w1 = world0).
Proof.
  destruct (run no_chain (@get_position demo_deps "0xb0b") world0 tt) as [[[tr r] w'] u] eqn:E.
  pose proof (run_exec _ eq _ _ _ _ _ _ _ E) as He. vm_compute in E. injection E as _ Er _ _.
  subst r. eexists tr, _, w'. split; [exact He|]. split.
  - destruct (@control_api_errors demo_deps eq "0xb0b"
      {| pr_params := demo_params; pr_signature := "0x01" |} world0 tr w') as [H _].
    destruct (H _ (or_introl He)) as [Hh|Hc]; [exact Hh|]. vm_compute in Hc. discriminate Hc.
  - intros r tr1 w1 He1.
    destruct (@control_api_errors demo_deps eq "0xother"
      {| pr_params := demo_params; pr_signature := "0x01" |} world0 tr1 w1) as [_ H].
    destruct (H r ltac:(intros Hx; vm_compute in Hx; discriminate Hx) He1) as (Ht & Hw & _).
    split; [exact Ht|exact Hw].
Defined.
