(* ===== verification/Concurrency.v ===== *)
(** * FR-16 on the event loop: one rescue in flight per borrower

    The ghost a coroutine owns is the set of borrowers whose in-flight lock it holds.  A
    write may take locks nobody holds and drop its own; a request made on a borrower's behalf
    needs that borrower's lock.  The theorems hold for any number of requests and worker
    ticks interleaved at every [await], whatever the chain answers. *)
From S2P Require Import Prelude PyFloat Config State InFlight Breaker Observability Models.
From S2P Require Import Risk Events Io Logic World Api Chain Monitor Pipeline Simulator.
From S2P Require Import Submitter Service Deps Routes.

Definition locks (w : World) : gset string := lock_set (w_inflight w).

Lemma locks_acquired w b t :
  locks (set_inflight (lock_at (w_inflight w) b t) w) = {[b]} ∪ locks w.
Proof. apply lock_set_lock_at. Qed.

Lemma locks_released w b t :
  locks (set_inflight (release (w_inflight w) b t) w) = locks w ∖ {[b]}.
Proof. apply lock_set_release. Qed.

Definition lock_step (g : gset string) (w : World) (g' : gset string) (w' : World) : Prop :=
  locks w' = (locks w ∖ g) ∪ g' ∧ g' ## (locks w ∖ g).

Definition lock_req (g : gset string) (q : req) : Prop := ∀ b, on_behalf q = Some b → b ∈ g.

Section locks.
Context {D : ProtectionDeps} {DL : ProtectionDepsLaws D}.

(** The stored mandates passed the validators and are stored under their borrower. *)
Definition registry_valid (w : World) : Prop :=
  Forall (λ e, dep_valid e.2.1 ∧ rp_borrower e.2.1 = e.1) (w_registry w).

Definition own (g : gset string) (w : World) : Prop :=
  g ⊆ locks w ∧ registry_valid w ∧ world_wf w.

Definition step_ok (g : gset string) (w : World) (g' : gset string) (w' : World) : Prop :=
  lock_step g w g' w' ∧ (registry_valid w → registry_valid w') ∧ (world_wf w → world_wf w').

Lemma step_own g w g' w' : own g w → step_ok g w g' w' → own g' w'.
Proof. unfold own. intros (?&?&?) ([Hl ?]&?&?). rewrite Hl. split_and!; [set_solver|auto|auto]. Qed.

(** A write that leaves the registry of locks alone. *)
Lemma step_same g w w' :
  locks w' = locks w → g ⊆ locks w → (registry_valid w → registry_valid w') →
  (world_wf w → world_wf w') → step_ok g w g w'.
Proof.
  intros Hl Hg Hr Hw. unfold step_ok, lock_step. rewrite Hl. split_and!; [|set_solver|done|done].
  apply set_eq. intros x. rewrite elem_of_union, elem_of_difference.
  destruct (decide (x ∈ g)); set_solver.
Qed.

(** *** Programs that trade no lock *)
Definition same_locks (w w' : World) : Prop :=
  locks w' = locks w ∧ (registry_valid w → registry_valid w') ∧ (world_wf w → world_wf w').

Lemma same_service_locks w w' : same_service w w' → same_locks w w'.
Proof.
  intros Hs. unfold same_service, service_view in Hs. simplify_eq.
  unfold same_locks, locks, registry_valid, world_wf. split_and!; [congruence|congruence|].
  intros (?&?&?&?&?&?). split_and!; congruence.
Qed.

(** The rule for a sub-program that neither takes nor drops a lock. *)
Lemma safe_keep {A} (p : prog A) g w Q :
  own g w → guar same_locks (lock_req g) p w →
  (∀ r w', own g w' → Q r g w') → safe own step_ok lock_req p Q g w.
Proof.
  intros Hown Hp HQ. eapply safe_mono.
  - apply (guar_safe own step_ok lock_req same_locks (lock_req g)); [|done|done|exact Hp].
    intros a b Ha (Hl & Hr & Hw). destruct Ha as (Hg&?&?).
    assert (step_ok g a g b) by by apply step_same. split; [done|].
    by apply (step_own g a).
  - intros r g' w' [-> ?]. auto.
Qed.

Lemma read_lock_req g q : is_read q = true → lock_req g q.
Proof. intros Hq%is_read_on_behalf b. by rewrite Hq. Qed.

Lemma reads_keep {A} (p : prog A) g w : reads p → guar same_locks (lock_req g) p w.
Proof.
  intros Hp. eapply guar_mono; [apply same_service_locks|apply read_lock_req|apply Hp].
Qed.

Lemma modify_keep f g w : (∀ w, same_locks w (f w)) → guar same_locks (lock_req g) (modify f) w.
Proof. apply guar_modify. Qed.

Lemma set_state_keep b s g w : guar same_locks (lock_req g) (set_state b s) w.
Proof.
  apply modify_keep. intros w'. split_and!; [done|done|]. apply (sl_state b _ (keeps_wf_laws b)).
Qed.

Lemma inc_keep n g w : guar same_locks (lock_req g) (inc n) w.
Proof. apply modify_keep. intros w'. split_and!; [done|done|]. apply (sl_inc "" _ (keeps_wf_laws "")). Qed.

Lemma can_start_keep b g w : guar same_locks (lock_req g) (inflight_can_start b) w.
Proof. apply reads_keep. unfold inflight_can_start. reads_auto. Qed.

Lemma registry_valid_dset w b ps :
  dep_valid ps.1 → rp_borrower ps.1 = b → registry_valid w →
  registry_valid (set_registry (dset (w_registry w) b ps) w).
Proof.
  unfold registry_valid; cbn. intros Hv Hb. induction (w_registry w) as [|[k v] l IH]; cbn.
  - intros _. by repeat constructor.
  - intros [? ?]%Forall_cons. destruct (decide (b = k)) as [->|]; constructor; auto.
Qed.

Lemma register_keep p s g w : dep_valid p → guar same_locks (lock_req g) (register p s) w.
Proof.
  intros Hp. apply guar_bind; [apply modify_keep|intros _ w1; apply modify_keep]; intros w'.
  - split_and!; [done|by apply registry_valid_dset|by apply (sl_registry _ _ (keeps_wf_laws (rp_borrower p)))].
  - split_and!; [done|done|apply (sl_default _ _ (keeps_wf_laws (rp_borrower p)))].
Qed.

(** *** Taking and dropping the lock *)
Lemma safe_can_start b g w (Q : res bool → gset string → World → Prop) :
  (∀ ok, (ok = true → b ∉ locks w) → Q (Ok ok) g w) →
  safe own step_ok lock_req (inflight_can_start b) Q g w.
Proof.
  intros HQ. unfold inflight_can_start. cbn. destruct (is_locked (w_inflight w) b) eqn:El.
  - by apply HQ.
  - assert (b ∉ locks w) by (unfold locks; rewrite elem_of_lock_set; congruence).
    destruct (dget _ b); [|by apply HQ]. apply safe_monotonic; [done|]. intros t. by apply HQ.
Qed.

Lemma safe_acquire b w (Q : res bool → gset string → World → Prop) :
  own ∅ w → (Q (Ok false) ∅ w) → (∀ w', own {[b]} w' → Q (Ok true) {[b]} w') →
  safe own step_ok lock_req (inflight_acquire b) Q ∅ w.
Proof.
  intros Hown Hf Ht. unfold inflight_acquire. apply safe_bind, safe_can_start.
  intros [] Hb; cbn [negb]; [|done]. specialize (Hb eq_refl).
  apply safe_monotonic; [done|]. intros t. cbn.
  assert (step_ok ∅ w {[b]} (set_inflight (lock_at (w_inflight w) b t) w)) as Hstep.
  { split; [|split; [done|apply (sl_lock b _ (keeps_wf_laws b))]].
    unfold lock_step. rewrite locks_acquired. set_solver. }
  exists {[b]}. split; [done|]. apply Ht. by eapply step_own.
Qed.

Lemma safe_release b w (Q : res unit → gset string → World → Prop) :
  own {[b]} w → (∀ w', own ∅ w' → Q (Ok tt) ∅ w') →
  safe own step_ok lock_req (inflight_release b) Q {[b]} w.
Proof.
  intros Hown HQ. unfold inflight_release. apply safe_monotonic; [done|]. intros t. cbn.
  assert (step_ok {[b]} w ∅ (set_inflight (release (w_inflight w) b t) w)) as Hstep.
  { split; [|split; [done|apply (sl_release b _ (keeps_wf_laws b))]].
    unfold lock_step. rewrite locks_released. set_solver. }
  exists ∅. split; [done|]. apply HQ. by eapply step_own.
Qed.

Ltac keep_step :=
  match goal with
  | |- guar _ _ (set_state _ _) _ => apply set_state_keep
  | |- guar _ _ (inc _) _ => apply inc_keep
  | |- guar _ _ (inflight_can_start _) _ => apply can_start_keep
  | |- guar _ _ (modify (λ w, set_breaker (record_success _) _)) _ =>
      apply modify_keep; intros; split_and!; [done|done|apply (sl_success "" _ (keeps_wf_laws ""))]
  | |- guar _ _ (modify (λ w, set_breaker (record_failure _) _)) _ =>
      apply modify_keep; intros; split_and!; [done|done|apply (sl_failure "" _ (keeps_wf_laws ""))]
  | |- guar _ _ (gets _) _ => apply guar_gets
  | |- guar _ _ (mbind _ _) _ => apply guar_bind; [|intros ? ?]
  | |- guar _ _ (Ret _) _ => exact I
  | |- guar _ _ (match ?x with _ => _ end) _ => destruct x
  | |- guar _ _ _ _ => apply reads_keep; by eauto with finax
  end.

Lemma submit_block_keep sub b g w :
  (∀ w, guar same_locks (lock_req g) sub w) → guar same_locks (lock_req g) (submit_block sub b) w.
Proof. intros Hsub. unfold submit_block. repeat first [apply Hsub | keep_step]. Qed.

Lemma submit_failed_keep b r e g w : guar same_locks (lock_req g) (submit_failed b r e) w.
Proof. unfold submit_failed. repeat keep_step. Qed.

(** The lock is dropped however the submission ends: returned, failed or cancelled. *)
Lemma guarded_submission_safe sub b r w Q :
  own {[b]} w → (∀ w, guar same_locks (lock_req {[b]}) sub w) →
  (∀ o w', own ∅ w' → Q o ∅ w') →
  safe own step_ok lock_req (guarded_submission sub b r) Q {[b]} w.
Proof.
  intros Hown Hsub HQ. unfold guarded_submission. apply safe_finally, safe_keep; [done| |].
  - apply guar_try_except.
    + apply guar_bind; [by apply submit_block_keep|done].
    + intros e w1. apply guar_bind; [apply submit_failed_keep|done].
  - intros o w1 Hw1. apply safe_release; [done|]. auto.
Qed.

Definition done_clean {A} (_ : res A) (g : gset string) (w : World) : Prop := g = ∅ ∧ own ∅ w.

Lemma safe_step {A B} (p : prog A) (f : A → prog B) w :
  own ∅ w → guar same_locks (lock_req ∅) p w →
  (∀ a w', own ∅ w' → safe own step_ok lock_req (f a) done_clean ∅ w') →
  safe own step_ok lock_req (a ← p; f a) done_clean ∅ w.
Proof.
  intros Hown Hp Hf. apply safe_bind, safe_keep; [done|done|].
  intros [a|e] w' Hw'; [auto|done].
Qed.

Lemma safe_step_returns {A B} (p : prog A) (f : A → prog B) Φ w :
  own ∅ w → guar same_locks (lock_req ∅) p w → returns p Φ →
  (∀ a w', Φ a → own ∅ w' → safe own step_ok lock_req (f a) done_clean ∅ w') →
  safe own step_ok lock_req (a ← p; f a) done_clean ∅ w.
Proof.
  intros Hown Hp HΦ Hf. apply safe_bind. eapply safe_returns; [exact HΦ|].
  apply safe_keep; [done|done|]. intros [a|e] w' Hw' Ha; [auto|done].
Qed.

Lemma safe_tail {A} (p : prog A) w :
  own ∅ w → guar same_locks (lock_req ∅) p w → safe own step_ok lock_req p done_clean ∅ w.
Proof. intros Hown Hp. apply safe_keep; [done|done|]. by intros. Qed.

(** *** The service's coroutines *)
Lemma submit_phase_safe f p s pl sim resp w :
  dep_submit = Some f → dep_valid p → pl_borrower pl = rp_borrower p → own ∅ w →
  safe own step_ok lock_req (submit_phase f p s pl sim resp) done_clean ∅ w.
Proof.
  intros Hf Hp Hpl Hown. unfold submit_phase. apply safe_bind, safe_acquire; [done| |].
  - cbn [negb]. apply safe_tail; [done|]. repeat keep_step.
  - intros w1 Hw1. cbn [negb]. apply safe_bind, guarded_submission_safe; [done| |].
    + intros w2. eapply guar_mono; [apply same_service_locks| |by apply dep_submit_guar].
      intros q Hq b Hb. rewrite (Hq b Hb). set_solver.
    + intros [[sub|rep]|e] w2 Hw2; [|done|done]. apply safe_tail; [done|]. by repeat keep_step.
Qed.

Lemma rescue_phase_safe p s pl resp w :
  dep_valid p → pl_borrower pl = rp_borrower p → own ∅ w →
  safe own step_ok lock_req (rescue_phase p s pl resp) done_clean ∅ w.
Proof.
  pose proof submit_phase_safe as Hphase. intros Hp Hpl Hown. unfold rescue_phase.
  destruct dep_simulate as [f|] eqn:Ef; [|apply safe_tail; [done|]; by repeat keep_step].
  apply safe_step; [done|by repeat keep_step|]. intros sig w1 Hw1.
  eapply safe_step_returns; [done|by apply reads_keep, dep_simulate_reads
    |by apply dep_simulate_borrower|].
  intros [sim pl'] w2 Hpl' Hw2. cbn in Hpl'.
  destruct (negb _); [apply safe_tail; [done|]; by repeat keep_step|].
  apply safe_step; [done|by repeat keep_step|]. intros _ w3 Hw3.
  destruct dep_submit as [g|]; [|apply safe_tail; [done|]; by repeat keep_step].
  apply Hphase; congruence.
Qed.

Lemma protect_safe p s w :
  dep_valid p → own ∅ w → safe own step_ok lock_req (protect p s) done_clean ∅ w.
Proof.
  intros Hp Hown. unfold protect.
  apply safe_step; [done|by apply register_keep|]. intros _ w1 Hw1.
  apply safe_step; [done|by repeat keep_step|]. intros br w2 Hw2.
  destruct (negb _); [apply safe_tail; [done|]; by repeat keep_step|].
  apply safe_step; [done|by repeat keep_step|]. intros can w3 Hw3.
  destruct (negb _); [apply safe_tail; [done|]; by repeat keep_step|].
  apply safe_step; [done|by repeat keep_step|]. intros _ w4 Hw4.
  apply safe_step; [done|by repeat keep_step|]. intros sigma w5 Hw5.
  eapply safe_step_returns; [done|by apply reads_keep, dep_evaluate_reads
    |by apply dep_evaluate_plan|].
  intros [resp [pl|]] w6 Hpl Hw6; (apply safe_step; [done|by repeat keep_step|]); intros _ w7 Hw7;
    [|apply safe_tail; [done|]; by repeat keep_step].
  destruct (negb _); [apply safe_tail; [done|]; by repeat keep_step|].
  destruct (Hpl pl eq_refl). by apply rescue_phase_safe.
Qed.

Lemma snapshot_safe b t w :
  own ∅ w → safe own step_ok lock_req (snapshot b t) done_clean ∅ w.
Proof. intros Hown. apply safe_tail; [done|]. unfold snapshot. by repeat keep_step. Qed.

Lemma service_assess_safe p s w :
  own ∅ w → safe own step_ok lock_req (service_assess p s) done_clean ∅ w.
Proof. intros Hown. apply safe_tail; [done|]. unfold service_assess. by repeat keep_step. Qed.

(** A handler that logs or rewrites exceptions drops no lock and takes none. *)
Lemma safe_boundary {A} (p : prog A) h w :
  safe own step_ok lock_req p done_clean ∅ w →
  (∀ e w, own ∅ w → guar same_locks (lock_req ∅) (h e) w) →
  safe own step_ok lock_req (try_except p h) done_clean ∅ w.
Proof.
  intros Hp Hh. apply safe_try_except. eapply safe_mono; [exact Hp|].
  intros [a|e] g w1 [-> Hw1]; [done|]. destruct (is_Exception e); [|done]. by apply safe_tail, Hh.
Qed.

Lemma safe_then {A B} (p : prog A) (f : A → prog B) w :
  safe own step_ok lock_req p done_clean ∅ w →
  (∀ a w', own ∅ w' → safe own step_ok lock_req (f a) done_clean ∅ w') →
  safe own step_ok lock_req (a ← p; f a) done_clean ∅ w.
Proof.
  intros Hp Hf. apply safe_bind. eapply safe_mono; [exact Hp|].
  intros [a|e] g w1 [-> Hw1]; [auto|done].
Qed.

Lemma tick_one_safe b p s w :
  dep_valid p → own ∅ w → safe own step_ok lock_req (tick_one b p s) done_clean ∅ w.
Proof.
  intros Hp Hown. unfold tick_one. apply safe_boundary; [|intros; apply inc_keep].
  apply safe_step; [done|by repeat keep_step|]. intros snap w1 Hw1.
  apply safe_step; [done|by repeat keep_step|]. intros _ w2 Hw2.
  apply safe_step; [done|by repeat keep_step|]. intros lk w3 Hw3.
  apply safe_step; [done|by repeat keep_step|]. intros _ w4 Hw4.
  destruct (decide _); [|by apply safe_tail].
  apply safe_step; [done|by repeat keep_step|]. intros br w5 Hw5.
  destruct (allow br); [|by apply safe_tail].
  apply safe_step; [done|by repeat keep_step|]. intros [] w6 Hw6; [|by apply safe_tail].
  apply safe_then; [by apply protect_safe|]. intros. by apply safe_tail.
Qed.

Lemma tick_all_safe es w :
  Forall (λ e, dep_valid e.2.1 ∧ rp_borrower e.2.1 = e.1) es → own ∅ w →
  safe own step_ok lock_req (tick_all es) done_clean ∅ w.
Proof.
  intros Hes. revert w. induction Hes as [|[b [p s]] es [Hp _] _ IH]; intros w Hown; cbn [tick_all].
  - by apply safe_tail.
  - apply safe_then; [by apply tick_one_safe|]. auto.
Qed.

Lemma tick_safe w : own ∅ w → safe own step_ok lock_req tick done_clean ∅ w.
Proof.
  intros Hown. unfold tick. cbn. destruct (w_autonomous w); cbn; [|done].
  apply tick_all_safe; [by destruct Hown as (_&?&_)|done].
Qed.

Lemma worker_rounds_safe i n w :
  own ∅ w → safe own step_ok lock_req (worker_rounds i n) done_clean ∅ w.
Proof.
  revert w. induction n as [|n IH]; intros w Hown; cbn [worker_rounds]; [by apply safe_tail|].
  apply safe_then; [apply safe_boundary; [by apply tick_safe|done]|].
  intros _ w1 Hw1. apply safe_step; [done|by apply reads_keep, reads_await|]. auto.
Qed.

(** *** The operations of the control API that write *)
Lemma registry_valid_dpop w b : registry_valid w → registry_valid (set_registry (dpop (w_registry w) b) w).
Proof.
  unfold registry_valid; cbn. induction (w_registry w) as [|[k v] l IH]; cbn; [done|].
  intros [? ?]%Forall_cons. destruct (decide _); [auto|constructor; auto].
Qed.

Lemma unregister_keep b g w : guar same_locks (lock_req g) (unregister b) w.
Proof.
  apply guar_bind; [apply modify_keep|intros _ w1; apply modify_keep]; intros w'.
  - split_and!; [done|apply registry_valid_dpop|]. intros (?&?&?&?&?&?).
    split_and!; cbn; auto with finax.
  - split_and!; [done|done|]. intros (?&?&?&?&?&?). split_and!; cbn; auto with finax.
Qed.

Lemma reset_breaker_keep g w : guar same_locks (lock_req g) reset_breaker w.
Proof.
  apply modify_keep. intros w'. split_and!; [done|done|]. intros (?&?&?&?&?&?).
  split_and!; cbn; try done. by apply (breaker_step_wf _ Reset).
Qed.

(** Reading a field, checking a new value and storing it, with no suspension in between. *)
Lemma guar_get_modify {A} (f : World → A) (chk : A → res A) (upd : A → World → World)
    {B} (rest : prog B) g w :
  (∀ a, chk (f w) = Ok a → same_locks w (upd a w)) →
  (∀ w', guar same_locks (lock_req g) rest w') →
  guar same_locks (lock_req g) (x ← gets f; y ← lift (chk x); _ ← modify (upd y); rest) w.
Proof. intros Hu Hr. cbn. destruct (chk (f w)) eqn:E; cbn; auto. Qed.

Lemma apply_config_keep cfg new g w :
  kc_max_simulation_bumps new ≤ 10 → guar same_locks (lock_req g) (apply_config cfg new) w.
Proof.
  intros Hb. unfold apply_config.
  apply guar_bind; [by apply modify_keep|]. intros _ w1. apply guar_get_modify.
  { intros br Hbr. unfold set_max_consecutive_failures in Hbr. bsplit; simplify_eq.
    split_and!; [done|done|]. intros (?&Hb1&?). split_and!; cbn; try tauto.
    destruct Hb1 as (?&?&?). split_and!; cbn; [lia|done|done]. }
  intros w2. apply guar_bind; [apply modify_keep; intros; by split_and!|]. intros _ w3.
  apply guar_bind; [|intros _ w4; apply guar_bind; [by apply modify_keep|done]].
  destruct (wired cfg); [|done]. apply modify_keep. intros w5. split_and!; [done|done|].
  intros (?&?&?&?&?&?). by split_and!.
Qed.
End locks.

(** ** The event loop *)

(** The locks held are exactly those the coroutines own, and no two own the same one. *)
Definition compat `{ProtectionDepsLaws} (gs : list (gset string)) (w : World) : Prop :=
  registry_valid w ∧ world_wf w ∧ locks w = ⋃ gs ∧
  ∀ i j gi gj, gs !! i = Some gi → gs !! j = Some gj → i ≠ j → gi ## gj.

Section loop.
Context {D : ProtectionDeps} {DL : ProtectionDepsLaws D} (cfg : Settings).

(** What the process may start: the worker, and the handlers of the control API on a
    validated request body. *)
Inductive entry : task World → Prop :=
  | entry_worker interval n : entry (Task unit (worker_rounds interval n))
  | entry_protect b body : dep_valid (pr_params body) → entry (Task _ (post_protect b body))
  | entry_post_assessment b body :
      dep_valid (pr_params body) → entry (Task _ (post_assessment b body))
  | entry_get_assessment b : entry (Task _ (get_assessment b))
  | entry_get_position b : entry (Task _ (get_position b))
  | entry_unregister b : entry (Task _ (unregister b))
  | entry_metrics : entry (Task _ get_metrics)
  | entry_reset : entry (Task _ post_reset)
  | entry_get_config : entry (Task _ get_config)
  | entry_put_config new : entry (Task _ (put_config cfg new)).

Lemma compat_own gs w i g : compat gs w → gs !! i = Some g → own g w.
Proof.
  intros (?&?&Hl&_) Hi. split_and!; [|done|done]. rewrite Hl.
  intros x Hx. apply elem_of_union_list. exists g. split; [|done].
  by eapply list_elem_of_lookup_2.
Qed.

Lemma compat_start gs w : compat gs w → compat (gs ++ [∅]) w.
Proof.
  intros (?&?&Hl&Hd). split_and!; [done|done| |].
  - rewrite union_list_app_L, Hl. cbn. set_solver.
  - intros i j gi gj Hi Hj Hij.
    apply lookup_app_Some in Hi as [Hi|[_ [_ <-]%list_lookup_singleton_Some]]; [|set_solver].
    apply lookup_app_Some in Hj as [Hj|[_ [_ <-]%list_lookup_singleton_Some]]; [|set_solver].
    by eapply Hd.
Qed.

Lemma compat_step gs w i g g' w' :
  compat gs w → gs !! i = Some g → step_ok g w g' w' → compat (<[i := g']> gs) w'.
Proof.
  intros (Hr&Hw&Hl&Hd) Hi ([Hl' Hg']&Hr'&Hw'). pose proof (lookup_lt_Some _ _ _ Hi).
  assert (∀ j gj, j ≠ i → gs !! j = Some gj → gj ⊆ locks w ∖ g) as Hother.
  { intros j gj Hj Hgj. pose proof (Hd i j g gj Hi Hgj) as Hdis. intros x Hx.
    apply elem_of_difference. split; [|set_solver]. rewrite Hl. apply elem_of_union_list.
    exists gj. split; [|done]. by eapply list_elem_of_lookup_2. }
  split_and!; [auto|auto| |].
  - rewrite Hl'. apply set_eq. intros x.
    rewrite elem_of_union, elem_of_difference, Hl, !elem_of_union_list. split.
    + intros [[(gj & Hj & Hx) Hn]|Hx].
      * apply list_elem_of_lookup in Hj as [j Hj]. exists gj. split; [|done].
        apply list_elem_of_lookup. exists j. rewrite list_lookup_insert_ne; [done|congruence].
      * exists g'. split; [|done]. apply list_elem_of_lookup. exists i.
        by apply list_lookup_insert_eq.
    + intros (gj & Hj & Hx). apply list_elem_of_lookup in Hj as [j Hj].
      destruct (decide (j = i)) as [->|Hji].
      * rewrite list_lookup_insert_eq in Hj by done. simplify_eq. by right.
      * rewrite list_lookup_insert_ne in Hj by done. left.
        specialize (Hother j gj Hji Hj x Hx). split; [|set_solver].
        exists gj. split; [by eapply list_elem_of_lookup_2|done].
  - intros j k gj gk Hj Hk Hjk.
    destruct (decide (j = i)) as [->|Hji]; destruct (decide (k = i)) as [->|Hki]; [done| | |].
    + rewrite list_lookup_insert_eq in Hj by done. rewrite list_lookup_insert_ne in Hk by done.
      simplify_eq. specialize (Hother k gk Hki Hk). set_solver.
    + rewrite list_lookup_insert_eq in Hk by done. rewrite list_lookup_insert_ne in Hj by done.
      simplify_eq. specialize (Hother j gj Hji Hj). set_solver.
    + rewrite list_lookup_insert_ne in Hj, Hk by done. by eapply Hd.
Qed.

Lemma http_boundary_safe {A} (p : prog A) h w :
  safe own step_ok lock_req p done_clean ∅ w →
  safe own step_ok lock_req (try_except p (λ e, Raise (h e))) done_clean ∅ w.
Proof. intros Hp. by apply safe_boundary. Qed.

Lemma entry_clean t w :
  entry t → own ∅ w → safe own step_ok lock_req (task_prog t) done_clean ∅ w.
Proof.
  intros He Hown. destruct He as [i n|b body Hv|b body Hv|b|b|b| | | |new]; cbn [task_prog].
  - by apply worker_rounds_safe.
  - apply safe_step; [done|apply guar_lift|]. intros _ w1 Hw1.
    by apply http_boundary_safe, protect_safe.
  - apply safe_step; [done|apply guar_lift|]. intros _ w1 Hw1.
    apply safe_step; [done|by apply register_keep|]. intros _ w2 Hw2.
    by apply http_boundary_safe, service_assess_safe.
  - apply safe_step; [done|done|]. intros [[p s]|] w1 Hw1; [|by apply safe_tail].
    by apply http_boundary_safe, service_assess_safe.
  - apply safe_step; [done|done|]. intros reg w1 Hw1. apply http_boundary_safe.
    apply safe_then; [by apply snapshot_safe|]. intros snap w2 Hw2.
    apply safe_tail; [done|]. apply guar_bind; [apply guar_lift|]. intros.
    apply guar_bind; [apply guar_lift|done].
  - apply safe_tail; [done|]. apply unregister_keep.
  - by apply safe_tail.
  - apply safe_tail; [done|]. apply guar_bind; [apply reset_breaker_keep|done].
  - by apply safe_tail.
  - unfold put_config. apply safe_bind, safe_lift.
    destruct (KeeperConfig_validate new) as [c|e] eqn:Hc; [|done].
    apply KeeperConfig_validate_ok in Hc as (->&_&_&_&?).
    apply safe_tail; [done|]. apply apply_config_keep. lia.
Qed.

Lemma entry_safe t w :
  entry t → own ∅ w → safe own step_ok lock_req (task_prog t) (λ _ g _, g = ∅) ∅ w.
Proof. intros. eapply safe_mono; [by apply entry_clean|]. by intros ??? []. Qed.

Lemma loop_pool w0 c :
  world_wf w0 → registry_valid w0 → locks w0 = ∅ → preach entry w0 c →
  ∃ gs, compat gs c.2 ∧ Forall2 (task_safe own step_ok lock_req (λ g, g = ∅)) c.1 gs.
Proof.
  intros Hw Hr Hl. apply (pool_invariant entry own step_ok lock_req compat ∅ (λ g, g = ∅));
    [exact compat_own|exact compat_start|exact compat_step|exact entry_safe|].
  split_and!; [done|done|by rewrite Hl|]. intros i j gi gj Hi. by rewrite lookup_nil in Hi.
Qed.

Lemma loop_request gs ts w i A q k b :
  compat gs w → Forall2 (task_safe own step_ok lock_req (λ g, g = ∅)) ts gs →
  ts !! i = Some (Task A (Await q k)) → on_behalf q = Some b →
  ∃ g, gs !! i = Some g ∧ b ∈ g.
Proof.
  intros Hc Hts Hi Hb.
  destruct (pool_request own step_ok lock_req compat (λ g, g = ∅) compat_own (ts, w) i A q k gs)
    as (g & Hg & Hq); [done..|]. exists g. auto.
Qed.

Lemma loop_ended gs ts w :
  compat gs w → Forall2 (task_safe own step_ok lock_req (λ g, g = ∅)) ts gs →
  (∀ t, t ∈ ts → ended (task_prog t)) → locks w = ∅.
Proof.
  intros Hc Hts He. pose proof Hc as (_&_&->&_). apply set_eq. intros x. split; [|set_solver].
  intros (g & Hg & Hx)%elem_of_union_list. apply list_elem_of_lookup in Hg as [i Hi].
  destruct (Forall2_lookup_r _ _ _ _ _ Hts Hi) as (t & Ht & _).
  destruct (pool_ended own step_ok lock_req compat (λ g, g = ∅) compat_own (ts, w) i t gs)
    as (g' & Hg' & ->); [done..| |]; [|congruence].
  apply He. by eapply list_elem_of_lookup_2.
Qed.

(** Run alone, a coroutine gives back the locks it takes, whatever its outcome. *)
Lemma safe_seq_locks {A} (p : prog A) w tr r w' :
  own ∅ w → safe own step_ok lock_req p done_clean ∅ w → exec eq p w tr r w' →
  locks w' = locks w ∧ registry_valid w' ∧ world_wf w'.
Proof.
  intros Hown Hp He.
  destruct (safe_seq_exec own step_ok lock_req (λ g v, own g v ∧ locks v ∖ g = locks w)
    p done_clean ∅ w tr r w') as (g' & [[Hg' Hv] Hl] & -> & _); [naive_solver| |done| |done|].
  - intros g v g' v' [Hg Hv] Hst. split; [by eapply step_own|].
    destruct Hst as ([Hl Hd]&_). rewrite Hl, <-Hv. set_solver.
  - split; [done|set_solver].
  - destruct Hv. split_and!; [set_solver|done|done].
Qed.
End loop.

(** The concrete process of the witnesses, driven up to the broadcast. *)
Definition demo_entry : task World → Prop := @entry demo_deps demo_deps_laws demo_settings.

Definition demo_request : ProtectRequest :=
  {| pr_params := demo_params; pr_signature := "0x01" |}.

Definition demo_suspended (n : nat) : io World ProtectResponse * World :=
  drive (λ q, (demo_chain (Ok tt) (Ok rc_ok) q tt).1) n
    (@post_protect demo_deps (rp_borrower demo_params) demo_request) world0.

(** The borrower the coroutine's pending request is made for. *)
Definition pending_for {S A} (p : io S A) : option string :=
  match p with Await q _ => on_behalf q | _ => None end.

Lemma demo_registry_valid : registry_valid (DL := demo_deps_laws) world0.
Proof. constructor. Qed.

Lemma world0_wf : world_wf world0.
Proof.
  split_and!; cbn; try apply dict_wf_nil; try lia; [split; apply dict_wf_nil|].
  split_and!; cbn; try lia. split; [done|by intros []].
Qed.

Lemma demo_reach :
  preach demo_entry world0 ([Task _ (demo_suspended 15).1], (demo_suspended 15).2).
Proof.
  unfold demo_suspended.
  exact (drive_reach (λ q, (demo_chain (Ok tt) (Ok rc_ok) q tt).1) demo_entry 15
    (@post_protect demo_deps (rp_borrower demo_params) demo_request) world0
    (@entry_protect demo_deps demo_deps_laws demo_settings _ demo_request eq_refl)).
Qed.

Lemma demo_pending : pending_for (demo_suspended 15).1 = Some "0xb0b"%string.
Proof. vm_compute. reflexivity. Qed.

Lemma pending_inv {S A} (p : io S A) b :
  pending_for p = Some b → ∃ q k, p = Await q k ∧ on_behalf q = Some b.
Proof. destruct p as [| | | |q k]; try done. eauto. Qed.

(** ** Claims *)

(** FR-16 on the event loop, for the real components.  Start the process with no rescue
    in flight and let any number of worker loops and control-API requests run, interleaved
    at every [await], with any answers from the chain, cancellations included.  In every
    configuration it can reach: the shared state is well formed and the stored mandates are
    the validated ones of their borrowers; a coroutine that is waiting for a transaction it
    builds or sends for a borrower holds that borrower's in-flight lock, and no other
    coroutine waits for one for the same borrower; and when every coroutine has ended, no
    lock is left behind. *)
Theorem one_rescue_in_flight {U : EthUtils} {UL : EthUtilsLaws U} {E : EthAccount} {L : Libm}
    (cfg : Settings) w0 ts w :
  world_wf w0 → registry_valid (D := real_deps cfg) w0 → locks w0 = ∅ →
  preach (entry (D := real_deps cfg) cfg) w0 (ts, w) →
  world_wf w ∧ registry_valid (D := real_deps cfg) w ∧
  (∀ i A q k b, ts !! i = Some (Task A (Await q k)) → on_behalf q = Some b →
     b ∈ locks w ∧
     ∀ j B q' k', ts !! j = Some (Task B (Await q' k')) → on_behalf q' = Some b → j = i) ∧
  ((∀ t, t ∈ ts → ended (task_prog t)) → locks w = ∅).
Proof.
  intros Hw Hr Hl Hreach.
  destruct (loop_pool cfg w0 (ts, w) Hw Hr Hl Hreach) as (gs & Hc & Hts); cbn in Hc, Hts.
  pose proof Hc as (Hrv&Hwf&Hlk&Hd). split_and!; [done|done| |by apply (loop_ended (D := real_deps cfg) gs ts)].
  intros i A q k b Hi Hb.
  destruct (loop_request (D := real_deps cfg) gs ts w i A q k b Hc Hts Hi Hb) as (g & Hg & Hbg). split.
  - rewrite Hlk. apply elem_of_union_list. exists g. split; [|done]. by eapply list_elem_of_lookup_2.
  - intros j B q' k' Hj Hb'.
    destruct (loop_request (D := real_deps cfg) gs ts w j B q' k' b Hc Hts Hj Hb') as (g' & Hg' & Hbg').
    destruct (decide (j = i)) as [|Hji]; [done|]. specialize (Hd j i g' g Hg' Hg Hji). set_solver.
Qed.

Lemma one_rescue_in_flight_witness :
  ∃ ts w, preach demo_entry world0 (ts, w) ∧
    (∃ q k, ts !! 0%nat = Some (Task ProtectResponse (Await q k)) ∧
       on_behalf q = Some "0xb0b"%string) ∧
    "0xb0b"%string ∈ locks w.
Proof.
  pose proof demo_reach as Hr. pose proof demo_pending as Hp. revert Hr Hp.
  generalize (demo_suspended 15). intros [p w] Hr Hp. cbn [fst snd] in Hr, Hp.
  destruct (pending_inv p _ Hp) as (q & k & -> & Hb).
  exists [Task ProtectResponse (Await q k)], w. split; [exact Hr|].
  split; [exists q, k; split; [reflexivity|exact Hb]|].
  destruct (@one_rescue_in_flight eth_plain eth_plain_laws eth_account_plain libm_test demo_settings
    world0 _ _ world0_wf demo_registry_valid eq_refl Hr) as (_&_&H&_).
  exact (proj1 (H 0%nat _ q k _ eq_refl Hb)).
Defined.

(** A protection run by itself, however it ends (a reply, an exception, a
    cancellation at any [await]), gives back every in-flight lock it takes, leaves the
    registration, the state and the cooldown of every other borrower and the configuration
    as they were, keeps the shared state well formed, and keeps the stored mandates
    validated. *)
Theorem protect_releases {U : EthUtils} {UL : EthUtilsLaws U} {E : EthAccount} {L : Libm}
    (cfg : Settings) p s w tr r w' :
  RiskParams_wf p → world_wf w → registry_valid (D := real_deps cfg) w →
  exec eq (protect (H := real_deps cfg) p s) w tr r w' →
  locks w' = locks w ∧ registry_valid (D := real_deps cfg) w' ∧ world_wf w' ∧
  frame (rp_borrower p) w w'.
Proof.
  intros Hp Hw Hr He. assert (valid_mandate p) as Hv by by destruct Hp as (?&?&?&?&?&?&?&?&?&?).
  assert (own (D := real_deps cfg) ∅ w) as Hown by by split_and!.
  destruct (safe_seq_locks (D := real_deps cfg) _ w tr r w' Hown (protect_safe (DL := real_deps_laws cfg) p s w Hv Hown) He)
    as (?&?&?). split_and!; [done..|].
  eapply (guar_exec (frame (rp_borrower p)) (λ _, True)).
  { eapply exec_rely_mono; [|exact He]. by intros a b ->. }
  apply (protect_guar (D := real_deps cfg) _ _ (frame_laws _)); [done| |done].
  intros f pl p' s' rep m v Hf _ _. exact (dep_submit_same f pl p' s' rep m v Hf).
Qed.

(** The keeper is cancelled while it waits for the receipt: the lock is given back, but the
    state stays [SUBMITTED], as neither handler of [protect] catches a cancellation. *)
Lemma protect_releases_witness :
  ∃ tr r w', seq_exec demo_protect world0 tr (Err r) w' ∧ is_Exception r = false ∧
    locks w' = ∅ ∧ state_of w' "0xb0b" = SUBMITTED.
Proof.
  destruct (run (demo_chain (Ok tt) (Err (Exn CancelledError ""))) demo_protect world0 tt)
    as [[[tr r] w'] u] eqn:Er.
  pose proof (run_exec _ eq _ _ _ _ _ _ _ Er) as He. vm_compute in Er. injection Er as _ Er Ew _.
  destruct (@protect_releases eth_plain eth_plain_laws eth_account_plain libm_test demo_settings
    demo_params "0x01" _ _ _ _ demo_params_wf world0_wf demo_registry_valid He) as (Hl&_).
  subst r. eexists tr, _, w'. split; [exact He|]. split; [reflexivity|].
  split; [rewrite Hl; reflexivity|]. subst w'. reflexivity.
Defined.
