(* ===== verification/Recovery.v ===== *)
(** * The event loop recovers: admitted work ends, and the borrower can be rescued again

    [one_rescue_in_flight] says what the locks exclude; here is what they do not: no schedule
    keeps a lock for ever.  [drains] are the steps of a loop that admits nothing new. *)
From S2P Require Import Prelude PyFloat Config State InFlight Breaker Observability Models.
From S2P Require Import Risk Events Io Logic World Api Chain Monitor Pipeline Simulator.
From S2P Require Import Submitter Service Deps Routes Concurrency.

(** ** Resuming a pool of coroutines *)
Section draining.
Context {S : Type}.

Definition drains : list (task S) * S → list (task S) * S → Prop := pstep (λ _, False).

(** One coroutine is resumed, in some state. *)
Definition resumes (t t' : task S) : Prop :=
  match t with
  | Task A (Await q k) => ∃ ans s p' s', segment (k ans) s p' s' ∧ t' = Task A p'
  | _ => False
  end.

(** Where a segment stops: at the end of the coroutine, or at an [await]. *)
Definition settled (t : task S) : Prop :=
  match task_prog t with
  | Ret _ | Raise _ => True
  | Await q _ => yields q = true
  | _ => False
  end.

Lemma segment_settled {A} (p p' : io S A) s s' : segment p s p' s' → settled (Task A p').
Proof. by induction 1. Qed.

Lemma segment_sn {A} (p : io S A) s p' s' : segment p s p' s' → sn resumes (Task A p').
Proof.
  revert s p' s'. induction p as [a|e|k IH|s1 p IH|q k IH]; intros s p' s' Hseg.
  - refine (match Hseg in segment p1 _ p2 _
      return match p1 with Ret _ => sn resumes (Task A p2) | _ => True end with
      | seg_ret _ _ => _ | _ => I end). by constructor.
  - refine (match Hseg in segment p1 _ p2 _
      return match p1 with Raise _ => sn resumes (Task A p2) | _ => True end with
      | seg_raise _ _ => _ | _ => I end). by constructor.
  - inversion Hseg; subst. eauto.
  - inversion Hseg; subst. eauto.
  - assert (p' = Await q k ∨ ∃ ans, segment (k ans) s p' s') as [->|[ans Hk]].
    { refine (match Hseg in segment p1 s1 p2 s2 return
        match p1 with Await q1 k1 => p2 = Await q1 k1 ∨ ∃ ans, segment (k1 ans) s1 p2 s2 | _ => True end
        with seg_yield _ _ _ _ => _ | seg_sync _ _ ans _ _ _ _ H => _ | _ => I end); eauto. }
    + constructor. intros t' (ans & s1 & p1 & s1' & Hk & ->). eauto.
    + eauto.
Qed.

Inductive resumes_one : list (task S) → list (task S) → Prop :=
  | resumes_at ts i t t' :
      ts !! i = Some t → resumes t t' → resumes_one ts (<[i := t']> ts).

Lemma resumes_one_cons t ts l :
  resumes_one (t :: ts) l →
  (∃ t', resumes t t' ∧ l = t' :: ts) ∨ (∃ ts', resumes_one ts ts' ∧ l = t :: ts').
Proof.
  inversion 1 as [? [|i] u u' Hu Hr]; subst; cbn in *; [left|right]; [naive_solver|].
  eexists. split; [by econstructor|done].
Qed.

Lemma resumes_one_sn ts : Forall (sn resumes) ts → sn resumes_one ts.
Proof.
  induction 1 as [|t ts Ht _ IHts]; [constructor; by inversion 1|].
  revert ts IHts. induction Ht as [t _ IHt]. intros ts Hts.
  induction Hts as [ts Hts IHl]. constructor. intros l Hl.
  apply resumes_one_cons in Hl as [(t' & Ht' & ->)|(ts' & Hts' & ->)]; [|by apply IHl].
  apply IHt; [done|]. by constructor.
Qed.

Lemma drains_inv c c' :
  drains c c' →
  ∃ i A q (k : answer q → io S A) ans p',
    c.1 !! i = Some (Task A (Await q k)) ∧ yields q = true ∧
    segment (k ans) c.2 p' c'.2 ∧ c'.1 = <[i := Task A p']> c.1.
Proof.
  destruct 1 as [|ts s i A q k ans p' s' Hi Hy Hs]; [done|]. by exists i, A, q, k, ans, p'.
Qed.

(** Without new work every schedule is finite, whatever the answers. *)
Lemma drains_sn c : Forall (sn resumes) c.1 → sn drains c.
Proof.
  intros Hc%resumes_one_sn. destruct c as [ts s]; cbn in Hc. revert s.
  induction Hc as [ts _ IH]. intros s. constructor. intros [ts' s'] Hd.
  apply drains_inv in Hd as (i & A & q & k & ans & p' & Hi & Hy & Hs & Hts); cbn in *. subst ts'.
  apply IH. econstructor; [exact Hi|]. cbn. eauto 6.
Qed.

Lemma reach_pool (P : task S → Prop) entry s0 c :
  (∀ A (p p' : io S A) s s', segment p s p' s' → P (Task A p')) →
  preach entry s0 c → Forall P c.1.
Proof.
  intros HP Hr. enough (∀ c0, rtc (pstep entry) c0 c → Forall P c0.1 → Forall P c.1) as Hall.
  { by apply (Hall _ Hr). }
  clear Hr. induction 1 as [|c0 c1 c2 Hstep _ IH]; [done|]. intros H0. apply IH.
  destruct Hstep; cbn in *.
  - apply Forall_app. split; [done|]. repeat constructor. eauto.
  - apply Forall_insert; [done|]. eauto.
Qed.

(** A drained pool has ended: a coroutine at an [await] can be resumed. *)
Lemma drained_ended (h : ∀ q, answer q) ts s :
  Forall settled ts → nf drains (ts, s) → ∀ t, t ∈ ts → ended (task_prog t).
Proof.
  intros Hts Hnf t Ht. rewrite Forall_forall in Hts. specialize (Hts t Ht).
  apply list_elem_of_lookup in Ht as [i Hi].
  destruct t as [A [a|e|k|s1 p|q k]]; cbn in *; try done.
  exfalso. apply Hnf. eexists.
  exact (pstep_resume _ ts s i A q k (h q) _ _ Hi Hts (run_segment_ok h (k (h q)) s)).
Qed.

Lemma drains_reach entry s0 c c' : preach entry s0 c → rtc drains c c' → preach entry s0 c'.
Proof.
  unfold preach. intros Hc Hd. etrans; [exact Hc|]. clear Hc.
  induction Hd as [|c1 c2 c3 Hs _ IH]; [constructor|]. eapply rtc_l; [|exact IH].
  destruct Hs; [done|]. by eapply pstep_resume.
Qed.
End draining.

(** ** A request after the cool-down *)
Section armed.
Context {D : ProtectionDeps} (R : World → World → Prop).

Definition assessed (r : ProtectResponse) : Prop := is_Some (resp_assessment r).

Lemma submit_phase_assessed g p s pl sim a :
  returns (submit_phase g p s pl sim a) assessed.
Proof.
  unfold submit_phase. apply returns_bind_any. intros [].
  2: { repeat (apply returns_bind_any; intros). by eexists. }
  cbn [negb]. apply (returns_bind _ _ (λ o, match o with inr r => assessed r | _ => True end)).
  - unfold guarded_submission, finally.
    apply (returns_bind _ _ (λ o, match o with Ok (inr r) => assessed r | _ => True end)).
    + apply returns_catch; [|done].
      apply (returns_bind _ _ (λ o, match o with inr r => assessed r | _ => True end)); [|by intros [o|o]].
      apply returns_try_except; [by apply returns_bind_any|]. intros e.
      apply (returns_bind _ _ assessed); [|done]. unfold submit_failed.
      repeat (apply returns_bind_any; intros). by eexists.
    + intros [o|e] Ho; apply returns_bind_any; intros; [|done]. exact Ho.
  - intros [o|r] Ho; [|exact Ho]. apply returns_bind_any. intros [st|]; [by eexists|done].
Qed.

Lemma rescue_phase_assessed p s pl a : returns (rescue_phase p s pl a) assessed.
Proof.
  unfold rescue_phase. destruct dep_simulate as [f|].
  - apply returns_bind_any. intros sig. apply returns_bind_any. intros [sim pl'].
    destruct (negb _); repeat (apply returns_bind_any; intros); [by eexists|].
    destruct dep_submit; [apply submit_phase_assessed|]. apply returns_bind_any. by eexists.
  - apply returns_bind_any. by eexists.
Qed.

Lemma returns_wp {S A} (R' : S → S → Prop) (p : io S A) Φ s :
  returns p Φ → wp R' p (λ _ r _, ∀ a, r = Ok a → Φ a) s.
Proof. intros Hp. apply exec_wp. intros tr r s' He a ->. by eapply returns_exec. Qed.

(** The gate of the registry, once the lock is free and every clock reading is past the
    cool-down. *)
Lemma wp_armed b (Q : list event → res bool → World → Prop) w :
  is_locked (w_inflight w) b = false →
  (∀ tr ok, ((∀ t, Ev Monotonic t ∈ tr → in_cooldown (w_inflight w) b t = false) → ok = true) →
     Q tr (Ok ok) w) →
  wp R (inflight_can_start b) Q w.
Proof.
  intros Hl HQ. unfold inflight_can_start. rewrite wp_bind, wp_gets, Hl.
  destruct (dget _ b) as [u|] eqn:Hu; [|by rewrite wp_ret; apply HQ].
  apply wp_monotonic. intros t. rewrite wp_ret. apply HQ. intros Ht.
  specialize (Ht t ltac:(by left)). unfold in_cooldown in Ht. rewrite Hu in Ht. by rewrite Ht.
Qed.

Lemma protect_armed p s w :
  br_paused (w_breaker w) = false → is_locked (w_inflight w) (rp_borrower p) = false →
  wp R (protect p s) (λ tr r _,
    (∀ t, Ev Monotonic t ∈ tr → in_cooldown (w_inflight w) (rp_borrower p) t = false) →
    ∀ rep, r = Ok rep → assessed rep) w.
Proof.
  intros Hb Hl. unfold protect. rewrite wp_bind. unfold register.
  rewrite wp_bind, wp_modify, wp_modify, wp_bind, wp_gets. cbn [w_breaker set_states set_registry].
  unfold allow. rewrite Hb. cbn [negb]. rewrite wp_bind. apply wp_armed; [done|].
  intros tr ok Hok. cbn [w_inflight set_states set_registry] in Hok. destruct ok; cbn [negb].
  2: { apply exec_wp. intros tr' r w' _ Hc. exfalso. discriminate Hok.
       intros t Ht. apply Hc. set_solver. }
  eapply wp_mono; [|apply returns_wp].
  { intros tr' r w' Hr _. exact Hr. }
  apply returns_bind_any. intros _. apply returns_bind_any. intros sigma.
  apply returns_bind_any. intros [a [pl|]]; repeat (apply returns_bind_any; intros _).
  - destruct (negb _); [|apply rescue_phase_assessed].
    repeat (apply returns_bind_any; intros). by eexists.
  - by eexists.
Qed.
End armed.

(** ** Claims *)

(** Liveness of FR-16.  From every configuration the event loop can reach, once no new
    request is admitted (the worker runs its given number of rounds), every schedule is
    finite, whatever the chain answers and however the coroutines are interleaved; where it
    stops every coroutine has ended and no borrower is locked; and from there a protection
    run of any borrower, with the breaker closed and the clock past the borrower's
    cool-down, is not turned away: every reply it gives carries an assessment. *)
Theorem rescuable_again {U : EthUtils} {UL : EthUtilsLaws U} {E : EthAccount} {L : Libm}
    (cfg : Settings) w0 c :
  world_wf w0 → registry_valid (D := real_deps cfg) w0 → locks w0 = ∅ →
  preach (entry (D := real_deps cfg) cfg) w0 c →
  sn drains c ∧
  ∀ ts w, rtc drains c (ts, w) → nf drains (ts, w) →
    (∀ t, t ∈ ts → ended (task_prog t)) ∧ locks w = ∅ ∧
    ∀ R p s tr rep w',
      allow (w_breaker w) = true →
      exec R (protect (H := real_deps cfg) p s) w tr (Ok rep) w' →
      (∀ t, Ev Monotonic t ∈ tr → in_cooldown (w_inflight w) (rp_borrower p) t = false) →
      is_Some (resp_assessment rep).
Proof.
  intros Hw Hr Hl Hreach. split.
  { apply drains_sn. eapply reach_pool; [|exact Hreach]. intros. by eapply segment_sn. }
  intros ts w Hd Hnf. pose proof (drains_reach _ _ _ _ Hreach Hd) as Hreach'.
  destruct (loop_pool cfg w0 (ts, w) Hw Hr Hl Hreach') as (gs & Hc & Hts); cbn in Hc, Hts.
  assert (∀ t, t ∈ ts → ended (task_prog t)) as Hend.
  { eapply (drained_ended (λ q, (demo_chain (Ok tt) (Ok rc_ok) q tt).1)); [|exact Hnf].
    change ts with (ts, w).1. eapply reach_pool; [|exact Hreach']. intros. by eapply segment_settled. }
  assert (locks w = ∅) as Hfree by by apply (loop_ended (D := real_deps cfg) gs ts).
  split_and!; [done|done|]. intros R p s tr rep w' Hb He Ht.
  refine (wp_exec _ _ _ _ (protect_armed R p s w _ _) _ _ _ He Ht rep eq_refl).
  - by apply negb_true_iff.
  - apply not_true_is_false. rewrite <-elem_of_lock_set. fold (locks w). set_solver.
Qed.

(** The pending rescue of [demo_suspended], driven to its end; then a second one, an hour
    later. *)
Lemma drive_drains {S A} (h : ∀ q, answer q) n (p : io S A) s :
  settled (Task A p) → rtc drains ([Task A p], s) ([Task A (drive h n p s).1], (drive h n p s).2).
Proof.
  revert p s. induction n as [|n IH]; intros p s Hp.
  - destruct p as [a|e|k|s1 p|q k]; cbn in *; try done. rewrite Hp. constructor.
  - destruct p as [a|e|k|s1 p|q k]; cbn in *; try done; [constructor..|]. rewrite Hp.
    pose proof (run_segment_ok h (k (h q)) s) as Hseg.
    eapply rtc_l; [exact (pstep_resume _ [Task A (Await q k)] s 0%nat A q k (h q) _ _ eq_refl Hp Hseg)|].
    cbn. replace (drive h n (k (h q)) s)
      with (drive h n (run_segment h (k (h q)) s).1 (run_segment h (k (h q)) s).2).
    + apply IH. by eapply segment_settled.
    + assert (∀ (p1 : io S A) s1 p2 s2, segment p1 s1 p2 s2 → run_segment h p2 s2 = (p2, s2)) as Hidem.
      { clear. induction 1 as [| |q k s Hy| | |]; cbn; try done. by rewrite Hy. }
      specialize (Hidem _ _ _ _ Hseg).
      destruct n; cbn; rewrite Hidem; by destruct (run_segment h (k (h q)) s).
Qed.

Lemma ended_nf {S A} (p : io S A) s : ended p → nf drains ([Task A p], s).
Proof.
  intros He [c' (i & B & q & k & ans & p' & Hi & _)%drains_inv]. cbn in Hi.
  destruct i as [|[]]; [|done..]. apply (inj Some) in Hi.
  change (ended (task_prog (Task A p))) in He. by rewrite Hi in He.
Qed.

Definition late_chain : handler unit := λ q w,
  match q return answer q * unit with
  | Monotonic => (flit 5000, w)
  | q => demo_chain (Ok tt) (Ok rc_ok) q w
  end.

Definition demo_drained : io World ProtectResponse * World :=
  let c := demo_suspended 15 in
  drive (λ q, (demo_chain (Ok tt) (Ok rc_ok) q tt).1) 50 c.1 c.2.

Definition past (r : InFlightRegistry) (b : string) (ev : event) : bool :=
  match ev with Ev Monotonic t => negb (in_cooldown r b t) | _ => true end.

Lemma past_all r b tr :
  forallb (past r b) tr = true → ∀ t, Ev Monotonic t ∈ tr → in_cooldown r b t = false.
Proof.
  rewrite forallb_forall. intros Hp t Ht. apply list_elem_of_In in Ht.
  specialize (Hp _ Ht). cbn in Hp. by apply negb_true_iff in Hp.
Qed.

Lemma demo_drained_ok :
  rtc drains ([Task _ (demo_suspended 15).1], (demo_suspended 15).2)
    ([Task _ demo_drained.1], demo_drained.2) ∧
  nf drains ([Task _ demo_drained.1], demo_drained.2).
Proof.
  assert (settled (Task _ (demo_suspended 15).1)) as Hs by (vm_compute; reflexivity).
  split; [exact (drive_drains _ 50 _ _ Hs)|].
  assert (ended demo_drained.1) as He by (vm_compute; exact I).
  exact (ended_nf _ _ He).
Qed.

Lemma rescuable_again_witness :
  is_locked (w_inflight (demo_suspended 15).2) "0xb0b" = true ∧ locks demo_drained.2 = ∅ ∧
  ∃ tr rep w', seq_exec demo_protect demo_drained.2 tr (Ok rep) w' ∧
    resp_submitted rep = true ∧ is_Some (resp_assessment rep).
Proof.
  split; [vm_compute; reflexivity|].
  destruct demo_drained_ok as [Hd Hnf].
  destruct (@rescuable_again eth_plain eth_plain_laws eth_account_plain libm_test demo_settings
    world0 _ world0_wf demo_registry_valid eq_refl demo_reach) as [_ Hlive].
  destruct (Hlive _ _ Hd Hnf) as (_ & Hl & Hagain). split; [exact Hl|].
  destruct (run late_chain demo_protect demo_drained.2 tt) as [[[tr r] w'] u] eqn:Er.
  pose proof (run_exec _ eq _ _ _ _ _ _ _ Er) as He.
  assert (match r with Ok rep => resp_submitted rep | Err _ => false end = true ∧
    forallb (past (w_inflight demo_drained.2) "0xb0b") tr = true) as [Hr Hp].
  { vm_compute in Er. injection Er as Et Er _ _. subst tr r. vm_compute. by split. }
  destruct r as [rep|e]; [|discriminate Hr].
  exists tr, rep, w'. split; [exact He|]. split; [exact Hr|].
  refine (Hagain eq demo_params "0x01"%string tr rep w' _ He (past_all _ _ _ Hp)).
  vm_compute. reflexivity.
Defined.
