(* ===== verification/Policy.v ===== *)
(** * agent/policy.py: the deterministic gate (FR-19)

    Every check of the source, in its order, with its verdict and its rendered detail.  The
    gate runs no model output; it may raise where Python's arithmetic does (a float that is
    not a number, or too large, cannot be rounded to an integer). *)
From Stdlib Require Import SpecFloat.
From S2P Require Import Prelude PyFloat PyText Config State Models Pipeline AgentModels.

Definition HARD_BLOCK_CHECKS : list string := ["breaker_ok"; "not_inflight"]%string.

Definition actionable (s : PositionState) : bool :=
  match s with WATCH | ASSESSING => true | _ => false end.

Definition repay_value_base (repay_amount debt_price_base debt_decimals : Z) : Z :=
  if (debt_decimals <? 0) || (debt_price_base <=? 0) then 0
  else repay_amount * debt_price_base / 10 ^ debt_decimals.

Definition chk (name : string) (passed : bool) (detail : text) : GateCheck :=
  {| gc_name := name; gc_passed := passed; gc_detail := detail |}.

Definition FOpt (s : option string) : piece := Lit (default "None"%string s).

(** [round(x * BPS)] *)
Definition to_bps (x : f64) : res Z := round_float (fmul x (flit BPS)).

Section gate.
Context (params : option RiskParams) (assessment : AssessmentResponse) (snapshot : PositionSnapshot)
  (metrics : MetricsSnapshot) (limits : PolicyLimits) (now : f64)
  (debt_price_base debt_decimals recent_borrower recent_global : Z).

(** The names reported as failed when there is no mandate. *)
Definition mandate_names : list string :=
  ["mandate_not_expired"; "cost_within_mandate"; "collateral_allowlisted";
   "target_in_signed_band"; "hf_below_trigger"]%string.

Definition expiry_check (p : RiskParams) : res GateCheck :=
  let current := (rp_deadline p =? 0) || int_gt_float (rp_deadline p) now in
  if current then Ok (chk "mandate_not_expired" true [Lit "mandate is current"])
  else
    d ← float_of_int (rp_deadline p);
    Ok (chk "mandate_not_expired" false
          [Lit "mandate expired at "; FFloat ".0f" d; Lit " (now "; FFloat ".0f" now; Lit ")"]).

Definition trigger_check (p : RiskParams) : GateCheck :=
  let hf_bps := health_factor (ps_account snapshot) / 10 ^ 14 in
  chk "hf_below_trigger" (hf_bps <=? rp_hf_trigger_bps p)
    [Lit "HF "; FInt hf_bps; Lit " bps vs trigger "; FInt (rp_hf_trigger_bps p); Lit " bps"].

Definition cost_check (p : RiskParams) : GateCheck :=
  let cost_cap := Z.min (rp_max_cost_bps p) (max_cost_bps_ceiling limits) in
  chk "cost_within_mandate" (as_est_cost_bps assessment <=? cost_cap)
    [Lit "est cost "; FInt (as_est_cost_bps assessment); Lit " bps vs cap "; FInt cost_cap;
     Lit " bps (mandate "; FInt (rp_max_cost_bps p); Lit ", operator ";
     FInt (max_cost_bps_ceiling limits); Lit ")"].

Definition collateral_check (p : RiskParams) : GateCheck :=
  let allowed := bool_decide (as_collateral_asset assessment ∈ rp_allowed_collaterals p) in
  chk "collateral_allowlisted" allowed
    [Lit (as_collateral_asset assessment); Lit " "; Lit (if allowed then "is in" else "is NOT in");
     Lit " the signed allow-list"].

Definition band_check (p : RiskParams) : res GateCheck :=
  target_bps ← to_bps (as_hf_target assessment);
  Ok (chk "target_in_signed_band"
        ((rp_hf_target_base_bps p <=? target_bps) && (target_bps <=? rp_hf_target_max_bps p))
        [Lit "target "; FInt target_bps; Lit " bps vs signed band ["; FInt (rp_hf_target_base_bps p);
         Lit ", "; FInt (rp_hf_target_max_bps p); Lit "]"]).

(** Checks 1, 2, 5, 10, 11 and 12: the signed mandate. *)
Definition mandate_checks : res (list GateCheck) :=
  match params with
  | None =>
      Ok (chk "registered" false [Lit "borrower has no registered RiskParams"]
          :: ((λ n, chk n false [Lit "no mandate to check against"]) <$> mandate_names))
  | Some p =>
      expiry ← expiry_check p;
      band ← band_check p;
      Ok [chk "registered" true [Lit "signed mandate on file"]; expiry; trigger_check p;
          cost_check p; collateral_check p; band]
  end.

(** Checks 3 and 4. *)
Definition debt_check : res GateCheck :=
  if has_debt (ps_account snapshot) then
    d ← debt_usd (ps_account snapshot);
    Ok (chk "has_debt" true [Lit "debt "; FFloat ",.2f" d; Lit " USD"])
  else Ok (chk "has_debt" false [Lit "position carries no debt"]).

Definition state_check : GateCheck :=
  let a := actionable (ps_state snapshot) in
  chk "state_actionable" a
    [Lit "state "; Lit (state_value (ps_state snapshot)); Lit " ";
     Lit (if a then "is actionable" else "is not actionable")].

(** Check 6. *)
Definition gap_check : res GateCheck :=
  gap_bps ← to_bps (fsub (as_hf_target assessment) (as_hf assessment));
  Ok (chk "hf_gap_material" (min_hf_gap_bps limits <=? gap_bps)
        [Lit "gap to target "; FInt gap_bps; Lit " bps vs minimum "; FInt (min_hf_gap_bps limits);
         Lit " bps"]).

(** Checks 7 and 8. *)
Definition viable_check : GateCheck :=
  chk "assessment_viable" (as_viable assessment)
    (if as_viable assessment then [Lit "viable"]
     else [Lit "not viable: ";
           Lit (match as_reason assessment with
                | None | Some "" => "no reason given" | Some r => r end)]).

Definition positive_check : GateCheck :=
  chk "repay_positive" (0 <? as_repay_amount assessment)
    [Lit "repay "; FInt (as_repay_amount assessment); Lit " debt-token units"].

(** The operator's ceiling on the repayment, in base units. *)
Definition max_base : res Z :=
  d ← float_of_int (total_debt_base (ps_account snapshot));
  int_of_float (fmul d (max_repay_fraction_of_debt limits)).

(** Check 9. *)
Definition bounded_check : res GateCheck :=
  let repay_base := repay_value_base (as_repay_amount assessment) debt_price_base debt_decimals in
  ceiling ← max_base;
  r ← truediv repay_base (10 ^ 8);
  c ← truediv ceiling (10 ^ 8);
  Ok (chk "repay_bounded" ((0 <? repay_base) && (repay_base <=? ceiling))
        [Lit "repay "; FFloat ",.2f" r; Lit " USD vs ceiling "; FFloat ",.2f" c; Lit " USD (";
         FFloat ".0%" (max_repay_fraction_of_debt limits); Lit " of debt)"]).

(** Checks 13 to 16. *)
Definition breaker_check : GateCheck :=
  let closed := negb (breaker_paused metrics) in
  chk "breaker_ok" closed
    (if closed then [Lit "breaker closed"]
     else [Lit "circuit breaker paused ("; FOpt (breaker_trip_reason metrics); Lit ")"]).

Definition inflight_check : GateCheck :=
  let free := negb (bool_decide (ps_borrower snapshot ∈ in_flight_borrowers metrics)) in
  chk "not_inflight" free
    [Lit (if free then "no rescue in flight" else "a rescue is already in flight")].

Definition borrower_rate_check : GateCheck :=
  chk "rate_limit_borrower" (recent_borrower <? max_proposals_per_borrower_per_hour limits)
    [FInt recent_borrower; Lit " proposals in the last hour for this borrower (max ";
     FInt (max_proposals_per_borrower_per_hour limits); Lit ")"].

Definition global_rate_check : GateCheck :=
  chk "rate_limit_global" (recent_global <? max_proposals_global_per_hour limits)
    [FInt recent_global; Lit " proposals in the last hour overall (max ";
     FInt (max_proposals_global_per_hour limits); Lit ")"].

Definition severity_of (blocking : list string) : Severity :=
  match blocking with
  | [] => Sev_ok
  | _ => if existsb (λ n, bool_decide (n ∈ blocking)) HARD_BLOCK_CHECKS then Sev_hard_block
         else Sev_soft_block
  end.

Definition decide_on (checks : list GateCheck) : PolicyDecision :=
  let blocking := gc_name <$> filter (λ c, gc_passed c = false) checks in
  {| pd_allowed := match blocking with [] => true | _ => false end; pd_checks := checks;
     pd_blocking := blocking; pd_severity := severity_of blocking |}.

(** [policy.evaluate] *)
Definition evaluate : res PolicyDecision :=
  mandate ← mandate_checks;
  debt ← debt_check;
  gap ← gap_check;
  bounded ← bounded_check;
  Ok (decide_on (mandate ++ [debt; state_check; gap; viable_check; positive_check; bounded;
                             breaker_check; inflight_check; borrower_rate_check;
                             global_rate_check])).
End gate.

(** ** Specification *)

(** The sixteen checks, whatever the input. *)
Definition check_names : list string :=
  ["registered"; "mandate_not_expired"; "hf_below_trigger"; "cost_within_mandate";
   "collateral_allowlisted"; "target_in_signed_band"; "has_debt"; "state_actionable";
   "hf_gap_material"; "assessment_viable"; "repay_positive"; "repay_bounded"; "breaker_ok";
   "not_inflight"; "rate_limit_borrower"; "rate_limit_global"]%string.

(** What a proposal must satisfy, in terms of the inputs. *)
Definition qualifies (params : option RiskParams) (a : AssessmentResponse) (s : PositionSnapshot)
    (m : MetricsSnapshot) (l : PolicyLimits) (now : f64) (price dec rb rg : Z) : Prop :=
  ∃ p target gap ceiling,
    params = Some p ∧ to_bps (as_hf_target a) = Ok target ∧
    to_bps (fsub (as_hf_target a) (as_hf a)) = Ok gap ∧ max_base s l = Ok ceiling ∧
    (rp_deadline p = 0 ∨ int_gt_float (rp_deadline p) now = true) ∧
    health_factor (ps_account s) / 10 ^ 14 ≤ rp_hf_trigger_bps p ∧
    as_est_cost_bps a ≤ rp_max_cost_bps p ∧ as_est_cost_bps a ≤ max_cost_bps_ceiling l ∧
    as_collateral_asset a ∈ rp_allowed_collaterals p ∧
    rp_hf_target_base_bps p ≤ target ≤ rp_hf_target_max_bps p ∧
    0 < total_debt_base (ps_account s) ∧
    (ps_state s = WATCH ∨ ps_state s = ASSESSING) ∧
    min_hf_gap_bps l ≤ gap ∧ as_viable a = true ∧ 0 < as_repay_amount a ∧
    0 < repay_value_base (as_repay_amount a) price dec ≤ ceiling ∧
    breaker_paused m = false ∧ ps_borrower s ∉ in_flight_borrowers m ∧
    rb < max_proposals_per_borrower_per_hour l ∧ rg < max_proposals_global_per_hour l.

Lemma decide_allowed cs :
  pd_allowed (decide_on cs) = true ↔ Forall (λ c, gc_passed c = true) cs.
Proof.
  unfold decide_on. cbn [pd_allowed]. rewrite Forall_forall.
  destruct (filter (λ c, gc_passed c = false) cs) as [|c l] eqn:E; cbn [fmap list_fmap].
  - split; [|done]. intros _ c Hc. apply not_false_iff_true. intros Hf.
    assert (c ∈ filter (λ c, gc_passed c = false) cs) as H by by apply list_elem_of_filter.
    rewrite E in H. by apply not_elem_of_nil in H.
  - split; [done|]. intros H.
    assert (c ∈ filter (λ c, gc_passed c = false) cs) as [Hf Hc]%list_elem_of_filter
      by (rewrite E; by left).
    by rewrite (H c Hc) in Hf.
Qed.

Lemma decide_blocking cs n :
  n ∈ pd_blocking (decide_on cs) ↔ ∃ c, c ∈ cs ∧ gc_name c = n ∧ gc_passed c = false.
Proof.
  unfold decide_on; cbn. rewrite list_elem_of_fmap. split.
  - intros (c & -> & [? ?]%list_elem_of_filter). eauto.
  - intros (c & ? & <- & ?). exists c. split; [done|]. by apply list_elem_of_filter.
Qed.

Lemma has_debt_true a : has_debt a = true ↔ 0 < total_debt_base a.
Proof. unfold has_debt. lia. Qed.

Lemma actionable_true s : actionable s = true ↔ s = WATCH ∨ s = ASSESSING.
Proof. destruct s; naive_solver. Qed.

Section gate_lemmas.
Context (params : option RiskParams) (a : AssessmentResponse) (s : PositionSnapshot)
  (m : MetricsSnapshot) (l : PolicyLimits) (now : f64) (price dec rb rg : Z).

Lemma expiry_check_passed p c :
  expiry_check now p = Ok c →
  gc_name c = "mandate_not_expired"%string ∧
  (gc_passed c = true ↔ rp_deadline p = 0 ∨ int_gt_float (rp_deadline p) now = true).
Proof.
  unfold expiry_check. destruct (rp_deadline p =? 0) eqn:E0; cbn.
  - intros [= <-]. split; [done|]. cbn. split; [|done]. left. lia.
  - destruct (int_gt_float _ _); cbn.
    + intros [= <-]. naive_solver.
    + intros (d & _ & [= <-])%res_bind_ok. split; [done|]. cbn. split; [done|]. intros [|]; [lia|done].
Qed.

Lemma mandate_checks_ok cs :
  mandate_checks params a s l now = Ok cs →
  gc_name <$> cs ≡ₚ take 6 check_names ∧
  (Forall (λ c, gc_passed c = true) cs ↔
   ∃ p target, params = Some p ∧ to_bps (as_hf_target a) = Ok target ∧
     (rp_deadline p = 0 ∨ int_gt_float (rp_deadline p) now = true) ∧
     health_factor (ps_account s) / 10 ^ 14 ≤ rp_hf_trigger_bps p ∧
     as_est_cost_bps a ≤ rp_max_cost_bps p ∧ as_est_cost_bps a ≤ max_cost_bps_ceiling l ∧
     as_collateral_asset a ∈ rp_allowed_collaterals p ∧
     rp_hf_target_base_bps p ≤ target ≤ rp_hf_target_max_bps p).
Proof.
  unfold mandate_checks. destruct params as [p|].
  - intros (e & [He Hexp]%expiry_check_passed & (b & (t & Ht & [= <-])%res_bind_ok & [= <-])
      %res_bind_ok)%res_bind_ok. split; [cbn; by rewrite He|].
    rewrite !Forall_cons, Hexp. cbn. rewrite andb_true_iff, !Z.leb_le, bool_decide_eq_true. split.
    + intros (_&?&?&?&?&?&_). exists p, t. split_and!; try done; lia.
    + intros (p' & t' & [= <-] & Ht' & ?). rewrite Ht in Ht'. injection Ht' as <-.
      destruct_and?. split_and!; done || lia.
  - intros [= <-]. split; [|split; [|naive_solver]].
    + cbn. solve_Permutation.
    + rewrite Forall_cons. by intros [? _].
Qed.
End gate_lemmas.

(** The verdict once every check could be computed. *)
Lemma evaluate_ok (params : option RiskParams) a s m l now price dec rb rg d :
  evaluate params a s m l now price dec rb rg = Ok d →
  (pd_allowed d = true ↔ qualifies params a s m l now price dec rb rg) ∧
  gc_name <$> pd_checks d ≡ₚ check_names ∧ d = decide_on (pd_checks d) ∧
  breaker_check m ∈ pd_checks d ∧ inflight_check s m ∈ pd_checks d.
Proof.
  unfold evaluate. intros (cs & Hm & (dc & Hd & (g & Hg & (b & Hb & [= <-])%res_bind_ok)%res_bind_ok)
    %res_bind_ok)%res_bind_ok.
  apply (mandate_checks_ok params a s l now cs) in Hm as [Hn Hm].
  assert (gc_name dc = "has_debt"%string ∧
    (gc_passed dc = true ↔ 0 < total_debt_base (ps_account s))) as [Hdn Hdp].
  { unfold debt_check in Hd. rewrite <-has_debt_true. destruct (has_debt _); [|naive_solver].
    apply res_bind_ok in Hd as (? & _ & [= <-]). done. }
  apply res_bind_ok in Hg as (gap & Hgap & [= <-]).
  apply res_bind_ok in Hb as (c & Hc & (? & _ & (? & _ & [= <-])%res_bind_ok)%res_bind_ok).
  split; [|split; [|split; [done|cbn; set_solver]]].
  - rewrite decide_allowed, Forall_app, Hm, !Forall_cons, Hdp. cbn.
    rewrite actionable_true, andb_true_iff, !negb_true_iff, bool_decide_eq_false, !Z.leb_le, !Z.ltb_lt.
    unfold qualifies. split.
    + intros [(p & t & ?) ?]. destruct_and?. exists p, t, gap, c. split_and!; done || lia.
    + intros (p & t & gap' & c' & ?). destruct_and?.
      assert (gap' = gap) as -> by congruence. assert (c' = c) as -> by congruence.
      split; [exists p, t|]; split_and!; done || lia.
  - cbn. rewrite fmap_app, Hn. cbn. by rewrite Hdn.
Qed.

(** The severity separates "stop" from "this one does not qualify". *)
Lemma severity_of_ok bl : severity_of bl = Sev_ok ↔ bl = [].
Proof. destruct bl; [done|]. cbn [severity_of]. by destruct (existsb _ _). Qed.

Lemma severity_of_hard bl :
  severity_of bl = Sev_hard_block ↔ "breaker_ok"%string ∈ bl ∨ "not_inflight"%string ∈ bl.
Proof.
  destruct bl as [|n bl]; [split; [done|]; by intros [?%not_elem_of_nil|?%not_elem_of_nil]|].
  unfold severity_of, HARD_BLOCK_CHECKS. cbn [existsb].
  rewrite orb_false_r. destruct (_ || _) eqn:E.
  - apply orb_true_iff in E as [E%bool_decide_eq_true|E%bool_decide_eq_true]; naive_solver.
  - apply orb_false_iff in E as [E1%bool_decide_eq_false E2%bool_decide_eq_false]. naive_solver.
Qed.

Lemma allowed_blocking cs :
  pd_allowed (decide_on cs) = true ↔ pd_blocking (decide_on cs) = [].
Proof. unfold decide_on; cbn [pd_allowed pd_blocking]. by destruct (gc_name <$> _). Qed.

(** Names are distinct, so a check is blocking exactly when it failed. *)
Lemma blocking_check cs c :
  NoDup (gc_name <$> cs) → c ∈ cs →
  gc_name c ∈ pd_blocking (decide_on cs) ↔ gc_passed c = false.
Proof.
  intros Hnd Hc. rewrite decide_blocking. split; [|eauto].
  intros (c' & Hc' & Hn & Hp). enough (c' = c) by congruence.
  apply list_elem_of_lookup in Hc as [i Hi]. apply list_elem_of_lookup in Hc' as [j Hj].
  assert (j = i) as ->; [|congruence].
  apply (NoDup_lookup _ j i (gc_name c) Hnd); rewrite list_lookup_fmap.
  - by rewrite Hj, <-Hn.
  - by rewrite Hi.
Qed.

Lemma check_names_nodup : NoDup check_names.
Proof. apply (bool_decide_eq_true_1 _). vm_compute. reflexivity. Qed.

Lemma severity_verdict params a s m l now price dec rb rg d :
  evaluate params a s m l now price dec rb rg = Ok d →
  (pd_severity d = Sev_ok ↔ pd_allowed d = true) ∧
  (pd_severity d = Sev_hard_block ↔
     breaker_paused m = true ∨ ps_borrower s ∈ in_flight_borrowers m).
Proof.
  intros He. destruct (evaluate_ok _ _ _ _ _ _ _ _ _ _ _ He) as (_ & Hn & Hd & Hb & Hi).
  assert (NoDup (gc_name <$> pd_checks d)) as Hnd by (rewrite Hn; apply check_names_nodup).
  pose proof (blocking_check _ _ Hnd Hb) as Hbb. pose proof (blocking_check _ _ Hnd Hi) as Hbi.
  rewrite <-Hd in Hbb, Hbi. cbn in Hbb, Hbi. rewrite negb_false_iff in Hbb, Hbi.
  rewrite bool_decide_eq_true in Hbi. rewrite <-Hbb, <-Hbi.
  replace (pd_severity d) with (severity_of (pd_blocking d)) by by rewrite Hd.
  rewrite severity_of_hard, severity_of_ok. split; [|done]. rewrite Hd.
  symmetry. apply allowed_blocking.
Qed.


(** *** Overflow *)
Definition overflows {A} (r : res A) : Prop := ∀ e, r = Err e → exn_kind e = OverflowError.

Lemma float_of_int_overflows z : overflows (float_of_int z).
Proof. unfold overflows, float_of_int. destruct (binary_normalize _ _ _ _ _); naive_solver. Qed.

Lemma round_float_overflows x : is_nan x = false → overflows (round_float x).
Proof. unfold overflows. destruct x; cbn; try done; naive_solver. Qed.

Lemma to_bps_overflows x : is_finite x = true → overflows (to_bps x).
Proof.
  intros Hx. apply round_float_overflows. destruct x as [s| | |s n e]; try done; cbn; by apply round_aux_not_nan.
Qed.

Lemma gap_from_infinity t : is_finite t = true → to_bps (fsub t finf) = Err (Exn OverflowError
  "cannot convert float infinity to integer").
Proof. by destruct t. Qed.

Lemma mandate_checks_overflow params a s l now :
  is_finite (as_hf_target a) = true → overflows (mandate_checks params a s l now).
Proof.
  intros Ht e. destruct params as [p|]; [|done]. unfold mandate_checks, expiry_check, band_check.
  intros [He|(c & _ & [He|(b & _ & He)]%res_bind_err)]%res_bind_err; [| |done].
  - destruct (_ || _); [done|]. apply res_bind_err in He as [He|(? & _ & He)]; [|done].
    by apply float_of_int_overflows in He.
  - apply res_bind_err in He as [He|(? & _ & He)]; [|done]. by eapply to_bps_overflows.
Qed.

(** A proposal that qualifies, for concrete runs. *)
Definition demo_account : UserAccountData :=
  {| total_collateral_base := 1000000000000; total_debt_base := 800000000000;
     available_borrows_base := 0; liquidation_threshold_bps := 8250; ltv_bps := 8000;
     health_factor := 1031250000000000000 |}.

Definition demo_snapshot : PositionSnapshot :=
  {| ps_borrower := "0xb0b"; ps_account := demo_account; ps_state := ASSESSING;
     ps_hf := flit 1; ps_hf_trigger_bps := 11000 |}.

Definition demo_assessment : AssessmentResponse :=
  {| as_hf := flit 1; as_hf_target := fadd (flit 1) (fmul fquarter fhalf);
     as_repay_amount := 2000000000; as_collateral_asset := "0xc0";
     as_est_cost_bps := 40; as_viable := true; as_reason := None |}.

Definition demo_limits : PolicyLimits :=
  {| max_repay_fraction_of_debt := fhalf; max_cost_bps_ceiling := 200; min_hf_gap_bps := 25;
     max_proposals_per_borrower_per_hour := 3; max_proposals_global_per_hour := 12;
     proposal_ttl_seconds := 900 |}.

Definition demo_metrics : MetricsSnapshot :=
  {| breaker_paused := false; breaker_consecutive_failures := 0; breaker_trip_reason := None;
     in_flight_borrowers := []; registered_positions := 1; ms_counters := []; ms_states := [] |}.

Definition demo_mandate : RiskParams :=
  {| rp_borrower := "0xb0b"; rp_hf_trigger_bps := 11000; rp_hf_target_base_bps := 11000;
     rp_hf_target_max_bps := 12000; rp_vol_coeff_k := 10000; rp_max_slippage_bps := 50;
     rp_max_cost_bps := 100; rp_allowed_collaterals := ["0xc0"%string]; rp_nonce := 1;
     rp_deadline := 0 |}.

(** ** Claims *)

(** C35: The gate is its specification (FR-19).  Whenever it returns a verdict: it allows a
    proposal exactly when the proposal qualifies, i.e. all sixteen conditions hold, the
    mandate's and the operator's cost ceilings both; it always reports the same sixteen
    checks, a refusal names exactly the failed ones, and it is a hard block exactly when the
    keeper's breaker is paused or a rescue is in flight. *)
Theorem gate_verdict params a s m l now price dec rb rg d :
  evaluate params a s m l now price dec rb rg = Ok d →
  (pd_allowed d = true ↔ qualifies params a s m l now price dec rb rg) ∧
  gc_name <$> pd_checks d ≡ₚ check_names ∧
  (∀ n, n ∈ pd_blocking d ↔ ∃ c, c ∈ pd_checks d ∧ gc_name c = n ∧ gc_passed c = false) ∧
  (pd_severity d = Sev_ok ↔ pd_allowed d = true) ∧
  (pd_severity d = Sev_hard_block ↔
     breaker_paused m = true ∨ ps_borrower s ∈ in_flight_borrowers m).
Proof.
  intros He. destruct (evaluate_ok _ _ _ _ _ _ _ _ _ _ _ He) as (Ha & Hn & Hd & _).
  split; [done|]. split; [done|]. split; [|by eapply severity_verdict].
  intros n. rewrite Hd at 1. apply decide_blocking.
Qed.

(** The gate does not survive the position it should refuse as debt-free: the pipeline
    answers such a position with an infinite health factor, the gap to the target is then
    minus infinity, and rounding it raises [OverflowError] before any verdict is built,
    whatever the mandate, the limits and the rest of the inputs are. *)
Theorem gate_raises_without_debt params t s m l now price dec rb rg :
  has_debt (ps_account s) = false → is_finite t = true →
  ∃ e, evaluate params (no_debt_response t) s m l now price dec rb rg = Err e ∧
       exn_kind e = OverflowError.
Proof.
  intros Hd Ht. unfold evaluate.
  destruct (mandate_checks params (no_debt_response t) s l now) as [cs|e] eqn:Hm; cbn.
  - unfold debt_check. rewrite Hd. cbn. unfold gap_check. cbn [no_debt_response as_hf_target as_hf].
    rewrite gap_from_infinity by done. cbn. eauto.
  - exists e. split; [done|]. by apply (mandate_checks_overflow params (no_debt_response t) s l now).
Qed.

Lemma gate_verdict_witness :
  ∃ d, evaluate (Some demo_mandate) demo_assessment demo_snapshot demo_metrics demo_limits
         (flit 1000) 100000000 6 0 0 = Ok d ∧ pd_allowed d = true ∧
       qualifies (Some demo_mandate) demo_assessment demo_snapshot demo_metrics demo_limits
         (flit 1000) 100000000 6 0 0.
Proof.
  destruct (evaluate (Some demo_mandate) demo_assessment demo_snapshot demo_metrics demo_limits
    (flit 1000) 100000000 6 0 0) as [d|e] eqn:E; [|vm_compute in E; discriminate E].
  assert (pd_allowed d = true) as Ha by (vm_compute in E; injection E as <-; reflexivity).
  exists d. split; [reflexivity|]. split; [exact Ha|].
  apply (proj1 (proj1 (gate_verdict _ _ _ _ _ _ _ _ _ _ _ E))). exact Ha.
Defined.

Lemma gate_raises_without_debt_witness :
  ∃ e, evaluate (Some demo_mandate) (no_debt_response (flit 1))
         {| ps_borrower := "0xb0b";
            ps_account := {| total_collateral_base := 5; total_debt_base := 0;
                             available_borrows_base := 0; liquidation_threshold_bps := 8250;
                             ltv_bps := 8000; health_factor := 2 ^ 256 - 1 |};
            ps_state := HEALTHY; ps_hf := finf; ps_hf_trigger_bps := 11000 |}
         demo_metrics demo_limits (flit 1000) 100000000 6 0 0 = Err e ∧
       exn_kind e = OverflowError.
Proof. apply (gate_raises_without_debt (Some demo_mandate) (flit 1)); reflexivity. Defined.
