(* ===== verification/Store.v ===== *)
(** * agent/store.py: the SQLite store of the agent layer

    The database is a record of tables.  Each SQL statement is a function on it, as SQLite
    executes it: atomically.  A table keeps its rows in insertion order, so [ORDER BY id DESC]
    is the reverse order ([store_wf]).  [db_run] is the trip of a statement through
    [asyncio.to_thread]: other coroutines run before the statement takes effect and again
    before its result is seen, and a cancellation may hit on either side. *)
From S2P Require Import Prelude PyFloat PyText Config State Models Risk Events Io World AgentModels.

Record ChatThread := {
  th_id : string;
  th_created_at : f64;
  th_last_active : f64;
  th_borrower : option string;
}.

(** The tables, with the [AUTOINCREMENT] counters of those that have one. *)
Record AgentDB := {
  db_proposals : list ProposalRow;
  db_tuning : list TuningRow;
  db_decisions : list DecisionRow;
  db_audit : list AuditRow;
  db_threads : list ChatThread;
  db_messages : list ChatMessageRow;
  db_next_message : Z;
}.

Definition empty_db : AgentDB :=
  {| db_proposals := []; db_tuning := []; db_decisions := []; db_audit := [];
     db_threads := []; db_messages := []; db_next_message := 1 |}.

Definition set_proposals (l : list ProposalRow) (db : AgentDB) : AgentDB :=
  {| db_proposals := l; db_tuning := db_tuning db; db_decisions := db_decisions db;
     db_audit := db_audit db; db_threads := db_threads db; db_messages := db_messages db;
     db_next_message := db_next_message db |}.

Definition set_tuning (l : list TuningRow) (db : AgentDB) : AgentDB :=
  {| db_proposals := db_proposals db; db_tuning := l; db_decisions := db_decisions db;
     db_audit := db_audit db; db_threads := db_threads db; db_messages := db_messages db;
     db_next_message := db_next_message db |}.

Definition set_decisions (l : list DecisionRow) (db : AgentDB) : AgentDB :=
  {| db_proposals := db_proposals db; db_tuning := db_tuning db; db_decisions := l;
     db_audit := db_audit db; db_threads := db_threads db; db_messages := db_messages db;
     db_next_message := db_next_message db |}.

Definition set_audit (l : list AuditRow) (db : AgentDB) : AgentDB :=
  {| db_proposals := db_proposals db; db_tuning := db_tuning db; db_decisions := db_decisions db;
     db_audit := l; db_threads := db_threads db; db_messages := db_messages db;
     db_next_message := db_next_message db |}.

Definition set_chat (t : list ChatThread) (m : list ChatMessageRow) (next : Z) (db : AgentDB)
  : AgentDB :=
  {| db_proposals := db_proposals db; db_tuning := db_tuning db; db_decisions := db_decisions db;
     db_audit := db_audit db; db_threads := t; db_messages := m; db_next_message := next |}.

(** ** SQL *)

(** Rows are only ever deleted from the chat tables, so in the other tables the
    [AUTOINCREMENT] counter is the number of rows. *)
Definition next_id {A} (rows : list A) : Z := Z.of_nat (length rows) + 1.

Definition coalesce {A} (new old : option A) : option A :=
  match new with Some x => Some x | None => old end.

(** [LIMIT ?]: a negative limit is no limit. *)
Definition limit_rows {A} (n : Z) (l : list A) : list A :=
  if n <? 0 then l else take (Z.to_nat n) l.

(** [AND column = ?], only when a value was given. *)
Definition matches {A} `{EqDecision A} (want : option A) (v : A) : bool :=
  match want with Some w => bool_decide (v = w) | None => true end.

(** A Python integer bound to a statement must fit SQLite's 64 bits. *)
Definition sql_int (z : Z) : res Z :=
  if (- 2 ^ 63 <=? z) && (z <? 2 ^ 63) then Ok z
  else Err (Exn OverflowError "Python int too large to convert to SQLite INTEGER").

(** *** Proposals *)
Definition sql_insert_proposal (run_id borrower strategy : string) (facts : json)
    (gate : PolicyDecision) (rationale : string) (guard_flagged : bool) (ts expires : f64)
    (db : AgentDB) : Z * AgentDB :=
  let id := next_id (db_proposals db) in
  (id, set_proposals (db_proposals db ++
    [{| p_id := id; p_run_id := run_id; p_borrower := borrower; p_created_at := ts;
        p_expires_at := expires; p_status := PENDING; p_strategy := strategy; p_facts := facts;
        p_gate := gate; p_rationale := rationale; p_guard_flagged := guard_flagged;
        p_decided_at := None; p_decided_by := None; p_decision_note := None;
        p_tx_hash := None; p_result := None |}]) db).

Definition sql_get_proposal (id : Z) (db : AgentDB) : option ProposalRow :=
  head (filter (λ p, p_id p = id) (db_proposals db)).

Definition sql_list_proposals (status : option ProposalStatus) (borrower : option string) (limit : Z)
    (db : AgentDB) : list ProposalRow :=
  limit_rows limit
    (filter (λ p, matches status (p_status p) && matches borrower (p_borrower p) = true)
       (rev (db_proposals db))).

Definition with_status (s : ProposalStatus) (p : ProposalRow) : ProposalRow :=
  {| p_id := p_id p; p_run_id := p_run_id p; p_borrower := p_borrower p;
     p_created_at := p_created_at p; p_expires_at := p_expires_at p; p_status := s;
     p_strategy := p_strategy p; p_facts := p_facts p; p_gate := p_gate p;
     p_rationale := p_rationale p; p_guard_flagged := p_guard_flagged p;
     p_decided_at := p_decided_at p; p_decided_by := p_decided_by p;
     p_decision_note := p_decision_note p; p_tx_hash := p_tx_hash p; p_result := p_result p |}.

(** [UPDATE ... SET ... WHERE test]: the number of rows changed and the new table. *)
Definition update_where {A} (test : A → bool) (f : A → A) (l : list A) : Z * list A :=
  (Z.of_nat (length (filter (λ x, test x = true) l)), (λ x, if test x then f x else x) <$> l).

Definition sql_claim_proposal (id : Z) (status : ProposalStatus) (db : AgentDB) : bool * AgentDB :=
  let '(n, l) := update_where
    (λ p, (p_id p =? id) && bool_decide (p_status p = PENDING)) (with_status status)
    (db_proposals db) in
  (n =? 1, set_proposals l db).

Definition finished (status : ProposalStatus) (ts : f64) (by_ note tx : option string)
    (result : option ProtectResponse) (p : ProposalRow) : ProposalRow :=
  {| p_id := p_id p; p_run_id := p_run_id p; p_borrower := p_borrower p;
     p_created_at := p_created_at p; p_expires_at := p_expires_at p; p_status := status;
     p_strategy := p_strategy p; p_facts := p_facts p; p_gate := p_gate p;
     p_rationale := p_rationale p; p_guard_flagged := p_guard_flagged p;
     p_decided_at := Some ts; p_decided_by := coalesce by_ (p_decided_by p);
     p_decision_note := coalesce note (p_decision_note p);
     p_tx_hash := coalesce tx (p_tx_hash p); p_result := coalesce result (p_result p) |}.

Definition sql_finish_proposal (id : Z) (status : ProposalStatus) (ts : f64)
    (by_ note tx : option string) (result : option ProtectResponse) (db : AgentDB) : AgentDB :=
  set_proposals (update_where (λ p, p_id p =? id) (finished status ts by_ note tx result)
                   (db_proposals db)).2 db.

Definition sql_count_recent (since : f64) (borrower : option string) (db : AgentDB) : Z :=
  Z.of_nat (length (filter
    (λ p, fle since (p_created_at p) && matches borrower (p_borrower p) = true)
    (db_proposals db))).

Definition sql_expire (ts : f64) (db : AgentDB) : Z * AgentDB :=
  let '(n, l) := update_where
    (λ p, bool_decide (p_status p = PENDING) && flt (p_expires_at p) ts) (with_status EXPIRED)
    (db_proposals db) in
  (n, set_proposals l db).

(** *** Tuning suggestions *)
Definition sql_insert_tuning (run_id borrower : string) (field : TunableField)
    (current suggested : Z) (rationale : string) (payload : list (string * sol_value)) (ts : f64)
    (db : AgentDB) : Z * AgentDB :=
  let id := next_id (db_tuning db) in
  (id, set_tuning (db_tuning db ++
    [{| t_id := id; t_run_id := run_id; t_borrower := borrower; t_created_at := ts;
        t_field_name := field; t_current_value := current; t_suggested_value := suggested;
        t_rationale := rationale; t_eip712_payload := payload; t_status := OPEN;
        t_decided_at := None |}]) db).

Definition sql_list_tuning (borrower : option string) (status : option TuningStatus) (limit : Z)
    (db : AgentDB) : list TuningRow :=
  limit_rows limit
    (filter (λ t, matches borrower (t_borrower t) && matches status (t_status t) = true)
       (rev (db_tuning db))).

Definition sql_get_tuning (id : Z) (db : AgentDB) : option TuningRow :=
  head (filter (λ t, t_id t = id) (db_tuning db)).

Definition decided (status : TuningStatus) (ts : f64) (t : TuningRow) : TuningRow :=
  {| t_id := t_id t; t_run_id := t_run_id t; t_borrower := t_borrower t;
     t_created_at := t_created_at t; t_field_name := t_field_name t;
     t_current_value := t_current_value t; t_suggested_value := t_suggested_value t;
     t_rationale := t_rationale t; t_eip712_payload := t_eip712_payload t; t_status := status;
     t_decided_at := Some ts |}.

Definition sql_set_tuning_status (id : Z) (status : TuningStatus) (ts : f64) (db : AgentDB)
  : bool * AgentDB :=
  let '(n, l) := update_where (λ t, (t_id t =? id) && bool_decide (t_status t = OPEN))
                   (decided status ts) (db_tuning db) in
  (n =? 1, set_tuning l db).

(** *** The crew's trace and the audit trail *)
Definition sql_insert_decision (run_id borrower node : string) (output : json)
    (latency_ms : option Z) (llm_used : bool) (error : option string) (ts : f64) (db : AgentDB)
  : Z * AgentDB :=
  let id := next_id (db_decisions db) in
  (id, set_decisions (db_decisions db ++
    [{| d_id := id; d_run_id := run_id; d_borrower := borrower; d_created_at := ts;
        d_node := node; d_latency_ms := latency_ms; d_llm_used := llm_used; d_output := output;
        d_error := error |}]) db).

Definition sql_list_decisions (run_id : string) (db : AgentDB) : list DecisionRow :=
  filter (λ d, d_run_id d = run_id) (db_decisions db).

Definition sql_audit (actor : Actor) (action : AuditAction) (borrower : option string)
    (proposal_id : option Z) (detail : json) (ts : f64) (db : AgentDB) : Z * AgentDB :=
  let id := next_id (db_audit db) in
  (id, set_audit (db_audit db ++
    [{| a_id := id; a_ts := ts; a_actor := actor; a_action := action; a_borrower := borrower;
        a_proposal_id := proposal_id; a_detail := detail |}]) db).

Definition sql_list_audit (borrower : option string) (limit : Z) (db : AgentDB) : list AuditRow :=
  limit_rows limit
    (filter (λ a, match borrower with
                  | Some b => bool_decide (a_borrower a = Some b)
                  | None => true
                  end = true) (rev (db_audit db))).

(** *** Chat *)
Definition sql_ensure_thread (thread_id : string) (borrower : option string) (ts : f64)
    (db : AgentDB) : AgentDB :=
  let touch t := {| th_id := th_id t; th_created_at := th_created_at t; th_last_active := ts;
                    th_borrower := coalesce borrower (th_borrower t) |} in
  let new := {| th_id := thread_id; th_created_at := ts; th_last_active := ts;
                th_borrower := borrower |} in
  let ts' := if decide (thread_id ∈ th_id <$> db_threads db)
             then (λ t, if String.eqb (th_id t) thread_id then touch t else t) <$> db_threads db
             else db_threads db ++ [new] in
  set_chat ts' (db_messages db) (db_next_message db) db.

(** The foreign key on [chat_threads] is enforced. *)
Definition sql_append_message (thread_id : string) (role : Role) (content : string)
    (tool_calls facts : option json) (guard_flagged : bool) (ts : f64) (db : AgentDB)
  : res (Z * AgentDB) :=
  if decide (thread_id ∈ th_id <$> db_threads db) then
    let id := db_next_message db in
    Ok (id, set_chat (db_threads db)
      (db_messages db ++
        [{| m_id := id; m_thread_id := thread_id; m_ts := ts; m_role := role;
            m_content := content; m_tool_calls := tool_calls; m_facts := facts;
            m_guard_flagged := guard_flagged |}]) (id + 1) db)
  else Err (Exn (OtherError false) "FOREIGN KEY constraint failed").

(** [ORDER BY id DESC LIMIT ?], then reversed. *)
Definition sql_history (thread_id : string) (limit : Z) (db : AgentDB) : list ChatMessageRow :=
  rev (limit_rows limit (filter (λ m, m_thread_id m = thread_id) (rev (db_messages db)))).

(** The messages go with their thread ([ON DELETE CASCADE]). *)
Definition sql_delete_thread (thread_id : string) (db : AgentDB) : bool * AgentDB :=
  (Z.of_nat (length (filter (λ t, th_id t = thread_id) (db_threads db))) =? 1,
   set_chat (filter (λ t, th_id t ≠ thread_id) (db_threads db))
     (filter (λ m, m_thread_id m ≠ thread_id) (db_messages db)) (db_next_message db) db).

(** ** Coroutines

    [AgentWorld] is the keeper's state, the database, and the process-wide RPC client that
    [chain.client.get_client] hands out besides the container's own: [aw_client] holds its
    state (only the chain part is used), [aw_oracles] the address caches of the
    [OracleClient] objects created on it, by allocation. *)
Record AgentWorld := {
  aw_world : World;
  aw_db : AgentDB;
  aw_client : World;
  aw_oracles : nat → option string;
  aw_next_oracle : nat;
}.

Definition set_db (db : AgentDB) (w : AgentWorld) : AgentWorld :=
  {| aw_world := aw_world w; aw_db := db; aw_client := aw_client w;
     aw_oracles := aw_oracles w; aw_next_oracle := aw_next_oracle w |}.

Definition set_world (v : World) (w : AgentWorld) : AgentWorld :=
  {| aw_world := v; aw_db := aw_db w; aw_client := aw_client w;
     aw_oracles := aw_oracles w; aw_next_oracle := aw_next_oracle w |}.

Abbreviation aprog := (io AgentWorld).

(** A statement takes effect once, when the worker thread gets to it. *)
Definition db_run {A} (st : AgentDB → res (A * AgentDB)) : aprog A :=
  _ ← await ThreadStart;
  w ← gets id;
  match st (aw_db w) with
  | Ok (a, db) => _ ← modify (set_db db); _ ← await ThreadJoin; Ret a
  | Err e => _ ← await ThreadJoin; Raise e
  end.

Definition db_read {A} (f : AgentDB → A) : aprog A := db_run (λ db, Ok (f db, db)).
Definition db_write {A} (f : AgentDB → A * AgentDB) : aprog A := db_run (λ db, Ok (f db)).

(** A statement with an integer parameter, bound when the statement runs. *)
Definition with_int {A} (z : Z) (st : Z → AgentDB → A * AgentDB) : AgentDB → res (A * AgentDB) :=
  λ db, z ← sql_int z; Ok (st z db).

Definition reading {A} (f : AgentDB → A) : AgentDB → A * AgentDB := λ db, (f db, db).

(** [time.time() if now is None else now] *)
Definition now_or (now : option f64) : aprog f64 :=
  match now with Some t => Ret t | None => await Time end.

Definition sql_int_opt (z : option Z) : res (option Z) :=
  match z with Some z => z ← sql_int z; Ok (Some z) | None => Ok None end.

Definition insert_proposal (run_id borrower strategy : string) (facts : json)
    (gate : PolicyDecision) (rationale : string) (ttl_seconds : Z) (guard_flagged : bool)
    (now : option f64) : aprog Z :=
  ts ← now_or now;
  ttl ← lift (float_of_int ttl_seconds);
  db_write (sql_insert_proposal run_id borrower strategy facts gate rationale guard_flagged ts
              (fadd ts ttl)).

Definition get_proposal (id : Z) : aprog (option ProposalRow) :=
  db_run (with_int id (λ id, reading (sql_get_proposal id))).

Definition list_proposals (status : option ProposalStatus) (borrower : option string) (limit : Z)
  : aprog (list ProposalRow) :=
  db_run (with_int limit (λ limit, reading (sql_list_proposals status borrower limit))).

Definition claim_proposal (id : Z) (status : ProposalStatus) : aprog bool :=
  db_run (with_int id (λ id, sql_claim_proposal id status)).

Definition finish_proposal (id : Z) (status : ProposalStatus) (decided_by note tx : option string)
    (result : option ProtectResponse) (now : option f64) : aprog unit :=
  ts ← now_or now;
  db_run (with_int id (λ id db,
    (tt, sql_finish_proposal id status ts decided_by note tx result db))).

Definition count_recent_proposals (since : f64) (borrower : option string) : aprog Z :=
  db_read (sql_count_recent since borrower).

Definition expire_stale_proposals (now : option f64) : aprog Z :=
  ts ← now_or now; db_write (sql_expire ts).

Definition insert_tuning (run_id borrower : string) (field : TunableField) (current suggested : Z)
    (rationale : string) (payload : list (string * sol_value)) (now : option f64) : aprog Z :=
  ts ← now_or now;
  db_run (λ db,
    current ← sql_int current;
    with_int suggested (λ suggested,
      sql_insert_tuning run_id borrower field current suggested rationale payload ts) db).

Definition list_tuning (borrower : option string) (status : option TuningStatus) (limit : Z)
  : aprog (list TuningRow) :=
  db_run (with_int limit (λ limit, reading (sql_list_tuning borrower status limit))).

Definition get_tuning (id : Z) : aprog (option TuningRow) :=
  db_run (with_int id (λ id, reading (sql_get_tuning id))).

Definition set_tuning_status (id : Z) (status : TuningStatus) (now : option f64) : aprog bool :=
  ts ← now_or now;
  db_run (with_int id (λ id, sql_set_tuning_status id status ts)).

Definition insert_decision (run_id borrower node : string) (output : json) (latency_ms : option Z)
    (llm_used : bool) (error : option string) (now : option f64) : aprog Z :=
  ts ← now_or now;
  db_run (λ db,
    latency ← sql_int_opt latency_ms;
    Ok (sql_insert_decision run_id borrower node output latency llm_used error ts db)).

Definition list_decisions (run_id : string) : aprog (list DecisionRow) :=
  db_read (sql_list_decisions run_id).

Definition audit (actor : Actor) (action : AuditAction) (borrower : option string)
    (proposal_id : option Z) (detail : json) (now : option f64) : aprog Z :=
  ts ← now_or now;
  db_run (λ db,
    proposal_id ← sql_int_opt proposal_id;
    Ok (sql_audit actor action borrower proposal_id detail ts db)).

Definition list_audit (borrower : option string) (limit : Z) : aprog (list AuditRow) :=
  db_run (with_int limit (λ limit, reading (sql_list_audit borrower limit))).

Definition ensure_thread (thread_id : string) (borrower : option string) (now : option f64)
  : aprog unit :=
  ts ← now_or now; db_write (λ db, (tt, sql_ensure_thread thread_id borrower ts db)).

Definition append_message (thread_id : string) (role : Role) (content : string)
    (tool_calls facts : option json) (guard_flagged : bool) (now : option f64) : aprog Z :=
  ts ← now_or now;
  db_run (sql_append_message thread_id role content tool_calls facts guard_flagged ts).

Definition history (thread_id : string) (limit : Z) : aprog (list ChatMessageRow) :=
  db_run (with_int limit (λ limit, reading (sql_history thread_id limit))).

Definition delete_thread (thread_id : string) : aprog bool :=
  db_write (sql_delete_thread thread_id).
