(* ===== verification/AgentBase.v ===== *)
(** * The agent layer's coroutines: what they share

    The keeper's coroutines run inside the agent's world through [zoom].  [areads] marks a
    coroutine that neither builds nor sends a transaction.  The small helpers of
    [agent/tools.py] and [agent/runtime.py] that the routes and the crew share are here
    too. *)
From S2P Require Import Prelude PyFloat PyText Config State InFlight Breaker Observability Models.
From S2P Require Import AgentModels Risk Events Io Logic World Api Chain Monitor Pipeline.
From S2P Require Import Simulator Submitter Service Deps Routes Store.

(** ** Running a coroutine on a part of the state *)
Section zoom.
Context {S T : Type} (view : T → S) (upd : S → T → T).

Fixpoint zoom {A} (p : io S A) : io T A :=
  match p with
  | Ret a => Ret a
  | Raise e => Raise e
  | Get k => Get (λ t, zoom (k (view t)))
  | Put s p => Get (λ t, Put (upd s t) (zoom p))
  | Await q k => Await q (λ a, zoom (k a))
  end.

(** What the part sees of the interference with the whole. *)
Definition through (R : T → T → Prop) (s s' : S) : Prop :=
  ∃ t t', R t t' ∧ s = view t ∧ s' = view t'.

Context (view_upd : ∀ s t, view (upd s t) = s).

Lemma wp_zoom (R : T → T → Prop) {A} (p : io S A) (Q : list event → res A → T → Prop) t :
  wp (through R) p (λ tr r s, ∀ t', view t' = s → Q tr r t') (view t) → wp R (zoom p) Q t.
Proof.
  revert t Q. induction p as [a|e|k IH|s p IH|q k IH]; intros t Q Hp.
  - exact (Hp t eq_refl).
  - exact (Hp t eq_refl).
  - exact (IH (view t) t Q Hp).
  - apply (IH (upd s t)). by rewrite view_upd.
  - intros ans t1 Ht1. apply (IH ans t1 (λ tr, Q (Ev q ans :: tr))). apply Hp.
    unfold rely in *. destruct (yields q); [by exists t, t1|]. by rewrite Ht1.
Qed.

Lemma exec_zoom (R : T → T → Prop) {A} (p : io S A) t :
  wp R (zoom p) (λ tr r t', exec (through R) p (view t) tr r (view t')) t.
Proof. apply wp_zoom. eapply wp_mono; [|apply wp_self]. by intros tr r s He t' ->. Qed.

Lemma guar_zoom (GT : T → T → Prop) (GS : S → S → Prop) (P : req → Prop) {A} (p : io S A) t :
  (∀ t s, GS (view t) s → GT t (upd s t)) → guar GS P p (view t) → guar GT P (zoom p) t.
Proof.
  intros HG. revert t. induction p as [a|e|k IH|s p IH|q k IH]; intros t Hp; cbn in *; auto.
  - destruct Hp as [H1 H2]. split; [auto|]. apply IH. by rewrite view_upd.
  - destruct Hp. split; [done|]. intros. by apply IH.
Qed.
End zoom.

(** The keeper's part, and the part of the client object made by the [n]-th [OracleClient()]. *)
Definition keeper {A} (p : prog A) : aprog A := zoom aw_world set_world p.

Definition oracle_view (n : nat) (w : AgentWorld) : World :=
  let c := w_chain (aw_client w) in
  set_chain {| cl_active := cl_active c; cl_pool_address := cl_pool_address c;
               cl_oracle_address := aw_oracles w n; cl_decimals := cl_decimals c |} (aw_client w).

Definition oracle_upd (n : nat) (v : World) (w : AgentWorld) : AgentWorld :=
  {| aw_world := aw_world w; aw_db := aw_db w; aw_client := v;
     aw_oracles := λ i, if decide (i = n) then cl_oracle_address (w_chain v) else aw_oracles w i;
     aw_next_oracle := aw_next_oracle w |}.

(** [OracleClient()]: a fresh object, with an empty cache. *)
Definition new_oracle (w : AgentWorld) : AgentWorld :=
  {| aw_world := aw_world w; aw_db := aw_db w; aw_client := aw_client w;
     aw_oracles := λ i, if decide (i = aw_next_oracle w) then None else aw_oracles w i;
     aw_next_oracle := S (aw_next_oracle w) |}.

Lemma oracle_view_upd n v w : oracle_view n (oracle_upd n v w) = v.
Proof.
  unfold oracle_view, oracle_upd; cbn. rewrite decide_True by done.
  destruct v as [[] ? ? ? ? ? ? ? ? ? ?]. done.
Qed.

(** ** Shared helpers *)
Section helpers.
Context `{EthUtils} `{ProtectionDeps} (cfg : Settings).

(** [runtime.policy_limits]: built, and validated, at each use. *)
Definition policy_limits : res PolicyLimits :=
  PolicyLimits_validate
    {| max_repay_fraction_of_debt := agent_max_repay_fraction cfg;
       max_cost_bps_ceiling := agent_max_cost_bps cfg;
       min_hf_gap_bps := agent_min_hf_gap_bps cfg;
       max_proposals_per_borrower_per_hour := agent_max_proposals_per_hour cfg;
       max_proposals_global_per_hour := agent_max_proposals_global_per_hour cfg;
       proposal_ttl_seconds := agent_proposal_ttl_seconds cfg |}.

(** [tools.sigma_for] *)
Definition agent_sigma_for (params : RiskParams) : prog f64 :=
  match rp_allowed_collaterals params with [] => Ret fzero | a :: _ => dep_sigma_for a end.

(** [tools.debt_asset_facts] *)
Definition debt_asset_facts : res (string * Z) :=
  match dget TOKEN_DECIMALS USDC with
  | Some d => Ok (USDC, d)
  | None => Err (Exn KeyError USDC)
  end.

(** [_debt_price_base] *)
Definition debt_price_base (debt_asset : string) : aprog Z :=
  try_except
    (n ← gets aw_next_oracle;
     _ ← modify new_oracle;
     p ← zoom (oracle_view n) (oracle_upd n) (get_asset_price cfg debt_asset);
     Ret (price p))
    (λ _, Ret 0).

Definition HOUR : f64 := flit 3600.
End helpers.

(** ** Requests *)

(** [keeps G P]: the coroutine's writes are [G] steps, its requests satisfy [P]. *)
Definition keeps {S A} (G : S → S → Prop) (P : req → Prop) (p : io S A) : Prop :=
  ∀ w, guar G P p w.

(** A coroutine that neither builds nor sends a transaction, nor asks the model. *)
Abbreviation areads := (keeps (λ _ _, True) (λ q, is_read q = true)).

(** A request that sends nothing: a read, or a call of the model. *)
Definition sends_nothing (q : req) : Prop := on_behalf q = None.

Section keeps.
Context {S : Type} (G : S → S → Prop) (P : req → Prop).

Lemma keeps_bind {A B} (p : io S A) (f : A → io S B) :
  keeps G P p → (∀ a, keeps G P (f a)) → keeps G P (a ← p; f a).
Proof. intros Hp Hf w. apply guar_bind; [apply Hp|]. intros. apply Hf. Qed.

Lemma keeps_lift {A} (r : res A) : keeps G P (lift r).
Proof. intros w. apply guar_lift. Qed.

Lemma keeps_gets {A} (f : S → A) : keeps G P (gets f).
Proof. intros w. apply guar_gets. Qed.

Lemma keeps_modify (f : S → S) : (∀ w, G w (f w)) → keeps G P (modify f).
Proof. intros Hf w. by apply guar_modify. Qed.

Lemma keeps_await q : P q → keeps G P (await q).
Proof. intros Hq w. by apply guar_await. Qed.

Lemma keeps_ret {A} (a : A) : keeps G P (Ret a).
Proof. intros w. done. Qed.

Lemma keeps_raise {A} e : keeps G P (@Raise S A e).
Proof. intros w. done. Qed.

Lemma keeps_try_except {A} (p : io S A) h :
  keeps G P p → (∀ e, keeps G P (h e)) → keeps G P (try_except p h).
Proof. intros Hp Hh w. apply guar_try_except; [apply Hp|]. intros. apply Hh. Qed.

Lemma keeps_try_catch {A} (p : io S A) test h :
  keeps G P p → (∀ e, keeps G P (h e)) → keeps G P (try_catch p test h).
Proof. intros Hp Hh w. apply guar_try_catch; [apply Hp|]. intros. apply Hh. Qed.
End keeps.

Lemma keeps_mono {S A} (G G' : S → S → Prop) (P P' : req → Prop) (p : io S A) :
  (∀ w w', G w w' → G' w w') → (∀ q, P q → P' q) → keeps G P p → keeps G' P' p.
Proof. intros HG HP Hp w. eapply guar_mono; [exact HG|exact HP|apply Hp]. Qed.

Lemma reads_areads {A} (p : prog A) : reads p → areads p.
Proof. by apply keeps_mono. Qed.

(** A keeper coroutine inside the agent's world. *)
Lemma keeps_keeper (GS : World → World → Prop) G P {A} (p : prog A) :
  (∀ t s, GS (aw_world t) s → G t (set_world s t)) → keeps GS P p → keeps G P (keeper p).
Proof. intros HG Hp w. by eapply guar_zoom; [| |apply Hp]. Qed.

(** A statement of the database: what it does to the tables. *)
Lemma keeps_db_run G (P : req → Prop) {A} (st : AgentDB → res (A * AgentDB)) :
  (∀ w a db, st (aw_db w) = Ok (a, db) → G w (set_db db w)) → P ThreadStart → P ThreadJoin →
  keeps G P (db_run st).
Proof.
  intros HG H1 H2 w. apply guar_bind; [by apply guar_await|]. intros _ w1.
  change (guar G P (match st (aw_db w1) with
    | Ok (a, db) => _ ← modify (set_db db); _ ← await ThreadJoin; Ret a
    | Err e => _ ← await ThreadJoin; Raise e end) w1).
  destruct (st (aw_db w1)) as [[a db]|e] eqn:E.
  - split; [by eapply HG|]. apply guar_bind; [by apply guar_await|]. done.
  - apply guar_bind; [by apply guar_await|]. done.
Qed.

Lemma with_int_ok {A} z (st : Z → AgentDB → A * AgentDB) db a db' :
  with_int z st db = Ok (a, db') → st z db = (a, db').
Proof.
  unfold with_int, sql_int. destruct (_ && _); [|by intros (?&?&?)%res_bind_ok]. cbn. congruence.
Qed.

Lemma keeps_now G (P : req → Prop) now : P Time → keeps G P (now_or now).
Proof. destruct now; intros; [apply keeps_ret|by apply keeps_await]. Qed.

Ltac keeps_step :=
  match goal with
  | |- keeps _ _ (db_run _) => apply keeps_db_run; [try done|try done|try done]
  | |- keeps _ _ (now_or _) => apply keeps_now; try done
  | |- keeps _ _ (mbind _ _) => apply keeps_bind; [|intros]
  | |- keeps _ _ (lift _) => apply keeps_lift
  | |- keeps _ _ (gets _) => apply keeps_gets
  | |- keeps _ _ (modify _) => apply keeps_modify; try done
  | |- keeps _ _ (await _) => apply keeps_await; try done
  | |- keeps _ _ (Ret _) => apply keeps_ret
  | |- keeps _ _ (Raise _) => apply keeps_raise
  | |- keeps _ _ (try_except _ _) => apply keeps_try_except; [|intros]
  | |- keeps _ _ (try_catch _ _ _) => apply keeps_try_catch; [|intros]
  | |- keeps _ _ (match ?x with _ => _ end) => destruct x
  | |- keeps (λ _ _, True) _ (keeper _) => apply (keeps_keeper (λ _ _, True)); [done|]
  | |- keeps _ _ _ => by eauto with finax
  end.

Lemma get_proposal_areads id : areads (get_proposal id).
Proof. by apply keeps_db_run. Qed.

Lemma claim_proposal_areads id s : areads (claim_proposal id s).
Proof. by apply keeps_db_run. Qed.

Lemma finish_proposal_areads id s by_ note tx result now :
  areads (finish_proposal id s by_ note tx result now).
Proof. unfold finish_proposal. repeat keeps_step. Qed.

Lemma audit_areads actor action b pid detail now : areads (audit actor action b pid detail now).
Proof. unfold audit. repeat keeps_step. Qed.

Lemma count_areads since b : areads (count_recent_proposals since b).
Proof. by apply keeps_db_run. Qed.

#[export] Hint Resolve get_proposal_areads claim_proposal_areads finish_proposal_areads
  audit_areads count_areads : finax.

Section helper_reads.
Context {U : EthUtils} {UL : EthUtilsLaws U} {D : ProtectionDeps} {DL : ProtectionDepsLaws D}.
Context (cfg : Settings).

Lemma debt_price_areads asset : areads (debt_price_base cfg asset).
Proof.
  unfold debt_price_base. repeat keeps_step. intros w.
  eapply (guar_zoom _ _ (oracle_view_upd _) _ (λ _ _, True)); [done|].
  apply reads_areads, (api_asset_price_reads (A := chain_api cfg)).
Qed.

Lemma snapshot_areads b t : areads (snapshot b t).
Proof.
  unfold snapshot, set_state. repeat keeps_step. apply reads_areads, dep_poll_once_reads.
Qed.
End helper_reads.

(** ** Executions *)
Lemma exec_bind {S A B} (R : S → S → Prop) (p : io S A) (f : A → io S B) w tr1 a w1 tr2 r w' :
  exec R p w tr1 (Ok a) w1 → exec R (f a) w1 tr2 r w' →
  exec R (x ← p; f x) w (tr1 ++ tr2) r w'.
Proof.
  unfold mbind, io_bind. intros Hp Hf. remember (Ok a) as ra eqn:Hra.
  induction Hp as [| | | |q ans k s s1 tr rr s' H _ IH]; simplify_eq; cbn; try done.
  - constructor. auto.
  - constructor. auto.
  - econstructor; [done|]. auto.
Qed.

(** What every write and the interference preserve holds at the end. *)
Lemma guar_inv {S A} (I : S → Prop) P (R : S → S → Prop) (p : io S A) w tr r w' :
  (∀ w1 w2, R w1 w2 → I w1 → I w2) →
  guar (λ w1 w2, I w1 → I w2) P p w → I w → exec R p w tr r w' → I w'.
Proof.
  intros HR Hp HI He. revert Hp HI.
  induction He as [| | | |q ans k s s1 tr r s' H _ IH]; cbn; auto.
  - intros [H1 Hp] HI. auto.
  - intros [_ Hp] HI. apply IH; [apply Hp|]. unfold rely in H.
    destruct (yields q); [by eapply HR|by subst].
Qed.

Section executions.
Context (R : AgentWorld → AgentWorld → Prop).

Lemma exec_bind_inv {A B} (p : aprog A) (f : A → aprog B) w tr r w' :
  exec R (a ← p; f a) w tr r w' →
  (∃ e, r = Err e ∧ exec R p w tr (Err e) w') ∨
  ∃ a tr1 w1 tr2, tr = tr1 ++ tr2 ∧ exec R p w tr1 (Ok a) w1 ∧ exec R (f a) w1 tr2 r w'.
Proof.
  revert tr r w'. apply wp_exec. rewrite wp_bind. apply exec_wp. intros tr1 [a|e] w1 H1; [|eauto].
  apply exec_wp. intros tr2 r w' H2. right. by exists a, tr1, w1, tr2.
Qed.

Lemma areads_trace {A} (p : aprog A) w tr r w' : areads p → exec R p w tr r w' → quiet tr.
Proof. intros Hp He. by apply (guar_trace (λ _ _, True) (λ q, is_read q = true) R p w tr r w' (Hp w)). Qed.

(** A read-only step: either it is all that happened, or the rest follows it. *)
Lemma areads_bind_inv {A B} (p : aprog A) (f : A → aprog B) w tr r w' :
  areads p → exec R (a ← p; f a) w tr r w' →
  quiet tr ∨
  ∃ a tr1 w1 tr2, tr = tr1 ++ tr2 ∧ quiet tr1 ∧ exec R p w tr1 (Ok a) w1 ∧
    exec R (f a) w1 tr2 r w'.
Proof.
  intros Hp [(e & _ & He)|(a&tr1&w1&tr2&->&H1&H2)]%exec_bind_inv.
  - left. by eapply areads_trace.
  - right. exists a, tr1, w1, tr2. split_and!; try done. by eapply areads_trace.
Qed.

Lemma exec_gets_inv {A B} (f : AgentWorld → A) (g : A → aprog B) w tr r w' :
  exec R (a ← gets f; g a) w tr r w' → exec R (g (f w)) w tr r w'.
Proof. revert tr r w'. apply wp_exec. rewrite wp_bind, wp_gets. apply wp_self. Qed.

Lemma exec_modify_inv {B} (f : AgentWorld → AgentWorld) (g : () → aprog B) w tr r w' :
  exec R (a ← modify f; g a) w tr r w' → exec R (g tt) (f w) tr r w'.
Proof. revert tr r w'. apply wp_exec. rewrite wp_bind. cbn. apply wp_self. Qed.

(** An execution of [try ... except Exception]. *)
Lemma exec_try_except_inv {A} (p : aprog A) h w tr r w' :
  exec R (try_except p h) w tr r w' →
  (exec R p w tr r w' ∧ ∀ e, r = Err e → is_Exception e = false) ∨
  ∃ e tr1 w1 tr2, tr = tr1 ++ tr2 ∧ is_Exception e = true ∧ exec R p w tr1 (Err e) w1 ∧
    exec R (h e) w1 tr2 r w'.
Proof.
  revert tr r w'. apply wp_exec. rewrite wp_try_except. apply exec_wp. intros tr1 [a|e] w1 H1;
    [by left|]. destruct (is_Exception e) eqn:He; [|left; split; [done|congruence]].
  apply exec_wp. intros tr2 r w' H2. right. by exists e, tr1, w1, tr2.
Qed.
End executions.
