(* ===== verification/StoreSpec.v ===== *)
(** * The store's guarantees over any interleaving of statements

    SQLite executes one statement at a time, so what any number of coroutines do to the
    database is a sequence of statements ([db_step]).  [evolves] is what such a sequence can
    do, [store_wf] the invariant of the tables. *)
From S2P Require Import Prelude PyFloat PyText Config State Models AgentModels Events Io World Store.

(** Every statement the code issues, with the arguments it issues it with: a proposal is never
    set back to [PENDING], a suggestion never to [OPEN]. *)
Inductive db_step (db : AgentDB) : AgentDB → Prop :=
  | ds_insert run b strat facts gate why fl ts ex :
      db_step db (sql_insert_proposal run b strat facts gate why fl ts ex db).2
  | ds_claim id st : st ≠ PENDING → db_step db (sql_claim_proposal id st db).2
  | ds_finish id st ts by_ note tx result :
      st ≠ PENDING → db_step db (sql_finish_proposal id st ts by_ note tx result db)
  | ds_expire ts : db_step db (sql_expire ts db).2
  | ds_insert_tuning run b f c s why pay ts :
      db_step db (sql_insert_tuning run b f c s why pay ts db).2
  | ds_tuning_status id st ts : st ≠ OPEN → db_step db (sql_set_tuning_status id st ts db).2
  | ds_decision run b n out lat llm err ts :
      db_step db (sql_insert_decision run b n out lat llm err ts db).2
  | ds_audit actor action b pid detail ts :
      db_step db (sql_audit actor action b pid detail ts db).2
  | ds_thread t b ts : db_step db (sql_ensure_thread t b ts db)
  | ds_message t role content calls facts fl ts id db' :
      sql_append_message t role content calls facts fl ts db = Ok (id, db') → db_step db db'
  | ds_delete t : db_step db (sql_delete_thread t db).2.

(** *** What never changes in a row *)
Definition same_proposal (p p' : ProposalRow) : Prop :=
  p_id p' = p_id p ∧ p_run_id p' = p_run_id p ∧ p_borrower p' = p_borrower p ∧
  p_created_at p' = p_created_at p ∧ p_expires_at p' = p_expires_at p ∧
  p_strategy p' = p_strategy p ∧ p_facts p' = p_facts p ∧ p_gate p' = p_gate p ∧
  p_rationale p' = p_rationale p ∧ p_guard_flagged p' = p_guard_flagged p.

(** A decided proposal is never pending again, and keeps its transaction hash and who decided. *)
Definition proposal_step (p p' : ProposalRow) : Prop :=
  same_proposal p p' ∧ (p_status p ≠ PENDING → p_status p' ≠ PENDING) ∧
  (is_Some (p_tx_hash p) → is_Some (p_tx_hash p')) ∧
  (is_Some (p_decided_by p) → is_Some (p_decided_by p')).

(** A closed suggestion is final. *)
Definition tuning_step (t t' : TuningRow) : Prop :=
  t_id t' = t_id t ∧ t_borrower t' = t_borrower t ∧ t_field_name t' = t_field_name t ∧
  t_current_value t' = t_current_value t ∧ t_suggested_value t' = t_suggested_value t ∧
  t_eip712_payload t' = t_eip712_payload t ∧ (t_status t ≠ OPEN → t' = t).

(** Rows are appended, and existing rows move along [R]. *)
Definition grows {A} (R : A → A → Prop) (l l' : list A) : Prop :=
  ∃ l1 l2, l' = l1 ++ l2 ∧ Forall2 R l l1.

Definition evolves (db db' : AgentDB) : Prop :=
  grows proposal_step (db_proposals db) (db_proposals db') ∧
  grows tuning_step (db_tuning db) (db_tuning db') ∧
  db_audit db `prefix_of` db_audit db' ∧ db_decisions db `prefix_of` db_decisions db'.

#[global] Instance proposal_step_preorder : PreOrder proposal_step.
Proof.
  split.
  - intros p. by repeat split.
  - intros p q r (Hs & Ha & Hb & Hc) (Hs' & Ha' & Hb' & Hc').
    unfold proposal_step, same_proposal in *. destruct_and?. split_and!; try congruence; auto.
Qed.

#[global] Instance tuning_step_preorder : PreOrder tuning_step.
Proof.
  split.
  - intros p. by repeat split.
  - intros p q r (?&?&?&?&?&?&Hpq) (?&?&?&?&?&?&Hqr).
    split_and!; try congruence. intros Hp. specialize (Hpq Hp). subst q. auto.
Qed.

#[global] Instance grows_preorder {A} (R : A → A → Prop) `{!PreOrder R} : PreOrder (grows R).
Proof.
  split.
  - intros l. exists l, []. rewrite app_nil_r. split; [done|]. by apply Forall_Forall2_diag, Forall_true.
  - intros l l' l'' (l1 & l2 & -> & HR1) (k1 & k2 & -> & HR2).
    apply Forall2_app_inv_l in HR2 as (k3 & k4 & HR3 & _ & ->).
    exists k3, (k4 ++ k2). rewrite app_assoc. split; [done|]. by etrans.
Qed.

#[global] Instance evolves_preorder : PreOrder evolves.
Proof.
  split.
  - intros db. by repeat split.
  - intros a b c (?&?&?&?) (?&?&?&?). split_and!; by etrans.
Qed.

(** *** Statements evolve the tables *)
Lemma grows_refl {A} (R : A → A → Prop) `{!Reflexive R} l : grows R l l.
Proof. exists l, []. rewrite app_nil_r. split; [done|]. by apply Forall_Forall2_diag, Forall_true. Qed.

Lemma grows_snoc {A} (R : A → A → Prop) `{!Reflexive R} l x : grows R l (l ++ [x]).
Proof. exists l, [x]. split; [done|]. by apply Forall_Forall2_diag, Forall_true. Qed.

Lemma grows_update {A} (R : A → A → Prop) `{!Reflexive R} test (f : A → A) l :
  (∀ x, test x = true → R x (f x)) → grows R l (update_where test f l).2.
Proof.
  intros Hf. exists ((λ x, if test x then f x else x) <$> l), []. rewrite app_nil_r. split; [done|].
  rewrite Forall2_fmap_r. apply Forall_Forall2_diag, Forall_true. intros x.
  cbn. destruct (test x) eqn:E; [by apply Hf|reflexivity].
Qed.

Lemma is_Some_coalesce {A} (new old : option A) : is_Some old → is_Some (coalesce new old).
Proof. destruct new; [by eexists|done]. Qed.

Lemma db_step_evolves db db' : db_step db db' → evolves db db'.
Proof.
  intros [run b strat facts gate why fl ts ex|id st Hst|id st ts by_ note tx result Hst|ts
    |run b f c s why pay ts|id st ts Hst|run b n out lat llm err ts|actor action b pid detail ts
    |t b ts|t role content calls facts fl ts id db1 Hm|t]; unfold evolves; cbn.
  all: try (split_and!; [apply grows_refl, _|apply grows_refl, _|try done|try done]).
  all: try (by apply prefix_app_r).
  - split_and!; [by apply grows_snoc, _|apply grows_refl, _|done|done].
  - split_and!; [|apply grows_refl, _|done|done]. apply grows_update; [apply _|].
    intros p [_ ?%bool_decide_eq_true]%andb_true_iff. by repeat split.
  - split_and!; [|apply grows_refl, _|done|done]. apply grows_update; [apply _|].
    intros p _. split; [by repeat split|]. split; [done|]. cbn. split; apply is_Some_coalesce.
  - split_and!; [|apply grows_refl, _|done|done]. apply grows_update; [apply _|].
    intros p [?%bool_decide_eq_true _]%andb_true_iff. by repeat split.
  - split_and!; [apply grows_refl, _|by apply grows_snoc, _|done|done].
  - split_and!; [apply grows_refl, _| |done|done]. apply grows_update; [apply _|].
    intros p [_ ?%bool_decide_eq_true]%andb_true_iff. by repeat split.
  - unfold sql_append_message in Hm. destruct (decide _); [|done]. injection Hm as _ <-.
    split_and!; [apply grows_refl, _|apply grows_refl, _|done|done].
Qed.

Lemma db_steps_evolve db db' : rtc db_step db db' → evolves db db'.
Proof.
  induction 1 as [db|a b c Hs _ IH]; [reflexivity|].
  etrans; [by apply db_step_evolves|done].
Qed.

(** *** Identifiers *)
Definition numbered {A} (id : A → Z) (l : list A) : Prop :=
  ∀ i x, l !! i = Some x → id x = Z.of_nat i + 1.

Definition store_wf (db : AgentDB) : Prop :=
  numbered p_id (db_proposals db) ∧ numbered t_id (db_tuning db) ∧
  numbered d_id (db_decisions db) ∧ numbered a_id (db_audit db) ∧
  StronglySorted Z.lt (m_id <$> db_messages db) ∧
  Forall (λ m, m_id m < db_next_message db) (db_messages db).

Lemma numbered_snoc {A} (id : A → Z) l x :
  numbered id l → id x = next_id l → numbered id (l ++ [x]).
Proof.
  intros Hl Hx i y [Hi|[Hi [Hy <-]%list_lookup_singleton_Some]]%lookup_app_Some; [auto|].
  rewrite Hx. unfold next_id. lia.
Qed.

Lemma numbered_update {A} (id : A → Z) test f l :
  (∀ x, id (f x) = id x) → numbered id l → numbered id (update_where test f l).2.
Proof.
  intros Hf Hl i y Hi. cbn in Hi. rewrite list_lookup_fmap in Hi.
  destruct (l !! i) as [x|] eqn:E; [|done]. cbn in Hi. injection Hi as <-.
  destruct (test x); rewrite ?Hf; by apply Hl.
Qed.

Lemma sorted_snoc l z : StronglySorted Z.lt l → Forall (λ x, x < z) l → StronglySorted Z.lt (l ++ [z]).
Proof.
  induction 1 as [|x l Hs IH Hx]; cbn; intros Hz; [repeat constructor|].
  apply Forall_cons in Hz as [? ?]. constructor; [by apply IH|].
  apply Forall_app. split; [done|]. by repeat constructor.
Qed.

Lemma sorted_filter {A} (f : A → Z) (P : A → Prop) `{∀ x, Decision (P x)} l :
  StronglySorted Z.lt (f <$> l) → StronglySorted Z.lt (f <$> filter P l).
Proof.
  induction l as [|x l IH]; [done|]. rewrite fmap_cons, filter_cons.
  intros [Hs Hx]%StronglySorted_inv.
  destruct (decide (P x)); [|auto]. rewrite fmap_cons. constructor; [auto|]. rewrite Forall_fmap in Hx |- *.
  rewrite Forall_forall in Hx |- *. intros y [_ Hy]%list_elem_of_filter. by apply Hx.
Qed.

Lemma db_step_wf db db' : db_step db db' → store_wf db → store_wf db'.
Proof.
  intros Hstep (Hp&Ht&Hd&Ha&Hs&Hm).
  destruct Hstep as [run b strat facts gate why fl ts ex|id st Hst|id st ts by_ note tx result Hst|ts
    |run b f c s why pay ts|id st ts Hst|run b n out lat llm err ts|actor action b pid detail ts
    |t b ts|t role content calls facts fl ts id db1 Hmsg|t]; unfold store_wf; cbn.
  all: try (split_and!; try done; first [by apply numbered_snoc|by apply (numbered_update _ _ _ _)]).
  - unfold sql_append_message in Hmsg. destruct (decide _); [|done]. injection Hmsg as _ <-. cbn.
    split_and!; try done.
    + rewrite fmap_app. apply sorted_snoc; [done|]. by rewrite Forall_fmap.
    + apply Forall_app. split; [|repeat constructor; cbn; lia].
      eapply Forall_impl; [exact Hm|]. cbn. lia.
  - split_and!; try done; [by apply sorted_filter|].
    rewrite Forall_forall in Hm |- *. intros m [_ ?]%list_elem_of_filter. by apply Hm.
Qed.

Lemma db_steps_wf db db' : rtc db_step db db' → store_wf db → store_wf db'.
Proof. induction 1; eauto using db_step_wf. Qed.

(** A numbered table has at most one row per identifier. *)
Lemma numbered_inj {A} (id : A → Z) l x y :
  numbered id l → x ∈ l → y ∈ l → id x = id y → x = y.
Proof.
  intros Hl [i Hi]%list_elem_of_lookup [j Hj]%list_elem_of_lookup He.
  rewrite (Hl i x Hi), (Hl j y Hj) in He. assert (i = j) as -> by lia. congruence.
Qed.

Lemma head_filter {A} (P : A → Prop) `{∀ x, Decision (P x)} l x :
  head (filter P l) = Some x → x ∈ l ∧ P x.
Proof.
  destruct (filter P l) as [|y k] eqn:E; [done|]. intros [= ->].
  assert (x ∈ filter P l) as [? ?]%list_elem_of_filter by (rewrite E; by left). done.
Qed.

Lemma head_filter_in {A} (P : A → Prop) `{∀ x, Decision (P x)} l x :
  x ∈ l → P x → ∃ y, head (filter P l) = Some y.
Proof.
  intros Hx HP. assert (x ∈ filter P l) as Hin by by apply list_elem_of_filter.
  destruct (filter P l) as [|y k]; [by apply not_elem_of_nil in Hin|by exists y].
Qed.

Lemma get_proposal_spec db id p :
  numbered p_id (db_proposals db) →
  sql_get_proposal id db = Some p ↔ p ∈ db_proposals db ∧ p_id p = id.
Proof.
  intros Hn. unfold sql_get_proposal.
  split; [apply (head_filter (λ q, p_id q = id))|]. intros [Hp Hid].
  destruct (head_filter_in (λ q, p_id q = id) _ p Hp Hid) as (q & Hq).
  rewrite Hq. apply (head_filter (λ q, p_id q = id)) in Hq as [Hq Hqid]. f_equal.
  apply (numbered_inj p_id _ _ _ Hn); congruence.
Qed.

(** The rows a keyed update reaches. *)
Lemma numbered_count {A} (id : A → Z) k (P : A → bool) l :
  numbered id l → let n := Z.of_nat (length (filter (λ x, (id x =? k) && P x = true) l)) in
  n = 1 ∧ (∃ x, x ∈ l ∧ id x = k ∧ P x = true) ∨
  n = 0 ∧ ¬ ∃ x, x ∈ l ∧ id x = k ∧ P x = true.
Proof.
  intros Hn. cbn zeta. destruct (filter _ l) as [|x [|y r]] eqn:E.
  - right. split; [done|]. intros (x & Hx & Hk & HP).
    assert (x ∈ filter (λ x, (id x =? k) && P x = true) l) as Hin.
    { apply list_elem_of_filter. rewrite HP, andb_true_r. split; [lia|done]. }
    rewrite E in Hin. by apply not_elem_of_nil in Hin.
  - left. split; [done|]. assert (x ∈ filter (λ x, (id x =? k) && P x = true) l) as Hin
      by (rewrite E; by left). apply list_elem_of_filter in Hin as [[? ?]%andb_true_iff ?].
    exists x. split_and!; [done|lia|done].
  - exfalso. assert (NoDup (filter (λ x, (id x =? k) && P x = true) l)) as Hnd.
    { apply NoDup_filter. apply NoDup_alt. intros i j z Hi Hj.
      rewrite <-(Nat2Z.id i), <-(Nat2Z.id j). f_equal.
      pose proof (Hn i z Hi). pose proof (Hn j z Hj). lia. }
    rewrite E in Hnd. apply NoDup_cons in Hnd as [Hx _]. apply Hx.
    assert (x ∈ filter (λ x, (id x =? k) && P x = true) l) as Hxin by (rewrite E; by left).
    assert (y ∈ filter (λ x, (id x =? k) && P x = true) l) as Hyin by (rewrite E; right; left).
    apply list_elem_of_filter in Hxin as [[? _]%andb_true_iff ?].
    apply list_elem_of_filter in Hyin as [[? _]%andb_true_iff ?].
    rewrite (numbered_inj id l x y Hn); [left|done|done|lia].
Qed.

Lemma claim_spec db id st :
  numbered p_id (db_proposals db) →
  (sql_claim_proposal id st db).1 = true ↔
  ∃ p, sql_get_proposal id db = Some p ∧ p_status p = PENDING.
Proof.
  intros Hn. unfold sql_claim_proposal. cbn.
  destruct (numbered_count p_id id (λ p, bool_decide (p_status p = PENDING)) _ Hn)
    as [[-> (p & Hp & Hid & Hs)]|[-> Hno]]; cbn.
  - split; [intros _|done]. exists p. rewrite get_proposal_spec by done.
    by apply bool_decide_eq_true in Hs.
  - split; [done|]. intros (p & [Hp Hid]%get_proposal_spec & Hs); [|done]. exfalso. apply Hno.
    exists p. by rewrite bool_decide_eq_true.
Qed.

(** A row, followed along a growing table. *)
Lemma get_proposal_evolves db db' id p :
  store_wf db → store_wf db' → evolves db db' → sql_get_proposal id db = Some p →
  ∃ p', sql_get_proposal id db' = Some p' ∧ proposal_step p p'.
Proof.
  intros (Hn&_) (Hn'&_) ((l1 & l2 & Heq & HR) & _) [Hp Hid]%get_proposal_spec; [|done].
  apply list_elem_of_lookup in Hp as [i Hi].
  destruct (Forall2_lookup_l _ _ _ _ _ HR Hi) as (p' & Hi' & Hstep).
  exists p'. split; [|done]. apply get_proposal_spec; [done|]. split.
  - rewrite Heq. apply elem_of_app. left. by eapply list_elem_of_lookup_2.
  - destruct Hstep as [[-> _] _]. done.
Qed.

Lemma store_wf_empty : store_wf empty_db.
Proof. split_and!; try (intros i x Hx; done); constructor. Qed.

(** *** Chat history *)
Lemma filter_rev {A} (P : A → Prop) `{∀ x, Decision (P x)} l : filter P (rev l) = rev (filter P l).
Proof.
  induction l as [|x l IH]; [done|]. cbn [rev].
  rewrite filter_app, IH, (filter_cons P x l), (filter_cons P x []). destruct (decide (P x)); [done|]. by rewrite app_nil_r.
Qed.

Lemma rev_take_rev {A} n (l : list A) : rev (take n (rev l)) = drop (length l - n) l.
Proof. by rewrite firstn_rev, rev_involutive. Qed.

Lemma history_spec t n db :
  let msgs := filter (λ m, m_thread_id m = t) (db_messages db) in
  sql_history t n db = if n <? 0 then msgs else drop (length msgs - Z.to_nat n) msgs.
Proof.
  cbn zeta. unfold sql_history, limit_rows. rewrite filter_rev.
  destruct (n <? 0); [apply rev_involutive|apply rev_take_rev].
Qed.

Lemma last_window {A} (l : list A) x n :
  (0 < n)%nat → last (drop (length (l ++ [x]) - n) (l ++ [x])) = Some x.
Proof.
  intros Hn. rewrite drop_app_le by (rewrite length_app; cbn; lia). by rewrite last_snoc.
Qed.

Lemma filter_disjoint {A} (P Q : A → Prop) `{∀ x, Decision (P x)} `{∀ x, Decision (Q x)} (l : list A) :
  (∀ x, Q x → ¬ P x) → filter P (filter Q l) = [].
Proof.
  intros HPQ. induction l as [|x l IH]; [done|]. rewrite filter_cons.
  destruct (decide (Q x)); [rewrite filter_cons_False by auto|]; done.
Qed.

Lemma filter_imp {A} (P Q : A → Prop) `{∀ x, Decision (P x)} `{∀ x, Decision (Q x)} (l : list A) :
  (∀ x, P x → Q x) → filter P (filter Q l) = filter P l.
Proof.
  intros HPQ. induction l as [|x l IH]; [done|]. rewrite (filter_cons Q), (filter_cons P x l).
  destruct (decide (Q x)), (decide (P x)); rewrite ?(filter_cons P); try naive_solver.
  - by rewrite decide_True, IH.
  - by rewrite decide_False, IH.
Qed.

(** ** Claims *)

(** Two operators cannot both decide a proposal.  On a well-formed store a claim succeeds
    exactly when the proposal exists and is pending; and once a claim has succeeded, no claim
    of the same proposal, for any status, succeeds again, whatever statements any number of
    coroutines execute in between. *)
Theorem claim_once db id st won db1 :
  store_wf db → st ≠ PENDING → sql_claim_proposal id st db = (won, db1) →
  (won = true ↔ ∃ p, sql_get_proposal id db = Some p ∧ p_status p = PENDING) ∧
  (won = true → ∀ db2 st', rtc db_step db1 db2 → (sql_claim_proposal id st' db2).1 = false).
Proof.
  intros Hwf Hst Hc. pose proof Hwf as (Hn&_).
  assert (won = (sql_claim_proposal id st db).1 ∧ db1 = (sql_claim_proposal id st db).2) as [Hwon ->]
    by by rewrite Hc.
  rewrite Hwon, claim_spec by done. split; [done|].
  intros (p & Hp & Hs) db2 st' Hsteps. apply not_true_iff_false.
  assert (store_wf (sql_claim_proposal id st db).2) as Hwf1 by (eapply db_step_wf; [by constructor|done]).
  assert (store_wf db2) as Hwf2 by by eapply db_steps_wf.
  rewrite claim_spec by by destruct Hwf2. intros (p2 & Hp2 & Hs2).
  assert (sql_get_proposal id (sql_claim_proposal id st db).2 = Some (with_status st p)) as Hp1.
  { apply get_proposal_spec; [by destruct Hwf1|]. apply get_proposal_spec in Hp as [Hp Hid]; [|done].
    split; [|done]. cbn. apply list_elem_of_fmap. exists p. split; [|done].
    rewrite Hs, bool_decide_eq_true_2, andb_true_r by done. by rewrite (proj2 (Z.eqb_eq _ _)). }
  destruct (get_proposal_evolves _ db2 id _ Hwf1 Hwf2 (db_steps_evolve _ _ Hsteps) Hp1)
    as (p' & Hp' & _ & Hnp & _). rewrite Hp' in Hp2. injection Hp2 as ->. by apply Hnp.
Qed.

Lemma claim_once_witness :
  let db := (sql_insert_proposal "r" "0xb0b" "protect_now" JNull
    {| pd_allowed := true; pd_checks := []; pd_blocking := []; pd_severity := Sev_ok |} ""
    false (flit 1) (flit 901) empty_db).2 in
  (sql_claim_proposal 1 APPROVED db).1 = true ∧
  (sql_claim_proposal 1 REJECTED (sql_expire (flit 5000) (sql_claim_proposal 1 APPROVED db).2).2).1
    = false.
Proof.
  intros db. split; [vm_compute; reflexivity|].
  assert (store_wf db) as Hwf by (apply (db_step_wf empty_db); [constructor|apply store_wf_empty]).
  destruct (claim_once db 1 APPROVED true (sql_claim_proposal 1 APPROVED db).2 Hwf) as [_ H];
    [discriminate|vm_compute; reflexivity|].
  apply (H eq_refl). apply rtc_once. constructor.
Defined.

(** The record is append-only.  Whatever statements are executed: every row of the audit
    trail and of the crew's trace stays as it was written, under its number; a queued proposal
    is found under its number for ever, with the facts, the gate verdict, the rationale and
    the borrower it was queued with, it never becomes pending again, and a transaction hash
    or a decider once recorded is not erased; and a closed suggestion never changes. *)
Theorem store_append_only db db' :
  store_wf db → rtc db_step db db' →
  store_wf db' ∧ db_audit db `prefix_of` db_audit db' ∧
  db_decisions db `prefix_of` db_decisions db' ∧
  (∀ id p, sql_get_proposal id db = Some p →
     ∃ p', sql_get_proposal id db' = Some p' ∧ proposal_step p p') ∧
  (∀ t, t ∈ db_tuning db → t_status t ≠ OPEN → t ∈ db_tuning db').
Proof.
  intros Hwf Hs. pose proof (db_steps_wf _ _ Hs Hwf) as Hwf'.
  pose proof (db_steps_evolve _ _ Hs) as He. split; [done|].
  pose proof He as (_ & (l1 & l2 & Heq & HR) & ? & ?). split_and!; [done|done| |].
  - intros id p. by apply get_proposal_evolves.
  - intros t [i Hi]%list_elem_of_lookup Ht.
    destruct (Forall2_lookup_l _ _ _ _ _ HR Hi) as (t' & Hi' & _ & _ & _ & _ & _ & _ & Hsame).
    rewrite Heq. apply elem_of_app. left. rewrite (Hsame Ht) in Hi'. by eapply list_elem_of_lookup_2.
Qed.

Lemma store_append_only_witness :
  let db := (sql_audit Human A_PANIC None None JNull (flit 1) empty_db).2 in
  let db' := (sql_expire (flit 2) db).2 in
  store_wf db' ∧ db_audit db `prefix_of` db_audit db'.
Proof.
  intros db db'. destruct (store_append_only db db') as (Hwf & Ha & _).
  - apply (db_step_wf empty_db); [constructor|apply store_wf_empty].
  - apply rtc_once. constructor.
  - split; [exact Hwf|exact Ha].
Defined.

(** Chat history replays the right end of the conversation: [history t n] is the last [n]
    messages of the thread, oldest first (all of them for a negative limit); a message
    appended to an existing thread is its last, one for a thread that does not exist is
    refused by the foreign key and changes nothing; and deleting a thread deletes its
    messages and no others. *)
Theorem history_window t n db :
  let msgs := filter (λ m, m_thread_id m = t) (db_messages db) in
  sql_history t n db = (if n <? 0 then msgs else drop (length msgs - Z.to_nat n) msgs) ∧
  (∀ role content calls facts fl ts, 0 < n →
     match sql_append_message t role content calls facts fl ts db with
     | Ok (id, db') =>
         t ∈ th_id <$> db_threads db ∧ id = db_next_message db ∧
         ∃ m, last (sql_history t n db') = Some m ∧ m_id m = id ∧ m_content m = content
     | Err _ => t ∉ th_id <$> db_threads db
     end) ∧
  (∀ db', db' = (sql_delete_thread t db).2 →
     t ∉ th_id <$> db_threads db' ∧ sql_history t n db' = [] ∧
     ∀ t', t' ≠ t → sql_history t' n db' = sql_history t' n db).
Proof.
  cbn zeta. split; [apply history_spec|]. split.
  - intros role content calls facts fl ts Hpos. unfold sql_append_message.
    destruct (decide _) as [Hin|]; [|done]. split; [done|]. split; [done|].
    rewrite history_spec. cbn [db_messages set_chat]. rewrite (proj2 (Z.ltb_ge _ _)) by lia.
    rewrite filter_app, (filter_cons_True _ _ []) by done. cbn [filter list_filter].
    eexists. split; [apply last_window; lia|done].
  - intros db' ->. split; [|split].
    + cbn. rewrite list_elem_of_fmap. by intros (th & -> & [? _]%list_elem_of_filter).
    + rewrite history_spec. cbn [db_messages sql_delete_thread set_chat snd].
      rewrite filter_disjoint by done. by destruct (n <? 0); rewrite ?drop_nil.
    + intros t' Ht. rewrite !history_spec. cbn [db_messages sql_delete_thread set_chat snd].
      by rewrite filter_imp by congruence.
Qed.

Lemma history_window_witness :
  let db := sql_ensure_thread "t" None (flit 1) empty_db in
  ∃ id db', sql_append_message "t" User "hello" None None false (flit 2) db = Ok (id, db') ∧
    ∃ m, last (sql_history "t" 5 db') = Some m ∧ m_content m = "hello"%string.
Proof.
  intros db. destruct (history_window "t" 5 db) as (_ & H & _).
  specialize (H User "hello"%string None None false (flit 2) ltac:(lia)).
  destruct (sql_append_message "t" User "hello" None None false (flit 2) db) as [[id db']|e] eqn:E;
    [|vm_compute in E; discriminate E].
  exists id, db'. split; [reflexivity|]. destruct H as (_ & _ & m & Hm & _ & Hc).
  exists m. split; [exact Hm|exact Hc].
Defined.
