(* ===== verification/StoreRefine.v ===== *)
(** * The store as an approval queue: refinement of an abstract specification

    The proposals table promises a queue: a finite map from identifiers to proposals, in which
    a proposal is queued under a fresh identifier, read, claimed while it is pending, finished,
    expired and counted.  The SQL statements of [Store.v], on a list of rows, implement it. *)
From stdpp Require Import gmap fin_maps.
From S2P Require Import Prelude PyFloat PyText Config State Models AgentModels Events Io World Store.
From S2P Require Import StoreSpec.

(** ** The specification *)
Record Queue := { q_rows : gmap Z ProposalRow; q_next : Z }.

(** What a client asks of the queue; the fields of a new proposal are a function of its
    identifier. *)
Inductive request :=
  | Enqueue (run b strategy : string) (facts : json) (gate : PolicyDecision) (why : string)
      (fl : bool) (ts expires : f64)
  | Read (id : Z)
  | Claim (id : Z) (st : ProposalStatus)
  | Finish (id : Z) (st : ProposalStatus) (ts : f64) (by_ note tx : option string)
      (result : option ProtectResponse)
  | Expire (ts : f64)
  | CountRecent (since : f64) (b : option string).

Inductive outcome_of_request := Number (n : Z) | Row (p : option ProposalRow) | Won (b : bool) | Done.

Definition fresh_row (id : Z) (run b strategy : string) (facts : json) (gate : PolicyDecision)
    (why : string) (fl : bool) (ts expires : f64) : ProposalRow :=
  {| p_id := id; p_run_id := run; p_borrower := b; p_created_at := ts; p_expires_at := expires;
     p_status := PENDING; p_strategy := strategy; p_facts := facts; p_gate := gate;
     p_rationale := why; p_guard_flagged := fl; p_decided_at := None; p_decided_by := None;
     p_decision_note := None; p_tx_hash := None; p_result := None |}.

Definition overdue (ts : f64) (p : ProposalRow) : bool :=
  bool_decide (p_status p = PENDING) && flt (p_expires_at p) ts.

Definition recent (since : f64) (b : option string) (p : ProposalRow) : bool :=
  fle since (p_created_at p) && matches b (p_borrower p).

Definition number_of (test : ProposalRow → bool) (m : gmap Z ProposalRow) : Z :=
  Z.of_nat (size (filter (λ kp, test kp.2 = true) m)).

Definition serve (r : request) (q : Queue) : outcome_of_request * Queue :=
  match r with
  | Enqueue run b strategy facts gate why fl ts expires =>
      (Number (q_next q),
       {| q_rows := <[q_next q := fresh_row (q_next q) run b strategy facts gate why fl ts expires]>
                      (q_rows q);
          q_next := q_next q + 1 |})
  | Read id => (Row (q_rows q !! id), q)
  | Claim id st =>
      match q_rows q !! id with
      | Some p =>
          if decide (p_status p = PENDING) then
            (Won true, {| q_rows := <[id := with_status st p]> (q_rows q); q_next := q_next q |})
          else (Won false, q)
      | None => (Won false, q)
      end
  | Finish id st ts by_ note tx result =>
      (Done, {| q_rows := alter (finished st ts by_ note tx result) id (q_rows q);
                q_next := q_next q |})
  | Expire ts =>
      (Number (number_of (overdue ts) (q_rows q)),
       {| q_rows := (λ p, if overdue ts p then with_status EXPIRED p else p) <$> q_rows q;
          q_next := q_next q |})
  | CountRecent since b => (Number (number_of (recent since b) (q_rows q)), q)
  end.

(** ** The implementation *)
Definition execute (r : request) (db : AgentDB) : outcome_of_request * AgentDB :=
  match r with
  | Enqueue run b strategy facts gate why fl ts expires =>
      let '(id, db') := sql_insert_proposal run b strategy facts gate why fl ts expires db in
      (Number id, db')
  | Read id => (Row (sql_get_proposal id db), db)
  | Claim id st => let '(won, db') := sql_claim_proposal id st db in (Won won, db')
  | Finish id st ts by_ note tx result =>
      (Done, sql_finish_proposal id st ts by_ note tx result db)
  | Expire ts => let '(n, db') := sql_expire ts db in (Number n, db')
  | CountRecent since b => (Number (sql_count_recent since b db), db)
  end.

(** The queue a table represents. *)
Definition keyed (l : list ProposalRow) : gmap Z ProposalRow :=
  list_to_map ((λ p, (p_id p, p)) <$> l).

Definition queue_of (db : AgentDB) : Queue :=
  {| q_rows := keyed (db_proposals db); q_next := next_id (db_proposals db) |}.

Fixpoint serve_all (rs : list request) (q : Queue) : list outcome_of_request * Queue :=
  match rs with
  | [] => ([], q)
  | r :: rs' => let '(o, q1) := serve r q in let '(os, q2) := serve_all rs' q1 in (o :: os, q2)
  end.

Fixpoint execute_all (rs : list request) (db : AgentDB) : list outcome_of_request * AgentDB :=
  match rs with
  | [] => ([], db)
  | r :: rs' =>
      let '(o, db1) := execute r db in let '(os, db2) := execute_all rs' db1 in (o :: os, db2)
  end.

(** ** The representation *)
Lemma numbered_NoDup l : numbered p_id l → NoDup ((λ p, (p_id p, p)) <$> l).*1.
Proof.
  intros Hn. rewrite <-list_fmap_compose. apply NoDup_alt. intros i j k Hi Hj.
  rewrite list_lookup_fmap in Hi, Hj.
  destruct (l !! i) as [x|] eqn:Ei; [|done]. destruct (l !! j) as [y|] eqn:Ej; [|done].
  cbn in Hi, Hj. apply Hn in Ei, Ej. injection Hi as Hi. injection Hj as Hj. lia.
Qed.

Lemma keyed_lookup l id p :
  numbered p_id l → keyed l !! id = Some p ↔ p ∈ l ∧ p_id p = id.
Proof.
  intros Hn. unfold keyed. rewrite <-elem_of_list_to_map by by apply numbered_NoDup.
  rewrite list_elem_of_fmap. split.
  - intros (q & [= -> ->] & Hq). done.
  - intros [Hp <-]. by exists p.
Qed.

Lemma get_keyed db id :
  numbered p_id (db_proposals db) → sql_get_proposal id db = keyed (db_proposals db) !! id.
Proof.
  intros Hn. apply option_eq. intros p. by rewrite get_proposal_spec, keyed_lookup.
Qed.

Lemma keyed_update test f l :
  (∀ p, p_id (f p) = p_id p) →
  keyed (update_where test f l).2 = (λ p, if test p then f p else p) <$> keyed l.
Proof.
  intros Hf. unfold keyed, update_where. cbn [snd].
  rewrite <-list_to_map_fmap, <-!list_fmap_compose. f_equal. apply list_fmap_ext.
  intros _ p _. cbn. destruct (test p); by rewrite ?Hf.
Qed.

Lemma keyed_count test l :
  numbered p_id l → Z.of_nat (length (filter (λ p, test p = true) l)) = number_of test (keyed l).
Proof.
  intros Hn%numbered_NoDup. unfold number_of. f_equal. unfold keyed.
  induction l as [|p l IH]; [done|]. cbn in Hn |- *. apply NoDup_cons in Hn as [Hp Hn].
  assert (keyed l !! p_id p = None) as Hfresh by by apply not_elem_of_list_to_map.
  unfold keyed in Hfresh. destruct (decide (test p = true)) as [Ht|Ht].
  - rewrite map_filter_insert_True by done.
    rewrite map_size_insert_None; [exact (f_equal S (IH Hn))|].
    apply map_lookup_filter_None. by left.
  - rewrite map_filter_insert_not'; [exact (IH Hn)|exact Ht|]. intros y. by rewrite Hfresh.
Qed.

(** ** The refinement, one request at a time *)
Lemma keyed_at l id (P : ProposalRow → bool) f :
  numbered p_id l →
  (λ p, if (p_id p =? id) && P p then f p else p) <$> keyed l =
  match keyed l !! id with
  | Some p => if P p then <[id := f p]> (keyed l) else keyed l
  | None => keyed l
  end.
Proof.
  intros Hn. apply map_eq. intros i. rewrite lookup_fmap.
  destruct (keyed l !! i) as [p|] eqn:Hi; cbn.
  - pose proof Hi as [_ Hid]%keyed_lookup; [|done]. rewrite Hid.
    destruct (Z.eqb_spec i id) as [->|Hne]; cbn.
    + rewrite Hi. destruct (P p); [by rewrite lookup_insert_eq|done].
    + destruct (keyed l !! id) as [q|]; [|done]. destruct (P q); [|done].
      by rewrite lookup_insert_ne.
  - destruct (keyed l !! id) as [q|] eqn:Hq; [|done]. destruct (P q); [|done].
    rewrite lookup_insert_ne; congruence.
Qed.

Lemma keyed_alter l id f :
  numbered p_id l → (λ p, if p_id p =? id then f p else p) <$> keyed l = alter f id (keyed l).
Proof.
  intros Hn. apply map_eq. intros i. rewrite lookup_fmap. destruct (decide (id = i)) as [->|Hne].
  - rewrite lookup_alter_eq. destruct (keyed l !! i) as [p|] eqn:Hi; [|done]. cbn.
    apply keyed_lookup in Hi as [_ ->]; [|done]. by rewrite Z.eqb_refl.
  - rewrite lookup_alter_ne by done. destruct (keyed l !! i) as [p|] eqn:Hi; [|done]. cbn.
    apply keyed_lookup in Hi as [_ ->]; [|done]. by destruct (Z.eqb_spec i id).
Qed.

Lemma claim_won l id :
  numbered p_id l →
  (Z.of_nat (length (filter (λ p, (p_id p =? id) && bool_decide (p_status p = PENDING) = true) l)) =? 1) =
  match keyed l !! id with Some p => bool_decide (p_status p = PENDING) | None => false end.
Proof.
  intros Hn. destruct (numbered_count p_id id (λ p, bool_decide (p_status p = PENDING)) _ Hn)
    as [[-> (p & Hp & Hid & Hs)]|[-> Hno]].
  - assert (keyed l !! id = Some p) as -> by by apply keyed_lookup. by rewrite Hs.
  - destruct (keyed l !! id) as [p|] eqn:Hp; [|done]. apply keyed_lookup in Hp as [Hp Hid]; [|done].
    destruct (bool_decide _) eqn:E; [|done]. exfalso. apply Hno. by exists p.
Qed.

Lemma keyed_snoc l x :
  numbered p_id l → p_id x = next_id l → keyed (l ++ [x]) = <[next_id l := x]> (keyed l).
Proof.
  intros Hn Hx. apply map_eq. intros i. apply option_eq. intros p.
  rewrite keyed_lookup by by apply numbered_snoc. rewrite lookup_insert_Some, keyed_lookup by done.
  rewrite elem_of_app, list_elem_of_singleton. split.
  - intros [[Hp | ->] <-]; [right|by left]. split; [|done].
    apply list_elem_of_lookup in Hp as [j Hj]. pose proof (lookup_lt_Some _ _ _ Hj).
    apply Hn in Hj. unfold next_id. lia.
  - intros [[<- <-]|[_ [Hp Hid]]]; [by split; [right|]|by split; [left|]].
Qed.

Lemma next_id_update test f (l : list ProposalRow) : next_id (update_where test f l).2 = next_id l.
Proof. unfold next_id, update_where. cbn. by rewrite length_fmap. Qed.

Lemma serve_execute r db :
  store_wf db → serve r (queue_of db) = ((execute r db).1, queue_of (execute r db).2).
Proof.
  intros (Hn & _). unfold queue_of.
  destruct r as [run b strategy facts gate why fl ts ex|id|id st|id st ts by_ note tx result|ts|since b].
  - unfold execute, sql_insert_proposal. cbn [serve q_rows q_next fst snd db_proposals set_proposals].
    rewrite keyed_snoc by done. f_equal. f_equal. unfold next_id. rewrite length_app. cbn. lia.
  - cbn. by rewrite get_keyed.
  - unfold execute, sql_claim_proposal. pose proof (claim_won _ id Hn) as Hw.
    pose proof (keyed_update (λ p, (p_id p =? id) && bool_decide (p_status p = PENDING))
      (with_status st) (db_proposals db) (λ _, eq_refl)) as Hk. cbn beta in Hk.
    rewrite (keyed_at _ id (λ p, bool_decide (p_status p = PENDING)) (with_status st) Hn) in Hk.
    pose proof (next_id_update (λ p, (p_id p =? id) && bool_decide (p_status p = PENDING))
      (with_status st) (db_proposals db)) as Hi. unfold update_where in *.
    cbn [serve q_rows q_next fst snd db_proposals set_proposals] in *. rewrite Hw, Hk, Hi.
    destruct (keyed (db_proposals db) !! id) as [p|]; [|done].
    by destruct (decide (p_status p = PENDING)) as [->|?]; [|rewrite bool_decide_eq_false_2].
  - unfold execute, sql_finish_proposal.
    cbn [serve q_rows q_next fst snd db_proposals set_proposals].
    by rewrite keyed_update, next_id_update, keyed_alter.
  - unfold execute, sql_expire.
    pose proof (keyed_update (overdue ts) (with_status EXPIRED) (db_proposals db) (λ _, eq_refl)) as Hk.
    pose proof (next_id_update (overdue ts) (with_status EXPIRED) (db_proposals db)) as Hi.
    unfold update_where in *. cbn [serve q_rows q_next fst snd db_proposals set_proposals] in *.
    rewrite <-keyed_count by done. unfold overdue in *. by rewrite Hk, Hi.
  - unfold execute, sql_count_recent. cbn [serve q_rows q_next fst snd].
    by rewrite <-keyed_count.
Qed.

(** Every request is a sequence of the statements of [StoreSpec.v]. *)
Definition decides (r : request) : Prop :=
  match r with Claim _ st | Finish _ st _ _ _ _ _ => st ≠ PENDING | _ => True end.

Lemma execute_wf r db : decides r → store_wf db → store_wf (execute r db).2.
Proof.
  intros Hd Hwf. destruct r; cbn in Hd |- *; try done.
  - eapply db_step_wf; [apply ds_insert|done].
  - eapply db_step_wf; [by apply ds_claim|done].
  - eapply db_step_wf; [by apply ds_finish|done].
  - eapply db_step_wf; [apply ds_expire|done].
Qed.

(** ** Claims *)

(** C28: The proposals table implements the approval queue.  From a well-formed store, any
    sequence of requests that never sets a proposal back to pending is answered by the SQL
    statements, on a list of rows, exactly as the abstract queue, a finite map with a counter,
    answers it; and at the end the table represents the queue's state. *)
Theorem store_refines_queue rs db :
  store_wf db → Forall decides rs →
  serve_all rs (queue_of db) = ((execute_all rs db).1, queue_of (execute_all rs db).2) ∧
  store_wf (execute_all rs db).2.
Proof.
  intros Hwf Hrs. revert db Hwf. induction Hrs as [|r rs Hr _ IH]; intros db Hwf; [done|].
  cbn [serve_all execute_all]. rewrite serve_execute by done.
  pose proof (execute_wf r db Hr Hwf) as Hwf1. destruct (execute r db) as [o db1]. cbn in *.
  destruct (IH db1 Hwf1) as [-> Hwf2]. by destruct (execute_all rs db1).
Qed.

Definition demo_requests : list request :=
  [Enqueue "r" "0xb0b" "protect_now" JNull
     {| pd_allowed := true; pd_checks := []; pd_blocking := []; pd_severity := Sev_ok |} "" false
     (flit 10) (flit 20);
   Claim 1 APPROVED; Claim 1 REJECTED; Expire (flit 30); CountRecent fzero None].

Lemma store_refines_queue_witness :
  (serve_all demo_requests (queue_of empty_db)).1 =
    [Number 1; Won true; Won false; Number 0; Number 1].
Proof.
  rewrite (proj1 (store_refines_queue demo_requests empty_db store_wf_empty
    ltac:(repeat constructor; discriminate))). vm_compute. reflexivity.
Defined.
