(* ===== verification/Tools.v ===== *)
(** * agent/tools.py: what the agents may do

    The read-only tools the chat model is bound to, the two proposal writers of the crew,
    and the text they explain states and reverts with.  No tool builds or sends a
    transaction. *)
From S2P Require Import Prelude PyFloat PyText Config State InFlight Breaker Observability Models.
From S2P Require Import AgentModels Risk Events Io Logic World Api Chain Monitor Pipeline.
From S2P Require Import Simulator Submitter Service Deps Routes Store AgentBase.

Definition DEFAULT_TRIGGER_BPS : Z := 11500.

(** ** Texts *)
(** [_VAULT_ERRORS] *)
Definition VAULT_ERRORS : dict string string :=
  [("NotAuthorized",
    "The caller is not the configured keeper. Only the keeper address set on the vault " +:+
    "may invoke executeProtection.");
   ("BadSignature",
    "The EIP-712 signature does not recover to the borrower in the RiskParams. The " +:+
    "mandate was not signed by its owner, or a field was altered after signing — any " +:+
    "change to RiskParams requires a fresh signature.");
   ("NonceUsed",
    "This mandate's nonce has already been consumed. Each signed RiskParams is " +:+
    "single-use; the borrower must sign a new one.");
   ("Expired",
    "The mandate's deadline has passed. The borrower must re-sign with a later " +:+
    "deadline.");
   ("CollateralNotAllowed",
    "The chosen collateral is not in the borrower's signed allow-list. The vault will " +:+
    "only touch assets the borrower explicitly permitted.");
   ("NoDebt",
    "The position carries no debt, so there is nothing to repay.");
   ("TargetOutOfBand",
    "The requested health-factor target falls outside the band the borrower signed " +:+
    "(hfTargetBaseBps..hfTargetMaxBps).");
   ("CallerNotPool",
    "executeOperation was invoked by something other than the Aave pool. The flash-loan " +:+
    "callback only accepts the pool.");
   ("BadInitiator",
    "The flash loan was initiated by an address other than this vault.");
   ("AssetMismatch",
    "The asset returned in the flash-loan callback is not the debt asset the operation " +:+
    "was built for.");
   ("CostExceeded",
    "The intervention's total cost exceeded the borrower's signed maxCostBps. The vault " +:+
    "refuses a rescue that costs more than the mandate permits.");
   ("HealthBelowTarget",
    "After the repay and swap, the health factor still sits below the target — the " +:+
    "sized repay was insufficient, so the whole transaction reverted and the position " +:+
    "is unchanged.");
   ("DebtNotReduced",
    "The operation did not reduce the borrower's debt. The vault enforces that a rescue " +:+
    "makes the position strictly better.");
   ("LeverageIncreased",
    "The operation would have increased leverage. The vault refuses any path that " +:+
    "leaves the borrower more exposed than before.")]%string.

(** [_STATE_EXPLANATIONS] *)
Definition STATE_EXPLANATIONS (s : PositionState) : string :=
  match s with
  | HEALTHY =>
      "Health factor is comfortably above the trigger; nothing to do."
  | WATCH =>
      "Health factor is inside the watch band above the trigger — close enough to " +:+
      "reassess each poll, not yet close enough to act."
  | ASSESSING =>
      "Health factor is at or below the trigger. The decision pipeline is sizing a repay, " +:+
      "selecting collateral, and testing viability."
  | DECLINED =>
      "The pipeline evaluated an intervention and declined it — typically because the " +:+
      "cost exceeded the value protected, or no eligible collateral had the required " +:+
      "aToken allowance. Transient: the position returns to WATCH and is reconsidered."
  | READY =>
      "A rescue simulated successfully and is about to be submitted."
  | SUBMITTED =>
      "A rescue transaction is broadcast and awaiting its receipt. The in-flight lock " +:+
      "prevents a second submission for this borrower."
  | RESTORED =>
      "The rescue executed and the health factor reached its target."
  | REVERTED =>
      "The rescue reverted atomically. No partial state was written and the position is " +:+
      "exactly as it was."
  end.

(** [_DOCTRINE] *)
Definition DOCTRINE : string :=
  "FinaX protects Aave V3 positions from liquidation. Its operating doctrine is 'math " +:+
  "proposes, simulation validates, Solidity enforces': a closed-form formula sizes " +:+
  "the minimum repay that restores the health factor to a volatility-adaptive target, " +:+
  "an eth_call simulation proves the transaction would succeed, and the " +:+
  "LiquidationShieldVault re-verifies the borrower's EIP-712 mandate and every safety " +:+
  "invariant on chain before anything settles. The agent layer orchestrates and " +:+
  "explains; it is not the decision-maker. Every figure it reports is read back from " +:+
  "the backend's own response models, and no action reaches the chain without a human " +:+
  "approving it.".

Definition all_statuses : list ProposalStatus :=
  [PENDING; APPROVED; REJECTED; EXECUTED; FAILED; STALE; EXPIRED].

(** Lookup of an enumeration member by value. *)
Definition by_value {A} (value : A → string) (members : list A) (s : string) : option A :=
  head (filter (λ a, value a = s) members).

(** ** Values the tools return *)
Definition jstrs (l : list string) : json := JList (JStr <$> l).

Definition dump_metrics (m : MetricsSnapshot) : json :=
  JObj [("breaker_paused", JBool (breaker_paused m));
        ("breaker_consecutive_failures", JInt (breaker_consecutive_failures m));
        ("breaker_trip_reason", jopt (breaker_trip_reason m));
        ("in_flight_borrowers", jstrs (in_flight_borrowers m));
        ("registered_positions", JInt (registered_positions m));
        ("counters", JObj ((λ kv, (kv.1, JInt kv.2)) <$> ms_counters m));
        ("states", JObj ((λ kv, (kv.1, JStr kv.2)) <$> ms_states m))]%string.

Definition jint_opt (z : option Z) : json := match z with Some z => JInt z | None => JNull end.

Definition actor_value (a : Actor) : string :=
  match a with Agent => "agent" | Human => "human" | System => "system" end.

Section tools.
Context `{UnicodeData} `{EthUtils} `{Libm} `{ProtectionDeps}.

Definition symbol_or (a : string) : string := default a (dget TOKEN_SYMBOLS a).

(** ** Read-only tools *)
Definition t_doctrine : aprog json := Ret (JStr DOCTRINE).

Definition t_list_positions : aprog json := gets (λ w, jstrs (registered (aw_world w))).

Definition t_position_state (borrower : string) : aprog json :=
  state ← gets (λ w, state_of (aw_world w) borrower);
  Ret (JObj [("borrower", JStr borrower); ("state", JStr (state_value state));
             ("meaning", JStr (STATE_EXPLANATIONS state))]%string).

Definition t_position_snapshot (borrower : string) : aprog json :=
  registered ← gets (λ w, params_of (aw_world w) borrower);
  let trigger := match registered with
                 | Some (p, _) => rp_hf_trigger_bps p
                 | None => DEFAULT_TRIGGER_BPS
                 end in
  snap ← keeper (snapshot borrower trigger);
  c ← lift (collateral_usd (ps_account snap));
  d ← lift (debt_usd (ps_account snap));
  Ret (JObj [("borrower", JStr (ps_borrower snap)); ("state", JStr (state_value (ps_state snap)));
             ("hf", JFloat (ps_hf snap)); ("hf_trigger_bps", JInt (ps_hf_trigger_bps snap));
             ("collateral_usd", JFloat c); ("debt_usd", JFloat d);
             ("liquidation_threshold_bps", JInt (liquidation_threshold_bps (ps_account snap)));
             ("has_debt", JBool (has_debt (ps_account snap)));
             ("registered", JBool (bool_decide (is_Some registered)))]%string).

(** The mandate without its signature. *)
Definition dump_params (p : RiskParams) : json :=
  JObj [("borrower", JStr (rp_borrower p)); ("hf_trigger_bps", JInt (rp_hf_trigger_bps p));
        ("hf_target_base_bps", JInt (rp_hf_target_base_bps p));
        ("hf_target_max_bps", JInt (rp_hf_target_max_bps p));
        ("vol_coeff_k", JInt (rp_vol_coeff_k p));
        ("max_slippage_bps", JInt (rp_max_slippage_bps p));
        ("max_cost_bps", JInt (rp_max_cost_bps p));
        ("allowed_collaterals", jstrs (rp_allowed_collaterals p));
        ("allowed_collateral_symbols", jstrs (symbol_or <$> rp_allowed_collaterals p));
        ("nonce", JInt (rp_nonce p)); ("deadline", JInt (rp_deadline p))]%string.

Definition t_registered_params (borrower : string) : aprog json :=
  registered ← gets (λ w, params_of (aw_world w) borrower);
  match registered with
  | None => Ret JNull
  | Some (params, _) => Ret (dump_params params)
  end.

Definition jerror (msg : string) : json := JObj [("error"%string, JStr msg)].

Definition t_assess (borrower : string) : aprog json :=
  registered ← gets (λ w, params_of (aw_world w) borrower);
  match registered with
  | None => Ret (jerror "borrower not registered; no signed mandate to assess against")
  | Some (params, _) =>
      sigma ← keeper (agent_sigma_for params);
      result ← keeper (service_assess params (Some sigma));
      Ret (JObj [("borrower", JStr borrower); ("hf", JFloat (as_hf result));
                 ("hf_target", JFloat (as_hf_target result));
                 ("repay_amount", JInt (as_repay_amount result));
                 ("collateral_asset", JStr (as_collateral_asset result));
                 ("collateral_symbol", JStr (symbol_or (as_collateral_asset result)));
                 ("est_cost_bps", JInt (as_est_cost_bps result));
                 ("viable", JBool (as_viable result)); ("reason", jopt (as_reason result))]%string)
  end.

(** [risk_signal] *)
Definition risk_signal (params : RiskParams) (hf : f64) : aprog RiskSignal :=
  sigma ← keeper (agent_sigma_for params);
  lift (assess_risk hf sigma (rp_hf_target_base_bps params) (rp_hf_target_max_bps params)
          (rp_vol_coeff_k params) 1).

Definition t_risk_signal (borrower : string) : aprog json :=
  registered ← gets (λ w, params_of (aw_world w) borrower);
  match registered with
  | None => Ret (jerror "borrower not registered; no signed mandate to derive a target from")
  | Some (params, _) =>
      snap ← keeper (snapshot borrower (rp_hf_trigger_bps params));
      signal ← risk_signal params (ps_hf snap);
      target ← lift (truediv (rs_hf_target_bps signal) 10000);
      Ret (JObj [("borrower", JStr borrower); ("hf", JFloat (ps_hf snap));
                 ("sigma", JFloat (rs_sigma signal));
                 ("breach_probability", JFloat (rs_breach_probability signal));
                 ("hf_target_bps", JInt (rs_hf_target_bps signal)); ("hf_target", JFloat target);
                 ("hf_trigger_bps", JInt (rp_hf_trigger_bps params));
                 ("note", JStr ("sigma is a rolling standard deviation of oracle prices, not a " +:+
                    "forecast; the breach probability is a heuristic early-warning signal."))]%string)
  end.

Definition t_metrics : aprog json := gets (λ w, dump_metrics (metrics (aw_world w))).

Definition t_explain_state (state : string) : aprog json :=
  match by_value state_value all_states (py_upper state) with
  | None => Ret (JObj [("error", JStr ("unknown state " +:+ str_repr state));
                       ("known_states", jstrs (state_value <$> all_states))]%string)
  | Some parsed =>
      Ret (JObj [("state", JStr (state_value parsed)); ("meaning", JStr (STATE_EXPLANATIONS parsed));
                 ("may_transition_to",
                    jstrs (py_sorted (state_value <$> VALID_TRANSITIONS parsed)))]%string)
  end.

Definition t_explain_revert (error_name : string) : aprog json :=
  let name := removesuffix "()" (py_strip error_name) in
  match dget VAULT_ERRORS name with
  | None => Ret (JObj [("error", JStr (str_repr name +:+ " is not a known vault error"));
                       ("known_errors", jstrs (py_sorted (dkeys VAULT_ERRORS)))]%string)
  | Some explanation => Ret (JObj [("error_name", JStr name); ("meaning", JStr explanation)]%string)
  end.

Definition dump_proposal (r : ProposalRow) : json :=
  JObj [("id", JInt (p_id r)); ("borrower", JStr (p_borrower r));
        ("status", JStr (status_value (p_status r))); ("strategy", JStr (p_strategy r));
        ("created_at", JFloat (p_created_at r)); ("expires_at", JFloat (p_expires_at r));
        ("rationale", JStr (p_rationale r)); ("gate_allowed", JBool (pd_allowed (p_gate r)));
        ("gate_blocking", jstrs (pd_blocking (p_gate r))); ("tx_hash", jopt (p_tx_hash r));
        ("facts", p_facts r)]%string.

Definition t_list_proposals (borrower status : option string) : aprog json :=
  match status with
  | None => rows ← list_proposals None borrower 20; Ret (JList (dump_proposal <$> rows))
  | Some status =>
      match by_value status_value all_statuses (py_upper status) with
      | None =>
          Ret (JList [JObj [("error", JStr ("unknown status " +:+ str_repr status));
                            ("known_statuses", jstrs (status_value <$> all_statuses))]%string])
      | Some parsed =>
          rows ← list_proposals (Some parsed) borrower 20; Ret (JList (dump_proposal <$> rows))
      end
  end.

Definition dump_audit (r : AuditRow) : json :=
  JObj [("ts", JFloat (a_ts r)); ("actor", JStr (actor_value (a_actor r)));
        ("action", JStr (action_value (a_action r))); ("borrower", jopt (a_borrower r));
        ("proposal_id", jint_opt (a_proposal_id r)); ("detail", a_detail r)]%string.

Definition t_audit_trail (borrower : option string) : aprog json :=
  rows ← list_audit borrower 30; Ret (JList (dump_audit <$> rows)).

(** ** The proposal writers *)
Definition t_propose_protection (run_id borrower : string) (facts : json) (rationale : string)
    (gate : PolicyDecision) (ttl_seconds : Z) (guard_flagged : bool) : aprog Z :=
  if negb (pd_allowed gate) then
    Raise (Exn ValueError ("refusing to queue a proposal the policy gate blocked: " +:+
                           py_repr (jstrs (pd_blocking gate))))
  else
    insert_proposal run_id borrower "protect_now" facts gate rationale ttl_seconds guard_flagged None.

(** [getattr(params, field_name)] and [params.model_copy(update={field_name: value})]. *)
Definition get_field (f : TunableField) (p : RiskParams) : Z :=
  match f with
  | F_hf_trigger_bps => rp_hf_trigger_bps p | F_hf_target_base_bps => rp_hf_target_base_bps p
  | F_hf_target_max_bps => rp_hf_target_max_bps p | F_vol_coeff_k => rp_vol_coeff_k p
  | F_max_slippage_bps => rp_max_slippage_bps p | F_max_cost_bps => rp_max_cost_bps p
  end.

Definition set_field (f : TunableField) (v : Z) (p : RiskParams) : RiskParams :=
  let pick g old := if decide (f = g) then v else old in
  {| rp_borrower := rp_borrower p;
     rp_hf_trigger_bps := pick F_hf_trigger_bps (rp_hf_trigger_bps p);
     rp_hf_target_base_bps := pick F_hf_target_base_bps (rp_hf_target_base_bps p);
     rp_vol_coeff_k := pick F_vol_coeff_k (rp_vol_coeff_k p);
     rp_hf_target_max_bps := pick F_hf_target_max_bps (rp_hf_target_max_bps p);
     rp_max_slippage_bps := pick F_max_slippage_bps (rp_max_slippage_bps p);
     rp_max_cost_bps := pick F_max_cost_bps (rp_max_cost_bps p);
     rp_allowed_collaterals := rp_allowed_collaterals p;
     rp_nonce := rp_nonce p;
     rp_deadline := rp_deadline p |}.

Definition t_propose_tuning (run_id borrower : string) (params : RiskParams)
    (field_name : TunableField) (suggested_value : Z) (rationale : string) : aprog Z :=
  let current_value := get_field field_name params in
  validated ← lift (RiskParams_validate (set_field field_name suggested_value params));
  insert_tuning run_id borrower field_name current_value suggested_value rationale
    (eip712_message validated) None.
End tools.
