(* ===== verification/Llm.v ===== *)
(** * agent/llm.py: calling the language model

    A call is one request; its answer, within the timeout, is any value or exception. *)
From S2P Require Import Prelude PyFloat PyText Guard Config State Models AgentModels Events Io Logic.
From S2P Require Import World Api Service Store AgentBase.

Section llm.
Context `{UnicodeData}.

Definition is_timeout (e : exn) : bool :=
  match exn_kind e with TimeoutError => true | _ => false end.

(** [ainvoke_guarded] *)
Definition ainvoke_guarded (b : binding) (msgs : list message) (timeout_s : f64) : aprog reply :=
  try_catch (await (ModelCall b msgs timeout_s)) is_timeout
    (λ _, Raise (Exn AgentTimeout
      ("the model did not answer within " +:+ fmt_fixed false 0 timeout_s +:+ "s"))).

(** The text blocks of a content in list form. *)
Definition block_text (block : json) : list string :=
  match block with
  | JStr s => [s]
  | JObj _ =>
      match jget block "type" with
      | Some (JStr t) =>
          if decide (t = "text"%string) then
            [match jget block "text" with Some v => py_str v | None => ""%string end]
          else []
      | _ => []
      end
  | _ => []
  end.

Fixpoint join_lines (l : list string) : string :=
  match l with [] => "" | [s] => s | s :: l' => s +:+ String (byte_of 10) (join_lines l') end.

(** [text_of] *)
Definition text_of (content : json) : string :=
  match content with
  | JStr s => s
  | JList blocks =>
      let joined := py_strip (join_lines (filter (λ s, s ≠ ""%string) (blocks ≫= block_text))) in
      if decide (joined = ""%string) then py_str content else joined
  | _ => py_str content
  end.

(** [getattr(reply, "content", "")] and [getattr(reply, "tool_calls", None) or []] *)
Definition reply_content (r : reply) : json :=
  match r with RMessage content _ => content | _ => JStr "" end.

Definition reply_calls (r : reply) : list tool_call :=
  match r with RMessage _ calls => calls | _ => [] end.

Lemma ainvoke_keeps G b msgs t : keeps G sends_nothing (ainvoke_guarded b msgs t).
Proof. unfold ainvoke_guarded. repeat keeps_step. Qed.
End llm.

#[export] Hint Resolve ainvoke_keeps : finax.

Example text_of_blocks :
  @text_of unicode_ascii (JList [JObj [("type", JStr "thinking"); ("text", JStr "hm")];
                  JObj [("type", JStr "text"); ("text", JStr " HF is 1.1 ")]; JStr "ok"]%string)
  = ("HF is 1.1 " +:+ String (byte_of 10) "ok")%string.
Proof. vm_compute. reflexivity. Qed.
