(* ===== verification/AgentSpec.v ===== *)
(** * The agent layer: what its coroutines leave alone, and what they cost

    [keeper_kept] is what no coroutine of the agents touches.  A graded relation bounds what an
    execution may do a number of times: ask the model, insert a row. *)
From S2P Require Import Prelude PyFloat PyText Config State InFlight Breaker Observability.
From S2P Require Import Models AgentModels Risk Events Io Logic World Api Chain Monitor Pipeline.
From S2P Require Import Simulator Submitter Service Deps Routes Store AgentBase Tools Llm.

(** ** What the tools may change

    Reading a position records its state, so the state map (which stays a dict) and the chain
    client's caches may change; nothing else of the keeper does. *)
Definition keeper_kept (v v' : World) : Prop :=
  (w_inflight v', w_breaker v', w_counters v', w_registry v', w_autonomous v', w_max_bumps v',
   w_config v') =
  (w_inflight v, w_breaker v, w_counters v, w_registry v, w_autonomous v, w_max_bumps v,
   w_config v) ∧
  (dict_wf (w_states v) → dict_wf (w_states v')).

#[global] Instance keeper_kept_preorder : PreOrder keeper_kept.
Proof.
  split; [by intros v|]. intros a b c [Ha Hsa] [Hb Hsb]. split; [congruence|auto].
Qed.

Abbreviation kept := (keeps keeper_kept (λ q, is_read q = true)).

Section kept.
Context {U : EthUtils} {UL : EthUtilsLaws U} {D : ProtectionDeps} {DL : ProtectionDepsLaws D}.

Lemma reads_kept {A} (p : prog A) : reads p → kept p.
Proof.
  apply keeps_mono; [|done]. intros w w' Hs. unfold same_service, service_view in Hs.
  simplify_eq. unfold keeper_kept. split; [congruence|]. by replace (w_states w') with (w_states w).
Qed.

Lemma snapshot_kept b t : kept (snapshot b t).
Proof.
  unfold snapshot, set_state. repeat keeps_step; [apply reads_kept, dep_poll_once_reads|].
  split; [done|]. cbn. apply dict_wf_dset.
Qed.

Lemma sigma_kept p : kept (agent_sigma_for p).
Proof.
  apply reads_kept. unfold agent_sigma_for. destruct (rp_allowed_collaterals p);
    [by intros w|apply dep_sigma_for_reads].
Qed.

Lemma assess_kept p s : kept (service_assess p s).
Proof. apply reads_kept, dep_assess_reads. Qed.

(** A relation on the agent's world that the keeper's reads stay in. *)
Context (G : AgentWorld → AgentWorld → Prop).
Context (G_keeper : ∀ t s, keeper_kept (aw_world t) s → G t (set_world s t)).

Lemma kept_keeper {A} (p : prog A) : kept p → keeps G (λ q, is_read q = true) (keeper p).
Proof. by apply (keeps_keeper keeper_kept). Qed.

Lemma reading_kept {A} z (f : Z → AgentDB → A) :
  (∀ w, G w (set_db (aw_db w) w)) →
  keeps G (λ q, is_read q = true) (db_run (with_int z (λ z, reading (f z)))).
Proof.
  intros HG. apply keeps_db_run; [|done|done]. intros w a db H%with_int_ok.
  unfold reading in H. by injection H as <- <-.
Qed.

(** [OracleClient().get_asset_price]: only the client's own part changes. *)
Lemma debt_price_kept cfg asset :
  (∀ w, G w (new_oracle w)) → (∀ n v w, G w (oracle_upd n v w)) →
  keeps G (λ q, is_read q = true) (debt_price_base cfg asset).
Proof.
  intros H1 H2. unfold debt_price_base. keeps_step; [|keeps_step].
  keeps_step; [keeps_step|]. keeps_step; [apply keeps_modify, H1|].
  keeps_step; [|keeps_step]. intros w.
  eapply (guar_zoom _ _ (oracle_view_upd _) _ (λ _ _, True)); [intros; apply H2|].
  apply reads_areads, (api_asset_price_reads (A := chain_api cfg)).
Qed.
End kept.

(** ** Graded relations

    [C n w tr w']: between [w] and [w'], with the requests [tr], what is counted happened at
    most [n] times. *)
Class Graded (C : nat → AgentWorld → list event → AgentWorld → Prop) := {
  graded_seq n m w1 tr1 w2 tr2 w3 : C n w1 tr1 w2 → C m w2 tr2 w3 → C (n + m)%nat w1 (tr1 ++ tr2) w3;
  graded_mono n m w tr w' : (n ≤ m)%nat → C n w tr w' → C m w tr w';
}.

Section costs.
Context (R : AgentWorld → AgentWorld → Prop).
Context (C : nat → AgentWorld → list event → AgentWorld → Prop) `{!Graded C}.

Definition costs {A} (n : nat) (p : aprog A) : Prop :=
  ∀ w tr r w', exec R p w tr r w' → C n w tr w'.

Lemma costs_bind {A B} n m (p : aprog A) (f : A → aprog B) :
  costs n p → (∀ a, costs m (f a)) → costs (n + m) (a ← p; f a).
Proof.
  intros Hp Hf w tr r w' [(e & _ & He)|(a&tr1&w1&tr2&->&H1&H2)]%exec_bind_inv.
  - apply (graded_mono n); [lia|]. by eapply Hp.
  - eapply graded_seq; [by eapply Hp|by eapply Hf].
Qed.

Lemma costs_mono {A} n m (p : aprog A) : (n ≤ m)%nat → costs n p → costs m p.
Proof. intros Hn Hp w tr r w' He. apply (graded_mono n); [done|]. by eapply Hp. Qed.

Lemma costs_try_catch {A} n m (p : aprog A) test h :
  costs n p → (∀ e, costs m (h e)) → costs (n + m) (try_catch p test h).
Proof.
  intros Hp Hh w. apply wp_exec. rewrite wp_try_catch. apply exec_wp. intros tr r w1 H1.
  apply Hp in H1. pose proof (graded_mono n (n + m) _ _ _ (Nat.le_add_r n m) H1).
  destruct r as [a|e]; [done|]. destruct (test e); [|done].
  apply exec_wp. intros tr' r' w2 H2. eapply graded_seq; [done|]. by eapply Hh.
Qed.

Lemma costs_try_except {A} n m (p : aprog A) h :
  costs n p → (∀ e, costs m (h e)) → costs (n + m) (try_except p h).
Proof.
  intros Hp Hh w. apply wp_exec. rewrite wp_try_except. apply exec_wp. intros tr r w1 H1.
  apply Hp in H1. pose proof (graded_mono n (n + m) _ _ _ (Nat.le_add_r n m) H1).
  destruct r as [a|e]; [done|]. destruct (is_Exception e); [|done].
  apply exec_wp. intros tr' r' w2 H2. eapply graded_seq; [done|]. by eapply Hh.
Qed.

(** A coroutine that does the counted thing not at all, followed by another. *)
Lemma costs_then {A B} n (p : aprog A) (f : A → aprog B) :
  costs 0 p → (∀ a, costs n (f a)) → costs n (a ← p; f a).
Proof. exact (costs_bind 0 n p f). Qed.

Lemma costs_before {A B} n (p : aprog A) (f : A → aprog B) :
  costs n p → (∀ a, costs 0 (f a)) → costs n (a ← p; f a).
Proof. intros. rewrite <-(Nat.add_0_r n). by apply costs_bind. Qed.
End costs.

(** *** Calls of the model *)
Definition model_calls (tr : list event) : nat :=
  length (filter (λ ev, is_read (ev_req ev) = false) tr).

Definition calls (n : nat) (w : AgentWorld) (tr : list event) (w' : AgentWorld) : Prop :=
  (model_calls tr ≤ n)%nat.

Lemma model_calls_app tr tr' : model_calls (tr ++ tr') = (model_calls tr + model_calls tr')%nat.
Proof. unfold model_calls. by rewrite filter_app, length_app. Qed.

Lemma model_calls_reads tr : Forall (λ ev, is_read (ev_req ev) = true) tr → model_calls tr = O.
Proof.
  unfold model_calls. induction 1 as [|ev tr Hev _ IH]; [done|].
  rewrite filter_cons_False by congruence. exact IH.
Qed.

#[global] Instance calls_graded : Graded calls.
Proof.
  split; unfold calls.
  - intros n m w1 tr1 w2 tr2 w3 H1 H2. rewrite model_calls_app. lia.
  - intros. lia.
Qed.

Lemma calls_reads R G {A} (p : aprog A) :
  keeps G (λ q, is_read q = true) p → costs R calls 0 p.
Proof.
  intros Hp w tr r w' He. unfold calls. rewrite model_calls_reads; [done|].
  exact (guar_trace G (λ q, is_read q = true) R p w tr r w' (Hp w) He).
Qed.

Lemma calls_await R q : costs R calls 1 (await q).
Proof.
  intros w. apply wp_exec. apply wp_await. intros ans w1 _. unfold calls, model_calls.
  rewrite filter_cons, filter_nil. destruct (decide _); cbn; lia.
Qed.

Lemma ainvoke_calls R b msgs t : costs R calls 1 (ainvoke_guarded b msgs t).
Proof.
  apply (costs_try_catch _ _ 1 0); [apply (calls_await R (ModelCall b msgs t))|]. intros e.
  apply (calls_reads _ (λ _ _, True)). keeps_step.
Qed.

(** ** Without interference *)
Lemma kept_eq {S A} (G : S → S → Prop) `{!PreOrder G} P (p : io S A) w tr r w' :
  keeps G P p → seq_exec p w tr r w' → G w w'.
Proof.
  intros Hp He. refine (guar_inv (G w) P eq p w tr r w' _ _ _ He); [by intros ? ? <-| |done].
  eapply guar_mono; [|done|apply Hp]. intros w1 w2 H12 H1. by etrans.
Qed.

(** Without interference an [await] changes nothing, and a statement that returned took
    effect. *)
Lemma await_stays q w tr r w' : seq_exec (await q : aprog _) w tr r w' → w' = w.
Proof.
  revert tr r w'. refine (wp_exec eq (await q) (λ _ _ w1, w1 = w) w _).
  apply wp_await. intros ans w1 Hw. unfold rely in Hw. by destruct (yields q).
Qed.

Lemma db_run_ok {A} (st : AgentDB → res (A * AgentDB)) w tr a w' :
  seq_exec (db_run st) w tr (Ok a) w' → ∃ db, st (aw_db w) = Ok (a, db) ∧ w' = set_db db w.
Proof.
  intros [(? & ? & _)|(x & ? & w1 & ? & _ & ->%await_stays & He%exec_gets_inv)]%exec_bind_inv; [done|].
  unfold id in He. destruct (st (aw_db w)) as [[b db]|e].
  - apply exec_modify_inv, exec_bind_inv in He as [(? & ? & _)|(y & ? & w2 & ? & _ & ->%await_stays & He)];
      [done|]. inversion He; subst. by exists db.
  - apply exec_bind_inv in He as [(? & ? & _)|(y & ? & w2 & ? & _ & _ & He)]; [done|]. inversion He.
Qed.
