(* ===== verification/Graph.v ===== *)
(** * The interface to langgraph

    What [agent/graph.py] relies on of the graph library: a graph is nodes, edges and
    conditional edges over a state of channels, and [ainvoke] runs the nodes one after another
    along the edges, merging each node's output into the state.  The library itself is a
    parameter, [LangGraph]; its law says that every execution of [ainvoke] is such a run. *)
From S2P Require Import Prelude PyFloat PyText Config State Models AgentModels Events Io Logic.
From S2P Require Import World Api Store AgentBase Tools Llm AgentSpec.

Section graph.
Context {S U : Type}.

(** *** Graphs as data *)
Definition START : string := "__start__".
Definition END : string := "__end__".

Inductive edge :=
  | Edge (from to : string)
  | Conditional (from : string) (route : S → string) (targets : dict string string).

Record StateGraph := {
  g_nodes : dict string (S → aprog U);
  g_edges : list edge;
}.

(** The vertices an edge leads to. *)
Definition targets_of (v : string) (s : S) (e : edge) : list string :=
  match e with
  | Edge from to => if decide (from = v) then [to] else []
  | Conditional from route targets =>
      if decide (from = v) then option_list (dget targets (route s)) else []
  end.

Definition successors (g : StateGraph) (v : string) (s : S) : list string :=
  g_edges g ≫= targets_of v s.

(** *** Runs

    [graph_run R g v s w path tr r w']: from the vertex [v] with the state [s], the nodes of
    [path] run.  Between two nodes the library may suspend; it may also give up at any point
    (a cancellation, its recursion limit). *)
Context (merge : S → U → S).

Inductive graph_run (R : AgentWorld → AgentWorld → Prop) (g : StateGraph) :
  string → S → AgentWorld → list string → list event → res S → AgentWorld → Prop :=
  | run_end s w : graph_run R g END s w [] [] (Ok s) w
  | run_stop v s w e : graph_run R g v s w [] [] (Err e) w
  | run_yield v s w d tr1 x w1 path tr r w' :
      exec R (await (Sleep d)) w tr1 (Ok x) w1 → graph_run R g v s w1 path tr r w' →
      graph_run R g v s w path (tr1 ++ tr) r w'
  | run_yield_raise v s w d tr e w' :
      exec R (await (Sleep d)) w tr (Err e) w' → graph_run R g v s w [] tr (Err e) w'
  | run_start s w v path tr r w' :
      successors g START s = [v] → graph_run R g v s w path tr r w' →
      graph_run R g START s w path tr r w'
  | run_raise v f s w tr e w' :
      dget (g_nodes g) v = Some f → exec R (f s) w tr (Err e) w' →
      graph_run R g v s w [v] tr (Err e) w'
  | run_lost v f s w tr u w' e :
      dget (g_nodes g) v = Some f → exec R (f s) w tr (Ok u) w' →
      graph_run R g v s w [v] tr (Err e) w'
  | run_node v f s w tr1 u w1 v' path tr2 r w' :
      dget (g_nodes g) v = Some f → exec R (f s) w tr1 (Ok u) w1 →
      successors g v (merge s u) = [v'] →
      graph_run R g v' (merge s u) w1 path tr2 r w' →
      graph_run R g v s w (v :: path) (tr1 ++ tr2) r w'.

(** *** Reasoning on runs *)
Section runs.
Context (R : AgentWorld → AgentWorld → Prop) (g : StateGraph).
Context (J : S → Prop) (J_merge : ∀ s u, J s → J (merge s u)).

(** What every node keeps, a run keeps. *)
Lemma graph_run_trace G (P : req → Prop) v s w path tr r w' :
  (∀ d, P (Sleep d)) → (∀ v f s, dget (g_nodes g) v = Some f → J s → keeps G P (f s)) →
  J s → graph_run R g v s w path tr r w' → Forall (λ ev, P (ev_req ev)) tr.
Proof.
  intros HP Hf HJ Hr.
  assert (∀ d w tr r w', exec R (await (Sleep d)) w tr r w' → Forall (λ ev, P (ev_req ev)) tr) as Hs.
  { intros d w1 tr1 r1 w1' He. refine (guar_trace (λ _ _, True) P R _ w1 tr1 r1 w1' _ He).
    by apply guar_await. }
  induction Hr as [| |v s w d tr1 x w1 path tr r w' Hy _ IH|v s w d tr e w' Hy| |v f s w tr e w' Hn He
    |v f s w tr u w1 e Hn He|v f s w tr1 u w1 v' path tr2 r w' Hn He _ _ IH]; auto.
  - apply Forall_app; eauto.
  - eauto.
  - exact (guar_trace G P R _ w tr _ w' (Hf v f s Hn HJ w) He).
  - exact (guar_trace G P R _ w tr _ w1 (Hf v f s Hn HJ w) He).
  - apply Forall_app. split; [|auto]. exact (guar_trace G P R _ w tr1 _ w1 (Hf v f s Hn HJ w) He).
Qed.

(** What a run costs, by weights that decrease along the edges. *)
Lemma graph_run_costs C `{!Graded C} (weight cost : string → nat) v s w path tr r w' :
  (∀ w, C 0%nat w [] w) → (∀ d, costs R C 0 (await (Sleep d))) →
  (∀ v f s, dget (g_nodes g) v = Some f → J s →
     costs R C (cost v) (f s) ∧ (cost v ≤ weight v)%nat ∧
     ∀ u v', successors g v (merge s u) = [v'] → (cost v + weight v' ≤ weight v)%nat) →
  (∀ s v, successors g START s = [v] → (weight v ≤ weight START)%nat) →
  J s → graph_run R g v s w path tr r w' → C (weight v) w tr w'.
Proof.
  intros Hr0 Hs Hf Hst HJ Hr.
  induction Hr as [s w|v s w e|v s w d tr1 x w1 path tr r w' Hy _ IH|v s w d tr e w' Hy
    |s w v path tr r w' Hv _ IH|v f s w tr e w' Hn He|v f s w tr u w1 e Hn He
    |v f s w tr1 u w1 v' path tr2 r w' Hn He Hv _ IH].
  1,2: apply (graded_mono 0); [lia|apply Hr0].
  - apply (graded_seq 0 (weight v) _ _ w1); [by eapply Hs|auto].
  - apply (graded_mono 0); [lia|]. by eapply Hs.
  - eapply graded_mono; [by apply (Hst s)|auto].
  - destruct (Hf v f s Hn HJ) as (Hc & Hle & _). eapply graded_mono; [done|]. by eapply Hc.
  - destruct (Hf v f s Hn HJ) as (Hc & Hle & _). eapply graded_mono; [done|]. by eapply Hc.
  - destruct (Hf v f s Hn HJ) as (Hc & Hle & Hv'). eapply graded_mono; [by apply (Hv' u)|].
    eapply graded_seq; [by eapply Hc|auto].
Qed.

(** How many nodes a run visits. *)
Lemma graph_run_length (rank : string → nat) v s w path tr r w' :
  (∀ v f s, dget (g_nodes g) v = Some f →
     (1 ≤ rank v)%nat ∧ ∀ v', successors g v s = [v'] → (rank v' < rank v)%nat) →
  (∀ s v, successors g START s = [v] → (rank v ≤ rank START)%nat) →
  graph_run R g v s w path tr r w' → (length path ≤ rank v)%nat.
Proof.
  intros Hf Hst Hr.
  induction Hr as [s w|v s w e|v s w d tr1 x w1 path tr r w' Hy _ IH|v s w d tr e w' Hy
    |s w v path tr r w' Hv _ IH|v f s w tr e w' Hn He|v f s w tr u w1 e Hn He
    |v f s w tr1 u w1 v' path tr2 r w' Hn He Hv _ IH]; cbn; try lia.
  - pose proof (Hst s v Hv). lia.
  - by apply (Hf v f s).
  - by apply (Hf v f s).
  - apply (Hf v f (merge s u) Hn) in Hv. lia.
Qed.

(** What the states satisfy where they are. *)
Lemma graph_run_inv (I : string → S → Prop) v s w path tr r w' :
  (∀ v f s, dget (g_nodes g) v = Some f → I v s →
     returns (f s) (λ u, ∀ v', successors g v (merge s u) = [v'] → I v' (merge s u))) →
  (∀ s v, successors g START s = [v] → I START s → I v s) →
  I v s → graph_run R g v s w path tr r w' → ∀ s', r = Ok s' → I END s'.
Proof.
  intros Hf Hst HI Hr.
  induction Hr as [s w|v s w e|v s w d tr1 x w1 path tr r w' Hy _ IH|v s w d tr e w' Hy
    |s w v path tr r w' Hv _ IH|v f s w tr e w' Hn He|v f s w tr u w1 e Hn He
    |v f s w tr1 u w1 v' path tr2 r w' Hn He Hv _ IH]; intros s' Hok; simplify_eq; auto.
  eapply returns_exec in He; [|by eapply Hf]. exact (IH (He v' Hv) s' eq_refl).
Qed.

(** The paths through a graph, whatever the routers answer. *)
Definition reachable_targets (v : string) : list string :=
  g_edges g ≫= λ e,
    match e with
    | Edge from to => if decide (from = v) then [to] else []
    | Conditional from _ targets => if decide (from = v) then targets.*2 else []
    end.

Fixpoint paths (n : nat) (v : string) : list (list string) :=
  match n with
  | O => []
  | Datatypes.S n' =>
      if decide (v = END) then [[]]
      else if decide (v = START) then reachable_targets v ≫= paths n'
      else cons v <$> (reachable_targets v ≫= paths n')
  end.

Lemma dget_value (d : dict string string) k v : dget d k = Some v → v ∈ d.*2.
Proof.
  induction d as [|[k' v'] d IH]; cbn; [done|]. destruct (decide (k = k')); intros; simplify_eq.
  - by apply elem_of_cons; left.
  - apply elem_of_cons; right. auto.
Qed.

Lemma successors_reachable v s v' : v' ∈ successors g v s → v' ∈ reachable_targets v.
Proof.
  unfold successors, reachable_targets. rewrite !list_elem_of_bind.
  intros (e & Hv & He). exists e. split; [|done].
  destruct e as [from to|from route targets]; cbn in *; [done|].
  destruct (decide (from = v)); [|done]. destruct (dget targets (route s)) as [t|] eqn:Ht;
    [|by apply not_elem_of_nil in Hv].
  cbn in Hv. apply list_elem_of_singleton in Hv as ->. by eapply dget_value.
Qed.

(** A run that ends has gone along one of the paths. *)
Lemma graph_run_path v s w path tr r w' :
  (∀ v f, dget (g_nodes g) v = Some f → v ≠ START ∧ v ≠ END) →
  graph_run R g v s w path tr r w' → is_ok r = true → ∃ n, path ∈ paths n v.
Proof.
  intros Hne Hr.
  induction Hr as [s w|v s w e|v s w d tr1 x w1 path tr r w' Hy _ IH|v s w d tr e w' Hy
    |s w v path tr r w' Hv _ IH|v f s w tr e w' Hn He|v f s w tr u w1 e Hn He
    |v f s w tr1 u w1 v' path tr2 r w' Hn He Hv _ IH]; intros Hok; try done; auto.
  - exists 1%nat. by apply list_elem_of_singleton.
  - destruct (IH Hok) as [n Hp]. exists (Datatypes.S n). cbn [paths].
    rewrite decide_False, decide_True by done. apply list_elem_of_bind. exists v.
    split; [done|]. apply (successors_reachable _ s). rewrite Hv. by apply list_elem_of_singleton.
  - destruct (IH Hok) as [n Hp]. destruct (Hne v f Hn) as [H1 H2].
    exists (Datatypes.S n). cbn [paths]. rewrite !decide_False by done.
    apply list_elem_of_fmap. exists path. split; [done|]. apply list_elem_of_bind. exists v'.
    split; [done|]. apply (successors_reachable _ (merge s u)). rewrite Hv.
    by apply list_elem_of_singleton.
Qed.
End runs.

(** *** The library *)
Class LangGraph := {
  ainvoke : StateGraph → S → aprog S;
  ainvoke_runs R g s w tr r w' :
    exec R (ainvoke g s) w tr r w' → ∃ path, graph_run R g START s w path tr r w';
}.

(** *** A runner *)
Definition RECURSION_LIMIT : nat := 25.

Definition recursion_error : exn := Exn (OtherError false) "GraphRecursionError".

Fixpoint drive (n : nat) (g : StateGraph) (v : string) (s : S) : aprog S :=
  match n with
  | O => Raise recursion_error
  | Datatypes.S n' =>
      if decide (v = END) then Ret s
      else if decide (v = START) then
        match successors g START s with [v'] => drive n' g v' s | _ => Raise recursion_error end
      else
        match dget (g_nodes g) v with
        | None => Raise recursion_error
        | Some f =>
            u ← f s;
            match successors g v (merge s u) with
            | [v'] => _ ← await (Sleep fzero); drive n' g v' (merge s u)
            | _ => Raise recursion_error
            end
        end
  end.

Lemma drive_runs R n g v s w tr r w' :
  exec R (drive n g v s) w tr r w' → ∃ path, graph_run R g v s w path tr r w'.
Proof.
  revert v s w tr r w'. induction n as [|n IH]; intros v s w tr r w' He; cbn [drive] in He.
  { inversion He; subst. eexists. apply run_stop. }
  destruct (decide (v = END)) as [->|]; [inversion He; subst; eexists; apply run_end|].
  destruct (decide (v = START)) as [->|].
  { destruct (successors g START s) as [|v' []] eqn:Hs;
      [inversion He; subst; eexists; apply run_stop| |inversion He; subst; eexists; apply run_stop].
    apply IH in He as [path Hp]. exists path. by eapply run_start. }
  destruct (dget (g_nodes g) v) as [f|] eqn:Hf; [|inversion He; subst; eexists; apply run_stop].
  apply exec_bind_inv in He as [(e & -> & He)|(u & tr1 & w1 & tr2 & -> & H1 & He)].
  { exists [v]. by eapply run_raise. }
  destruct (successors g v (merge s u)) as [|v' []] eqn:Hs.
  1,3: inversion He; subst; rewrite app_nil_r; eexists; by eapply run_lost.
  apply exec_bind_inv in He as [(e & -> & He)|(x & tr3 & w3 & tr4 & -> & H3 & He)].
  { exists [v]. eapply run_node; [done..|]. by eapply run_yield_raise. }
  apply IH in He as [path Hp]. exists (v :: path). eapply run_node; [done..|].
  by eapply run_yield.
Qed.

(** Beyond its runs: the library itself writes nothing of the application's and asks for
    nothing but suspensions, so a guarantee of every node is one of [ainvoke]. *)
Class LangGraphNodes (LG : LangGraph) := {
  ainvoke_nodes G (P : req → Prop) g s :
    (∀ d, P (Sleep d)) → (∀ v f s, dget (g_nodes g) v = Some f → keeps G P (f s)) →
    keeps G P (ainvoke g s);
}.

Lemma drive_nodes G (P : req → Prop) n g v s :
  (∀ d, P (Sleep d)) → (∀ v f s, dget (g_nodes g) v = Some f → keeps G P (f s)) →
  keeps G P (drive n g v s).
Proof.
  intros HP Hf. revert v s. induction n as [|n IH]; intros v s; cbn [drive]; [apply keeps_raise|].
  destruct (decide (v = END)); [apply keeps_ret|]. destruct (decide (v = START)).
  { destruct (successors g START s) as [|v' []]; [apply keeps_raise|apply IH|apply keeps_raise]. }
  destruct (dget (g_nodes g) v) as [f|] eqn:Ef; [|apply keeps_raise].
  apply keeps_bind; [by eapply Hf|]. intros u.
  destruct (successors g v (merge s u)) as [|v' []]; [apply keeps_raise| |apply keeps_raise].
  apply keeps_bind; [by apply keeps_await|]. intros _. apply IH.
Qed.
End graph.

Arguments edge : clear implicits.
Arguments StateGraph : clear implicits.
Arguments LangGraph {S U} merge.
Arguments LangGraphNodes {S U merge} LG.

Definition bounded_runner {S U} (merge : S → U → S) : LangGraph merge :=
  {| ainvoke g s := drive merge RECURSION_LIMIT g START s;
     ainvoke_runs R g s := drive_runs merge R RECURSION_LIMIT g START s |}.

#[global] Instance bounded_runner_nodes {S U} (merge : S → U → S) :
  LangGraphNodes (bounded_runner merge).
Proof. split. intros. by apply drive_nodes. Qed.
