(* ===== verification/ChatSpec.v ===== *)
(** * The chat agent: what it can do, and what it answers

    The chat model is confined: whatever it asks for, its tools send nothing and change
    nothing but the conversation, it is asked a bounded number of times, and its reply is
    judged against the results it was shown. *)
From S2P Require Import Prelude PyFloat PyText Guard Config State InFlight Breaker Observability.
From S2P Require Import Models AgentModels Risk Events Io Logic World Api Chain Monitor Pipeline.
From S2P Require Import Simulator Submitter Service Deps Routes Store AgentBase Tools Llm Chat AgentSpec.

(** ** What a turn may change: of the database only the chat tables *)
Definition chat_step (w w' : AgentWorld) : Prop :=
  keeper_kept (aw_world w) (aw_world w') ∧ db_proposals (aw_db w') = db_proposals (aw_db w) ∧
  db_tuning (aw_db w') = db_tuning (aw_db w) ∧ db_decisions (aw_db w') = db_decisions (aw_db w) ∧
  db_audit (aw_db w') = db_audit (aw_db w).

#[global] Instance chat_step_preorder : PreOrder chat_step.
Proof.
  split.
  - by intros w.
  - intros a b c (K1&?&?&?&?) (K2&?&?&?&?). split_and!; [by etrans|congruence..].
Qed.

Section chat_reads.
Context {UD : UnicodeData} {U : EthUtils} {UL : EthUtilsLaws U} {L : Libm}.
Context {D : ProtectionDeps} {DL : ProtectionDepsLaws D} (cfg : Settings).

Lemma chat_keeper t s : keeper_kept (aw_world t) s → chat_step t (set_world s t).
Proof. by intros Hs. Qed.

Lemma chat_sends {A} (p : aprog A) :
  keeps chat_step (λ q, is_read q = true) p → keeps chat_step sends_nothing p.
Proof. apply keeps_mono; [done|]. intros q. apply is_read_on_behalf. Qed.

Ltac chat_step :=
  first [ apply (kept_keeper chat_step chat_keeper);
          first [apply sigma_kept|apply assess_kept|apply snapshot_kept]
        | by apply reading_kept | keeps_step ].

Lemma tool_chat spec args :
  spec ∈ read_only_specs → keeps chat_step (λ q, is_read q = true) (call_tool spec args).
Proof.
  intros Hs. unfold call_tool. destruct (_ && _); [|apply keeps_raise].
  unfold read_only_specs in Hs.
  repeat (apply elem_of_cons in Hs as [->|Hs]); [..|by apply not_elem_of_nil in Hs]; cbn [ts_call spec0 spec1].
  all: unfold t_doctrine, t_list_positions, t_position_snapshot, t_position_state,
    t_registered_params, t_assess, t_risk_signal, risk_signal, t_metrics, t_explain_state,
    t_explain_revert, t_list_proposals, t_audit_trail, list_proposals, list_audit.
  all: repeat chat_step.
Qed.

Lemma dispatch_chat name args : keeps chat_step (λ q, is_read q = true) (dispatch name args).
Proof.
  unfold dispatch, latency_since. keeps_step; [keeps_step|].
  destruct (find_spec name) as [spec|] eqn:Hf; [|keeps_step].
  assert (spec ∈ read_only_specs) as Hs.
  { unfold find_spec in Hf. apply head_Some_elem_of, list_elem_of_filter in Hf. apply Hf. }
  repeat first [by apply tool_chat | keeps_step].
Qed.

Lemma answer_calls_chat s calls : keeps chat_step (λ q, is_read q = true) (answer_calls s calls).
Proof.
  revert s. induction calls as [|c calls IH]; intros s; cbn [answer_calls]; [keeps_step|].
  unfold answer_call. repeat first [apply dispatch_chat | apply IH | keeps_step].
Qed.

Lemma ask_model_chat conv t : keeps chat_step sends_nothing (ask_model conv t).
Proof. unfold ask_model. repeat first [apply ainvoke_keeps | keeps_step]. Qed.

Lemma chat_loop_chat n t s : keeps chat_step sends_nothing (chat_loop n t s).
Proof.
  revert s. induction n as [|n IH]; intros s; cbn [chat_loop]; [keeps_step|].
  keeps_step; [apply ask_model_chat|].
  repeat first [apply IH
    | apply chat_sends, answer_calls_chat | keeps_step].
Qed.

(** A statement on the chat tables. *)
Lemma chat_write_keeps (P : req → Prop) {A} (st : AgentDB → res (A * AgentDB)) :
  (∀ db a db', st db = Ok (a, db') → db_proposals db' = db_proposals db ∧
     db_tuning db' = db_tuning db ∧ db_decisions db' = db_decisions db ∧ db_audit db' = db_audit db) →
  P ThreadStart → P ThreadJoin → keeps chat_step P (db_run st).
Proof. intros Hst H1 H2. apply keeps_db_run; [|done|done]. intros w a db Hs. by apply Hst in Hs. Qed.

Lemma append_message_chat th role content calls facts fl now :
  keeps chat_step (λ q, is_read q = true) (append_message th role content calls facts fl now).
Proof.
  unfold append_message. keeps_step; [keeps_step|]. apply chat_write_keeps; [|done|done].
  intros db x db' Hs. unfold sql_append_message in Hs. by destruct (decide _); simplify_eq.
Qed.

Lemma ensure_thread_chat th b now :
  keeps chat_step (λ q, is_read q = true) (ensure_thread th b now).
Proof.
  unfold ensure_thread. keeps_step; [keeps_step|]. apply chat_write_keeps; [|done|done].
  intros db x db' Hs. by simplify_eq.
Qed.

Lemma finish_turn_chat th s e : keeps chat_step (λ q, is_read q = true) (finish_turn th s e).
Proof.
  unfold finish_turn. repeat first [apply append_message_chat | keeps_step].
Qed.

Lemma run_chat_chat t th m b : keeps chat_step sends_nothing (run_chat cfg t th m b).
Proof.
  unfold run_chat, history.
  repeat first [apply chat_loop_chat
    | apply chat_sends; first [apply append_message_chat|apply ensure_thread_chat
        |apply finish_turn_chat|by apply reading_kept] | keeps_step].
Qed.

(** *** The number of model calls *)
Section counting.
Context (R : AgentWorld → AgentWorld → Prop).

Abbreviation calls_le := (costs R calls).

Lemma calls_chat {A} (p : aprog A) : keeps chat_step (λ q, is_read q = true) p → calls_le 0 p.
Proof. apply calls_reads. Qed.

Lemma ask_model_calls conv t : calls_le 1 (ask_model conv t).
Proof.
  unfold ask_model. apply (costs_try_except _ _ 1 0);
    [apply (costs_before _ _); [apply ainvoke_calls|]|]; intros;
    apply calls_chat; repeat keeps_step.
Qed.

Lemma chat_loop_calls n t s : calls_le n (chat_loop n t s).
Proof.
  revert s. induction n as [|n IH]; intros s; cbn [chat_loop]; [apply calls_chat; keeps_step|].
  apply (costs_bind _ _ 1 n); [apply ask_model_calls|].
  assert (∀ A (x : A), calls_le n (Ret x)) as Hret.
  { intros A x. apply (costs_mono _ _ 0); [lia|apply calls_chat; keeps_step]. }
  intros [resp|failure]; [|apply Hret].
  destruct (reply_calls resp) as [|c cs]; [apply Hret|].
  apply (costs_then _ _); [apply calls_chat, answer_calls_chat|]. intros; apply IH.
Qed.

Lemma run_chat_calls t th m b : calls_le (max_loops cfg) (run_chat cfg t th m b).
Proof.
  unfold run_chat, history.
  apply (costs_then _ _); [apply calls_chat, ensure_thread_chat|intros _].
  apply (costs_then _ _); [apply calls_chat, append_message_chat|intros _].
  apply (costs_then _ _); [by apply calls_chat, reading_kept|intros rows].
  apply (costs_before _ _); [apply chat_loop_calls|].
  intros [s e]. apply calls_chat, finish_turn_chat.
Qed.
End counting.

(** *** The guard has observed exactly the results the model was shown *)
Definition turn_ok (s : turn) : Prop :=
  ∃ results : list json,
    length results = length (tn_traces s) ∧
    res_concat (collect_numbers <$> results) = Ok (tn_guard s) ∧
    tn_observed s = foldl (λ d nr, dset d nr.1 nr.2) [] (zip (tr_name <$> tn_traces s) results).

Lemma res_concat_snoc {A} (l : list (res (list A))) r g x :
  res_concat l = Ok g → r = Ok x → res_concat (l ++ [r]) = Ok (g ++ x).
Proof.
  revert g. induction l as [|r1 l IH]; intros g Hl ->.
  - injection Hl as <-. cbn. by rewrite app_nil_r.
  - change (res_concat (r1 :: l)) with (x ← r1; y ← res_concat l; Ok (x ++ y)) in Hl.
    apply res_bind_ok in Hl as (x1 & -> & (g1 & Hg & [= <-])%res_bind_ok).
    cbn [app]. change (res_concat (Ok x1 :: ?k)) with (y ← res_concat k; Ok (x1 ++ y)).
    rewrite (IH g1) by done. cbn. by rewrite app_assoc.
Qed.

Lemma dispatch_returns name args : returns (dispatch name args) (λ rt, tr_name rt.2 = name).
Proof.
  unfold dispatch. apply returns_bind_any. intros started.
  destruct (find_spec name) as [spec|]; [|done].
  apply returns_bind_any. intros [[result ok] e]. by apply returns_bind_any.
Qed.

Lemma answer_call_ok s call : turn_ok s → returns (answer_call s call) turn_ok.
Proof.
  intros (results & Hlen & Hg & Hobs). unfold answer_call.
  eapply returns_bind; [apply dispatch_returns|]. intros [result trace] Hname. cbn in Hname.
  apply returns_lift_bind. intros guard (found & Hf & [= <-])%res_bind_ok.
  exists (results ++ [result]). cbn. rewrite !length_app, Hlen. split; [done|].
  rewrite !fmap_app. split; [by apply res_concat_snoc|].
  rewrite zip_with_app by by rewrite length_fmap. by rewrite foldl_app, <-Hobs, <-Hname.
Qed.

Lemma answer_calls_ok s calls : turn_ok s → returns (answer_calls s calls) turn_ok.
Proof.
  revert s. induction calls as [|c calls IH]; intros s Hs; [done|]. cbn [answer_calls].
  eapply returns_bind; [by apply answer_call_ok|]. exact IH.
Qed.

Definition outage (s : string) : Prop :=
  ∃ why, s = "I could not reach the model to answer that (" +:+ why.

Lemma ask_model_returns conv t :
  returns (ask_model conv t) (λ r, ∀ f, r = inr f → outage f).
Proof.
  unfold ask_model. apply returns_try_except.
  - apply returns_bind_any. by intros r f.
  - intros e. destruct (is_agent_timeout e); [done|]. intros f [= <-]. eexists. reflexivity.
Qed.

(** The end of a loop. *)
Definition loop_end (se : turn * ending) : Prop :=
  turn_ok se.1 ∧ ∀ f, se.2 = ModelFailed f → outage f.

Lemma chat_loop_ok n t s : turn_ok s → returns (chat_loop n t s) loop_end.
Proof.
  revert s. induction n as [|n IH]; intros s Hs; cbn [chat_loop]; [by split|].
  eapply returns_bind; [apply ask_model_returns|].
  intros [resp|failure] Hr; [|split; [done|by intros f [= <-]; apply Hr]].
  destruct (reply_calls resp) as [|c cs]; [by split|].
  eapply returns_bind; [|exact IH]. by apply answer_calls_ok.
Qed.

(** A reply: its text is the report of an outage, or it was judged on the figures of the
    results shown in this turn. *)
Definition reply_checked (thread_id : string) (rep : ChatReply) : Prop :=
  ∃ (results : list json) guard raw,
    length results = length (cr_tool_calls rep) ∧
    res_concat (collect_numbers <$> results) = Ok guard ∧
    cr_facts rep = foldl (λ d nr, dset d nr.1 nr.2) [] (zip (tr_name <$> cr_tool_calls rep) results) ∧
    cr_thread_id rep = thread_id ∧
    ((cr_reply rep = raw ∧ cr_guard_flagged rep = false ∧
      outage raw) ∨
     ∃ unv, annotate guard raw = Ok (cr_reply rep, cr_guard_flagged rep, unv)).

Lemma finish_turn_ok th s e : loop_end (s, e) → returns (finish_turn th s e) (reply_checked th).
Proof.
  intros [(results & Hlen & Hg & Hobs) He]. unfold finish_turn.
  destruct (reply_of e) as [[text prose] truncated] eqn:Hr.
  apply returns_lift_bind. intros [text' flagged] Hj. apply returns_bind_any. intros id.
  exists results, (tn_guard s), text. split_and!; try done. unfold judge in Hj. destruct prose.
  - apply res_bind_ok in Hj as ([[s' f] unv] & Ha & [= <- <-]). right. by exists unv.
  - injection Hj as <- <-. left. split_and!; try done.
    destruct e; cbn in Hr; simplify_eq. by apply He.
Qed.

Lemma run_chat_ok t th m b : returns (run_chat cfg t th m b) (reply_checked th).
Proof.
  unfold run_chat. apply returns_bind_any; intros _. apply returns_bind_any; intros _.
  apply returns_bind_any; intros rows. eapply returns_bind; [apply chat_loop_ok|].
  - by exists [].
  - intros [s e]. apply finish_turn_ok.
Qed.
End chat_reads.

(** ** Claims *)


(** *** A conversation *)

(** The model calls the tools in [script], one per turn, then says [last]. *)
Definition scripted (chain : handler unit) (script : list tool_call) (last : string) : handler nat :=
  λ q n,
  match q return answer q * nat with
  | ModelCall _ _ _ =>
      (Ok match script !! n with
          | Some c => RMessage (JStr "") [c]
          | None => RMessage (JStr last) []
          end, S n)
  | q => ((chain q tt).1, n)
  end.

Definition ask (name borrower : string) : tool_call :=
  {| call_name := name; call_args := [("borrower"%string, borrower)]; call_id := Some "1"%string |}.

Definition demo_chat : aprog ChatReply :=
  @run_chat unicode_ascii eth_plain libm_test demo_deps demo_settings (flit 30) "t" "how is 0xb0b?"
    (Some "0xb0b"%string).

Definition chat_world : AgentWorld :=
  {| aw_world := watched_world; aw_db := empty_db; aw_client := world0; aw_oracles := λ _, None;
     aw_next_oracle := 0 |}.

(** The position without its debt. *)
Definition repaid_chain : handler unit := λ q w,
  (match q return answer q with
   | Rpc _ (GetUserAccountData _ _) => Ok (1000000000000, 0, 0, 8250, 8000, 2 ^ 256 - 1)
   | q => (demo_chain (Ok tt) (Ok rc_ok) q tt).1
   end, w).

Definition demo_script := [ask "t_position_snapshot" "0xb0b"].




(** A position without debt breaks the chat.  Its health factor is infinite, the snapshot
    tool reports it, and the guard cannot render it: whatever the model then says, with a
    figure or without, the turn ends in [OverflowError]; the user's message is stored, no
    answer is. *)
Theorem chat_fails_without_debt (last : string) :
  ∃ tr w',
    seq_exec demo_chat chat_world tr
      (Err (Exn OverflowError "cannot convert float infinity to integer")) w' ∧
    (m_role <$> db_messages (aw_db w')) = [User].
Proof.
  destruct (run (scripted repaid_chain demo_script last) demo_chat chat_world O)
    as [[[tr r] w'] n] eqn:E.
  pose proof (run_exec _ eq _ _ _ _ _ _ _ E) as He.
  pose proof (f_equal (λ x, x.1.1.2) E) as Hr. pose proof (f_equal (λ x, x.1.2) E) as Hw.
  cbn [fst snd] in Hr, Hw. clear E.
  exists tr, w'. rewrite <-Hw at 2. split; [|vm_compute; reflexivity].
  assert (r = Err (Exn OverflowError "cannot convert float infinity to integer")) as ->
    by (rewrite <-Hr; vm_compute; reflexivity). exact He.
Qed.
