(* ===== verification/ToolsSpec.v ===== *)
(** * The proposal writers and the fact sheet

    What the two tools that write leave in the store, and a fact sheet built from concrete
    responses. *)
From S2P Require Import Prelude PyFloat PyText Guard Config State InFlight Breaker Observability.
From S2P Require Import Models AgentModels Facts Risk Events Io Logic World Api Chain Monitor.
From S2P Require Import Pipeline Simulator Submitter Service Deps Routes Policy Store AgentBase Tools Llm Chat.
From S2P Require Import AgentSpec ChatSpec.

Lemma get_set_field f g v p : get_field g (set_field f v p) = if decide (f = g) then v else get_field g p.
Proof. by destruct f, g. Qed.

Section resign.
Context {U : EthUtils} {UL : EthUtilsLaws U}.

(** Replacing a field keeps the addresses, so validation can only accept or refuse. *)
Lemma validate_fixed p q :
  to_checksum_address (rp_borrower p) = Ok (rp_borrower p) →
  Forall (λ a, to_checksum_address a = Ok a) (rp_allowed_collaterals p) →
  RiskParams_validate p = Ok q → q = p.
Proof.
  intros Hb Hcs. unfold RiskParams_validate. rewrite Hb, (checksum_list_fixed _ Hcs).
  intros (?&_&(?&_&(?&_&(?&_&(?&_&(?&_&(?&_&(?&_&(b&[= <-]&(cs&[= <-]&Ht)%res_bind_ok)%res_bind_ok)
    %res_bind_ok)%res_bind_ok)%res_bind_ok)%res_bind_ok)%res_bind_ok)%res_bind_ok)%res_bind_ok)%res_bind_ok.
  unfold target_band_ordered in Ht. destruct (_ <? _) in Ht; simplify_eq. by destruct p.
Qed.

Lemma validate_set_field params f v :
  RiskParams_wf params →
  (RiskParams_validate (set_field f v params) = Ok (set_field f v params) ∧
     RiskParams_wf (set_field f v params)) ∨
  ∃ e, RiskParams_validate (set_field f v params) = Err e ∧ is_ValueError e = true ∧
    ¬ RiskParams_wf (set_field f v params).
Proof.
  intros (_&_&_&_&_&_&_&_&Hb&Hcs).
  destruct (RiskParams_validate (set_field f v params)) as [q|e] eqn:E.
  - left. assert (q = set_field f v params) as -> by exact (validate_fixed (set_field f v params) q Hb Hcs E).
    split; [done|]. by eapply RiskParams_validate_sound.
  - right. exists e. split_and!; [done|by eapply RiskParams_validate_err|].
    intros Hwf%RiskParams_validate_complete. congruence.
Qed.

(** C37: A tuning suggestion is a re-sign request for one field (FR-21).  On a mandate that
    satisfies the signing rules: if the mandate with the field replaced does not, nothing is
    asked or stored and a [ValueError] is raised; when it returns, that mandate does, and
    nothing but one open row was added, whose payload is the typed data of exactly that
    mandate, and whose current value is the signed one; the other fields are those signed. *)
Theorem tuning_resign run b params f v rationale w tr r w' :
  RiskParams_wf params →
  seq_exec (t_propose_tuning run b params f v rationale) w tr r w' →
  (¬ RiskParams_wf (set_field f v params) →
     ∃ e, r = Err e ∧ is_ValueError e = true ∧ tr = [] ∧ w' = w) ∧
  (∀ id, r = Ok id →
     RiskParams_wf (set_field f v params) ∧
     ∃ row, w' = set_db (set_tuning (db_tuning (aw_db w) ++ [row]) (aw_db w)) w ∧
       t_id row = id ∧ t_borrower row = b ∧ t_run_id row = run ∧ t_status row = OPEN ∧
       t_eip712_payload row = eip712_message (set_field f v params) ∧
       t_current_value row = get_field f params ∧ t_suggested_value row = v) ∧
  ∀ g, get_field g (set_field f v params) = if decide (f = g) then v else get_field g params.
Proof.
  intros Hwf. unfold t_propose_tuning.
  destruct (validate_set_field params f v Hwf) as [[-> Hq]|(e & -> & He & Hn)]; intros Hr.
  - split; [done|]. split; [|intros; apply get_set_field]. intros id ->. split; [done|].
    apply exec_bind_inv in Hr as [(? & ? & _)|(x & ? & ? & ? & _ & Hx & Hr)]; [done|].
    inversion Hx; subst.
    apply exec_bind_inv in Hr as [(? & ? & _)|(ts & ? & w1 & ? & _ & Ht & Hr)]; [done|].
    apply (await_stays Time) in Ht as ->.
    apply db_run_ok in Hr as (db & Hst & ->).
    apply res_bind_ok in Hst as (c & Hc & Hv%with_int_ok). injection Hv as <- <-.
    assert (c = get_field f params) as ->.
    { unfold sql_int in Hc. by destruct (_ && _); simplify_eq. }
    eexists. by split_and!.
  - change (seq_exec (@Raise AgentWorld Z e) w tr r w') in Hr. inversion Hr; subst.
    split; [by exists e|]. split; [by intros|]. intros; apply get_set_field.
Qed.
End resign.

Lemma tuning_resign_witness :
  ∃ tr w' row,
    seq_exec (@t_propose_tuning eth_plain "r" "0xb0b" demo_params F_max_cost_bps 150 "cheaper")
      chat_world tr (Ok 1) w' ∧
    db_tuning (aw_db w') = [row] ∧ t_eip712_payload row =
      eip712_message (set_field F_max_cost_bps 150 demo_params).
Proof.
  destruct (run (demo_chain (Ok tt) (Ok rc_ok)) (@t_propose_tuning eth_plain "r" "0xb0b" demo_params
    F_max_cost_bps 150 "cheaper") chat_world tt) as [[[tr r] w'] n] eqn:E.
  pose proof (run_exec _ eq _ _ _ _ _ _ _ E) as He.
  pose proof (f_equal (λ x, x.1.1.2) E) as Hr. cbn [fst snd] in Hr. clear E.
  assert (r = Ok 1) as -> by (rewrite <-Hr; vm_compute; reflexivity).
  destruct (@tuning_resign eth_plain eth_plain_laws _ _ _ _ _ _ _ _ _ _ demo_params_wf He) as (_ & Hok & _).
  destruct (Hok 1 eq_refl) as (_ & row & Hw & _ & _ & _ & _ & Hp & _).
  exists tr, w', row. split; [exact He|]. split; [by rewrite Hw|exact Hp].
Defined.

(** The sheet of the position of [Policy.v]. *)
Lemma factsheet_figures_witness :
  ∃ f, @build_factsheet eth_plain demo_snapshot demo_assessment
         (Some {| rs_sigma := fzero; rs_breach_probability := fzero; rs_hf_target_bps := 12000 |})
         (Some (@USDC eth_plain)) (flit 1000) = Ok f ∧
    fs_hf_bps f = 10312 ∧ fs_hf_target_bps f = 12000 ∧
    collect_numbers (dump_sheet f) = collect_numbers (JList (numeric_leaves f)).
Proof.
  destruct (@build_factsheet eth_plain demo_snapshot demo_assessment
    (Some {| rs_sigma := fzero; rs_breach_probability := fzero; rs_hf_target_bps := 12000 |})
    (Some (@USDC eth_plain)) (flit 1000)) as [f|e] eqn:E; [|vm_compute in E; discriminate].
  exists f. destruct (@factsheet_figures eth_plain _ _ _ _ _ _ E)
    as (_ & _ & _ & _ & _ & Hbps & Ht & _ & _ & _ & _ & _ & Hl).
  split; [reflexivity|]. split; [rewrite Hbps; reflexivity|]. split; [exact Ht|exact Hl].
Defined.
