(* ===== verification/Runtime.v ===== *)
(** * agent/runtime.py: the lazy singleton of the agent layer

    Whether the layer is available and why not, and the life of the process-wide runtime: the
    module's two globals are the state, each function a transition on it.  Whether the optional
    packages import is an argument, [stack]. *)
From S2P Require Import Prelude PyFloat PyText Config State Models AgentModels Events Io World Routes.

Record AgentStatus := {
  st_enabled : bool;
  st_reason : option string;
  st_model : option string;
  st_stack_available : bool;
  st_store_ready : bool;
}.

(** [AgentRuntime], with the part of its store the status reads: its path, and whether its
    connection is open. *)
Record AgentRuntime := {
  art_path : string;
  art_ready : bool;
  art_model : string;
  art_api_key : string;
  art_timeout_seconds : f64;
}.

(** [_runtime] and [_probed] *)
Record RuntimeState := { rs_runtime : option AgentRuntime; rs_probed : bool }.

Definition at_import : RuntimeState := {| rs_runtime := None; rs_probed := false |}.

Section runtime.
Context (cfg : Settings) (stack : bool).

Definition OFF : string := "AGENT_ENABLED is false".
Definition NO_KEY : string := "GEMINI_API_KEY is not configured".
Definition quote : string := String (byte_of 34) "".
Definition NO_EXTRA : string :=
  "the optional agent extra is not installed (pip install -e " +:+ quote +:+ ".[agent]" +:+ quote +:+ ")".

Definition store_ready (s : RuntimeState) : bool :=
  match rs_runtime s with Some rt => art_ready rt | None => false end.

Definition unavailable (s : RuntimeState) (reason : string) : AgentStatus :=
  {| st_enabled := false; st_reason := Some reason; st_model := None; st_stack_available := false;
     st_store_ready := store_ready s |}.

(** [agent_status] *)
Definition agent_status (s : RuntimeState) : AgentStatus :=
  if negb (agent_enabled cfg) then unavailable s OFF
  else if decide (gemini_api_key cfg = ""%string) then unavailable s NO_KEY
  else if negb stack then unavailable s NO_EXTRA
  else {| st_enabled := true; st_reason := None; st_model := Some (agent_model cfg);
          st_stack_available := true; st_store_ready := store_ready s |}.

(** [AgentRuntime(store=AgentStore(path), ...)] *)
Definition new_runtime : AgentRuntime :=
  {| art_path := agent_db_path cfg; art_ready := false; art_model := agent_model cfg;
     art_api_key := gemini_api_key cfg; art_timeout_seconds := agent_timeout_seconds cfg |}.

(** [get_runtime] *)
Definition get_runtime (s : RuntimeState) : option AgentRuntime * RuntimeState :=
  match rs_runtime s with
  | Some rt => (Some rt, s)
  | None =>
      if rs_probed s then (None, s)
      else
        let r := if st_enabled (agent_status s) then Some new_runtime else None in
        (r, {| rs_runtime := r; rs_probed := true |})
  end.

Definition reset_runtime_for_tests (r : option AgentRuntime) (s : RuntimeState) : RuntimeState :=
  {| rs_runtime := r; rs_probed := true |}.

(** [AgentStore.connect] on the runtime's store, and [close_runtime]. *)
Definition connect (s : RuntimeState) : RuntimeState :=
  {| rs_runtime :=
       (λ rt, {| art_path := art_path rt; art_ready := true; art_model := art_model rt;
                 art_api_key := art_api_key rt; art_timeout_seconds := art_timeout_seconds rt |})
       <$> rs_runtime s;
     rs_probed := rs_probed s |}.

Definition close_runtime (s : RuntimeState) : RuntimeState := at_import.

(** [require_runtime] *)
Definition require_runtime (s : RuntimeState) : res AgentRuntime * RuntimeState :=
  let '(r, s') := get_runtime s in
  (match r with
   | Some rt => Ok rt
   | None =>
       Err (http_error 503 match st_reason (agent_status s') with
                           | Some (String c r) => String c r
                           | _ => "agent layer disabled"
                           end)
   end, s').

(** ** A process: requests, the lifespan's connection and shutdown, in any order *)
Inductive runtime_step : RuntimeState → RuntimeState → Prop :=
  | rt_get s : runtime_step s (get_runtime s).2
  | rt_connect s : runtime_step s (connect s)
  | rt_close s : runtime_step s (close_runtime s).

Definition available : bool := agent_enabled cfg && negb (bool_decide (gemini_api_key cfg = ""%string)) && stack.

Definition runtime_wf (s : RuntimeState) : Prop :=
  match rs_runtime s with
  | Some rt => rs_probed s = true ∧ available = true ∧
      art_path rt = agent_db_path cfg ∧ art_model rt = agent_model cfg ∧
      art_api_key rt = gemini_api_key cfg ∧ art_api_key rt ≠ ""%string ∧
      art_timeout_seconds rt = agent_timeout_seconds cfg
  | None => rs_probed s = true → available = false
  end.

Lemma status_enabled s : st_enabled (agent_status s) = available.
Proof.
  unfold agent_status, available. destruct (agent_enabled cfg), stack; cbn; try done.
  - by case_decide; [rewrite bool_decide_eq_true_2|rewrite bool_decide_eq_false_2].
  - case_decide; by rewrite ?andb_false_r.
Qed.

Lemma new_runtime_wf : available = true → runtime_wf {| rs_runtime := Some new_runtime; rs_probed := true |}.
Proof.
  intros Ha. unfold runtime_wf. cbn. split_and!; try done. unfold available in Ha.
  by apply andb_true_iff in Ha as [[_ ?%negb_true_iff%bool_decide_eq_false]%andb_true_iff _].
Qed.

Lemma runtime_step_wf s s' : runtime_step s s' → runtime_wf s → runtime_wf s'.
Proof.
  intros [s0|s0|s0] Hwf.
  - unfold get_runtime. destruct (rs_runtime s0) as [rt|] eqn:E; [done|].
    destruct (rs_probed s0) eqn:Ep; [done|]. cbn. rewrite status_enabled.
    destruct available eqn:Ha; [by apply new_runtime_wf|]. unfold runtime_wf. cbn. by rewrite Ha.
  - unfold runtime_wf, connect in *. cbn. by destruct (rs_runtime s0).
  - by intros.
Qed.

Lemma runtime_steps_wf s s' : rtc runtime_step s s' → runtime_wf s → runtime_wf s'.
Proof. induction 1; eauto using runtime_step_wf. Qed.
End runtime.

(** ** Claims *)

(** The layer is on exactly when it is configured.  In every state a process reaches from
    its import, by any sequence of requests, connections and shutdowns: a route gets a runtime
    exactly when the flag is set, a key is configured and the packages import, and then the
    runtime carries the configured path, model, key and timeout; otherwise it is refused with
    503 and the first precondition that is not met.  Asking twice gives the same answer and
    changes nothing more. *)
Theorem runtime_available cfg stack s :
  rtc (runtime_step cfg stack) at_import s →
  let '(r, s') := require_runtime cfg stack s in
  (if available cfg stack then
     ∃ rt, r = Ok rt ∧ rs_runtime s' = Some rt ∧ art_path rt = agent_db_path cfg ∧
       art_model rt = agent_model cfg ∧ art_api_key rt = gemini_api_key cfg ∧
       art_timeout_seconds rt = agent_timeout_seconds cfg
   else
     r = Err (http_error 503 (if negb (agent_enabled cfg) then OFF
                              else if decide (gemini_api_key cfg = ""%string) then NO_KEY
                              else NO_EXTRA)) ∧ rs_runtime s' = None) ∧
  require_runtime cfg stack s' = (r, s').
Proof.
  intros Hs. assert (runtime_wf cfg stack s) as Hwf by (eapply runtime_steps_wf; [exact Hs|done]).
  clear Hs. unfold require_runtime, get_runtime. unfold runtime_wf in Hwf.
  assert (available cfg stack = false → ∀ s0, rs_runtime s0 = None →
    match st_reason (agent_status cfg stack s0) with
    | Some (String c r) => String c r
    | _ => "agent layer disabled"
    end = (if negb (agent_enabled cfg) then OFF
           else if decide (gemini_api_key cfg = ""%string) then NO_KEY else NO_EXTRA)) as Hreason.
  { intros Ha s0 _. unfold available in Ha. unfold agent_status.
    destruct (agent_enabled cfg); cbn in *; [|done].
    case_decide; [done|]. rewrite bool_decide_eq_false_2 in Ha by done. cbn in Ha. by rewrite Ha. }
  destruct (rs_runtime s) as [rt|] eqn:E.
  - destruct Hwf as (_ & -> & ? & ? & ? & _ & ?). rewrite E. split; [|done]. by exists rt.
  - destruct (rs_probed s) eqn:Ep.
    + pose proof (Hwf eq_refl) as Ha. rewrite Ha, E, Ep. by rewrite (Hreason Ha s E).
    + rewrite status_enabled. cbn. destruct (available cfg stack) eqn:Ha; cbn.
      * split; [|done]. by exists (new_runtime cfg).
      * by rewrite (Hreason eq_refl {| rs_runtime := None; rs_probed := true |} eq_refl).
Qed.

Lemma runtime_available_witness :
  (require_runtime default_settings true (close_runtime (get_runtime default_settings true at_import).2)).1
  = Err (http_error 503 OFF).
Proof.
  assert (rtc (runtime_step default_settings true) at_import
    (close_runtime (get_runtime default_settings true at_import).2)) as Hs.
  { eapply rtc_l; [apply rt_get|]. eapply rtc_l; [apply rt_close|]. reflexivity. }
  exact (proj1 (proj1 (runtime_available default_settings true _ Hs))).
Defined.
