(* ===== verification/Shell.v ===== *)
(** * main.py: the life of the process

    Startup and shutdown of the application ([lifespan]), over the worker's task
    ([scheduler.py]), the container ([deps.py]), the process-wide client ([chain/client.py])
    and the agent layer's runtime ([Runtime.v]).  Each function is a transition on the
    process, [proc]; what a call of asyncio, web3 or SQLite answers is read from [outside]. *)
From S2P Require Import Prelude PyFloat Config State InFlight Breaker Observability Models.
From S2P Require Import Risk Events Io Logic World Api Chain Monitor Pipeline Simulator.
From S2P Require Import Submitter Service Deps Routes Runtime.

(** ** The worker's task *)

(** asyncio's task: it has not ended, or how it ended. *)
Inductive wtask := Running | Done (r : res unit).

Record Worker := { wk_task : option wtask; wk_stop : bool }.

Definition worker_init : Worker := {| wk_task := None; wk_stop := false |}.

(** [Worker.start] *)
Definition start (w : Worker) : Worker :=
  match wk_task w with
  | None => {| wk_task := Some Running; wk_stop := false |}
  | Some _ => w
  end.

Definition is_cancelled (e : exn) : bool := bool_decide (exn_kind e = CancelledError).

(** [Worker.stop]; [ends] is how a running task ends once it is cancelled.  Awaiting a task
    that has ended gives its result. *)
Definition stop (ends : res unit) (w : Worker) : res unit * Worker :=
  match wk_task w with
  | None => (Ok tt, {| wk_task := None; wk_stop := true |})
  | Some t =>
      let r := match t with Running => ends | Done r => r end in
      match r with
      | Ok _ => (Ok tt, {| wk_task := None; wk_stop := true |})
      | Err e =>
          if is_cancelled e then (Ok tt, {| wk_task := None; wk_stop := true |})
          else (Err e, {| wk_task := Some (Done (Err e)); wk_stop := true |})
      end
  end.

(** ** The process *)

(** [deps._container], its worker (which outlives it: [lifespan] holds it, and the event loop
    holds its task), [chain.client._client] and the globals of [agent/runtime.py]. *)
Record Process := {
  ps_container : option World;
  ps_worker : Worker;
  ps_client : bool;
  ps_runtime : RuntimeState;
}.

Definition at_boot : Process :=
  {| ps_container := None; ps_worker := worker_init; ps_client := false; ps_runtime := at_import |}.

(** What the calls that leave the repository answer during startup and shutdown. *)
Record outside := {
  o_connect : res unit;                (* sqlite3, in [AgentStore.connect] *)
  o_worker : res unit;                 (* the worker's task, once cancelled *)
  o_aclose : res unit;                 (* [AgentRuntime.aclose] *)
  o_container : list (res unit);       (* [disconnect] of each provider of the container *)
  o_client : list (res unit);          (* [disconnect] of each provider of the client *)
}.

Definition proc (A : Type) : Type := Process → res A * Process.

#[global] Instance proc_ret : MRet proc := λ A a p, (Ok a, p).
#[global] Instance proc_bind : MBind proc := λ A B f m p,
  match m p with (Ok a, p) => f a p | (Err e, p) => (Err e, p) end.

Definition answer_with {A} (r : res A) : proc A := λ p, (r, p).
Definition reads_proc {A} (f : Process → A) : proc A := λ p, (Ok (f p), p).
Definition put_container (c : option World) : proc unit := λ p,
  (Ok tt, {| ps_container := c; ps_worker := ps_worker p; ps_client := ps_client p;
             ps_runtime := ps_runtime p |}).
Definition put_worker (w : Worker) : proc unit := λ p,
  (Ok tt, {| ps_container := ps_container p; ps_worker := w; ps_client := ps_client p;
             ps_runtime := ps_runtime p |}).
Definition put_client (b : bool) : proc unit := λ p,
  (Ok tt, {| ps_container := ps_container p; ps_worker := ps_worker p; ps_client := b;
             ps_runtime := ps_runtime p |}).
Definition put_runtime (s : RuntimeState) : proc unit := λ p,
  (Ok tt, {| ps_container := ps_container p; ps_worker := ps_worker p;
             ps_client := ps_client p; ps_runtime := s |}).

(** [try: m  finally: f], where [f] may fail. *)
Definition ensure {A} (m : proc A) (f : proc unit) : proc A := λ p,
  let '(r, p) := m p in
  match f p with (Ok _, p) => (r, p) | (Err e, p) => (Err e, p) end.

Section shell.
Context `{EthUtils} `{EthAccount} `{Libm} (cfg : Settings) (stack : bool) (o : outside).

(** [get_container]; a new container has a worker that was never started. *)
Definition get_container : proc World :=
  c ← reads_proc ps_container;
  match c with
  | Some c => mret c
  | None =>
      w ← answer_with (build_container cfg);
      _ ← put_container (Some w);
      _ ← put_worker worker_init;
      mret w
  end.

(** [get_client] *)
Definition get_client : proc unit :=
  open ← reads_proc ps_client;
  if open : bool then mret tt
  else if bool_decide (Client.urls cfg = []) then
    answer_with (Err (Exn ChainClientError "No RPC URL configured (set ARBITRUM_RPC_URL)."))
  else put_client true.

(** [ChainClient.close]: every provider in turn, best effort. *)
Fixpoint client_close (disconnects : list (res unit)) : res unit :=
  match disconnects with
  | [] => Ok tt
  | Err e :: rest => if is_Exception e then client_close rest else Err e
  | Ok _ :: rest => client_close rest
  end.

(** [close_container], [close_client] *)
Definition close_container : proc unit :=
  c ← reads_proc ps_container;
  match c with
  | Some _ => _ ← answer_with (client_close (o_container o)); put_container None
  | None => mret tt
  end.

Definition close_client : proc unit :=
  open ← reads_proc ps_client;
  if open : bool then _ ← answer_with (client_close (o_client o)); put_client false
  else mret tt.

(** [close_runtime], when releasing the store may fail. *)
Definition aclose_runtime : proc unit :=
  s ← reads_proc ps_runtime;
  _ ← (if bool_decide (is_Some (rs_runtime s)) then answer_with (o_aclose o) else mret tt);
  put_runtime (close_runtime s).

Definition worker_configured : bool :=
  worker_enabled cfg && negb (bool_decide (arbitrum_rpc_url cfg = ""%string)).

(** The part of [lifespan] before its [try]: the worker, then the agent's store; whether the
    worker was started. *)
Definition startup_agent : proc unit :=
  if agent_enabled cfg then
    s ← reads_proc ps_runtime;
    let '(rt, s') := get_runtime cfg stack s in
    _ ← put_runtime s';
    match rt with
    | Some _ => _ ← answer_with (o_connect o); put_runtime (connect s')
    | None => mret tt
    end
  else mret tt.

Definition startup : proc bool :=
  worker ← (if worker_configured then
              _ ← get_container;
              worker ← reads_proc ps_worker;
              _ ← put_worker (start worker);
              mret true
            else mret false);
  _ ← startup_agent;
  mret worker.

(** [await worker.stop()] *)
Definition stop_worker : proc unit :=
  worker ← reads_proc ps_worker;
  let '(r, worker') := stop (o_worker o) worker in
  _ ← put_worker worker';
  answer_with r.

(** The [finally] block of [lifespan]. *)
Definition shutdown (worker : bool) : proc unit :=
  _ ← (if worker then stop_worker else mret tt);
  _ ← aclose_runtime;
  _ ← close_container;
  close_client.

(** [lifespan]; [served] is what happens at its [yield]. *)
Definition lifespan (served : proc unit) : proc unit :=
  worker ← startup;
  ensure served (shutdown worker).

(** While the application serves, requests may build what is lazy, and the worker's task may
    end on its own. *)
Definition clean_end (r : res unit) : Prop :=
  match r with Ok _ => True | Err e => is_Exception e = false end.

Inductive serving : Process → Process → Prop :=
  | srv_container p : serving p (get_container p).2
  | srv_client p : serving p (get_client p).2
  | srv_runtime p : serving p (put_runtime (get_runtime cfg stack (ps_runtime p)).2 p).2
  | srv_task p r :
      wk_task (ps_worker p) = Some Running → clean_end r →
      serving p (put_worker {| wk_task := Some (Done r); wk_stop := wk_stop (ps_worker p) |} p).2.

(** ** Shutting down *)
Definition released (p : Process) : Prop :=
  ps_container p = None ∧ wk_task (ps_worker p) = None ∧ ps_client p = false ∧
  ps_runtime p = at_import.

(** The worker's task exists, and its end, if any, raises nothing but a cancellation. *)
Definition attended (p : Process) : Prop :=
  is_Some (ps_container p) ∧
  match wk_task (ps_worker p) with
  | Some (Done r) => clean_end r
  | Some Running => True
  | None => False
  end.

Lemma serving_attended p p' : serving p p' → attended p → attended p'.
Proof.
  intros Hs [[w Hc] Ht]. unfold attended. destruct Hs as [p|p|p|p r Hrun Hr]; cbn.
  - unfold get_container, mbind, proc_bind, reads_proc. by rewrite Hc.
  - unfold get_client, mbind, proc_bind, reads_proc.
    by destruct (ps_client p); [|destruct (bool_decide _)]; cbn; rewrite Hc.
  - by rewrite Hc.
  - by rewrite Hc.
Qed.

(** What shutdown finds, given whether the worker was started. *)
Definition tended (worker : bool) (p : Process) : Prop :=
  if worker then attended p else wk_task (ps_worker p) = None.

Lemma serving_tended worker p p' : serving p p' → tended worker p → tended worker p'.
Proof.
  destruct worker; [apply serving_attended|]. intros Hs Ht. destruct Hs as [p|p|p|p r Hrun Hr].
  - unfold tended, get_container, mbind, proc_bind, reads_proc, answer_with.
    destruct (ps_container p); [done|]. by destruct (build_container cfg).
  - unfold tended, get_client, mbind, proc_bind, reads_proc.
    by destruct (ps_client p); [|destruct (bool_decide _)].
  - exact Ht.
  - cbn in Ht. congruence.
Qed.

Lemma servings_tended worker p p' : rtc serving p p' → tended worker p → tended worker p'.
Proof. induction 1; eauto using serving_tended. Qed.

Lemma clean_cancelled e : is_Exception e = false → is_cancelled e = true.
Proof.
  unfold is_Exception, is_cancelled. intros He. apply bool_decide_eq_true.
  by destruct (exn_kind e).
Qed.

(** Stopping a worker whose task ends as [worker_rounds] does returns, and forgets the task. *)
Lemma stop_clean ends worker :
  clean_end ends →
  match wk_task worker with Some (Done r) => clean_end r | _ => True end →
  stop ends worker = (Ok tt, {| wk_task := None; wk_stop := true |}).
Proof.
  intros He Ht. unfold stop. destruct (wk_task worker) as [[|r]|]; [| |done].
  - destruct ends as [[]|e]; [done|]. cbn in He. by rewrite clean_cancelled.
  - destruct r as [[]|e]; [done|]. cbn in Ht. by rewrite clean_cancelled.
Qed.

Lemma client_close_ok rs : Forall (λ r, ∀ e, r = Err e → is_Exception e = true) rs → client_close rs = Ok tt.
Proof.
  induction 1 as [|r rs Hr _ IH]; cbn; [done|]. destruct r as [a|e]; [done|].
  by rewrite Hr.
Qed.

(** No release fails: closing the store returns, and no disconnection is cancelled. *)
Definition releases_return : Prop :=
  clean_end (o_worker o) ∧ o_aclose o = Ok tt ∧
  Forall (λ r, ∀ e, r = Err e → is_Exception e = true) (o_container o) ∧
  Forall (λ r, ∀ e, r = Err e → is_Exception e = true) (o_client o).

Lemma stop_worker_tended worker p :
  clean_end (o_worker o) → tended worker p →
  ∃ stopped, (if worker then stop_worker else mret tt) p =
    (Ok tt, {| ps_container := ps_container p; ps_worker := stopped; ps_client := ps_client p;
               ps_runtime := ps_runtime p |}) ∧ wk_task stopped = None.
Proof.
  intros Hw Ht. destruct worker; cbn in Ht; [|exists (ps_worker p); by destruct p].
  exists {| wk_task := None; wk_stop := true |}. split; [|done]. destruct Ht as [_ Ht].
  unfold stop_worker, mbind, proc_bind, reads_proc. rewrite stop_clean; [done|done|].
  by destruct (wk_task (ps_worker p)) as [[]|].
Qed.

Lemma shutdown_releases worker p :
  releases_return → tended worker p → ∃ p', shutdown worker p = (Ok tt, p') ∧ released p'.
Proof.
  intros (Hw & Ha & Hc & Hcl) Ht. apply client_close_ok in Hc, Hcl.
  destruct (stop_worker_tended worker p Hw Ht) as (stopped & Hstop & Hnone).
  unfold shutdown, mbind at 1, proc_bind at 1. rewrite Hstop.
  unfold aclose_runtime, close_container, close_client, put_runtime, put_container, put_client.
  unfold mbind, proc_bind, reads_proc, answer_with. cbn. rewrite Ha, Hc, Hcl.
  destruct (bool_decide _), (ps_container p), (ps_client p); cbn;
    eexists; (split; [done|by split_and!]).
Qed.

(** ** Starting up *)
Definition started (p : Process) (w : World) : Process :=
  {| ps_container := Some w; ps_worker := start worker_init; ps_client := ps_client p;
     ps_runtime := ps_runtime p |}.

Lemma startup_agent_spec p :
  ps_container (startup_agent p).2 = ps_container p ∧
  ps_worker (startup_agent p).2 = ps_worker p ∧
  match (startup_agent p).1 with
  | Ok _ => available cfg stack = true → ps_runtime p = at_import → o_connect o = Ok tt
  | Err e => o_connect o = Err e ∧ agent_enabled cfg = true
  end.
Proof.
  unfold startup_agent. destruct (agent_enabled cfg) eqn:Ea.
  2: { split; [done|]. split; [done|]. cbn. unfold available. by rewrite Ea. }
  unfold mbind, proc_bind, reads_proc, put_runtime, answer_with.
  destruct (get_runtime cfg stack (ps_runtime p)) as [[rt|] s'] eqn:Eg; cbn.
  - destruct (o_connect o) as [[]|e] eqn:Eo; cbn; by rewrite ?Eo.
  - split; [done|]. split; [done|]. intros Hav Hrt. rewrite Hrt in Eg. unfold get_runtime in Eg. cbn in Eg.
    rewrite status_enabled, Hav in Eg. by simplify_eq.
Qed.

Lemma startup_unfold p :
  ps_container p = None →
  startup p =
    (if worker_configured then
       match build_container cfg with
       | Ok w => match startup_agent (started p w) with (Ok _, p') => (Ok true, p') | (Err e, p') => (Err e, p') end
       | Err e => (Err e, p)
       end
     else match startup_agent p with (Ok _, p') => (Ok false, p') | (Err e, p') => (Err e, p') end).
Proof.
  intros Hc. unfold startup.
  unfold mbind at 1, proc_bind at 1. destruct worker_configured; [|done].
  unfold get_container, mbind, proc_bind, reads_proc, answer_with. rewrite Hc.
  by destruct (build_container cfg).
Qed.
End shell.

(** A worker's task raises nothing but its cancellation. *)
Lemma worker_rounds_clean {D : ProtectionDeps} R i n w tr r w' :
  exec R (worker_rounds i n) w tr r w' → clean_end r.
Proof.
  revert tr r w'. apply (wp_exec _ _ (λ _ r _, clean_end r)). revert w.
  induction n as [|n IH]; intros w; cbn [worker_rounds]; [done|].
  rewrite wp_bind, wp_try_except. apply exec_wp. intros tr [[]|e] w1 _.
  2: { destruct (is_Exception e) eqn:Ee; [|exact Ee]. rewrite wp_ret.
       rewrite wp_bind, wp_await. intros [] w2 _; [apply IH|done]. }
  rewrite wp_bind, wp_await. intros [] w2 _; [apply IH|done].
Qed.

(** ** Claims *)

(** C38: The life of the process.  Let the worker's task end as some execution of its coroutine
    does, and let closing the agent's store and disconnecting the providers not be
    cancelled.  If startup succeeds, then whatever was served meanwhile, shutdown runs to its
    end: the outcome is that of serving, and no worker's task, container, client or runtime is
    left.  If startup fails, that exception is the outcome and nothing is served or released:
    when the failure is the agent's store and the worker was configured, the worker's task is
    left running. *)
Theorem lifespan_releases {U : EthUtils} {E : EthAccount} {L : Libm} cfg stack o
    (served : proc unit) R i n w0 tr w1 r p' :
  exec R (worker_rounds (H := real_deps cfg) i n) w0 tr (o_worker o) w1 →
  o_aclose o = Ok tt →
  Forall (λ r, ∀ e, r = Err e → is_Exception e = true) (o_container o ++ o_client o) →
  (∀ p, rtc (serving cfg stack) p (served p).2) →
  lifespan cfg stack o served at_boot = (r, p') →
  match startup cfg stack o at_boot with
  | (Ok _, p1) => r = (served p1).1 ∧ released p'
  | (Err e, p1) =>
      r = Err e ∧ p' = p1 ∧
      (o_connect o = Err e ∧
         wk_task (ps_worker p') = (if worker_configured cfg then Some Running else None) ∨
       worker_configured cfg = true ∧ build_container cfg = Err e ∧ wk_task (ps_worker p') = None)
  end.
Proof.
  intros Hw%worker_rounds_clean Ha [Hc Hcl]%Forall_app Hserved Hl.
  unfold lifespan, mbind, proc_bind in Hl.
  rewrite (startup_unfold cfg stack o at_boot eq_refl) in Hl |- *.
  pose proof (startup_agent_spec cfg stack o) as Hagent.
  assert (∀ b p1, tended b p1 → ensure served (shutdown o b) p1 = (r, p') →
    r = (served p1).1 ∧ released p') as Hserve.
  { intros b p1 Ht He. unfold ensure in He. specialize (Hserved p1).
    destruct (served p1) as [r2 p2]. cbn in *.
    destruct (shutdown_releases o b p2) as (p3 & Hs & Hrel); [by split_and!| |].
    { eapply servings_tended; [exact Hserved|done]. }
    rewrite Hs in He. by simplify_eq. }
  destruct (worker_configured cfg) eqn:Hwc.
  - destruct (build_container cfg) as [w|e] eqn:Hb; [|simplify_eq; split; [done|]; split; [done|]; by right].
    specialize (Hagent (started at_boot w)). destruct (startup_agent _ _ _ _) as [[[]|e] p1].
    + apply (Hserve true); [|done]. destruct Hagent as (Hcp & Hwk & _). cbn in Hcp, Hwk.
      unfold tended, attended. by rewrite Hcp, Hwk.
    + destruct Hagent as (_ & Hwk & Ho & _). cbn in Hwk. simplify_eq. rewrite Hwk. auto.
  - specialize (Hagent at_boot). destruct (startup_agent _ _ _ _) as [[[]|e] p1];
      destruct Hagent as (_ & Hwk & Ho); cbn in Hwk.
    + apply (Hserve false); [|done]. cbn. by rewrite Hwk.
    + destruct Ho as [Ho _]. simplify_eq. rewrite Hwk. auto.
Qed.

(** The agent's store cannot be opened: the worker started before it is never stopped. *)
Definition agent_settings : Settings :=
  {| chain_id_setting := 42161; arbitrum_rpc_url := "http://a"; arbitrum_rpc_url_fallback := "";
     rpc_timeout_seconds := flit 20; rpc_max_retries := 1; poll_interval_seconds := 12;
     vault_address := ""; pool_addresses_provider := "0x1"; swap_router := "0x2";
     quoter_v2 := "0x3"; chainlink_eth_usd := "0x4"; chainlink_usdc_usd := "0x5";
     oracle_max_staleness_seconds := 3600; keeper_private_key := "";
     breaker_max_consecutive_failures := 3; inflight_cooldown_seconds := 30;
     max_simulation_bumps := 3; autonomous_enabled_setting := true; worker_enabled := true;
     demo_mode := false; agent_enabled := true; gemini_api_key := "k"; agent_model := "m";
     agent_timeout_seconds := flit 30; agent_max_tool_loops := 6; agent_db_path := "/ro/a.db";
     agent_chat_history_turns := 20; agent_max_repay_fraction := fhalf;
     agent_max_cost_bps := 200; agent_min_hf_gap_bps := 25; agent_proposal_ttl_seconds := 900;
     agent_max_proposals_per_hour := 3; agent_max_proposals_global_per_hour := 12 |}.

Definition demo_outside (connect : res unit) : outside :=
  {| o_connect := connect; o_worker := Err cancelled; o_aclose := Ok tt;
     o_container := [Err (Exn RuntimeError "disconnect"); Ok tt]; o_client := [] |}.

(** One round of the worker, cancelled in its wait. *)
Definition cancelling : handler unit := λ q w,
  match q return answer q * unit with
  | Sleep _ => (Cancelled, w)
  | q => demo_chain (Ok tt) (Ok rc_ok) q w
  end.

Definition demo_worker : prog unit :=
  @worker_rounds (@real_deps eth_plain eth_account_plain libm_test agent_settings) (flit 12) 1.

Lemma demo_worker_cancelled : seq_exec demo_worker world0 [Ev (Sleep (flit 12)) Cancelled] (Err cancelled) world0.
Proof. exact (run_exec cancelling eq demo_worker world0 tt _ _ _ tt eq_refl). Qed.

(** Nothing is served but a first request, which builds the process-wide client. *)
Definition demo_served : proc unit := get_client agent_settings.

Lemma lifespan_releases_witness :
  (∃ p', @lifespan eth_plain eth_account_plain agent_settings true (demo_outside (Ok tt))
     demo_served at_boot = (Ok tt, p') ∧ released p') ∧
  (∃ e p', @lifespan eth_plain eth_account_plain agent_settings true
     (demo_outside (Err (Exn OSError "read-only"))) demo_served at_boot = (Err e, p') ∧
     wk_task (ps_worker p') = Some Running).
Proof.
  assert (∀ p, rtc (@serving eth_plain eth_account_plain agent_settings true) p (demo_served p).2) as Hs
    by (intros p; apply rtc_once, srv_client).
  assert (Forall (λ r : res unit, ∀ e, r = Err e → is_Exception e = true)
    [Err (Exn RuntimeError "disconnect"); Ok tt]) as Hd by (repeat constructor; naive_solver).
  split.
  - destruct (lifespan _ _ _ _ _) as [r p'] eqn:El.
    pose proof (@lifespan_releases eth_plain eth_account_plain libm_test agent_settings true
      (demo_outside (Ok tt)) demo_served eq _ _ _ _ _ r p' demo_worker_cancelled eq_refl Hd Hs El) as Hl.
    assert (∃ b p1, @startup eth_plain eth_account_plain agent_settings true (demo_outside (Ok tt)) at_boot = (Ok b, p1) ∧
      (demo_served p1).1 = Ok tt) as (b & p1 & E & Er) by (eexists _, _; split; vm_compute; reflexivity).
    rewrite E in Hl. destruct Hl as [-> Hrel]. rewrite Er. by exists p'.
  - destruct (lifespan _ _ _ _ _) as [r p'] eqn:El.
    pose proof (@lifespan_releases eth_plain eth_account_plain libm_test agent_settings true
      (demo_outside (Err (Exn OSError "read-only"))) demo_served eq _ _ _ _ _ r p'
      demo_worker_cancelled eq_refl Hd Hs El) as Hl.
    assert (∃ e p1, @startup eth_plain eth_account_plain agent_settings true
        (demo_outside (Err (Exn OSError "read-only"))) at_boot = (Err e, p1))
      as (e & p1 & E) by (eexists _, _; vm_compute; reflexivity).
    rewrite E in Hl. destruct Hl as (-> & _ & [[_ Hrun]|(_ & Hb & _)]); [by exists e, p'|].
    vm_compute in Hb. discriminate Hb.
Defined.
