(* ===== verification/Crew.v ===== *)
(** * agent/graph.py: the crew

    The nodes, the routing, the graph they are assembled into, and a run of it.  The state is
    the source's [TypedDict]: a key that is absent is [None]; [facts] holds the sheet whose
    dump the source stores, [gate] the decision whose dump it stores. *)
From S2P Require Import Prelude PyFloat PyText Guard Config State InFlight Breaker Observability.
From S2P Require Import Models AgentModels Facts Risk Events Io Logic World Api Chain Monitor.
From S2P Require Import Pipeline Simulator Submitter Service Deps Routes Policy Store AgentBase Tools.
From S2P Require Import Llm Graph.

(** ** The state *)
Record Keys := {
  k_registered : option bool;
  k_facts : option FactSheet;
  k_debt_price_base : option Z;
  k_debt_decimals : option Z;
  k_risk_narrative : option string;
  k_strategy : option Strategy;
  k_strategy_rationale : option string;
  k_summary : option string;
  k_gate : option (option PolicyDecision);
  k_proposal_id : option Z;
  k_tuning_id : option Z;
  k_guard_flagged : option bool;
  k_error : option string;
  k_terminal : option Terminal;
}.

Definition no_keys : Keys :=
  {| k_registered := None; k_facts := None; k_debt_price_base := None; k_debt_decimals := None;
     k_risk_narrative := None; k_strategy := None; k_strategy_rationale := None;
     k_summary := None; k_gate := None; k_proposal_id := None; k_tuning_id := None;
     k_guard_flagged := None; k_error := None; k_terminal := None |}.

Record CrewState := {
  cs_borrower : string;
  cs_trigger : string;
  cs_run_id : string;
  cs_keys : Keys;
}.

(** The update of the state by a node's output: the keys it has replace those of the state. *)
Definition merge (s : CrewState) (u : Keys) : CrewState :=
  let k := cs_keys s in
  {| cs_borrower := cs_borrower s; cs_trigger := cs_trigger s; cs_run_id := cs_run_id s;
     cs_keys :=
       {| k_registered := coalesce (k_registered u) (k_registered k);
          k_facts := coalesce (k_facts u) (k_facts k);
          k_debt_price_base := coalesce (k_debt_price_base u) (k_debt_price_base k);
          k_debt_decimals := coalesce (k_debt_decimals u) (k_debt_decimals k);
          k_risk_narrative := coalesce (k_risk_narrative u) (k_risk_narrative k);
          k_strategy := coalesce (k_strategy u) (k_strategy k);
          k_strategy_rationale := coalesce (k_strategy_rationale u) (k_strategy_rationale k);
          k_summary := coalesce (k_summary u) (k_summary k);
          k_gate := coalesce (k_gate u) (k_gate k);
          k_proposal_id := coalesce (k_proposal_id u) (k_proposal_id k);
          k_tuning_id := coalesce (k_tuning_id u) (k_tuning_id k);
          k_guard_flagged := coalesce (k_guard_flagged u) (k_guard_flagged k);
          k_error := coalesce (k_error u) (k_error k);
          k_terminal := coalesce (k_terminal u) (k_terminal k) |} |}.

(** [state.get("facts", {})], [sheet.get(name)] and [(gate or {}).get(...)] *)
Definition facts_of (s : CrewState) : json :=
  match k_facts (cs_keys s) with Some f => dump_sheet f | None => JObj [] end.

Definition sheet_get (s : CrewState) (name : string) : json := default JNull (jget (facts_of s) name).

Definition gate_of (s : CrewState) : option PolicyDecision := mjoin (k_gate (cs_keys s)).

(** ** Routing *)
Definition route_strategy (s : CrewState) : string :=
  if negb (default false (k_registered (cs_keys s))) then "done"
  else match k_strategy (cs_keys s) with
       | Some S_protect_now => "gate"
       | Some S_retune => "tune"
       | _ => "done"
       end.

Definition route_gate (s : CrewState) : string :=
  match gate_of s with
  | Some gate => if pd_allowed gate then "propose" else "blocked"
  | None => "blocked"
  end.

Definition deterministic_strategy (sheet : option FactSheet) : Strategy :=
  match sheet with
  | None => S_stand_down
  | Some f =>
      if fs_viable f && (fs_hf_bps f <=? fs_hf_trigger_bps f) then S_protect_now
      else if fs_hf_bps f <=? fs_hf_trigger_bps f + 500 then S_watch
      else S_stand_down
  end.

(** An id is a row's number, so it is only falsy when it is 0. *)
Definition truthy_id (id : option Z) : bool := match id with Some z => negb (z =? 0) | None => false end.

Definition terminal_for (s : CrewState) : Terminal :=
  if truthy_id (k_proposal_id (cs_keys s)) then T_proposed
  else if truthy_id (k_tuning_id (cs_keys s)) then T_tuning_suggested
  else match gate_of s with
       | Some gate => if pd_allowed gate then T_no_action else T_gate_blocked
       | None => T_no_action
       end.

(** ** Interpreting a structured answer

    [StrategyChoice.model_validate] and [TuningChoice.model_validate] on what is not an
    instance: pydantic's, a parameter. *)
Class ChoiceParsing := {
  parse_strategy : reply → res StrategyChoice;
  parse_tuning : reply → res TuningChoice;
}.

Section crew.
Context `{UnicodeData} `{EthUtils} `{Libm} `{ProtectionDeps} `{ChoiceParsing} (cfg : Settings).

Definition timeout_seconds : f64 := agent_timeout_seconds cfg.

(** [_record]: a failure to write the trace is not the run's. *)
Definition record (s : CrewState) (node : string) (output : json) (started : f64) (llm_used : bool)
    (error : option string) : aprog unit :=
  try_except
    (now ← await PerfCounter;
     latency ← lift (int_of_float (fmul (fsub now started) (flit 1000)));
     _ ← insert_decision (cs_run_id s) (cs_borrower s) node output (Some latency) llm_used error None;
     Ret tt)
    (λ _, Ret tt).

(** [_prose] *)
Definition prose (system : prompt) (payload : json) (fallback : string) : aprog string :=
  try_except
    (reply ← ainvoke_guarded Plain [SystemMessage system ""; HumanMessage (py_repr payload)]
               timeout_seconds;
     let text := text_of (reply_content reply) in
     Ret (if decide (py_strip text = ""%string) then fallback else text))
    (λ _, Ret fallback).

(** [_debt_price_base]: this module's own copy of the route's helper. *)
Definition crew_debt_price_base (debt_asset : string) : aprog Z :=
  try_except
    (n ← gets aw_next_oracle;
     _ ← modify new_oracle;
     p ← zoom (oracle_view n) (oracle_upd n) (get_asset_price cfg debt_asset);
     Ret (price p))
    (λ _, Ret 0).

(** ** Nodes *)
Definition jterm (t : Terminal) : json := JStr (terminal_value t).

(** [node_monitor] with a mandate *)
Definition monitor_registered (s : CrewState) (params : RiskParams) (started : f64) : aprog Keys :=
  sigma ← keeper (agent_sigma_for params);
  assessment ← keeper (service_assess params (Some sigma));
  snap ← keeper (snapshot (cs_borrower s) (rp_hf_trigger_bps params));
  signal ← risk_signal params (ps_hf snap);
  '(debt_asset, decimals) ← lift debt_asset_facts;
  now ← await Time;
  sheet ← lift (build_factsheet snap assessment (Some signal) (Some debt_asset) now);
  price ← crew_debt_price_base debt_asset;
  _ ← record s "monitor"
        (JObj [("state", JStr (fs_state sheet)); ("hf", JFloat (fs_hf sheet))]%string)
        started false None;
  Ret {| k_registered := Some true; k_facts := Some sheet; k_debt_price_base := Some price;
         k_debt_decimals := Some decimals; k_risk_narrative := None; k_strategy := None;
         k_strategy_rationale := None; k_summary := None; k_gate := None;
         k_proposal_id := None; k_tuning_id := None; k_guard_flagged := None;
         k_error := None; k_terminal := None |}.

Definition NO_MANDATE : string := "borrower has no registered signed mandate".

Definition node_monitor (s : CrewState) : aprog Keys :=
  started ← await PerfCounter;
  registered ← gets (λ w, params_of (aw_world w) (cs_borrower s));
  match registered with
  | None =>
      _ ← record s "monitor"
            (JObj [("registered", JBool false); ("terminal", jterm T_no_action);
                   ("error", JStr NO_MANDATE)]%string) started false None;
      Ret {| k_registered := Some false; k_facts := None; k_debt_price_base := None;
             k_debt_decimals := None; k_risk_narrative := None; k_strategy := None;
             k_strategy_rationale := None; k_summary := None; k_gate := None;
             k_proposal_id := None; k_tuning_id := None; k_guard_flagged := None;
             k_error := Some NO_MANDATE; k_terminal := Some T_no_action |}
  | Some (params, _) => monitor_registered s params started
  end.

Definition node_analyst (s : CrewState) : aprog Keys :=
  started ← await PerfCounter;
  let fallback :=
    "Health factor " +:+ py_str (sheet_get s "hf") +:+ " against a target of " +:+
    py_str (sheet_get s "hf_target") +:+ "; state " +:+ py_str (sheet_get s "state") +:+ "." in
  narrative ← prose ANALYST_SYSTEM (facts_of s) fallback;
  _ ← record s "analyst" (JObj [("risk_narrative"%string, JStr narrative)]) started true None;
  Ret {| k_registered := None; k_facts := None; k_debt_price_base := None;
         k_debt_decimals := None; k_risk_narrative := Some narrative; k_strategy := None;
         k_strategy_rationale := None; k_summary := None; k_gate := None;
         k_proposal_id := None; k_tuning_id := None; k_guard_flagged := None;
         k_error := None; k_terminal := None |}.

(** The model's choice, when it returns one that validates. *)
Definition choose_strategy (s : CrewState) : aprog StrategyChoice :=
  reply ← ainvoke_guarded AsStrategyChoice
    [SystemMessage STRATEGIST_SYSTEM "";
     HumanMessage (py_repr (JObj
       [("facts", facts_of s);
        ("analysis", JStr (default "" (k_risk_narrative (cs_keys s))))]%string))]
    timeout_seconds;
  match reply with RStrategy c => Ret c | _ => lift (parse_strategy reply) end.

Definition NO_MODEL : string := "Chosen from the fact sheet without a model.".

Definition node_strategist (s : CrewState) : aprog Keys :=
  started ← await PerfCounter;
  choice ← try_except (choose_strategy s)
    (λ _, Ret {| sc_strategy := deterministic_strategy (k_facts (cs_keys s));
                 sc_rationale := NO_MODEL |});
  _ ← record s "strategist"
        (JObj [("strategy", JStr (strategy_value (sc_strategy choice)));
               ("strategy_rationale", JStr (sc_rationale choice))]%string) started true None;
  Ret {| k_registered := None; k_facts := None; k_debt_price_base := None;
         k_debt_decimals := None; k_risk_narrative := None;
         k_strategy := Some (sc_strategy choice);
         k_strategy_rationale := Some (sc_rationale choice); k_summary := None; k_gate := None;
         k_proposal_id := None; k_tuning_id := None; k_guard_flagged := None;
         k_error := None; k_terminal := None |}.

Definition GONE : string := "mandate disappeared mid-run".

Definition gate_keys (gate : option PolicyDecision) (error : option string)
    (terminal : option Terminal) : Keys :=
  {| k_registered := None; k_facts := None; k_debt_price_base := None;
     k_debt_decimals := None; k_risk_narrative := None; k_strategy := None;
     k_strategy_rationale := None; k_summary := None; k_gate := Some gate;
     k_proposal_id := None; k_tuning_id := None; k_guard_flagged := None;
     k_error := error; k_terminal := terminal |}.

(** [node_policy_gate] with a mandate.  The metrics and the limits are read before the counts
    are awaited. *)
Definition gate_registered (s : CrewState) (params : RiskParams) (started : f64) : aprog Keys :=
  sigma ← keeper (agent_sigma_for params);
  assessment ← keeper (service_assess params (Some sigma));
  snap ← keeper (snapshot (cs_borrower s) (rp_hf_trigger_bps params));
  t ← await Time;
  let since := fsub t HOUR in
  m ← gets (λ w, metrics (aw_world w));
  limits ← lift (policy_limits cfg);
  now ← await Time;
  n_borrower ← count_recent_proposals since (Some (cs_borrower s));
  n_global ← count_recent_proposals since None;
  decision ← lift (Policy.evaluate (Some params) assessment snap m limits now
                     (default 0 (k_debt_price_base (cs_keys s)))
                     (default 6 (k_debt_decimals (cs_keys s))) n_borrower n_global);
  _ ← record s "policy_gate"
        (JObj [("allowed", JBool (pd_allowed decision));
               ("blocking", jstrs (pd_blocking decision))]%string) started false None;
  Ret (gate_keys (Some decision) None None).

Definition node_policy_gate (s : CrewState) : aprog Keys :=
  started ← await PerfCounter;
  registered ← gets (λ w, params_of (aw_world w) (cs_borrower s));
  match registered with
  | None =>
      _ ← record s "policy_gate"
            (JObj [("gate", JNull); ("terminal", jterm T_gate_blocked); ("error", JStr GONE)]%string)
            started false None;
      Ret (gate_keys None (Some GONE) (Some T_gate_blocked))
  | Some (params, _) => gate_registered s params started
  end.

(** [state["gate"]], validated. *)
Definition stored_gate (s : CrewState) : res PolicyDecision :=
  match k_gate (cs_keys s) with
  | Some (Some gate) => Ok gate
  | Some None => Err (Exn ValueError "PolicyDecision")
  | None => Err (Exn KeyError "gate")
  end.

(** The guard on a text, with the fact sheet as the only observation. *)
Definition annotate_facts (s : CrewState) (text : string) : res (string * bool) :=
  guard ← observe NumberGuard (facts_of s);
  '(text', flagged, _) ← annotate guard text;
  Ok (text', flagged).

Definition node_propose (s : CrewState) : aprog Keys :=
  started ← await PerfCounter;
  gate ← lift (stored_gate s);
  '(rationale, flagged) ←
    lift (annotate_facts s (default "" (k_strategy_rationale (cs_keys s))));
  limits ← lift (policy_limits cfg);
  id ← t_propose_protection (cs_run_id s) (cs_borrower s) (facts_of s) rationale gate
         (proposal_ttl_seconds limits) flagged;
  _ ← audit Agent A_PROPOSED (Some (cs_borrower s)) (Some id)
        (JObj [("strategy", JStr "protect_now"); ("run_id", JStr (cs_run_id s))]%string) None;
  _ ← record s "propose"
        (JObj [("proposal_id", JInt id); ("guard_flagged", JBool flagged);
               ("terminal", jterm T_proposed)]%string) started false None;
  Ret {| k_registered := None; k_facts := None; k_debt_price_base := None;
         k_debt_decimals := None; k_risk_narrative := None; k_strategy := None;
         k_strategy_rationale := None; k_summary := None; k_gate := None;
         k_proposal_id := Some id; k_tuning_id := None; k_guard_flagged := Some flagged;
         k_error := None; k_terminal := Some T_proposed |}.

Definition tuner_keys (tuning_id : option Z) (error : option string) (terminal : Terminal) : Keys :=
  {| k_registered := None; k_facts := None; k_debt_price_base := None;
     k_debt_decimals := None; k_risk_narrative := None; k_strategy := None;
     k_strategy_rationale := None; k_summary := None; k_gate := None;
     k_proposal_id := None; k_tuning_id := tuning_id; k_guard_flagged := None;
     k_error := error; k_terminal := Some terminal |}.

(** The six tunable fields of the mandate. *)
Definition current_mandate (params : RiskParams) : json :=
  JObj [("hf_trigger_bps", JInt (rp_hf_trigger_bps params));
        ("hf_target_base_bps", JInt (rp_hf_target_base_bps params));
        ("hf_target_max_bps", JInt (rp_hf_target_max_bps params));
        ("vol_coeff_k", JInt (rp_vol_coeff_k params));
        ("max_slippage_bps", JInt (rp_max_slippage_bps params));
        ("max_cost_bps", JInt (rp_max_cost_bps params))]%string.

(** The body of the tuner's [try]. *)
Definition suggest_tuning (s : CrewState) (params : RiskParams) : aprog (TuningChoice * Z) :=
  reply ← ainvoke_guarded AsTuningChoice
    [SystemMessage TUNER_SYSTEM "";
     HumanMessage (py_repr (JObj
       [("facts", facts_of s); ("current_mandate", current_mandate params)]%string))]
    timeout_seconds;
  choice ← match reply with RTuning c => Ret c | _ => lift (parse_tuning reply) end;
  id ← t_propose_tuning (cs_run_id s) (cs_borrower s) params (tch_field_name choice)
         (tch_suggested_value choice) (tch_rationale choice);
  Ret (choice, id).

Definition node_tuner (s : CrewState) : aprog Keys :=
  started ← await PerfCounter;
  registered ← gets (λ w, params_of (aw_world w) (cs_borrower s));
  match registered with
  | None =>
      _ ← record s "tuner" (JObj [("terminal", jterm T_no_action); ("error", JStr GONE)]%string)
            started false None;
      Ret (tuner_keys None (Some GONE) T_no_action)
  | Some (params, _) =>
      r ← try_except (c ← suggest_tuning s params; Ret (inl c)) (λ e, Ret (inr (exn_msg e)));
      match r with
      | inr msg =>
          let error := "no usable tuning suggestion: " +:+ msg in
          _ ← record s "tuner"
                (JObj [("terminal", jterm T_no_action); ("error", JStr error)]%string)
                started true (Some msg);
          Ret (tuner_keys None (Some error) T_no_action)
      | inl (choice, id) =>
          _ ← audit Agent A_TUNING_SUGGESTED (Some (cs_borrower s)) None
                (JObj [("tuning_id", JInt id);
                       ("field", JStr (field_name_value (tch_field_name choice)));
                       ("suggested_value", JInt (tch_suggested_value choice))]%string) None;
          _ ← record s "tuner"
                (JObj [("tuning_id", JInt id); ("terminal", jterm T_tuning_suggested)]%string)
                started true None;
          Ret (tuner_keys (Some id) None T_tuning_suggested)
      end
  end.

(** [_fallback_summary] *)
Definition fallback_summary (s : CrewState) (t : Terminal) : string :=
  let borrower := cs_borrower s in
  match t with
  | T_proposed =>
      "Queued a rescue proposal for " +:+ borrower +:+ ": HF " +:+ py_str (sheet_get s "hf") +:+
      " is at or below its trigger and the pipeline judged the intervention viable."
  | T_gate_blocked =>
      let names := comma match gate_of s with Some gate => pd_blocking gate | None => [] end in
      "Policy gate refused an intervention for " +:+ borrower +:+ "; failed checks: " +:+
      (if decide (names = ""%string) then "unknown" else names) +:+ "."
  | T_tuning_suggested => "Raised a mandate re-sign request for " +:+ borrower +:+ "."
  | _ =>
      "No action warranted for " +:+ borrower +:+ " (state " +:+
      match jget (facts_of s) "state" with Some v => py_str v | None => "unknown" end +:+ ")."
  end.

Definition final_terminal (s : CrewState) : Terminal :=
  default (terminal_for s) (k_terminal (cs_keys s)).

Definition auditor_payload (s : CrewState) : json :=
  let gate := gate_of s in
  JObj [("facts", facts_of s);
        ("strategy", jopt (strategy_value <$> k_strategy (cs_keys s)));
        ("rationale", jopt (k_strategy_rationale (cs_keys s)));
        ("gate_allowed", match gate with Some g => JBool (pd_allowed g) | None => JNull end);
        ("gate_blocking", match gate with Some g => jstrs (pd_blocking g) | None => JNull end);
        ("terminal", jterm (final_terminal s))]%string.

Definition node_auditor (s : CrewState) : aprog Keys :=
  started ← await PerfCounter;
  let terminal := final_terminal s in
  summary ← prose AUDITOR_SYSTEM (auditor_payload s) (fallback_summary s terminal);
  '(summary, flagged) ← lift (annotate_facts s summary);
  _ ← (if decide (terminal = T_gate_blocked) then
         _ ← audit Agent A_GATE_BLOCKED (Some (cs_borrower s)) None
               (JObj [("blocking", jstrs match gate_of s with Some g => pd_blocking g | None => [] end);
                      ("run_id", JStr (cs_run_id s))]%string) None;
         Ret tt
       else Ret tt);
  _ ← audit Agent A_CREW_RUN (Some (cs_borrower s)) None
        (JObj [("run_id", JStr (cs_run_id s)); ("terminal", jterm terminal);
               ("strategy", jopt (strategy_value <$> k_strategy (cs_keys s)))]%string) None;
  _ ← record s "auditor" (JObj [("terminal"%string, jterm terminal)]) started true None;
  Ret {| k_registered := None; k_facts := None; k_debt_price_base := None;
         k_debt_decimals := None; k_risk_narrative := None; k_strategy := None;
         k_strategy_rationale := None; k_summary := Some summary; k_gate := None;
         k_proposal_id := None; k_tuning_id := None;
         k_guard_flagged := Some (default false (k_guard_flagged (cs_keys s)) || flagged);
         k_error := None; k_terminal := Some terminal |}.

(** ** The graph *)
Definition crew_edges : list (edge CrewState) :=
  [Edge START "monitor"; Edge "monitor" "analyst"; Edge "analyst" "strategist";
   Conditional "strategist" route_strategy
     [("gate", "policy_gate"); ("tune", "tuner"); ("done", "auditor")];
   Conditional "policy_gate" route_gate [("propose", "propose"); ("blocked", "auditor")];
   Edge "propose" "auditor"; Edge "tuner" "auditor"; Edge "auditor" END]%string.

(** [build_crew_graph] *)
Definition build_crew_graph : StateGraph CrewState Keys :=
  {| g_nodes := [("monitor", node_monitor); ("analyst", node_analyst);
                 ("strategist", node_strategist); ("policy_gate", node_policy_gate);
                 ("propose", node_propose); ("tuner", node_tuner);
                 ("auditor", node_auditor)]%string;
     g_edges := crew_edges |}.

Record CrewRunResult := {
  cw_run_id : string;
  cw_borrower : string;
  cw_terminal : Terminal;
  cw_strategy : Strategy;
  cw_summary : string;
  cw_facts : json;
  cw_gate : option PolicyDecision;
  cw_proposal_id : option Z;
  cw_tuning_id : option Z;
  cw_guard_flagged : bool;
  cw_trace : list DecisionRow;
}.

Definition initial (run_id borrower trigger : string) : CrewState :=
  {| cs_borrower := borrower; cs_trigger := trigger; cs_run_id := run_id; cs_keys := no_keys |}.

(** The result of a run that ended: from its last state, or from its exception. *)
Definition crew_result (run_id borrower : string) (r : CrewState + exn) : aprog CrewRunResult :=
  match r with
  | inr e =>
      Ret {| cw_run_id := run_id; cw_borrower := borrower; cw_terminal := T_error;
             cw_strategy := S_stand_down; cw_summary := "The crew run failed: " +:+ exn_msg e;
             cw_facts := JObj []; cw_gate := None; cw_proposal_id := None; cw_tuning_id := None;
             cw_guard_flagged := false; cw_trace := [] |}
  | inl final =>
      let k := cs_keys final in
      trace ← list_decisions run_id;
      Ret {| cw_run_id := run_id; cw_borrower := borrower;
             cw_terminal := default T_no_action (k_terminal k);
             cw_strategy := default S_stand_down (k_strategy k);
             cw_summary := default "" (k_summary k); cw_facts := facts_of final;
             cw_gate := gate_of final; cw_proposal_id := k_proposal_id k;
             cw_tuning_id := k_tuning_id k;
             cw_guard_flagged := default false (k_guard_flagged k); cw_trace := trace |}
  end.

(** [run_crew] *)
Definition run_crew `{LangGraph CrewState Keys merge} (borrower trigger : string)
  : aprog CrewRunResult :=
  run_id ← await Uuid4;
  r ← try_except
        (final ← ainvoke merge build_crew_graph (initial run_id borrower trigger); Ret (inl final))
        (λ e, if is_agent_error e then Raise e else Ret (inr e));
  crew_result run_id borrower r.
End crew.
