(* ===== verification/CrewSpec.v ===== *)
(** * The crew: what a run can do, and how it ends

    A run of the crew sends nothing; it asks the model at most four times, queues at most one
    proposal, behind a gate that allowed it, or raises at most one re-sign request; and its
    result agrees with the path it took through the graph. *)
From S2P Require Import Prelude PyFloat PyText Guard Config State InFlight Breaker Observability.
From S2P Require Import Models AgentModels Facts Risk Events Io Logic World Api Chain Monitor.
From S2P Require Import Pipeline Simulator Submitter Service Deps Routes Policy Store AgentBase Tools.
From S2P Require Import Llm Chat AgentSpec ChatSpec Graph Crew.

(** ** What a run may change *)

(** A row the crew queues, and a re-sign request it raises: one field of a mandate replaced,
    the result validated, and its typed data to be signed. *)
Definition queued (run b : string) (p : ProposalRow) : Prop :=
  p_status p = PENDING ∧ pd_allowed (p_gate p) = true ∧ p_borrower p = b ∧ p_run_id p = run ∧
  p_tx_hash p = None.

Definition suggested `{EthUtils} (run b : string) (t : TuningRow) : Prop :=
  t_status t = OPEN ∧ t_borrower t = b ∧ t_run_id t = run ∧
  ∃ mandate resigned,
    RiskParams_validate (set_field (t_field_name t) (t_suggested_value t) mandate) = Ok resigned ∧
    t_eip712_payload t = eip712_message resigned ∧
    t_current_value t = get_field (t_field_name t) mandate.

(** Everything but the trace and the audit trail, which grow, is left alone. *)
Definition crew_quiet (w w' : AgentWorld) : Prop :=
  keeper_kept (aw_world w) (aw_world w') ∧
  (db_proposals (aw_db w'), db_tuning (aw_db w'), db_threads (aw_db w'), db_messages (aw_db w')) =
  (db_proposals (aw_db w), db_tuning (aw_db w), db_threads (aw_db w), db_messages (aw_db w)) ∧
  db_decisions (aw_db w) `prefix_of` db_decisions (aw_db w') ∧
  db_audit (aw_db w) `prefix_of` db_audit (aw_db w').

#[global] Instance crew_quiet_preorder : PreOrder crew_quiet.
Proof.
  split; [by intros w|]. intros a b c (K1&D1&P1&A1) (K2&D2&P2&A2). split_and!; [|congruence|..];
    by etrans.
Qed.

(** As before, but [n] proposals and re-sign requests at most are added. *)
Definition crew_grows `{EthUtils} (run b : string) (n : nat) (w : AgentWorld) (tr : list event)
    (w' : AgentWorld) : Prop :=
  keeper_kept (aw_world w) (aw_world w') ∧
  (db_threads (aw_db w'), db_messages (aw_db w')) = (db_threads (aw_db w), db_messages (aw_db w)) ∧
  db_decisions (aw_db w) `prefix_of` db_decisions (aw_db w') ∧
  db_audit (aw_db w) `prefix_of` db_audit (aw_db w') ∧
  ∃ ps ts,
    db_proposals (aw_db w') = db_proposals (aw_db w) ++ ps ∧
    db_tuning (aw_db w') = db_tuning (aw_db w) ++ ts ∧
    (length ps + length ts ≤ n)%nat ∧ Forall (queued run b) ps ∧ Forall (suggested run b) ts.

#[global] Instance crew_grows_graded `{EthUtils} run b : Graded (crew_grows run b).
Proof.
  split.
  - intros n m w1 tr1 w2 tr2 w3 (K1&C1&D1&A1&ps1&ts1&P1&T1&L1&Q1&S1)
      (K2&C2&D2&A2&ps2&ts2&P2&T2&L2&Q2&S2).
    unfold crew_grows. split_and!; [by etrans|congruence|by etrans|by etrans|].
    exists (ps1 ++ ps2), (ts1 ++ ts2). rewrite P2, P1, T2, T1, !length_app, <-!app_assoc.
    split_and!; [done|done|lia|by apply Forall_app|by apply Forall_app].
  - intros n m w tr w' Hn (K1&C1&D1&A1&ps1&ts1&P1&T1&L1&Q1&S1).
    unfold crew_grows. split_and!; try done. exists ps1, ts1. split_and!; try done. lia.
Qed.

Lemma quiet_grows `{EthUtils} run b w tr w' : crew_quiet w w' → crew_grows run b 0 w tr w'.
Proof.
  intros (K&D&P&A). unfold crew_grows. split_and!; try done; [congruence|].
  exists [], []. rewrite !app_nil_r. split_and!; try done; congruence.
Qed.

Abbreviation crew_reads := (keeps crew_quiet (λ q, is_read q = true)).

Section crew.
Context {UD : UnicodeData} {U : EthUtils} {UL : EthUtilsLaws U} {L : Libm}.
Context {D : ProtectionDeps} {DL : ProtectionDepsLaws D} {CP : ChoiceParsing} (cfg : Settings).

Lemma crew_keeper t s : keeper_kept (aw_world t) s → crew_quiet t (set_world s t).
Proof. by intros Hs. Qed.

Lemma crew_sends {A} (p : aprog A) : crew_reads p → keeps crew_quiet sends_nothing p.
Proof. apply keeps_mono; [done|]. intros q. apply is_read_on_behalf. Qed.

Lemma audit_crew actor action b pid detail now : crew_reads (audit actor action b pid detail now).
Proof.
  unfold audit. keeps_step; [keeps_step|]. apply keeps_db_run; [|done|done].
  intros w x db (? & _ & [= <- <-])%res_bind_ok. unfold crew_quiet. cbn.
  split_and!; try done. by eexists.
Qed.

Lemma record_crew s node out started llm e : crew_reads (record s node out started llm e).
Proof.
  unfold record, insert_decision. repeat keeps_step.
  intros w x db (? & _ & [= <- <-])%res_bind_ok. unfold crew_quiet. cbn.
  split_and!; try done. by eexists.
Qed.

Lemma count_crew since b : crew_reads (count_recent_proposals since b).
Proof. apply keeps_db_run; [|done|done]. by intros w x db [= <- <-]. Qed.

Lemma list_decisions_crew run : crew_reads (list_decisions run).
Proof. apply keeps_db_run; [|done|done]. by intros w x db [= <- <-]. Qed.

Lemma debt_price_crew asset : crew_reads (crew_debt_price_base cfg asset).
Proof. change (crew_debt_price_base cfg asset) with (debt_price_base cfg asset). by apply debt_price_kept. Qed.

Ltac crew_step :=
  first [ apply (kept_keeper crew_quiet crew_keeper);
          first [apply sigma_kept|apply assess_kept|apply snapshot_kept]
        | apply debt_price_crew | apply count_crew | apply record_crew | apply audit_crew
        | keeps_step ].

Lemma monitor_crew s : crew_reads (node_monitor cfg s).
Proof.
  unfold node_monitor, monitor_registered, risk_signal. repeat crew_step.
Qed.

Lemma gate_crew s : crew_reads (node_policy_gate cfg s).
Proof. unfold node_policy_gate, gate_registered. repeat crew_step. Qed.

Lemma prose_crew p payload fb : keeps crew_quiet sends_nothing (prose cfg p payload fb).
Proof. unfold prose. repeat first [apply ainvoke_keeps|keeps_step]. Qed.

Lemma prose_calls R p payload fb : costs R calls 1 (prose cfg p payload fb).
Proof.
  unfold prose. apply (costs_try_except _ _ 1 0); [apply (costs_before _ _); [apply ainvoke_calls|]|];
    intros; apply (calls_reads _ crew_quiet); keeps_step.
Qed.

Lemma analyst_crew s : keeps crew_quiet sends_nothing (node_analyst cfg s).
Proof.
  unfold node_analyst. repeat first [apply prose_crew|apply crew_sends, record_crew|keeps_step].
Qed.

Lemma strategist_crew s : keeps crew_quiet sends_nothing (node_strategist cfg s).
Proof.
  unfold node_strategist, choose_strategy.
  repeat first [apply ainvoke_keeps|apply crew_sends, record_crew|keeps_step].
Qed.

Lemma auditor_crew s : keeps crew_quiet sends_nothing (node_auditor cfg s).
Proof.
  unfold node_auditor.
  repeat first [apply prose_crew|apply crew_sends, record_crew|apply crew_sends, audit_crew|keeps_step].
Qed.

(** *** The two nodes that insert a row *)
Lemma propose_reads s : areads (node_propose cfg s).
Proof.
  unfold node_propose, t_propose_protection, insert_proposal, record, insert_decision, db_write.
  repeat keeps_step.
Qed.

Lemma suggest_sends s params : keeps (λ _ _, True) sends_nothing (suggest_tuning cfg s params).
Proof.
  unfold suggest_tuning, t_propose_tuning, insert_tuning.
  repeat first [apply ainvoke_keeps|keeps_step].
Qed.

Lemma tuner_sends s : keeps (λ _ _, True) sends_nothing (node_tuner cfg s).
Proof.
  unfold node_tuner, record, insert_decision, audit.
  repeat first [apply suggest_sends|keeps_step].
Qed.

Section rows.
Context (run b : string).

Abbreviation grows := (costs eq (crew_grows run b)).

Lemma grows_quiet P {A} (p : aprog A) : keeps crew_quiet P p → grows 0 p.
Proof. intros Hp w tr r w' He. apply quiet_grows. exact (kept_eq crew_quiet P p w tr r w' Hp He). Qed.

Lemma grows_db_run {A} (st : AgentDB → res (A * AgentDB)) :
  (∀ w a db, st (aw_db w) = Ok (a, db) → crew_grows run b 1 w [] (set_db db w)) →
  grows 1 (db_run st).
Proof.
  intros Hst. unfold db_run. apply (costs_then _ _); [apply (grows_quiet (λ q, is_read q = true)); keeps_step|].
  intros _ w tr r w' He%exec_gets_inv. unfold id in He. destruct (st (aw_db w)) as [[a db]|e] eqn:E.
  - apply Hst in E. apply exec_modify_inv in He.
    change tr with ([] ++ tr). apply (graded_seq 1 0 _ _ _ _ _ E).
    eapply (grows_quiet (λ q, is_read q = true)); [|done]. repeat keeps_step.
  - apply (graded_mono 0); [lia|]. eapply (grows_quiet (λ q, is_read q = true)); [|done].
    repeat keeps_step.
Qed.

Lemma propose_grows facts rationale gate ttl fl :
  grows 1 (t_propose_protection run b facts rationale gate ttl fl).
Proof.
  unfold t_propose_protection. destruct (pd_allowed gate) eqn:Hg; cbn [negb].
  2: { apply (costs_mono _ _ 0); [lia|]. apply (grows_quiet (λ q, is_read q = true)). keeps_step. }
  unfold insert_proposal.
  apply (costs_then _ _); [apply (grows_quiet (λ q, is_read q = true)); keeps_step|intros ts].
  apply (costs_then _ _); [apply (grows_quiet (λ q, is_read q = true)); keeps_step|intros t].
  apply grows_db_run. intros w a db [= <- <-]. unfold crew_grows. cbn. split_and!; try done.
  eexists [_], []. split_and!; [done|by rewrite app_nil_r|done| |done].
  by repeat constructor.
Qed.

Lemma tuning_grows params f v rationale : grows 1 (t_propose_tuning run b params f v rationale).
Proof.
  unfold t_propose_tuning. destruct (RiskParams_validate (set_field f v params)) as [x|e] eqn:Hx.
  2: { change (grows 1 (@Raise AgentWorld Z e)).
       apply (costs_mono _ _ 0); [lia|]. apply (grows_quiet (λ q, is_read q = true)). keeps_step. }
  change (grows 1 (insert_tuning run b f (get_field f params) v rationale (eip712_message x) None)).
  unfold insert_tuning.
  apply (costs_then _ _); [apply (grows_quiet (λ q, is_read q = true)); keeps_step|intros ts].
  apply grows_db_run. intros w a db (c & Hc & Hv%with_int_ok)%res_bind_ok.
  assert (c = get_field f params) as ->.
  { unfold sql_int in Hc. by destruct (_ && _); simplify_eq. }
  injection Hv as <- <-. unfold crew_grows. cbn. split_and!; try done.
  eexists [], [_]. split_and!; [by rewrite app_nil_r|done|done|done|].
  constructor; [|done]. unfold suggested. cbn. split_and!; try done. by exists params, x.
Qed.
End rows.

Abbreviation run_grows s := (costs eq (crew_grows (cs_run_id s) (cs_borrower s))).

Ltac quiet_first :=
  match goal with
  | |- costs _ _ _ (match ?x with _ => _ end) => destruct x
  | |- costs _ _ _ (@Ret _ _ _) =>
      apply (costs_mono _ _ 0); [lia|]; apply (grows_quiet _ _ (λ q, is_read q = true)); keeps_step
  | |- costs _ _ _ (mbind _ _) =>
      apply (costs_then _ _);
      [first [apply (grows_quiet _ _ (λ q, is_read q = true)); by keeps_step
             |apply (grows_quiet _ _ (λ q, is_read q = true)), record_crew
             |apply (grows_quiet _ _ (λ q, is_read q = true)), audit_crew]|intros]
  end.

Lemma node_propose_grows s : run_grows s 1 (node_propose cfg s).
Proof.
  unfold node_propose. do 5 quiet_first.
  apply (costs_before _ _); [apply propose_grows|intros id]. repeat quiet_first.
Qed.

Lemma suggest_grows s params : run_grows s 1 (suggest_tuning cfg s params).
Proof.
  unfold suggest_tuning.
  apply (costs_then _ _); [apply (grows_quiet _ _ sends_nothing), ainvoke_keeps|intros reply].
  apply (costs_then _ _);
    [apply (grows_quiet _ _ (λ q, is_read q = true)); repeat keeps_step|intros choice].
  apply (costs_before _ _); [apply tuning_grows|intros id]. quiet_first.
Qed.

Lemma node_tuner_grows s : run_grows s 1 (node_tuner cfg s).
Proof.
  unfold node_tuner. do 3 quiet_first; [|repeat quiet_first].
  destruct p as [params sig].
  apply (costs_before _ _).
  { apply (costs_try_except _ _ 1 0);
      [apply (costs_before _ _); [apply suggest_grows|intros]|intros]; quiet_first. }
  intros [[choice id]|msg]; repeat quiet_first.
Qed.

(** *** The calls of the model, node by node *)
Lemma reads_calls {A} R (p : aprog A) : areads p → costs R calls 0 p.
Proof. apply calls_reads. Qed.

Ltac read_first :=
  match goal with
  | |- costs _ _ _ (match ?x with _ => _ end) => destruct x
  | |- costs _ _ 0 _ => apply (calls_reads _ crew_quiet); repeat first
      [apply record_crew|apply audit_crew|keeps_step]
  | |- costs _ _ _ (@Ret _ _ _) => apply (costs_mono _ _ 0); [lia|]
  | |- costs _ _ _ (mbind _ _) =>
      apply (costs_then _ _);
      [apply (calls_reads _ crew_quiet); first [apply record_crew|by keeps_step]|intros]
  end.

Lemma analyst_calls R s : costs R calls 1 (node_analyst cfg s).
Proof.
  unfold node_analyst. read_first. apply (costs_before _ _); [apply prose_calls|intros]. read_first.
Qed.

Lemma strategist_calls R s : costs R calls 1 (node_strategist cfg s).
Proof.
  unfold node_strategist, choose_strategy. read_first.
  apply (costs_before _ _); [|intros; read_first].
  apply (costs_try_except _ _ 1 0); [|intros; read_first].
  apply (costs_before _ _); [apply ainvoke_calls|intros; repeat read_first].
Qed.

Lemma tuner_calls R s : costs R calls 1 (node_tuner cfg s).
Proof.
  unfold node_tuner. do 3 read_first; [|repeat read_first].
  destruct p as [params sig]. apply (costs_before _ _); [|intros [[choice id]|msg]; read_first].
  apply (costs_try_except _ _ 1 0); [|intros; read_first].
  apply (costs_before _ _); [|intros; read_first]. unfold suggest_tuning.
  apply (costs_before _ _); [apply ainvoke_calls|intros reply].
  apply (calls_reads _ (λ _ _, True)). unfold t_propose_tuning, insert_tuning.
  repeat keeps_step.
Qed.

Lemma auditor_calls R s : costs R calls 1 (node_auditor cfg s).
Proof.
  unfold node_auditor. read_first. apply (costs_before _ _); [apply prose_calls|intros]. read_first.
Qed.

(** ** Runs of the graph *)
Definition crew_graph : StateGraph CrewState Keys := build_crew_graph cfg.

Abbreviation crew_steps R := (graph_run merge R crew_graph).

Definition inputs (run b : string) (s : CrewState) : Prop := cs_run_id s = run ∧ cs_borrower s = b.

Lemma inputs_merge run b s u : inputs run b s → inputs run b (merge s u).
Proof. done. Qed.

Lemma crew_nodes v f :
  dget (g_nodes crew_graph) v = Some f →
  (v, f) ∈ g_nodes crew_graph.
Proof.
  cbn. repeat (case_decide; [intros [= <-]; subst; set_solver|]). done.
Qed.

Lemma crew_successor v s v' :
  successors crew_graph v s = [v'] → v' ∈ reachable_targets crew_graph v.
Proof. intros Hs. apply (successors_reachable _ _ s). rewrite Hs. set_solver. Qed.

Ltac each_node H :=
  unfold crew_graph in H; cbn [g_nodes build_crew_graph] in H;
  repeat (apply elem_of_cons in H as [[= -> ->]|H]); [..|by apply not_elem_of_nil in H].

(** The calls of the model still to come, and the rows still to be inserted. *)
Definition calls_of (v : string) : nat :=
  if decide (v ∈ ["analyst"; "strategist"; "tuner"; "auditor"]%string) then 1 else 0.

Definition calls_left (v : string) : nat :=
  default 0%nat (dget [(START, 4); ("monitor", 4); ("analyst", 4); ("strategist", 3);
    ("policy_gate", 1); ("propose", 1); ("tuner", 2); ("auditor", 1)]%string%nat v).

Definition rows_of (v : string) : nat :=
  if decide (v ∈ ["propose"; "tuner"]%string) then 1 else 0.

Definition rows_left (v : string) : nat :=
  default 1%nat (dget [("auditor", 0); (END, 0)]%string%nat v).

Lemma node_sends v f s : dget (g_nodes crew_graph) v = Some f → keeps (λ _ _, True) sends_nothing (f s).
Proof.
  intros Hn%crew_nodes. each_node Hn.
  5: eapply keeps_mono; [|apply is_read_on_behalf|apply propose_reads]; done.
  5: apply tuner_sends.
  all: apply (keeps_mono crew_quiet _ sends_nothing); [done|done|].
  - apply crew_sends, monitor_crew.
  - apply analyst_crew.
  - apply strategist_crew.
  - apply crew_sends, gate_crew.
  - apply auditor_crew.
Qed.

Lemma node_calls R v f s :
  dget (g_nodes crew_graph) v = Some f →
  costs R calls (calls_of v) (f s) ∧ (calls_of v ≤ calls_left v)%nat ∧
  ∀ u v', successors crew_graph v (merge s u) = [v'] →
    (calls_of v + calls_left v' ≤ calls_left v)%nat.
Proof.
  intros Hn%crew_nodes. each_node Hn; (split; [|split; [vm_compute; lia|]]).
  all: try (intros u v' Hv%crew_successor; revert v' Hv; apply Forall_forall;
            repeat constructor; vm_compute; lia).
  - apply (calls_reads _ crew_quiet), monitor_crew.
  - apply analyst_calls.
  - apply strategist_calls.
  - apply (calls_reads _ crew_quiet), gate_crew.
  - apply reads_calls, propose_reads.
  - apply tuner_calls.
  - apply auditor_calls.
Qed.

Lemma node_rows run b v f s :
  dget (g_nodes crew_graph) v = Some f → inputs run b s →
  costs eq (crew_grows run b) (rows_of v) (f s) ∧ (rows_of v ≤ rows_left v)%nat ∧
  ∀ u v', successors crew_graph v (merge s u) = [v'] →
    (rows_of v + rows_left v' ≤ rows_left v)%nat.
Proof.
  intros Hn%crew_nodes [<- <-]. each_node Hn; (split; [|split; [vm_compute; lia|]]).
  all: try (intros u v' Hv%crew_successor; revert v' Hv; apply Forall_forall;
            repeat constructor; vm_compute; lia).
  5: apply node_propose_grows.
  5: apply node_tuner_grows.
  all: apply (grows_quiet _ _ sends_nothing).
  - apply crew_sends, monitor_crew.
  - apply analyst_crew.
  - apply strategist_crew.
  - apply crew_sends, gate_crew.
  - apply auditor_crew.
Qed.

(** ** A run *)
Context {LG : LangGraph merge}.

Definition of_res (r : res CrewState) : CrewState + exn :=
  match r with Ok s => inl s | Err e => inr e end.

(** A run of the crew is a run of its graph, and then the result; or the graph's error is an
    [AgentError] or a cancellation, and is the run's. *)
Lemma run_crew_inv R b t w tr r w' :
  exec R (run_crew cfg b t) w tr r w' →
  ∃ run path tr0 w0 tr1 gr w1 tr2,
    tr = tr0 ++ tr1 ++ tr2 ∧ exec R (await Uuid4) w tr0 (Ok run) w0 ∧
    crew_steps R START (initial run b t) w0 path tr1 gr w1 ∧
    ((∃ e, r = Err e ∧ gr = Err e ∧ tr2 = [] ∧ w' = w1) ∨
     exec R (crew_result run b (of_res gr)) w1 tr2 r w').
Proof.
  intros [(e & _ & He)|(run & tr0 & w0 & tr2 & -> & H0 & He)]%exec_bind_inv.
  { assert (is_ok (@Err string e) = true); [|done]. revert He. generalize (@Err string e).
    revert tr w'. enough (wp R (await Uuid4) (λ _ r _, is_ok r = true) w) as Hw.
    { intros tr w' r' He. by apply (wp_exec _ _ (λ _ r _, is_ok r = true) _ Hw) in He. }
    by intros ans w1 _. }
  exists run. apply exec_bind_inv in He as [(e & -> & He)|(g & tr1 & w1 & tr3 & -> & He & Hr)].
  - apply exec_try_except_inv in He as [[He Hexn]|(e' & tr1 & w1 & tr3 & -> & _ & He & Hh)].
    + apply exec_bind_inv in He as [(e1 & Heq & He)|(x & ? & ? & ? & -> & _ & He)]; [|inversion He].
      simplify_eq. apply ainvoke_runs in He as [path Hp].
      exists path, tr0, w0, tr2, (Err e1), w', []. rewrite app_nil_r. split_and!; try done.
      left. by exists e1.
    + destruct (is_agent_error e'); inversion Hh; subst.
      apply exec_bind_inv in He as [(e1 & Heq & He)|(x & ? & ? & ? & -> & _ & He)]; [|inversion He].
      simplify_eq. apply ainvoke_runs in He as [path Hp].
      exists path, tr0, w0, tr1, (Err e1), w', []. split_and!; try done. left. by exists e1.
  - apply exec_try_except_inv in He as [[He _]|(e' & tr4 & w4 & tr5 & -> & _ & He & Hh)].
    + apply exec_bind_inv in He as [(e1 & Heq & _)|(x & tr4 & w4 & tr5 & -> & He & Hx)]; [done|].
      inversion Hx; subst. apply ainvoke_runs in He as [path Hp].
      exists path, tr0, w0, tr4, (Ok x), w1, tr3. rewrite app_nil_r. split_and!; try done. by right.
    + destruct (is_agent_error e'); inversion Hh; subst.
      apply exec_bind_inv in He as [(e1 & Heq & He)|(x & ? & ? & ? & -> & _ & He)]; [|inversion He].
      simplify_eq. apply ainvoke_runs in He as [path Hp].
      exists path, tr0, w0, tr4, (Err e1), w1, tr3. rewrite app_nil_r. split_and!; try done. by right.
Qed.

Lemma crew_result_crew run b g : crew_reads (crew_result run b g).
Proof. unfold crew_result. repeat first [apply list_decisions_crew|keeps_step]. Qed.

(** What a whole run costs, from what its parts cost; [C] may depend on the run's id. *)
Lemma run_crew_costs R (C : string → nat → AgentWorld → list event → AgentWorld → Prop)
    `{∀ run, Graded (C run)} n b t w tr r w' :
  (∀ run A (p : aprog A), crew_reads p → costs R (C run) 0 p) →
  (∀ run w0 path tr1 gr w1,
     crew_steps R START (initial run b t) w0 path tr1 gr w1 → C run n w0 tr1 w1) →
  exec R (run_crew cfg b t) w tr r w' → ∃ run, C run n w tr w'.
Proof.
  intros Hq Hg (run & path & tr0 & w0 & tr1 & gr & w1 & tr2 & -> & H0 & Hp & Hend)%run_crew_inv.
  exists run. apply (graded_seq 0 n _ _ w0).
  { eapply Hq; [|exact H0]. by apply keeps_await. }
  apply Hg in Hp. destruct Hend as [(e & -> & -> & -> & ->)|Hend]; [by rewrite app_nil_r|].
  rewrite <-(Nat.add_0_r n). eapply graded_seq; [done|].
  eapply Hq; [apply crew_result_crew|exact Hend].
Qed.

Lemma run_crew_trace R b t w tr r w' :
  exec R (run_crew cfg b t) w tr r w' → Forall (λ ev, sends_nothing (ev_req ev)) tr.
Proof.
  intros (run & path & tr0 & w0 & tr1 & gr & w1 & tr2 & -> & H0 & Hp & Hend)%run_crew_inv.
  assert (∀ A (p : aprog A) w tr r w', crew_reads p → exec R p w tr r w' →
    Forall (λ ev, sends_nothing (ev_req ev)) tr) as Hq.
  { intros A p w2 tr' r' w2' Hp' He.
    exact (guar_trace crew_quiet sends_nothing R _ w2 tr' _ w2' (crew_sends _ Hp' w2) He). }
  rewrite !Forall_app. split; [|split].
  - eapply Hq; [|exact H0]. by apply keeps_await.
  - refine (graph_run_trace merge R crew_graph (λ _, True) _ (λ _ _, True) _ _ _ _ _ _ _ _ _ _ _ Hp);
      try done. intros v f s Hn _. by eapply node_sends.
  - destruct Hend as [(e & -> & -> & -> & ->)|Hend]; [done|].
    eapply Hq; [apply crew_result_crew|exact Hend].
Qed.

Lemma run_crew_calls R b t w tr r w' :
  exec R (run_crew cfg b t) w tr r w' → (model_calls tr ≤ 4)%nat.
Proof.
  intros He. destruct (run_crew_costs R (λ _, calls) 4 b t w tr r w') as [_ Hc]; [| |done|exact Hc].
  - intros _ A p Hp. by eapply calls_reads.
  - intros run w0 path tr1 gr w1 Hp.
    refine (graph_run_costs merge R crew_graph (λ _, True) _ calls calls_left calls_of _ _ _ _ _ _ _
      _ _ _ _ _ Hp); try done.
    + intros w2. unfold calls. cbn. lia.
    + intros d. apply (calls_reads _ crew_quiet). by apply keeps_await.
    + intros v f s Hn _. by apply node_calls.
    + intros s v Hv%crew_successor. cbn in Hv. by apply list_elem_of_singleton in Hv as ->.
Qed.

Lemma run_crew_grows b t w tr r w' :
  seq_exec (run_crew cfg b t) w tr r w' → ∃ run, crew_grows run b 1 w tr w'.
Proof.
  apply (run_crew_costs eq (λ run, crew_grows run b)).
  - intros run A p Hp. by apply (grows_quiet _ _ (λ q, is_read q = true)).
  - intros run w0 path tr1 gr w1 Hp.
    refine (graph_run_costs merge eq crew_graph (inputs run b) _ (crew_grows run b) rows_left rows_of
      _ _ _ _ _ _ _ _ _ _ _ _ Hp); try done.
    + intros w2. apply quiet_grows. by split_and!.
    + intros d. apply (grows_quiet _ _ (λ q, is_read q = true)). by apply keeps_await.
    + intros v f s. apply node_rows.
    + intros s v Hv%crew_successor. cbn in Hv. by apply list_elem_of_singleton in Hv as ->.
Qed.

(** ** What a run that ends has found *)

(** The keys agree with the terminal. *)
Definition outcome (k : Keys) (t : Terminal) : Prop :=
  match t with
  | T_proposed =>
      k_strategy k = Some S_protect_now ∧ k_tuning_id k = None ∧ is_Some (k_proposal_id k) ∧
      ∃ d, k_gate k = Some (Some d) ∧ pd_allowed d = true
  | T_gate_blocked =>
      k_strategy k = Some S_protect_now ∧ k_tuning_id k = None ∧ k_proposal_id k = None ∧
      ∀ d, k_gate k = Some (Some d) → pd_allowed d = false
  | T_tuning_suggested =>
      k_strategy k = Some S_retune ∧ k_proposal_id k = None ∧ mjoin (k_gate k) = None ∧
      is_Some (k_tuning_id k)
  | T_no_action => k_proposal_id k = None ∧ k_tuning_id k = None ∧ mjoin (k_gate k) = None
  | T_error => False
  end.

Definition no_outcome (k : Keys) : Prop :=
  k_gate k = None ∧ k_proposal_id k = None ∧ k_tuning_id k = None.

Definition blank (s : CrewState) : Prop := cs_keys s = no_keys.

Definition observed (s : CrewState) : Prop :=
  let k := cs_keys s in
  no_outcome k ∧
  ((k_registered k = Some true ∧ k_terminal k = None) ∨
   (k_registered k = Some false ∧ k_terminal k = Some T_no_action)).

Definition chosen (st : Strategy) (s : CrewState) : Prop :=
  let k := cs_keys s in
  no_outcome k ∧ k_terminal k = None ∧ k_strategy k = Some st.

Definition passed_gate (s : CrewState) : Prop :=
  let k := cs_keys s in
  k_strategy k = Some S_protect_now ∧ k_tuning_id k = None ∧ k_proposal_id k = None ∧
  k_terminal k = None ∧ ∃ d, k_gate k = Some (Some d) ∧ pd_allowed d = true.

Definition settled (s : CrewState) : Prop := outcome (cs_keys s) (final_terminal s).

Definition finished_run (s : CrewState) : Prop :=
  let k := cs_keys s in
  ∃ t raw summary flagged,
    k_terminal k = Some t ∧ outcome k t ∧ k_summary k = Some summary ∧
    annotate_facts s raw = Ok (summary, flagged) ∧
    (flagged = true → k_guard_flagged k = Some true).

Definition at_vertex (v : string) : CrewState → Prop :=
  default (λ _, False)
    (dget [(START, blank); ("monitor", blank); ("analyst", observed); ("strategist", observed);
           ("policy_gate", chosen S_protect_now); ("tuner", chosen S_retune);
           ("propose", passed_gate); ("auditor", settled); (END, finished_run)]%string v).

Definition leads (v : string) (s : CrewState) (u : Keys) : Prop :=
  ∀ v', successors crew_graph v (merge s u) = [v'] → at_vertex v' (merge s u).

Lemma leads_edge v to s u :
  reachable_targets crew_graph v = [to] → at_vertex to (merge s u) → leads v s u.
Proof.
  intros Hr Ht v' Hv%crew_successor. rewrite Hr in Hv. by apply list_elem_of_singleton in Hv as ->.
Qed.

Ltac any_step :=
  match goal with
  | |- returns (mbind _ _) _ => apply returns_bind_any; intros
  | |- returns (match ?x with _ => _ end) _ => destruct x
  end.

Lemma monitor_leads s : blank s → returns (node_monitor cfg s) (leads "monitor" s).
Proof.
  intros Hb. unfold node_monitor, monitor_registered.
  assert (∀ u, k_registered u = Some true ∧ k_terminal u = None ∧ no_outcome u ∨
               k_registered u = Some false ∧ k_terminal u = Some T_no_action ∧ no_outcome u →
               leads "monitor" s u) as Hl.
  { intros u Hu. apply (leads_edge _ "analyst"); [done|]. change (observed (merge s u)).
    unfold observed, no_outcome, merge. cbn. rewrite Hb. cbn. unfold no_outcome in Hu.
    destruct Hu as [(-> & -> & -> & -> & ->)|(-> & -> & -> & -> & ->)]; cbn; auto. }
  repeat any_step; apply Hl; [left|right]; done.
Qed.

Lemma analyst_leads s : observed s → returns (node_analyst cfg s) (leads "analyst" s).
Proof.
  intros Ho. unfold node_analyst. repeat any_step. by apply (leads_edge _ "strategist").
Qed.

Lemma strategist_leads s : observed s → returns (node_strategist cfg s) (leads "strategist" s).
Proof.
  intros [(Hg & Hp & Ht) Hr]. unfold node_strategist. repeat any_step.
  set (u := Build_Keys _ _ _ _ _ _ _ _ _ _ _ _ _ _).
  intros v' Hv. change (option_list (dget [("gate", "policy_gate"); ("tune", "tuner");
    ("done", "auditor")]%string (route_strategy (merge s u))) ++ [] = [v']) in Hv.
  unfold route_strategy in Hv. cbn in Hv.
  assert (settled (merge s u)) as Hs.
  { unfold settled, final_terminal, terminal_for, gate_of. cbn. rewrite Hg, Hp, Ht. cbn.
    by destruct Hr as [(_ & ->)|(_ & ->)]. }
  destruct Hr as [(Hr & Hn)|(Hr & Hn)]; rewrite Hr in Hv; cbn in Hv; [|by injection Hv as <-].
  destruct (sc_strategy _) eqn:Hst; injection Hv as <-; try done.
  all: split; [done|]; split; [done|]; cbn; by rewrite Hst.
Qed.

Ltac at_auditor := match goal with |- at_vertex _ ?x => change (settled x) end.

Lemma gate_leads s :
  chosen S_protect_now s → returns (node_policy_gate cfg s) (leads "policy_gate" s).
Proof.
  intros ((Hg & Hp & Htu) & Ht & Hst). unfold node_policy_gate, gate_registered.
  assert (∀ g e t, (g = None ∧ t = Some T_gate_blocked) ∨ (is_Some g ∧ t = None) →
    leads "policy_gate" s (gate_keys g e t)) as Hl.
  { intros g e t Hgt v' Hv. change (option_list (dget [("propose", "propose");
      ("blocked", "auditor")]%string (route_gate (merge s (gate_keys g e t)))) ++ [] = [v']) in Hv.
    unfold route_gate, gate_of in Hv. cbn in Hv.
    destruct Hgt as [[-> ->]|[[d ->] ->]]; cbn in Hv.
    - injection Hv as <-. at_auditor. unfold settled, final_terminal. cbn. done.
    - destruct (pd_allowed d) eqn:Hd; injection Hv as <-.
      + match goal with |- at_vertex _ ?x => change (passed_gate x) end. split_and!; try done. by exists d.
      + at_auditor. unfold settled, final_terminal, terminal_for, gate_of. cbn.
        rewrite Ht, Hp, Htu, Hd. cbn. split_and!; try done. by intros d' [= <-]. }
  repeat any_step; apply Hl; [right|left]; done.
Qed.

Lemma propose_leads s : passed_gate s → returns (node_propose cfg s) (leads "propose" s).
Proof.
  intros (Hst & Htu & Hp & Ht & d & Hg & Hd). unfold node_propose. repeat any_step.
  apply (leads_edge _ "auditor"); [done|]. at_auditor.
  unfold settled, final_terminal. cbn. split_and!; try done. by exists d.
Qed.

Lemma tuner_leads s : chosen S_retune s → returns (node_tuner cfg s) (leads "tuner" s).
Proof.
  intros ((Hg & Hp & Htu) & Ht & Hst). unfold node_tuner.
  assert (∀ id e t, (id = None ∧ t = T_no_action) ∨ (is_Some id ∧ t = T_tuning_suggested) →
    leads "tuner" s (tuner_keys id e t)) as Hl.
  { intros id e t Hid. apply (leads_edge _ "auditor"); [done|]. at_auditor.
    unfold settled, final_terminal. cbn.
    destruct Hid as [[-> ->]|[[z ->] ->]]; cbn; rewrite Hg; split_and!; done. }
  repeat any_step; apply Hl; try (by left); right; done.
Qed.

Lemma auditor_leads s : settled s → returns (node_auditor cfg s) (leads "auditor" s).
Proof.
  intros Hs. unfold node_auditor. do 2 any_step.
  apply returns_lift_bind. intros [summary flagged] Ha. repeat any_step.
  apply (leads_edge _ END); [done|]. match goal with |- at_vertex _ ?x => change (finished_run x) end.
  exists (final_terminal s). eexists _, _, _. split_and!; [done| |done|exact Ha|].
  - unfold settled in Hs. by destruct (final_terminal s).
  - intros ->. by rewrite orb_true_r.
Qed.

Lemma crew_run_finished R run b t w path tr s w' :
  crew_steps R START (initial run b t) w path tr (Ok s) w' → finished_run s.
Proof.
  intros Hr. refine (graph_run_inv merge R crew_graph at_vertex _ _ _ _ _ _ _ _ _ _ Hr s eq_refl).
  - intros v f s0 Hn%crew_nodes Hv. each_node Hn; cbn in Hv.
    + by apply monitor_leads.
    + by apply analyst_leads.
    + by apply strategist_leads.
    + by apply gate_leads.
    + by apply propose_leads.
    + by apply tuner_leads.
    + by apply auditor_leads.
  - intros s0 v Hv%crew_successor Hb. cbn in Hv. by apply list_elem_of_singleton in Hv as ->.
  - done.
Qed.

(** The four ways through the graph. *)
Definition crew_paths : list (list string) :=
  [["monitor"; "analyst"; "strategist"; "policy_gate"; "propose"; "auditor"];
   ["monitor"; "analyst"; "strategist"; "policy_gate"; "auditor"];
   ["monitor"; "analyst"; "strategist"; "tuner"; "auditor"];
   ["monitor"; "analyst"; "strategist"; "auditor"]]%string.

Definition nodes_left (v : string) : nat :=
  default 0%nat (dget [(START, 6); ("monitor", 6); ("analyst", 5); ("strategist", 4);
    ("policy_gate", 3); ("propose", 2); ("tuner", 2); ("auditor", 1)]%string%nat v).

Lemma crew_path_known n path : path ∈ paths crew_graph n START → path ∈ crew_paths.
Proof.
  enough (paths crew_graph n START ⊆ crew_paths) as Hs by apply Hs.
  do 8 (destruct n as [|n]; [vm_compute; set_solver|]). vm_compute. set_solver.
Qed.

Lemma crew_run_length R s w path tr r w' :
  crew_steps R START s w path tr r w' → (length path ≤ 6)%nat.
Proof.
  intros Hr. refine (graph_run_length merge R crew_graph nodes_left _ _ _ _ _ _ _ _ _ Hr).
  - intros v f s0 Hn%crew_nodes. each_node Hn; (split; [vm_compute; lia|]).
    all: intros v' Hv%crew_successor; revert v' Hv; apply Forall_forall;
      repeat constructor; vm_compute; lia.
  - intros s0 v Hv%crew_successor. cbn in Hv. by apply list_elem_of_singleton in Hv as ->.
Qed.

Lemma crew_run_path R s w path tr r w' :
  crew_steps R START s w path tr r w' → is_ok r = true → path ∈ crew_paths.
Proof.
  intros Hr Hok. edestruct (graph_run_path merge R crew_graph) as [n Hn]; [|exact Hr|done|].
  - intros v f Hn%crew_nodes. by each_node Hn.
  - by apply (crew_path_known n).
Qed.
End crew.

(** A result: the ids, the gate and the strategy agree with the terminal, and the summary was
    judged on the figures of the sheet, all of them finite. *)
Definition verdict_ok `{UnicodeData} (res : CrewRunResult) : Prop :=
  match cw_terminal res with
  | T_proposed =>
      cw_strategy res = S_protect_now ∧ cw_tuning_id res = None ∧ is_Some (cw_proposal_id res) ∧
      ∃ d, cw_gate res = Some d ∧ pd_allowed d = true
  | T_gate_blocked =>
      cw_strategy res = S_protect_now ∧ cw_tuning_id res = None ∧ cw_proposal_id res = None ∧
      ∀ d, cw_gate res = Some d → pd_allowed d = false
  | T_tuning_suggested =>
      cw_strategy res = S_retune ∧ cw_proposal_id res = None ∧ cw_gate res = None ∧
      is_Some (cw_tuning_id res)
  | T_no_action =>
      cw_proposal_id res = None ∧ cw_tuning_id res = None ∧ cw_gate res = None
  | T_error =>
      cw_proposal_id res = None ∧ cw_tuning_id res = None ∧ cw_gate res = None ∧
      cw_facts res = JObj [] ∧ ∃ msg, cw_summary res = "The crew run failed: " +:+ msg
  end ∧
  (cw_terminal res = T_error ∨
   ∃ raw figures flagged unv,
     collect_numbers (cw_facts res) = Ok figures ∧ Forall (λ x, is_finite x = true) figures ∧
     annotate figures raw = Ok (cw_summary res, flagged, unv) ∧
     (flagged = true → cw_guard_flagged res = true)).

Lemma annotate_facts_ok `{UnicodeData} s raw text flagged :
  annotate_facts s raw = Ok (text, flagged) →
  ∃ figures unv, collect_numbers (facts_of s) = Ok figures ∧
    Forall (λ x, is_finite x = true) figures ∧ annotate figures raw = Ok (text, flagged, unv).
Proof.
  unfold annotate_facts, observe.
  intros (g & (figures & Hf & [= <-])%res_bind_ok & ([[t f] unv] & Ha & [= <- <-])%res_bind_ok)%res_bind_ok.
  exists figures, unv. split_and!; [done| |done]. by eapply annotate_finite.
Qed.

(** ** Claims *)
Section claims.
Context {UD : UnicodeData} {U : EthUtils} {UL : EthUtilsLaws U} {L : Libm}.
Context {D : ProtectionDeps} {DL : ProtectionDepsLaws D} {CP : ChoiceParsing}.
Context {LG : LangGraph merge}.

(** C26: The crew proposes and never acts.  Whatever the model answers and other coroutines do,
    a run builds and sends no transaction and asks the model at most four times.  If nobody
    else writes, it leaves the keeper and the conversations alone, its trace and audit rows are
    appended, and it inserts at most one row: a pending proposal of its own run and borrower,
    whose stored gate allowed it, or an open re-sign request, whose payload is the typed data
    of a validated mandate in which one field differs. *)
Theorem crew_confined cfg (R : AgentWorld → AgentWorld → Prop) b t w tr r w' :
  exec R (run_crew cfg b t) w tr r w' →
  Forall (λ ev, sends_nothing (ev_req ev)) tr ∧ (model_calls tr ≤ 4)%nat ∧
  ((∀ w1 w2, R w1 w2 → w1 = w2) → ∃ run, crew_grows run b 1 w tr w').
Proof.
  intros He. split; [by eapply run_crew_trace|]. split; [by eapply run_crew_calls|].
  intros HR. eapply run_crew_grows, exec_rely_mono; [|exact He]. exact HR.
Qed.

(** A run of the crew ends.  Every run of its graph visits at most six nodes, far below the
    library's recursion limit, and a run that ends has taken one of the four paths of the
    diagram. *)
Theorem crew_paths_taken cfg (R : AgentWorld → AgentWorld → Prop) s w path tr r w' :
  graph_run merge R (build_crew_graph cfg) START s w path tr r w' →
  (length path ≤ 6 < RECURSION_LIMIT)%nat ∧ (is_ok r = true → path ∈ crew_paths).
Proof.
  intros Hr. split; [split; [by eapply crew_run_length|unfold RECURSION_LIMIT; lia]|].
  by eapply crew_run_path.
Qed.

End claims.

(** ** Concrete runs *)

(** A model that answers the strategist with [choice] and everything else with [says]. *)
Definition crew_model (chain : handler unit) (choice : StrategyChoice) (says : string) : handler unit :=
  λ q w,
  (match q return answer q with
   | ModelCall AsStrategyChoice _ _ => Ok (RStrategy choice)
   | ModelCall _ _ _ => Ok (RMessage (JStr says) [])
   | q => (chain q tt).1
   end, w).

Definition rejects_all : ChoiceParsing :=
  {| parse_strategy _ := Err (Exn ValueError "StrategyChoice");
     parse_tuning _ := Err (Exn ValueError "TuningChoice") |}.

Definition demo_crew : aprog CrewRunResult :=
  @run_crew unicode_ascii eth_plain libm_test demo_deps rejects_all demo_settings
    (bounded_runner merge) "0xb0b" "manual".

Definition to_protect : StrategyChoice :=
  {| sc_strategy := S_protect_now; sc_rationale := "HF 1.03125 is below the trigger" |}.

Definition crew_handler : handler unit :=
  crew_model (demo_chain (Ok tt) (Ok rc_ok)) to_protect "Queued for review.".

Lemma crew_confined_witness :
  ∃ tr res w' run, seq_exec demo_crew chat_world tr (Ok res) w' ∧ cw_terminal res = T_proposed ∧
    @crew_grows eth_plain run "0xb0b" 1 chat_world tr w' ∧ length (db_proposals (aw_db w')) = 1%nat.
Proof.
  destruct (run crew_handler demo_crew chat_world tt) as [[[tr r] w'] n] eqn:E.
  pose proof (run_exec _ eq _ _ _ _ _ _ _ E) as He.
  pose proof (f_equal (λ x, x.1.1.2) E) as Hr. pose proof (f_equal (λ x, x.1.2) E) as Hw.
  cbn [fst snd] in Hr, Hw. clear E.
  assert (cw_terminal <$> match r with Ok a => Some a | Err _ => None end = Some T_proposed) as Ht
    by (rewrite <-Hr; vm_compute; reflexivity).
  destruct r as [res|e]; [|discriminate]. injection Ht as Ht.
  destruct (@crew_confined unicode_ascii eth_plain eth_plain_laws libm_test demo_deps demo_deps_laws
    rejects_all (bounded_runner merge) demo_settings eq _ _ _ _ _ _ He) as (_ & _ & Hg).
  destruct (Hg (λ _ _ H, H)) as [run Hrun]. exists tr, res, w', run.
  split; [exact He|]. split; [exact Ht|]. split; [exact Hrun|].
  rewrite <-Hw. vm_compute. reflexivity.
Defined.

Lemma crew_paths_taken_witness :
  ∃ tr s w' path,
    @graph_run CrewState Keys merge eq
      (@build_crew_graph unicode_ascii eth_plain libm_test demo_deps rejects_all demo_settings) START
      (initial "r" "0xb0b" "manual") chat_world path tr (Ok s) w' ∧ path ∈ crew_paths.
Proof.
  set (g := @build_crew_graph unicode_ascii eth_plain libm_test demo_deps rejects_all demo_settings).
  destruct (run crew_handler
    (drive merge RECURSION_LIMIT g START (initial "r" "0xb0b" "manual")) chat_world tt)
    as [[[tr r] w'] n] eqn:E.
  pose proof (run_exec _ eq _ _ _ _ _ _ _ E) as He.
  pose proof (f_equal (λ x, x.1.1.2) E) as Hr. cbn [fst snd] in Hr. clear E.
  assert (is_ok r = true) as Hok by (rewrite <-Hr; vm_compute; reflexivity).
  destruct r as [s|e]; [|discriminate]. apply drive_runs in He as [path Hp].
  exists tr, s, w', path. split; [exact Hp|].
  exact (proj2 (@crew_paths_taken unicode_ascii eth_plain eth_plain_laws libm_test demo_deps
    rejects_all demo_settings eq _ _ _ _ _ _ Hp) eq_refl).
Defined.


(** A position without debt breaks the crew.  Its health factor is infinite, so the fact
    sheet holds a figure the guard cannot render, and the run fails at the auditor, or at the
    gate before it: whatever the model says and chooses, the result is an error, not the
    [no_action] the nodes had found, and no row of the run is in the audit trail. *)
Theorem crew_fails_without_debt (st : Strategy) (why says : string) :
  ∃ tr res w',
    seq_exec demo_crew chat_world tr (Ok res) w' ∧ cw_terminal res = T_error ∧
    db_audit (aw_db w') = [].
Proof.
  destruct (run (crew_model repaid_chain {| sc_strategy := st; sc_rationale := why |} says)
    demo_crew chat_world tt) as [[[tr r] w'] n] eqn:E.
  pose proof (run_exec _ eq _ _ _ _ _ _ _ E) as He.
  pose proof (f_equal (λ x, x.1.1.2) E) as Hr. pose proof (f_equal (λ x, x.1.2) E) as Hw.
  cbn [fst snd] in Hr, Hw. clear E.
  assert (match r with Ok a => Some (cw_terminal a) | Err _ => None end = Some T_error) as Ht
    by (rewrite <-Hr; destruct st; vm_compute; reflexivity).
  destruct r as [res|e]; [|discriminate]. injection Ht as Ht.
  exists tr, res, w'. split; [exact He|]. split; [exact Ht|].
  rewrite <-Hw. destruct st; vm_compute; reflexivity.
Qed.
