(* ===== verification/AgentApi.v ===== *)
(** * api/routes_agent.py and routes_health.py: the reading routes, the chat and the crew

    Each handler as a coroutine, given the runtime its dependency resolved ([Runtime.v]); an
    [HTTPException] is the exception it ends with.  Approving, rejecting and stopping are in
    [AgentRoutes.v]. *)
From S2P Require Import Prelude PyFloat PyText Guard Config State InFlight Breaker Observability.
From S2P Require Import Models AgentModels Facts Risk Events Io Logic World Api Chain Monitor.
From S2P Require Import Pipeline Simulator Submitter Service Deps Routes Policy Store AgentBase Tools.
From S2P Require Import Llm Chat AgentSpec ChatSpec Graph Crew Runtime.

(** ** Bodies *)
Record ChatRequest := {
  chr_message : string;
  chr_thread_id : option string;
  chr_borrower : option string;
}.

Definition ChatRequest_validate (r : ChatRequest) : res ChatRequest :=
  _ ← ensure (bounded 1 4000 (chr_message r)); Ok r.

Record ChatHistory := { ch_thread_id : string; ch_messages : list ChatMessageRow }.

Inductive CrewTrigger := Manual | ByWorker.

Definition trigger_value (t : CrewTrigger) : string :=
  match t with Manual => "manual" | ByWorker => "worker" end.

Record CrewRunRequest := { crr_borrower : string; crr_trigger : CrewTrigger }.

Record AgentStatusResponse := {
  asr_enabled : bool;
  asr_reason : option string;
  asr_model : option string;
  asr_stack_available : bool;
  asr_store_ready : bool;
  asr_pending_proposals : Z;
}.

Record HealthView := {
  hv_chain_id : Z;
  hv_rpc_configured : bool;
  hv_rpc_connected : bool;
  hv_block_number : option Z;
  hv_vault_configured : bool;
}.

Section api.
Context `{UnicodeData} `{EthUtils} `{Libm} `{ProtectionDeps} `{ChoiceParsing}.
Context `{LangGraph CrewState Keys merge} (cfg : Settings).

(** [status]: the status is computed before the runtime is resolved. *)
Definition status (st : AgentStatus) (runtime : option AgentRuntime) : aprog AgentStatusResponse :=
  pending ← match runtime with
            | Some _ => rows ← list_proposals (Some PENDING) None 1000; Ret (Z.of_nat (length rows))
            | None => Ret 0
            end;
  Ret {| asr_enabled := st_enabled st; asr_reason := st_reason st; asr_model := st_model st;
         asr_stack_available := st_stack_available st; asr_store_ready := st_store_ready st;
         asr_pending_proposals := pending |}.

(** [chat]: an empty or absent thread id is minted. *)
Definition chat (runtime : AgentRuntime) (body : ChatRequest) : aprog ChatReply :=
  thread_id ← match chr_thread_id body with
              | Some (String c t) => Ret (String c t)
              | _ => await Uuid4
              end;
  run_chat cfg (art_timeout_seconds runtime) thread_id (chr_message body) (chr_borrower body).

Definition chat_history (thread_id : string) (limit : Z) : aprog ChatHistory :=
  rows ← history thread_id limit;
  Ret {| ch_thread_id := thread_id; ch_messages := rows |}.

Definition delete_chat (thread_id : string) : aprog bool := delete_thread thread_id.

Definition crew_run (body : CrewRunRequest) : aprog CrewRunResult :=
  run_crew cfg (crr_borrower body) (trigger_value (crr_trigger body)).

(** [list_proposals] *)
Definition list_proposals_route (status_filter borrower : option string) (limit : Z)
  : aprog (list ProposalRow) :=
  match status_filter with
  | None => list_proposals None borrower limit
  | Some s =>
      match by_value status_value all_statuses (py_upper s) with
      | Some parsed => list_proposals (Some parsed) borrower limit
      | None => Raise (http_error 400 ("unknown status " +:+ str_repr s))
      end
  end.

(** [get_proposal] *)
Definition get_proposal_route (id : Z) : aprog ProposalRow :=
  row ← get_proposal id;
  match row with
  | Some row => Ret row
  | None => Raise (http_error 404 ("proposal " +:+ pretty id +:+ " not found"))
  end.

(** [list_tuning] *)
Definition list_tuning_route (borrower : option string) (include_closed : bool) (limit : Z)
  : aprog (list TuningRow) :=
  list_tuning borrower (if include_closed then None else Some OPEN) limit.

Definition audit_trail (borrower : option string) (limit : Z) : aprog (list AuditRow) :=
  list_audit borrower limit.

(** [health]: the process-wide client is probed when an endpoint is configured. *)
Definition set_client (v : World) (w : AgentWorld) : AgentWorld :=
  {| aw_world := aw_world w; aw_db := aw_db w; aw_client := v;
     aw_oracles := aw_oracles w; aw_next_oracle := aw_next_oracle w |}.

Definition health : aprog HealthView :=
  let configured := negb (bool_decide (arbitrum_rpc_url cfg = ""%string)) in
  block ← (if configured then
             try_except (b ← zoom aw_client set_client (client_block_number cfg); Ret (Some b))
               (λ _, Ret None)
           else Ret None);
  Ret {| hv_chain_id := chain_id_setting cfg; hv_rpc_configured := configured;
         hv_rpc_connected := bool_decide (is_Some block); hv_block_number := block;
         hv_vault_configured := negb (bool_decide (vault_address cfg = ""%string)) |}.
End api.

(** ** Claims *)

(** A model that does not answer in time surfaces as a server error.  The chat route does
    not translate [AgentTimeout]: when the model's first call times out, the handler ends with
    it, which is not an [HTTPException]; the user's message stays stored and no reply is. *)
Theorem chat_timeout_surfaces (message : string) :
  ∃ tr w' e,
    seq_exec (@chat unicode_ascii eth_plain libm_test demo_deps demo_settings
        (new_runtime demo_settings)
        {| chr_message := message; chr_thread_id := None; chr_borrower := None |})
      chat_world tr (Err e) w' ∧
    exn_kind e = AgentTimeout ∧ exn_msg e = "the model did not answer within 30s"%string ∧
    ¬ is_http e ∧ (m_role <$> db_messages (aw_db w')) = [User].
Proof.
  destruct (run (demo_chain (Ok tt) (Ok rc_ok)) (@chat unicode_ascii eth_plain libm_test demo_deps
    demo_settings (new_runtime demo_settings)
    {| chr_message := message; chr_thread_id := None; chr_borrower := None |}) chat_world tt)
    as [[[tr r] w'] n] eqn:E.
  pose proof (run_exec _ eq _ _ _ _ _ _ _ E) as He.
  pose proof (f_equal (λ x, x.1.1.2) E) as Hr. pose proof (f_equal (λ x, x.1.2) E) as Hw.
  cbn [fst snd] in Hr, Hw. clear E.
  assert (r = Err (Exn AgentTimeout "the model did not answer within 30s")) as ->
    by (rewrite <-Hr; vm_compute; reflexivity).
  eexists tr, w', _. split; [exact He|]. split; [done|]. split; [done|].
  split; [by intros (st & ? & _)|]. rewrite <-Hw. vm_compute. reflexivity.
Qed.

(** The health probe is advisory: it fails only when it is cancelled, it reports a connection
    exactly when it read a block, and it asks nothing when no endpoint is configured. *)
Lemma health_advisory cfg R w tr r w' :
  exec R (health cfg) w tr r w' →
  match r with
  | Ok h => hv_rpc_connected h = bool_decide (is_Some (hv_block_number h)) ∧
      (hv_rpc_configured h = false → tr = [] ∧ hv_block_number h = None)
  | Err e => is_Exception e = false
  end.
Proof.
  unfold health. destruct (negb _).
  - intros [(e & -> & He)|(b & ? & ? & ? & _ & _ & He)]%exec_bind_inv; [|by inversion He].
    apply exec_try_except_inv in He as [[_ He]|(e' & ? & ? & ? & _ & _ & _ & He)]; [by apply He|].
    inversion He.
  - intros He. by inversion He.
Qed.
