(* ===== verification/AgentRoutes.v ===== *)
(** * api/routes_agent.py: approving, rejecting and stopping

    The approval route is the one place of the agent layer where a transaction can happen, by
    the same call of [ProtectionService.protect] as the manual route.  The keeper's coroutines
    run inside the agent's world through [zoom]. *)
From S2P Require Import Prelude PyFloat PyText Config State InFlight Breaker Observability Models Risk.
From S2P Require Import Events Io Logic World Api Chain Monitor Pipeline Simulator Submitter.
From S2P Require Import Service Deps Routes AgentModels Policy Store AgentBase StoreSpec.

(** ** The handlers *)
Section routes.
Context `{EthUtils} `{ProtectionDeps} (cfg : Settings).

(** [revalidate]: the gate on a fresh read of the position.  The counters and the breaker are
    read before the two counts are awaited. *)
Definition revalidate (borrower : string) (params : RiskParams) : aprog PolicyDecision :=
  sigma ← keeper (agent_sigma_for params);
  assessment ← keeper (service_assess params (Some sigma));
  snap ← keeper (snapshot borrower (rp_hf_trigger_bps params));
  '(debt_asset, decimals) ← lift debt_asset_facts;
  debt_price ← debt_price_base cfg debt_asset;
  t ← await Time;
  let since := fsub t HOUR in
  m ← gets (λ w, metrics (aw_world w));
  limits ← lift (policy_limits cfg);
  now ← await Time;
  n_borrower ← count_recent_proposals since (Some borrower);
  n_global ← count_recent_proposals since None;
  lift (Policy.evaluate (Some params) assessment snap m limits now debt_price decimals
          n_borrower n_global).

Definition not_found (id : Z) : exn := http_error 404 ("proposal " +:+ pretty id +:+ " not found").

Definition not_pending (row : ProposalRow) : exn :=
  http_error 409 ("proposal is " +:+ status_value (p_status row) +:+ ", not PENDING").

(** [reject_proposal] *)
Definition reject_proposal (id : Z) (body : RejectRequest) : aprog ProposalRow :=
  row ← get_proposal id;
  match row with
  | None => Raise (not_found id)
  | Some row =>
      won ← claim_proposal id REJECTED;
      if negb won then Raise (not_pending row)
      else
        _ ← finish_proposal id REJECTED (Some (rr_rejected_by body)) (rr_note body) None None None;
        _ ← audit Human A_REJECTED (Some (p_borrower row)) (Some id)
              (JObj [("by", JStr (rr_rejected_by body)); ("note", jopt (rr_note body))]%string) None;
        refreshed ← get_proposal id;
        match refreshed with
        | Some r => Ret r
        | None => Raise (Exn AssertionError "")
        end
  end.

(** The end of [approve_proposal]: the execution, and its record. *)
Definition record_execution (id : Z) (row : ProposalRow) (gate : PolicyDecision)
    (result : ProtectResponse) : aprog ApprovalResult :=
  _ ← finish_proposal id (if resp_submitted result then EXECUTED else FAILED) None None
        (resp_tx_hash result) (Some result) None;
  _ ← audit System (if resp_submitted result then A_EXECUTED else A_FAILED)
        (Some (p_borrower row)) (Some id)
        (JObj [("tx_hash", jopt (resp_tx_hash result));
               ("state", JStr (state_value (resp_state result)));
               ("reason", jopt (resp_reason result))]%string) None;
  refreshed ← get_proposal id;
  match refreshed with
  | Some r => Ret {| res_proposal := r; res_revalidated_gate := gate; res_protect := Some result;
                     res_reason := resp_reason result |}
  | None => Raise (Exn AssertionError "")
  end.

Definition execute_proposal (id : Z) (row : ProposalRow) (params : RiskParams) (signature : string)
    (gate : PolicyDecision) : aprog ApprovalResult :=
  result ← try_except (keeper (protect params signature))
    (λ e,
      _ ← finish_proposal id FAILED None (Some ("execution error: " +:+ exn_msg e)) None None None;
      _ ← audit System A_FAILED (Some (p_borrower row)) (Some id)
            (JObj [("error", JStr (exn_msg e))]%string) None;
      Raise (http_error 502 ("execution failed: " +:+ exn_msg e)));
  record_execution id row gate result.

(** From the allowed gate on: the time-to-live, the claim, the record of the approval. *)
Definition approve_allowed (id : Z) (body : ApprovalRequest) (row : ProposalRow)
    (params : RiskParams) (signature : string) (gate : PolicyDecision) : aprog ApprovalResult :=
  now ← await Time;
  if flt (p_expires_at row) now && negb (ar_acknowledge_stale body) then
    _ ← finish_proposal id EXPIRED (Some (ar_approved_by body)) None None None None;
    _ ← audit System A_EXPIRED_ON_APPROVE (Some (p_borrower row)) (Some id) (JObj []) None;
    Raise (http_error 409 "proposal expired; re-run the crew, or approve with acknowledge_stale")
  else
    won ← claim_proposal id APPROVED;
    if negb won then Raise (http_error 409 "proposal was already decided by someone else")
    else
      _ ← finish_proposal id APPROVED (Some (ar_approved_by body)) (ar_note body) None None None;
      _ ← audit Human A_APPROVED (Some (p_borrower row)) (Some id)
            (JObj [("by", JStr (ar_approved_by body))]%string) None;
      execute_proposal id row params signature gate.

(** [approve_proposal] on the row it read; the detail of the refusal also lists the blocking
    checks. *)
Definition approve_row (id : Z) (body : ApprovalRequest) (row : option ProposalRow)
  : aprog ApprovalResult :=
  match row with
  | None => Raise (not_found id)
  | Some row =>
      if negb (bool_decide (p_status row = PENDING)) then Raise (not_pending row)
      else
        registered ← gets (λ w, params_of (aw_world w) (p_borrower row));
        match registered with
        | None =>
            _ ← finish_proposal id STALE (Some (ar_approved_by body)) None None None None;
            Raise (http_error 409 "borrower no longer has a registered signed mandate")
        | Some (params, signature) =>
            gate ← revalidate (p_borrower row) params;
            if negb (pd_allowed gate) then
              _ ← finish_proposal id STALE (Some (ar_approved_by body)) (ar_note body) None None None;
              _ ← audit System A_STALE_ON_APPROVE (Some (p_borrower row)) (Some id)
                    (JObj [("blocking", JList (JStr <$> pd_blocking gate))]%string) None;
              Raise (http_error 409 "the position no longer satisfies the policy gate")
            else approve_allowed id body row params signature gate
        end
  end.

(** [approve_proposal] *)
Definition approve_proposal (id : Z) (body : ApprovalRequest) : aprog ApprovalResult :=
  row ← get_proposal id;
  approve_row id body row.

(** [dismiss_tuning] *)
Definition dismiss_tuning (id : Z) : aprog TuningRow :=
  row ← get_tuning id;
  match row with
  | None => Raise (http_error 404 ("tuning suggestion " +:+ pretty id +:+ " not found"))
  | Some row =>
      won ← set_tuning_status id DISMISSED None;
      if negb won then
        Raise (http_error 409 ("suggestion is " +:+ tuning_value (t_status row) +:+ ", not open"))
      else
        _ ← audit Human A_TUNING_DISMISSED (Some (t_borrower row)) None
              (JObj [("tuning_id", JInt id)]%string) None;
        refreshed ← get_tuning id;
        match refreshed with
        | Some r => Ret r
        | None => Raise (Exn AssertionError "")
        end
  end.

(** [panic]: the breaker is tripped before the first [await]. *)
Definition panic (reason : option string) : aprog (bool * option string) :=
  _ ← keeper (modify (λ w, set_breaker (trip (w_breaker w) MANUAL) w));
  _ ← audit Human A_PANIC None None
        (JObj [("reason", JStr (match reason with
                                | None | Some "" => "operator panic"
                                | Some r => r
                                end))]%string) None;
  gets (λ w, (br_paused (w_breaker (aw_world w)), trip_reason (w_breaker (aw_world w)))).
End routes.

Section approve.
Context {U : EthUtils} {UL : EthUtilsLaws U} {D : ProtectionDeps} {DL : ProtectionDepsLaws D}.
Context (cfg : Settings) (R : AgentWorld → AgentWorld → Prop).

Lemma revalidate_areads b p : areads (revalidate cfg b p).
Proof.
  unfold revalidate, agent_sigma_for.
  repeat first [apply debt_price_areads | apply snapshot_areads
    | apply reads_areads, dep_sigma_for_reads | apply reads_areads, dep_assess_reads | keeps_step].
Qed.

(** *** The shape of an approval's trace *)
Lemma record_areads id row gate result : areads (record_execution id row gate result).
Proof. unfold record_execution. repeat keeps_step. Qed.

(** What a broadcast of an approval is preceded by. *)
Definition approved_run (id : Z) (w : AgentWorld) (tr : list event) : Prop :=
  ∃ row p s gate t0 w1 tg w2 t1 wc tc wc' t2 v trp rp v' t3,
    tr = t0 ++ tg ++ t1 ++ tc ++ t2 ++ trp ++ t3 ∧
    quiet t0 ∧ quiet tg ∧ quiet t1 ∧ quiet tc ∧ quiet t2 ∧ quiet t3 ∧
    exec R (get_proposal id) w t0 (Ok (Some row)) w1 ∧ p_status row = PENDING ∧
    params_of (aw_world w1) (p_borrower row) = Some (p, s) ∧
    exec R (revalidate cfg (p_borrower row) p) w1 tg (Ok gate) w2 ∧ pd_allowed gate = true ∧
    exec R (claim_proposal id APPROVED) wc tc (Ok true) wc' ∧
    exec (through aw_world R) (protect p s) v trp rp v'.

(** The call of [protect] is the only part of the execution that is not quiet. *)
Lemma execute_run id row p s gate w tr r w' :
  exec R (execute_proposal id row p s gate) w tr r w' →
  ∃ trp rp v' t3, tr = trp ++ t3 ∧ quiet t3 ∧
    exec (through aw_world R) (protect p s) (aw_world w) trp rp v'.
Proof.
  revert tr r w'. apply wp_exec. unfold execute_proposal. rewrite wp_bind, wp_try_except.
  eapply wp_mono; [|apply (exec_zoom aw_world set_world); done].
  intros trp rp w1 He.
  assert (∀ t3, quiet t3 → ∃ trp' rp v' t3', trp ++ t3 = trp' ++ t3' ∧ quiet t3' ∧
    exec (through aw_world R) (protect p s) (aw_world w) trp' rp v') as Hend.
  { intros t3 H3. by exists trp, rp, (aw_world w1), t3. }
  assert (Hrest : ∀ {B} (q : aprog B), areads q → wp R q (λ t3 _ _, quiet t3) w1).
  { intros B q Hq. apply exec_wp. intros t3 r w2 H3. by eapply areads_trace. }
  destruct rp as [result|e].
  - eapply wp_mono; [|apply Hrest, record_areads]. intros t3 r' w2 H3. by apply Hend.
  - destruct (is_Exception e).
    + eapply wp_mono; [|apply Hrest; repeat keeps_step]. intros t3 r' w2 Hq3.
      destruct r' as [result|e']; [|by apply Hend].
      apply exec_wp. intros t4 r w3 H4. rewrite <-app_assoc. apply Hend. apply quiet_app; [done|].
      eapply areads_trace; [apply record_areads|exact H4].
    + rewrite <-(app_nil_r trp). apply Hend. constructor.
Qed.

(** From the allowed gate on: nothing is sent, or the claim was won and [protect] ran. *)
Lemma allowed_run id body row p s gate w tr r w' :
  exec R (approve_allowed id body row p s gate) w tr r w' →
  quiet tr ∨
  ∃ t1 wc tc wc' t2 v trp rp v' t3,
    tr = t1 ++ tc ++ t2 ++ trp ++ t3 ∧ quiet t1 ∧ quiet tc ∧ quiet t2 ∧ quiet t3 ∧
    exec R (claim_proposal id APPROVED) wc tc (Ok true) wc' ∧
    exec (through aw_world R) (protect p s) v trp rp v'.
Proof.
  unfold approve_allowed. intros He.
  apply areads_bind_inv in He as [?|(now&t1&wc&tr1&->&Q1&_&He)]; [by left| |by apply keeps_await].
  destruct (_ && _).
  { left. apply quiet_app; [done|]. eapply areads_trace; [|exact He]. repeat keeps_step. }
  apply areads_bind_inv in He as [?|(won&tc&wc'&tr2&->&Qc&Hc&He)];
    [left; by apply quiet_app| |by eauto with finax].
  destruct won; cbn [negb] in He.
  2: { left. repeat apply quiet_app; try done. eapply areads_trace; [|exact He]. repeat keeps_step. }
  apply areads_bind_inv in He as [?|(a1&t2&w2&tr3&->&Q2&_&He)];
    [left; repeat apply quiet_app; done| |by eauto with finax].
  apply areads_bind_inv in He as [?|(a2&t3&w3&tr4&->&Q3&_&He)];
    [left; repeat apply quiet_app; done| |by eauto with finax].
  apply execute_run in He as (trp&rp&v'&t4&->&Q4&Hp). right.
  exists t1, wc, tc, wc', (t2 ++ t3), (aw_world w3), trp, rp, v', t4.
  split; [by rewrite <-!app_assoc|]. split_and!; try done. by apply quiet_app.
Qed.

Lemma approve_run id body w tr r w' :
  exec R (approve_proposal cfg id body) w tr r w' → quiet tr ∨ approved_run id w tr.
Proof.
  unfold approve_proposal. intros He.
  apply areads_bind_inv in He as [?|(row&t0&w1&tr1&->&Q0&Hg&He)]; [by left| |by eauto with finax].
  unfold approve_row in He.
  destruct row as [row|].
  2: { left. apply quiet_app; [done|]. eapply areads_trace; [|exact He]. repeat keeps_step. }
  destruct (bool_decide (p_status row = PENDING)) eqn:Hst; cbn [negb] in He.
  2: { left. apply quiet_app; [done|]. eapply areads_trace; [|exact He]. repeat keeps_step. }
  apply bool_decide_eq_true in Hst.
  apply exec_gets_inv in He. destruct (params_of _ _) as [[p s]|] eqn:Hreg.
  2: { left. apply quiet_app; [done|]. eapply areads_trace; [|exact He]. repeat keeps_step. }
  apply areads_bind_inv in He as [?|(gate&tg&w2&tr2&->&Qg&Hgate&He)];
    [left; by apply quiet_app| |apply revalidate_areads].
  destruct (pd_allowed gate) eqn:Ha; cbn [negb] in He.
  2: { left. repeat apply quiet_app; try done. eapply areads_trace; [|exact He]. repeat keeps_step. }
  apply allowed_run in He as [?|(t1&wc&tc&wc'&t2&v&trp&rp&v'&t3&->&Q1&Qc&Q2&Q3&Hc&Hp)];
    [left; repeat apply quiet_app; done|right].
  exists row, p, s, gate, t0, w1, tg, w2, t1, wc, tc, wc', t2, v, trp, rp, v', t3.
  by split_and!.
Qed.
End approve.

(** Recording an event touches the database only. *)
Lemma audit_guar (I : World → Prop) actor action b pid detail now w :
  guar (λ w1 w2 : AgentWorld, I (aw_world w1) → I (aw_world w2)) (λ _, True)
    (audit actor action b pid detail now) w.
Proof.
  unfold audit, db_run. apply guar_bind; [destruct now; [done|by apply guar_await]|].
  intros ts w1. apply guar_bind; [by apply guar_await|]. intros _ w2.
  apply guar_bind; [apply guar_gets|]. intros w3 w4. destruct (_ ≫= _) as [[a db]|e].
  - apply guar_bind; [by apply guar_modify|]. intros _ w5.
    apply guar_bind; [by apply guar_await|]. done.
  - apply guar_bind; [by apply guar_await|]. done.
Qed.

(** ** Concrete runs *)

(** A queued proposal on the borrower of [demo_params], and an approver. *)
Definition queued_db : AgentDB :=
  (sql_insert_proposal "r" "0xb0b" "protect_now" JNull
     {| pd_allowed := true; pd_checks := []; pd_blocking := []; pd_severity := Sev_ok |} ""
     false (flit 900) (flit 1800) empty_db).2.

Definition agent_world : AgentWorld :=
  {| aw_world := watched_world; aw_db := queued_db; aw_client := world0; aw_oracles := λ _, None;
     aw_next_oracle := 0 |}.

Definition approval_by (who : string) : ApprovalRequest :=
  {| ar_approved_by := who; ar_note := None; ar_acknowledge_stale := false |}.

Definition demo_approve (who : string) : aprog ApprovalResult :=
  @approve_proposal eth_plain demo_deps demo_settings 1 (approval_by who).

(** While a coroutine is suspended, nothing happens, or the approval of [who] runs to its end,
    the rescue submitted. *)
Definition meanwhile (who : string) (w w' : AgentWorld) : Prop :=
  w' = w ∨ ∃ tr r, seq_exec (demo_approve who) w tr (Ok r) w' ∧ p_status (res_proposal r) = EXECUTED.

#[global] Instance meanwhile_refl who : Reflexive (meanwhile who).
Proof. by left. Qed.

(** The position after a rescue. *)
Definition healthy_chain : handler unit := λ q w,
  (match q return answer q with
   | Rpc _ (GetUserAccountData _ _) =>
       Ok (1000000000000, 400000000000, 0, 8250, 8000, 2062500000000000000)
   | q => (demo_chain (Ok tt) (Ok rc_ok) q tt).1
   end, w).

(** ** Claims *)

(** C25: An approval sends nothing without its gates (FR-19).  If any request of an approval
    broadcasts a transaction, then in that execution, whatever other coroutines did meanwhile:
    the proposal was read and pending; its borrower had a mandate registered; the policy gate
    was run again on a fresh read with that mandate, and allowed it; the conditional update of
    the status was won; and all of it came before the single call of [protect], with that
    mandate and that signature, which made the request. *)
Theorem approve_gated {U : EthUtils} {UL : EthUtilsLaws U} {D : ProtectionDeps}
    {DL : ProtectionDepsLaws D} cfg (R : AgentWorld → AgentWorld → Prop) id body w tr r w' ev :
  exec R (approve_proposal cfg id body) w tr r w' → ev ∈ tr → broadcasts (ev_req ev) = true →
  approved_run cfg R id w tr.
Proof.
  intros He Hin Hb. apply approve_run in He as [Hq|?]; [|done].
  by destruct (quiet_no_broadcast tr ev).
Qed.

Lemma approve_gated_witness :
  ∃ tr r w' ev, seq_exec (demo_approve "ann") agent_world tr (Ok r) w' ∧
    p_status (res_proposal r) = EXECUTED ∧ ev ∈ tr ∧ broadcasts (ev_req ev) = true ∧
    @approved_run eth_plain demo_deps demo_settings eq 1 agent_world tr.
Proof.
  destruct (run (demo_chain (Ok tt) (Ok rc_ok)) (demo_approve "ann") agent_world tt)
    as [[[tr r] w'] u] eqn:E.
  pose proof (run_exec _ eq _ _ _ _ _ _ _ E) as He.
  assert (∃ a, r = Ok a ∧ p_status (res_proposal a) = EXECUTED) as (a & -> & Ha).
  { apply (f_equal (λ x, x.1.1.2)) in E. cbn [fst snd] in E. rewrite <-E. vm_compute. eauto. }
  destruct (find_broadcast tr) as (ev & Hin & Hb).
  { apply (f_equal (λ x, x.1.1.1)) in E. cbn [fst snd] in E. rewrite <-E. vm_compute. reflexivity. }
  exists tr, a, w', ev. split; [exact He|]. split; [exact Ha|]. split; [exact Hin|].
  split; [exact Hb|].
  exact (@approve_gated eth_plain eth_plain_laws demo_deps demo_deps_laws demo_settings eq 1
    (approval_by "ann") _ _ _ _ ev He Hin Hb).
Defined.

(** The conditional claim does not protect the outcome.  Two operators approve the same
    pending proposal; the second one has read it as pending when the first one's approval runs
    to its end: claimed, executed, its transaction confirmed and recorded.  The second one's
    gate then refuses the position, now restored, and its unconditional [finish_proposal]
    writes [STALE], and itself as the decider, over the executed proposal. *)
Theorem approve_overwrites_outcome :
  ∃ tr r w' row,
    exec (meanwhile "ann") (demo_approve "bob") agent_world tr r w' ∧
    r = Err (http_error 409 "the position no longer satisfies the policy gate") ∧
    sql_get_proposal 1 (aw_db w') = Some row ∧
    p_status row = STALE ∧ p_decided_by row = Some "bob"%string ∧
    p_tx_hash row = Some "0xaa"%string ∧ resp_submitted <$> p_result row = Some true.
Proof.
  destruct (run (demo_chain (Ok tt) (Ok rc_ok)) (demo_approve "ann") agent_world tt)
    as [[[tra ra] wa] ua] eqn:Ea.
  pose proof (run_exec _ eq _ _ _ _ _ _ _ Ea) as Ha.
  assert (∃ a, ra = Ok a ∧ p_status (res_proposal a) = EXECUTED) as (a & -> & Hex).
  { apply (f_equal (λ x, x.1.1.2)) in Ea. cbn [fst snd] in Ea. rewrite <-Ea. vm_compute. eauto. }
  set (f := @approve_row eth_plain demo_deps demo_settings 1 (approval_by "bob")).
  destruct (run healthy_chain (f (sql_get_proposal 1 queued_db)) wa tt) as [[[trb rb] wb] ub] eqn:Eb.
  pose proof (run_exec _ (meanwhile "ann") _ _ _ _ _ _ _ Eb) as Hb.
  assert (rb = Err (http_error 409 "the position no longer satisfies the policy gate")) as ->.
  { apply (f_equal (λ x, x.1.1.2)) in Eb. cbn [fst snd] in Eb. rewrite <-Eb.
    apply (f_equal (λ x, x.1.2)) in Ea. cbn [fst snd] in Ea. rewrite <-Ea. vm_compute. reflexivity. }
  assert (∃ row, sql_get_proposal 1 (aw_db wb) = Some row ∧
    p_status row = STALE ∧ p_decided_by row = Some "bob"%string ∧
    p_tx_hash row = Some "0xaa"%string ∧ resp_submitted <$> p_result row = Some true)
    as (row & Hrow).
  { apply (f_equal (λ x, x.1.2)) in Eb. cbn [fst snd] in Eb. rewrite <-Eb.
    apply (f_equal (λ x, x.1.2)) in Ea. cbn [fst snd] in Ea. rewrite <-Ea. vm_compute. eauto 10. }
  do 4 eexists. split; [|split; [reflexivity|exact Hrow]].
  eapply exec_bind; [|apply Hb; by left].
  apply (exec_await (meanwhile "ann") ThreadStart (Ok tt) _ agent_world agent_world); [by left|].
  eapply exec_get, exec_get, exec_put.
  apply (exec_await (meanwhile "ann") ThreadJoin Elapsed _ _ wa); [|constructor].
  right. exists tra, a. split; [exact Ha|exact Hex].
Qed.

(** [POST /agent/panic] stops the keeper at once.  The breaker is paused before the first
    [await], so whatever the database does to the audit record, and whatever other coroutines
    do short of resetting the breaker, the call leaves it paused, and every rescue attempted
    from there on, for any borrower, is refused before it asks anything of the outside. *)
Theorem panic_stops {D : ProtectionDeps} (R : AgentWorld → AgentWorld → Prop) reason w tr r w' :
  let paused w := br_paused (w_breaker (aw_world w)) = true in
  (∀ w1 w2, R w1 w2 → paused w1 → paused w2) →
  exec R (panic reason) w tr r w' →
  paused w' ∧ (∀ b why, r = Ok (b, why) → b = true) ∧
  ∀ R' p s tr2 r2 v, exec R' (protect p s) (aw_world w') tr2 r2 v →
    tr2 = [] ∧ ∃ rep, r2 = Ok rep ∧ resp_submitted rep = false.
Proof.
  intros paused HR He.
  assert (paused w' ∧ (∀ b why, r = Ok (b, why) → b = true)) as [Hp Hr].
  { revert tr r w' He. apply wp_exec. unfold panic. rewrite wp_bind.
    unfold keeper. apply wp_zoom; [done|]. rewrite wp_modify. intros w1 Hw1.
    assert (paused w1) as H1 by (unfold paused; by rewrite Hw1).
    rewrite wp_bind. apply exec_wp. intros tr1 r1 w2 He.
    assert (paused w2) as H2.
    { eapply guar_inv; [exact HR| |exact H1|exact He].
      apply (audit_guar (λ v, br_paused (w_breaker v) = true)). }
    destruct r1 as [n|e]; [|done]. rewrite wp_gets. split; [done|]. by intros b why [= <- _]. }
  split; [done|]. split; [done|]. intros R' p s tr2 r2 v Hpr.
  destruct (protect_gated R' p s _ _ _ _ (or_introl Hp) Hpr) as (?&(rep&?&?&_)&_). eauto.
Qed.

Lemma panic_stops_witness :
  ∃ tr r w', seq_exec (panic (Some "drill")) agent_world tr r w' ∧
    ∀ tr2 r2 v, exec (λ _ _, True) (@protect demo_deps demo_params "0x01") (aw_world w') tr2 r2 v →
      tr2 = [].
Proof.
  destruct (run (demo_chain (Ok tt) (Ok rc_ok)) (panic (Some "drill"%string)) agent_world tt)
    as [[[tr r] w'] u] eqn:E.
  pose proof (run_exec _ eq _ _ _ _ _ _ _ E) as He. exists tr, r, w'. split; [exact He|].
  destruct (@panic_stops demo_deps eq (Some "drill"%string) agent_world tr r w') as (_&_&H);
    [by intros w1 w2 ->|exact He|].
  intros tr2 r2 v Hp. apply (H _ _ _ _ _ _ Hp).
Defined.
