(* ===== verification/Endpoints.v ===== *)
(** * What stands between a request and its handler: bodies, ids, limits

    FastAPI resolves a route's dependencies before it looks at the body, and the body's
    validator ([agent/models.py]) before it calls the handler.  [with_body] is that order for
    the agent routes whose bodies have bounds.  Integers in a path or a query are unbounded:
    an id or a limit reaches SQLite as it came, and sqlite3 refuses what does not fit 64 bits
    when the statement runs.  The theorems: what a refused body does (nothing), and what an
    id beyond 64 bits does on every route that takes one. *)
From S2P Require Import Prelude PyFloat PyText Guard Config State InFlight Breaker Observability.
From S2P Require Import Models AgentModels Facts Risk Events Io Logic World Api Chain Monitor.
From S2P Require Import Pipeline Simulator Submitter Service Deps Routes Policy Store AgentBase Tools.
From S2P Require Import Llm Chat AgentSpec ChatSpec Graph Crew Runtime AgentApi AgentRoutes.

Section endpoints.
Context `{UnicodeData} `{EthUtils} `{Libm} `{ProtectionDeps} (cfg : Settings).

(** A route with a body: the runtime ([Depends(require_runtime)]), the validator, the handler. *)
Definition with_body {B A} (runtime : res AgentRuntime) (validate : B → res B) (body : B)
    (handler : AgentRuntime → B → aprog A) : aprog A :=
  rt ← lift runtime;
  body ← lift (validate body);
  handler rt body.

Definition post_chat (runtime : res AgentRuntime) (body : ChatRequest) : aprog ChatReply :=
  with_body runtime ChatRequest_validate body (chat cfg).

Definition post_approve (runtime : res AgentRuntime) (id : Z) (body : ApprovalRequest)
  : aprog ApprovalResult :=
  with_body runtime ApprovalRequest_validate body (λ _, approve_proposal cfg id).

Definition post_reject (runtime : res AgentRuntime) (id : Z) (body : RejectRequest)
  : aprog ProposalRow :=
  with_body runtime RejectRequest_validate body (λ _, reject_proposal id).

(** ** Refused bodies *)
Lemma bounded_spec lo hi s : bounded lo hi s = true ↔ lo ≤ text_len s ≤ hi.
Proof. unfold bounded. rewrite andb_true_iff, !Z.leb_le. done. Qed.

(** What a validator of [agent/models.py] is: a test of bounds that keeps the body. *)
Definition tests {B} (validate : B → res B) (ok : B → bool) : Prop :=
  ∀ b, validate b = if ok b then Ok b else Err validation_error.

Definition approval_ok (b : ApprovalRequest) : bool :=
  bounded 1 64 (ar_approved_by b) && bounded_opt 500 (ar_note b).
Definition rejection_ok (b : RejectRequest) : bool :=
  bounded 1 64 (rr_rejected_by b) && bounded_opt 500 (rr_note b).
Definition chat_ok (b : ChatRequest) : bool := bounded 1 4000 (chr_message b).

Lemma approval_tests : tests ApprovalRequest_validate approval_ok.
Proof. intros b. unfold ApprovalRequest_validate, approval_ok. by destruct (bounded _ _ _), (bounded_opt _ _). Qed.
Lemma rejection_tests : tests RejectRequest_validate rejection_ok.
Proof. intros b. unfold RejectRequest_validate, rejection_ok. by destruct (bounded _ _ _), (bounded_opt _ _). Qed.
Lemma chat_tests : tests ChatRequest_validate chat_ok.
Proof. intros b. unfold ChatRequest_validate, chat_ok. by destruct (bounded _ _ _). Qed.

(** A request whose runtime is missing or whose body is out of bounds does nothing at all. *)
Lemma with_body_exec {B A} R runtime validate ok (body : B) (handler : AgentRuntime → B → aprog A) w tr r w' :
  tests validate ok → exec R (with_body runtime validate body handler) w tr r w' →
  (∃ rt, runtime = Ok rt ∧ ok body = true ∧ exec R (handler rt body) w tr r w') ∨
  (tr = [] ∧ w' = w ∧ ((∃ e, runtime = Err e ∧ r = Err e) ∨
                       (is_ok runtime = true ∧ ok body = false ∧ r = Err validation_error))).
Proof.
  intros Ht He. unfold with_body in He. rewrite (Ht body) in He.
  destruct runtime as [rt|e]; cbn in He.
  - destruct (ok body); cbn in He; [left; by exists rt|]. inversion He; subst. right. eauto 10.
  - inversion He; subst. right. eauto 10.
Qed.

(** ** Ids beyond 64 bits *)
Definition overflow : exn := Exn OverflowError "Python int too large to convert to SQLite INTEGER".

Lemma sql_int_overflow z : ¬ (- 2 ^ 63 ≤ z < 2 ^ 63) → sql_int z = Err overflow.
Proof.
  intros Hz. unfold sql_int. destruct (_ && _) eqn:E; [|done].
  apply andb_true_iff in E as [?%Z.leb_le ?%Z.ltb_lt]. lia.
Qed.

(** The steps a refused statement takes: to a worker thread and back, and no write; it ends in
    [OverflowError], unless the hop itself failed or was cancelled. *)
Definition refused (R : AgentWorld → AgentWorld → Prop) {A} (w : AgentWorld)
    (tr : list event) (r : res A) (w' : AgentWorld) : Prop :=
  Forall (λ ev, ev_req ev = ThreadStart ∨ ev_req ev = ThreadJoin) tr ∧ rtc R w w' ∧
  ∃ e, r = Err e ∧ (e = overflow ∨ e = cancelled ∨ Ev ThreadStart (Err e) ∈ tr).

Lemma hops a b :
  Forall (λ ev, ev_req ev = ThreadStart ∨ ev_req ev = ThreadJoin) [Ev ThreadStart a; Ev ThreadJoin b].
Proof. apply Forall_cons_2; [by left|]. apply Forall_cons_2; [by right|done]. Qed.

Lemma statement_refused R {A B} (z : Z) (st : Z → AgentDB → A * AgentDB) (f : A → aprog B) w tr r w' :
  ¬ (- 2 ^ 63 ≤ z < 2 ^ 63) → exec R (x ← db_run (with_int z st); f x) w tr r w' →
  refused R w tr r w'.
Proof.
  intros Hz%sql_int_overflow. revert tr r w'. apply wp_exec. rewrite wp_bind.
  unfold db_run. rewrite wp_bind, wp_await. intros [[]|e] w1 HR.
  2:{ split_and!; [repeat constructor; auto|by apply rtc_once|]. exists e. split; [done|]. right. right. left. }
  unfold outcome_of. rewrite wp_bind, wp_gets.
  assert (with_int z st (aw_db (Datatypes.id w1)) = Err overflow) as -> by (unfold with_int; by rewrite Hz).
  rewrite wp_bind, wp_await. intros ans w2 HR2.
  assert (rtc R w w2) as Hs by (eapply rtc_l; [exact HR|by apply rtc_once]).
  destruct ans.
  - apply wp_raise. split_and!; [by apply hops|done|]. exists overflow. auto.
  - split_and!; [by apply hops|done|]. exists cancelled. auto.
Qed.
(** An id SQLite cannot hold (store.py binds it when the statement runs).  For an id
    beyond 64 bits, reading, rejecting, approving and dismissing never answer 404 or anything
    else: each hops to a worker thread and back, writes nothing, asks nothing of the chain or
    the clock, and ends in [OverflowError], which no route translates, unless the hop itself
    failed or was cancelled; on the approval route this holds of an accepted body, and a
    refused body or a missing runtime ends the request before any of it. *)
Theorem oversized_id R (id : Z) runtime abody rbody w :
  ¬ (- 2 ^ 63 ≤ id < 2 ^ 63) →
  (∀ tr r w', exec R (get_proposal_route id) w tr r w' → refused R w tr r w') ∧
  (∀ tr r w', exec R (dismiss_tuning id) w tr r w' → refused R w tr r w') ∧
  (∀ tr r w', exec R (post_reject runtime id rbody) w tr r w' →
     if is_ok runtime && rejection_ok rbody then refused R w tr r w'
     else tr = [] ∧ w' = w ∧ ∃ e, r = Err e ∧ (runtime = Err e ∨ e = validation_error)) ∧
  (∀ tr r w', exec R (post_approve runtime id abody) w tr r w' →
     if is_ok runtime && approval_ok abody then refused R w tr r w'
     else tr = [] ∧ w' = w ∧ ∃ e, r = Err e ∧ (runtime = Err e ∨ e = validation_error)).
Proof.
  intros Hid. split; [|split; [|split]]; intros tr r w' He.
  - exact (statement_refused _ _ _ _ _ _ _ _ Hid He).
  - exact (statement_refused _ _ _ _ _ _ _ _ Hid He).
  - apply (with_body_exec _ _ _ _ _ _ _ _ _ _ rejection_tests) in He
      as [(rt & -> & -> & He)|(-> & -> & [(e & -> & ->)|(-> & -> & ->)])]; cbn; eauto 10.
    exact (statement_refused _ _ _ _ _ _ _ _ Hid He).
  - apply (with_body_exec _ _ _ _ _ _ _ _ _ _ approval_tests) in He
      as [(rt & -> & -> & He)|(-> & -> & [(e & -> & ->)|(-> & -> & ->)])]; cbn; eauto 10.
    exact (statement_refused _ _ _ _ _ _ _ _ Hid He).
Qed.

(** A negative limit in a query is no limit: the whole table, newest first. *)
Lemma negative_limit status borrower limit db :
  limit < 0 →
  sql_list_proposals status borrower limit db =
  filter (λ p, matches status (p_status p) && matches borrower (p_borrower p) = true)
    (rev (db_proposals db)).
Proof. intros Hl. unfold sql_list_proposals, limit_rows. by rewrite (proj2 (Z.ltb_lt _ _) Hl). Qed.
End endpoints.

(** ** A concrete request *)
Definition id_2_64 : Z := 2 ^ 64.

Definition demo_runtime : AgentRuntime := @new_runtime default_settings.

Definition approve_2_64 : aprog ApprovalResult :=
  @post_approve eth_plain demo_deps demo_settings (Ok demo_runtime) id_2_64 (approval_by "ann").

Lemma oversized_id_witness :
  ∃ tr r, seq_exec approve_2_64 agent_world tr r agent_world ∧ r = Err overflow ∧
    refused eq agent_world tr r agent_world ∧
    seq_exec (@post_approve eth_plain demo_deps demo_settings (Ok demo_runtime) 1 (approval_by ""))
      agent_world [] (Err validation_error) agent_world.
Proof.
  destruct (run (demo_chain (Ok tt) (Ok rc_ok)) approve_2_64 agent_world tt) as [[[tr r] w'] u] eqn:E.
  pose proof (run_exec _ eq _ _ _ _ _ _ _ E) as He.
  destruct (@oversized_id eth_plain demo_deps demo_settings eq id_2_64 (Ok demo_runtime)
    (approval_by "ann") {| rr_rejected_by := "ann"; rr_note := None |} agent_world) as (_ & _ & _ & H).
  { unfold id_2_64. lia. }
  specialize (H tr r w' He).
  change (is_ok (Ok demo_runtime) && approval_ok (approval_by "ann")) with true in H. cbv iota in H.
  vm_compute in E. injection E as Et Er Ew _. subst w'.
  exists tr, r. split; [exact He|]. split; [symmetry; exact Er|]. split; [exact H|]. apply exec_raise.
Defined.
