(* ===== verification/Conn.v ===== *)
(** * agent/store.py: the connection and its locks

    [AgentStore] opens one SQLite connection on demand, under a lock, and serialises its
    writers with another.  Coroutines of the store are trees over its fields, the two
    [asyncio.Lock]s and the jobs they send to worker threads; [sched] interleaves any number of
    them at their suspension points, with cancellations: [asyncio.to_thread] cannot stop a
    thread, so a cancelled coroutine leaves its job running ([orphans]). *)
From S2P Require Import Prelude.

(** [_conn], by allocation, and the two locks (held or not). *)
Record StoreState := { sc_conn : option nat; sc_connect_lock : bool; sc_write_lock : bool }.

Definition store_init : StoreState :=
  {| sc_conn := None; sc_connect_lock := false; sc_write_lock := false |}.

Inductive lock := ConnectLock | WriteLock.

Definition locked (l : lock) (s : StoreState) : bool :=
  match l with ConnectLock => sc_connect_lock s | WriteLock => sc_write_lock s end.

Definition set_lock (l : lock) (b : bool) (s : StoreState) : StoreState :=
  match l with
  | ConnectLock => {| sc_conn := sc_conn s; sc_connect_lock := b; sc_write_lock := sc_write_lock s |}
  | WriteLock => {| sc_conn := sc_conn s; sc_connect_lock := sc_connect_lock s; sc_write_lock := b |}
  end.

Definition set_conn (c : option nat) (s : StoreState) : StoreState :=
  {| sc_conn := c; sc_connect_lock := sc_connect_lock s; sc_write_lock := sc_write_lock s |}.

(** What a worker thread is given. *)
Inductive job := Open | Close (conn : nat) | Read (conn sql : nat) | Write (conn sql : nat).

Inductive co (A : Type) : Type :=
  | CRet (a : A)
  | CRaise (e : exn)
  | CGet (k : StoreState → co A)
  | CPut (s : StoreState) (p : co A)
  | CAcquire (l : lock) (k : res unit → co A)
  | CThread (j : job) (k : res nat → co A).
Arguments CRet {A} a.
Arguments CRaise {A} e.
Arguments CGet {A} k.
Arguments CPut {A} s p.
Arguments CAcquire {A} l k.
Arguments CThread {A} j k.

Fixpoint co_bind_ {A B} (p : co A) (f : A → co B) : co B :=
  match p with
  | CRet a => f a
  | CRaise e => CRaise e
  | CGet k => CGet (λ s, co_bind_ (k s) f)
  | CPut s p => CPut s (co_bind_ p f)
  | CAcquire l k => CAcquire l (λ r, co_bind_ (k r) f)
  | CThread j k => CThread j (λ r, co_bind_ (k r) f)
  end.
#[global] Instance co_bind : MBind co := λ A B f p, co_bind_ p f.

(** [try: p  finally: f] *)
Fixpoint co_finally {A} (p : co A) (f : co unit) : co A :=
  match p with
  | CRet a => co_bind_ f (λ _, CRet a)
  | CRaise e => co_bind_ f (λ _, CRaise e)
  | CGet k => CGet (λ s, co_finally (k s) f)
  | CPut s p => CPut s (co_finally p f)
  | CAcquire l k => CAcquire l (λ r, co_finally (k r) f)
  | CThread j k => CThread j (λ r, co_finally (k r) f)
  end.

Definition co_lift {A} (r : res A) : co A := match r with Ok a => CRet a | Err e => CRaise e end.
Definition co_modify (f : StoreState → StoreState) : co unit := CGet (λ s, CPut (f s) (CRet tt)).
Definition to_thread (j : job) : co nat := CThread j co_lift.

(** [async with lock: p] *)
Definition async_with {A} (l : lock) (p : co A) : co A :=
  _ ← CAcquire l co_lift; co_finally p (co_modify (set_lock l false)).

(** ** The methods *)
Definition ready (s : StoreState) : bool := match sc_conn s with Some _ => true | None => false end.

Definition connect : co unit :=
  s ← CGet CRet;
  match sc_conn s with
  | Some _ => CRet tt
  | None =>
      async_with ConnectLock (
        s ← CGet CRet;
        match sc_conn s with
        | Some _ => CRet tt
        | None => conn ← to_thread Open; co_modify (set_conn (Some conn))
        end)
  end.

Definition close : co unit :=
  s ← CGet CRet;
  _ ← co_modify (set_conn None);
  match sc_conn s with
  | Some conn => _ ← to_thread (Close conn); CRet tt
  | None => CRet tt
  end.

Definition assertion_failed : exn := Exn AssertionError "".

(** [conn = self._conn; assert conn is not None] *)
Definition the_conn : co nat :=
  s ← CGet CRet;
  match sc_conn s with Some conn => CRet conn | None => CRaise assertion_failed end.

Definition _rows (sql : nat) : co nat := _ ← connect; conn ← the_conn; to_thread (Read conn sql).

Definition _write (sql : nat) : co nat :=
  _ ← connect; conn ← the_conn; async_with WriteLock (to_thread (Write conn sql)).

(** ** The event loop

    A coroutine runs without interruption to its next suspension.  A lock that is free is
    taken without suspending, unless others wait for it ([seg_queue]). *)
Inductive segment {A} : co A → StoreState → co A → StoreState → Prop :=
  | seg_ret a s : segment (CRet a) s (CRet a) s
  | seg_raise e s : segment (CRaise e) s (CRaise e) s
  | seg_get k s p' s' : segment (k s) s p' s' → segment (CGet k) s p' s'
  | seg_put s1 p s p' s' : segment p s1 p' s' → segment (CPut s1 p) s p' s'
  | seg_take l k s p' s' :
      locked l s = false → segment (k (Ok tt)) (set_lock l true s) p' s' →
      segment (CAcquire l k) s p' s'
  | seg_queue l k s : segment (CAcquire l k) s (CAcquire l k) s
  | seg_thread j k s : segment (CThread j k) s (CThread j k) s.

Inductive task := Task (A : Type) (p : co A).

(** The coroutines, the jobs of cancelled ones, and the store. *)
Record config := Config { tasks : list task; orphans : list job; store : StoreState }.

Definition cancelled : exn := Exn CancelledError "".

(** What a thread may raise: anything but an [AssertionError]. *)
Definition thread_answer {A} (r : res A) : Prop :=
  match r with Ok _ => True | Err e => exn_kind e ≠ AssertionError end.

(** The store's methods bottom out in these four, each awaited by its caller. *)
Inductive method : task → Prop :=
  | m_connect : method (Task unit (_ ← connect; CRet tt))
  | m_close : method (Task _ close)
  | m_rows sql : method (Task _ (_rows sql))
  | m_write sql : method (Task _ (_write sql)).

Inductive sched : config → config → Prop :=
  | sched_start ts os s A (p p' : co A) s' :
      method (Task A p) → segment p s p' s' →
      sched (Config ts os s) (Config (ts ++ [Task A p']) os s')
  | sched_take ts os s i A l (k : res unit → co A) p' s' :
      ts !! i = Some (Task A (CAcquire l k)) → locked l s = false →
      segment (k (Ok tt)) (set_lock l true s) p' s' →
      sched (Config ts os s) (Config (<[i := Task A p']> ts) os s')
  | sched_thread ts os s i A j (k : res nat → co A) r p' s' :
      ts !! i = Some (Task A (CThread j k)) → thread_answer r → segment (k r) s p' s' →
      sched (Config ts os s) (Config (<[i := Task A p']> ts) os s')
  | sched_cancel_wait ts os s i A l (k : res unit → co A) p' s' :
      ts !! i = Some (Task A (CAcquire l k)) → segment (k (Err cancelled)) s p' s' →
      sched (Config ts os s) (Config (<[i := Task A p']> ts) os s')
  | sched_cancel_thread ts os s i A j (k : res nat → co A) p' s' :
      ts !! i = Some (Task A (CThread j k)) → segment (k (Err cancelled)) s p' s' →
      sched (Config ts os s) (Config (<[i := Task A p']> ts) (j :: os) s')
  | sched_orphan ts os1 j os2 s :
      sched (Config ts (os1 ++ j :: os2) s) (Config ts (os1 ++ os2) s).

Definition reachable (c : config) : Prop := rtc sched (Config [] [] store_init) c.

(** ** Reasoning about the methods

    A coroutine is outside the locks or holds one.  [safe p h s] says of a coroutine about to
    run from [s]: it changes the store only as it may, ends outside the locks, raises no
    [AssertionError], opens a connection only while it holds the connect lock and there is
    none, and writes only while it holds the write lock. *)
Abbreviation phase := (option lock).

#[global] Instance lock_eq_dec : EqDecision lock.
Proof. solve_decision. Defined.

Inductive move : phase → StoreState → phase → StoreState → Prop :=
  | move_conn h s c :
      (c = None ∨ c = sc_conn s ∨ h = Some ConnectLock) → move h s h (set_conn c s)
  | move_release l s : move (Some l) s None (set_lock l false s).

Definition job_ok (j : job) (h : phase) (s : StoreState) : Prop :=
  match j with
  | Open => h = Some ConnectLock ∧ sc_conn s = None
  | Write _ _ => h = Some WriteLock
  | Read _ _ | Close _ => h = None
  end.

(** What a coroutine may count on when it is resumed. *)
Definition stable (j : job) (s : StoreState) : Prop :=
  match j with Open => sc_conn s = None | _ => True end.

Fixpoint safe {A} (p : co A) (h : phase) (s : StoreState) : Prop :=
  match p with
  | CRet _ => h = None
  | CRaise e => h = None ∧ exn_kind e ≠ AssertionError
  | CGet k => safe (k s) h s
  | CPut s' p => ∃ h', move h s h' s' ∧ safe p h' s'
  | CAcquire l k =>
      h = None ∧ ∀ s', safe (k (Err cancelled)) None s' ∧
        (locked l s' = false → safe (k (Ok tt)) (Some l) (set_lock l true s'))
  | CThread j k =>
      job_ok j h s ∧ ∀ s' r, stable j s' → thread_answer r → safe (k r) h s'
  end.

Lemma set_conn_same s : set_conn (sc_conn s) s = s.
Proof. by destruct s. Qed.

Lemma thread_answer_err {A} e : @thread_answer A (Err e) → exn_kind e ≠ AssertionError.
Proof. done. Qed.

Lemma safe_to_thread j h s :
  job_ok j h s → h = None → safe (to_thread j) h s.
Proof. intros Hj ->. cbn. split; [done|]. by intros s' [a|e] _ Hr. Qed.

Lemma safe_connect {A} (k : unit → co A) s :
  (∀ s', safe (k tt) None s' ∨ sc_conn s' = None) → safe (_ ← connect; k tt) None s.
Proof.
  intros Hk. assert (∀ s', is_Some (sc_conn s') → safe (k tt) None s') as Hk'.
  { intros s' [c Hc]. destruct (Hk s') as [|]; [done|congruence]. }
  unfold connect. cbn. destruct (sc_conn s) eqn:E; cbn; [by apply Hk'; eauto|].
  split; [done|]. intros s'. split; [done|]. intros _.
  destruct (sc_conn s') eqn:E'; cbn.
  - eexists. split; [constructor|]. apply Hk'. cbn in *. eauto.
  - split; [done|]. intros s2 [c|e] Hn Hr; cbn.
    + eexists. split; [apply move_conn; auto|].
      eexists. split; [constructor|]. apply Hk'. cbn. eauto.
    + eexists. split; [constructor|]. done.
Qed.

Lemma method_safe t s : method t → match t with Task A p => safe p None s end.
Proof.
  intros [| |sql|sql].
  - apply safe_connect. by left.
  - unfold close. cbn. eexists. split; [apply move_conn; auto|].
    destruct (sc_conn s); cbn; [|done]. split; [done|]. by intros s' [a|e] _ Hr.
  - apply (safe_connect (λ _, conn ← the_conn; to_thread (Read conn sql))).
    intros s'. destruct (sc_conn s') eqn:E; [left|by right]. cbn. rewrite E. cbn.
    split; [done|]. by intros s2 [a|e] _ Hr.
  - apply (safe_connect (λ _, conn ← the_conn; async_with WriteLock (to_thread (Write conn sql)))).
    intros s'. destruct (sc_conn s') eqn:E; [left|by right]. cbn. rewrite E. cbn.
    split; [done|]. intros s2. split; [done|]. intros _. split; [done|].
    intros s3 [a|e] _ Hr; cbn; (eexists; split; [constructor|done]).
Qed.

(** ** The invariant of the event loop

    The locks are held by exactly the coroutines whose phase says so. *)
Definition held (hs : list phase) (s : StoreState) : Prop :=
  (∀ l, locked l s = true ↔ ∃ i, hs !! i = Some (Some l)) ∧
  (∀ i j l, hs !! i = Some (Some l) → hs !! j = Some (Some l) → i = j).

Definition suspended {A} (p : co A) : Prop :=
  match p with CGet _ | CPut _ _ => False | _ => True end.

Definition task_safe (s : StoreState) (t : task) (h : phase) : Prop :=
  match t with Task A p => suspended p ∧ safe p h s end.

(** A suspended coroutine minds a change of the store only while it opens the connection. *)
Lemma safe_suspended {A} (p : co A) h s s' :
  suspended p → safe p h s → (h = Some ConnectLock → sc_conn s = None → sc_conn s' = None) →
  safe p h s'.
Proof.
  destruct p as [a|e| | |l k|j k]; cbn; try done. intros _ [Hj Hk] Hc. split; [|done].
  destruct j; cbn in *; try done. destruct Hj as [-> Hn]. auto.
Qed.

(** The coroutines besides the [i]th. *)
Definition others (ts : list task) (hs : list phase) (i : nat) (s : StoreState) : Prop :=
  ∀ j t h, j ≠ i → ts !! j = Some t → hs !! j = Some h → task_safe s t h.

Lemma others_weaken ts hs i s s' :
  others ts hs i s →
  (∀ j, j ≠ i → hs !! j = Some (Some ConnectLock) → sc_conn s = None → sc_conn s' = None) →
  others ts hs i s'.
Proof.
  intros Ho Hc j [A p] h Hj Ht Hh. destruct (Ho j _ h Hj Ht Hh) as [Hsu Hs]. split; [done|].
  eapply safe_suspended; [done..|]. intros -> Hn. by apply (Hc j).
Qed.

Lemma others_phase ts hs i s h : others ts hs i s → others ts (<[i := h]> hs) i s.
Proof. intros Ho j t h' Hj Ht Hh. rewrite list_lookup_insert_ne in Hh by done. eauto. Qed.

Lemma held_take hs s i l :
  held hs s → hs !! i = Some None → locked l s = false →
  held (<[i := Some l]> hs) (set_lock l true s).
Proof.
  intros [Hl Hu] Hi Hf. assert (i < length hs)%nat as Hlt by by eapply lookup_lt_Some.
  assert (∀ j, hs !! j ≠ Some (Some l)) as Hn.
  { intros j Hj. assert (locked l s = true) by (apply Hl; eauto). congruence. }
  split.
  - intros l'. destruct (decide (l' = l)) as [->|Hne].
    + split; [|by destruct l]. intros _. exists i. by apply list_lookup_insert_eq.
    + transitivity (locked l' s = true); [by destruct l, l'|]. rewrite Hl. split.
      * intros [j Hj]. exists j. rewrite list_lookup_insert_ne; [done|]. congruence.
      * intros [j [(?&?&?)|[??]]%list_lookup_insert_Some]; [congruence|eauto].
  - intros j1 j2 l' [(?&?&?)|[??]]%list_lookup_insert_Some
      [(?&?&?)|[??]]%list_lookup_insert_Some; simplify_eq; eauto; naive_solver.
Qed.

Lemma held_release hs s i l :
  held hs s → hs !! i = Some (Some l) → held (<[i := None]> hs) (set_lock l false s).
Proof.
  intros [Hl Hu] Hi. split.
  - intros l'. destruct (decide (l' = l)) as [->|Hne].
    + split; [by destruct l|]. intros [j [(?&?&?)|[Hj ?]]%list_lookup_insert_Some]; [done|].
      destruct Hj. by eapply Hu.
    + transitivity (locked l' s = true); [by destruct l, l'|]. rewrite Hl. split.
      * intros [j Hj]. exists j. rewrite list_lookup_insert_ne; [done|]. congruence.
      * intros [j [(?&?&?)|[??]]%list_lookup_insert_Some]; [done|eauto].
  - intros j1 j2 l' [(?&?&?)|[??]]%list_lookup_insert_Some
      [(?&?&?)|[??]]%list_lookup_insert_Some; simplify_eq; eauto.
Qed.

Lemma held_move hs s i h s' h' :
  held hs s → hs !! i = Some h → move h s h' s' → held (<[i := h']> hs) s'.
Proof.
  intros Hh Hi Hm. destruct Hm as [h s c Hc|l s].
  - rewrite list_insert_id by done. destruct Hh as [Hl Hu]. split; [|done].
    intros l. rewrite <-Hl. by destruct l.
  - by apply held_release.
Qed.

Lemma others_move ts hs i h s h' s' :
  held hs s → hs !! i = Some h → move h s h' s' → others ts hs i s →
  others ts (<[i := h']> hs) i s'.
Proof.
  intros [_ Hu] Hi Hm Ho. apply others_phase. eapply others_weaken; [done|].
  intros j Hj Hc Hn. destruct Hm as [h0 s0 c Hor|l s0]; [|by destruct l].
  cbn. destruct Hor as [->|[->| ->]]; [done..|]. destruct Hj. by eapply Hu.
Qed.

(** A coroutine that runs to its next suspension keeps the invariant. *)
Lemma loop_segment {A} (p : co A) s p' s' ts hs i h :
  segment p s p' s' → held hs s → hs !! i = Some h → others ts hs i s → safe p h s →
  ∃ h', held (<[i := h']> hs) s' ∧ others ts (<[i := h']> hs) i s' ∧ suspended p' ∧ safe p' h' s'.
Proof.
  intros Hseg. revert hs h.
  induction Hseg as [a s|e s|k s p' s' _ IH|s1 p s p' s' _ IH|l k s p' s' Hf _ IH|l k s|j k s];
    intros hs h Hh Hi Ho Hp.
  1,2,6,7: exists h; rewrite list_insert_id by done; done.
  - by apply (IH hs h).
  - destruct Hp as (h1 & Hm & Hp).
    destruct (IH (<[i := h1]> hs) h1) as (h' & ? & ? & ? & ?); [..|].
    + by eapply held_move.
    + by eapply list_lookup_insert_eq, lookup_lt_Some.
    + by eapply others_move.
    + done.
    + exists h'. by rewrite list_insert_insert_eq in *.
  - destruct Hp as (-> & Hp).
    destruct (IH (<[i := Some l]> hs) (Some l)) as (h' & ? & ? & ? & ?); [..|].
    + by apply held_take.
    + by eapply list_lookup_insert_eq, lookup_lt_Some.
    + apply others_phase. eapply others_weaken; [done|]. by destruct l.
    + by apply Hp.
    + exists h'. by rewrite list_insert_insert_eq in *.
Qed.

Definition loop_ok (c : config) : Prop :=
  ∃ hs, held hs (store c) ∧ Forall2 (task_safe (store c)) (tasks c) hs.

(** Putting the coroutine that ran back among the others. *)
Lemma loop_ok_put ts os s i A (p : co A) hs h :
  (i < length ts)%nat → length hs = length ts →
  held (<[i := h]> hs) s → others ts (<[i := h]> hs) i s → suspended p → safe p h s →
  loop_ok (Config (<[i := Task A p]> ts) os s).
Proof.
  intros Hi Hlen Hh Ho Hsu Hp. exists (<[i := h]> hs). split; [done|]. cbn.
  apply Forall2_same_length_lookup. split; [by rewrite !length_insert|].
  intros j t h' [(<-&<-&?)|[Hne Ht]]%list_lookup_insert_Some Hh'.
  - rewrite list_lookup_insert_eq in Hh' by lia. by simplify_eq.
  - by apply (Ho j).
Qed.

Lemma loop_resume ts os s i A (p p' : co A) s' hs h t :
  held hs s → Forall2 (task_safe s) ts hs → ts !! i = Some t → hs !! i = Some h →
  segment p s p' s' → safe p h s →
  loop_ok (Config (<[i := Task A p']> ts) os s').
Proof.
  intros Hh Hts Hi Hhi Hseg Hp. pose proof (Forall2_length _ _ _ Hts) as Hlen.
  assert (others ts hs i s) as Ho.
  { intros j t' h' _ Ht Hh'. by eapply Forall2_lookup_lr. }
  destruct (loop_segment p s p' s' ts hs i h) as (h' & ? & ? & ? & ?); auto.
  eapply loop_ok_put; eauto using lookup_lt_Some.
Qed.

Lemma held_start hs s : held hs s → held (hs ++ [None]) s.
Proof.
  intros [Hl Hu]. split.
  - intros l. rewrite Hl. split.
    + intros [i Hi]. exists i. by apply lookup_app_l_Some.
    + intros [i [Hi|[_ Hi]]%lookup_app_Some]; [eauto|]. by apply list_lookup_singleton_Some in Hi as [_ ?].
  - intros i j l [Hi|[_ Hi]]%lookup_app_Some [Hj|[_ Hj]]%lookup_app_Some;
      try (by apply list_lookup_singleton_Some in Hi as [_ ?]);
      try (by apply list_lookup_singleton_Some in Hj as [_ ?]); eauto.
Qed.

Lemma loop_step c c' : loop_ok c → sched c c' → loop_ok c'.
Proof.
  intros (hs & Hh & Hts) Hs. pose proof (Forall2_length _ _ _ Hts) as Hlen.
  destruct Hs as [ts os s A p p' s' Hm Hseg|ts os s i A l k p' s' Hi Hf Hseg
    |ts os s i A j k r p' s' Hi Hr Hseg|ts os s i A l k p' s' Hi Hseg
    |ts os s i A j k p' s' Hi Hseg|ts os1 j os2 s]; cbn in *.
  - assert ((ts ++ [Task A p]) !! length ts = Some (Task A p)) as Hl by by apply list_lookup_middle.
    assert ((hs ++ [None]) !! length ts = Some None) as Hn by by apply list_lookup_middle.
    destruct (loop_segment p s p' s' ts (hs ++ [None]) (length ts) None)
      as (h' & Hh' & Ho' & Hsu & Hp'); [done|by apply held_start|done| |by apply (method_safe _ s Hm)|].
    { intros j t h Hj Ht Hhj. rewrite lookup_app_l in Hhj by (apply lookup_lt_Some in Ht; lia).
      by eapply Forall2_lookup_lr. }
    replace (ts ++ [Task A p']) with (<[length ts := Task A p']> (ts ++ [Task A p]))
      by by rewrite insert_app_r_alt, Nat.sub_diag.
    apply (loop_ok_put _ _ _ _ _ _ (hs ++ [None]) h'); try done.
    + rewrite length_app. cbn. lia.
    + rewrite !length_app. cbn. lia.
    + intros j t h Hj [Ht|[? Ht]]%lookup_app_Some Hhj; [by apply (Ho' j)|].
      apply list_lookup_singleton_Some in Ht as [? _]. lia.
  - destruct (Forall2_lookup_l _ _ _ _ _ Hts Hi) as (h & Hhi & _ & -> & Hp).
    destruct (Hp s) as [_ Hp']. specialize (Hp' Hf).
    assert (others ts hs i s) as Ho.
    { intros j t' h' _ Ht Hh'. by eapply Forall2_lookup_lr. }
    destruct (loop_segment _ _ _ _ ts hs i None
      (seg_take l k s p' s' Hf Hseg) Hh Hhi Ho) as (h' & ? & ? & ? & ?).
    { split; [done|]. exact Hp. }
    eapply loop_ok_put; eauto using lookup_lt_Some.
  - destruct (Forall2_lookup_l _ _ _ _ _ Hts Hi) as (h & Hhi & _ & Hj & Hp).
    eapply loop_resume; eauto. apply Hp; [|done]. destruct j; cbn in *; tauto.
  - destruct (Forall2_lookup_l _ _ _ _ _ Hts Hi) as (h & Hhi & _ & -> & Hp).
    eapply loop_resume; eauto. apply Hp.
  - destruct (Forall2_lookup_l _ _ _ _ _ Hts Hi) as (h & Hhi & _ & Hj & Hp).
    destruct (loop_resume ts os s i A (k (Err cancelled)) p' s' hs h (Task A (CThread j k)))
      as (hs' & ? & ?); try done; [|by exists hs'].
    apply Hp; [|done]. destruct j; cbn in *; tauto.
  - by exists hs.
Qed.

Lemma loop_reachable c : reachable c → loop_ok c.
Proof.
  unfold reachable. intros Hr.
  assert (loop_ok (Config [] [] store_init)) as H0.
  { exists []. split; [|constructor]. split; [|by intros i j l Hi; rewrite lookup_nil in Hi].
    intros l. split; [by destruct l|]. intros [i Hi]. by rewrite lookup_nil in Hi. }
  revert H0. induction Hr; eauto using loop_step.
Qed.

(** ** Claims *)

(** The job a coroutine waits for. *)
Definition job_of (t : task) : option job :=
  match t with Task _ (CThread j _) => Some j | _ => None end.

Definition raised (t : task) : option exn :=
  match t with Task _ (CRaise e) => Some e | _ => None end.

Definition is_write (j : job) : Prop := match j with Write _ _ => True | _ => False end.


Ltac run_segment :=
  cbn; repeat (first [apply seg_thread | apply seg_ret | apply seg_raise | apply seg_get | apply seg_put
                     | (apply seg_take; [reflexivity|])]; cbn).

(** One coroutine writes, on the connection it opened, while another reads. *)
Lemma read_beside_write :
  { c | reachable c ∧ orphans c = [] ∧
        job_of <$> tasks c = [Some (Write 5 1); Some (Read 5 2)] }.
Proof.
  unfold reachable. eexists. split; [|split].
  - eapply rtc_l; [eapply sched_start; [apply (m_write 1)|run_segment]|].
    eapply rtc_l; [eapply (sched_thread _ _ _ 0 _ _ _ (Ok 5%nat)); [reflexivity|exact I|run_segment]|].
    eapply rtc_l; [eapply sched_start; [apply (m_rows 2)|run_segment]|].
    apply rtc_refl.
  - reflexivity.
  - reflexivity.
Defined.

(** The comment "the single connection is never used by two threads at once" does not hold:
    a reader does not take the write lock, and the thread of a cancelled writer goes on after
    the writer has released it. *)
Lemma connection_shared :
  (∃ c conn w r, reachable c ∧ orphans c = [] ∧
     job_of <$> tasks c = [Some (Write conn w); Some (Read conn r)]) ∧
  (∃ c conn w w', reachable c ∧ orphans c = [Write conn w] ∧ Some (Write conn w') ∈ job_of <$> tasks c).
Proof.
  split.
  - destruct read_beside_write as (c & ? & ? & ?). by exists c, 5%nat, 1%nat, 2%nat.
  - eexists _, 5%nat, 1%nat, 2%nat. split; [|split].
    + eapply rtc_l; [eapply sched_start; [apply (m_write 1)|run_segment]|].
      eapply rtc_l; [eapply (sched_thread _ _ _ 0 _ _ _ (Ok 5%nat)); [reflexivity|exact I|run_segment]|].
      eapply rtc_l; [eapply (sched_cancel_thread _ _ _ 0); [reflexivity|run_segment]|].
      eapply rtc_l; [eapply sched_start; [apply (m_write 2)|run_segment]|].
      apply rtc_refl.
    + reflexivity.
    + cbn. set_solver.
Qed.

