(* ===== verification/Json.v ===== *)
(** * json.dumps and json.loads

    The store keeps dictionaries as JSON text.  [dumps] is Python's default encoder (ASCII
    output, [", "] and [": "] separators, [repr] of floats), [loads] its decoder; text is the
    list of its code points.  The decoder is defined by fuel; the length of the text is enough,
    since every recursive call consumes a character. *)
From Stdlib Require Import SpecFloat.
From S2P Require Import Prelude PyFloat PyText.

(** ** The encoder *)
Definition hex4 (c : Z) : list Z :=
  [hex_digit (c / 4096); hex_digit (c / 256 mod 16); hex_digit (c / 16 mod 16); hex_digit (c mod 16)].

(** [ESCAPE_DCT]: the escapes by one letter, the escaped character with its letter. *)
Definition escapes : list (Z * Z) :=
  [(34, 34); (92, 92); (10, 110); (13, 114); (9, 116); (12, 102); (8, 98)].

Definition short_escape (c : Z) : option Z := snd <$> head (filter (λ p, p.1 = c) escapes).
Definition short_unescape (c : Z) : option Z :=
  if c =? 47 then Some 47 else fst <$> head (filter (λ p, p.2 = c) escapes).

Definition json_char (c : Z) : list Z :=
  match short_escape c with
  | Some letter => [92; letter]
  | None =>
      if between 32 126 c then [c]
      else if c <? 65536 then 92 :: 117 :: hex4 c
      else 92 :: 117 :: hex4 (55296 + (c - 65536) / 1024) ++
           92 :: 117 :: hex4 (56320 + (c - 65536) mod 1024)
  end.

Definition json_string (s : string) : list Z := 34 :: (decode s ≫= json_char) ++ [34].

Definition json_float (x : f64) : list Z :=
  match x with
  | S754_nan => bytes_of "NaN"
  | S754_infinity s => bytes_of (if s then "-Infinity" else "Infinity")
  | _ => bytes_of (float_repr x)
  end.

Fixpoint separated (sep : list Z) (l : list (list Z)) : list Z :=
  match l with [] => [] | [x] => x | x :: l => x ++ sep ++ separated sep l end.

(** [item_separator] *)
Definition comma_space : list Z := [44; 32].

Fixpoint json_text (v : json) : list Z :=
  match v with
  | JNull => bytes_of "null"
  | JBool b => bytes_of (if b then "true" else "false")
  | JInt z => bytes_of (string_of_Z z)
  | JFloat x => json_float x
  | JStr s => json_string s
  | JList l => 91 :: separated comma_space (map json_text l) ++ [93]
  | JObj l => 123 :: separated comma_space
                (map (λ kv, json_string kv.1 ++ [58; 32] ++ json_text kv.2) l) ++ [125]
  end.

Definition dumps (v : json) : string := of_bytes (json_text v).

(** ** The decoder *)

(** [JSONDecodeError], a subclass of [ValueError]. *)
Definition bad_json : exn := Exn (OtherError true) "JSONDecodeError".

Definition is_dig (c : Z) : bool := between 48 57 c.

Fixpoint digits (l : list Z) : list Z * list Z :=
  match l with
  | c :: l' => if is_dig c then let '(ds, r) := digits l' in (c :: ds, r) else ([], l)
  | [] => ([], [])
  end.

Definition value_of (ds : list Z) : Z := foldl (λ a c, 10 * a + (c - 48)) 0 ds.

(** The text after the character [c], if the text begins with it. *)
Definition eat (c : Z) (l : list Z) : option (list Z) :=
  match l with d :: l' => if d =? c then Some l' else None | [] => None end.

(** The groups of [NUMBER_RE]. *)
Definition int_part (l : list Z) : option (list Z * list Z) :=
  match eat 48 l with
  | Some l' => Some ([48], l')
  | None => match digits l with ([], _) => None | dr => Some dr end
  end.

Definition frac_part (l : list Z) : option (list Z) * list Z :=
  match eat 46 l with
  | Some l' => match digits l' with ([], _) => (None, l) | (ds, r) => (Some ds, r) end
  | None => (None, l)
  end.

Definition sign_part (l : list Z) : bool * list Z :=
  match eat 45 l with
  | Some l' => (true, l')
  | None => (false, default l (eat 43 l))
  end.

Definition exp_part (l : list Z) : option Z * list Z :=
  match (match eat 101 l with Some l' => Some l' | None => eat 69 l end) with
  | Some l1 =>
      let '(neg, l2) := sign_part l1 in
      match digits l2 with ([], _) => (None, l) | (ds, r) => (Some (signed neg (value_of ds)), r) end
  | None => (None, l)
  end.

Definition unsigned (neg : bool) (l : list Z) : option (json * list Z) :=
  '(ds, l1) ← int_part l;
  let '(frac, l2) := frac_part l1 in
  let '(ex, l3) := exp_part l2 in
  Some (match frac, ex with
        | None, None => JInt (signed neg (value_of ds))
        | _, _ => JFloat (float_of_dec neg (value_of (ds ++ default [] frac))
                            (default 0 ex - Z.of_nat (length (default [] frac))))
        end, l3).

Definition number (l : list Z) : option (json * list Z) :=
  match eat 45 l with Some l' => unsigned true l' | None => unsigned false l end.

Definition unhex (c : Z) : option Z :=
  if is_dig c then Some (c - 48) else if between 97 102 c then Some (c - 87)
  else if between 65 70 c then Some (c - 55) else None.

Definition unhex4 (a b c d : Z) : option Z :=
  a ← unhex a; b ← unhex b; c ← unhex c; d ← unhex d;
  Some (((a * 16 + b) * 16 + c) * 16 + d).

(** The body of a string, up to its closing quote, and the text after it. *)
Fixpoint scan_string (l : list Z) : option (list Z * list Z) :=
  match l with
  | 34 :: l' => Some ([], l')
  | 92 :: 117 :: a :: b :: c :: d :: l' =>
      x ← unhex4 a b c d; '(s, r) ← scan_string l'; Some (x :: s, r)
  | 92 :: c :: l' => x ← short_unescape c; '(s, r) ← scan_string l'; Some (x :: s, r)
  | c :: l' => if c <? 32 then None else '(s, r) ← scan_string l'; Some (c :: s, r)
  | [] => None
  end.

(** The two escapes of a surrogate pair are one character. *)
Fixpoint join_pairs (l : list Z) : list Z :=
  match l with
  | a :: (b :: l') as l0 =>
      if between 55296 56319 a && between 56320 57343 b
      then 65536 + (a - 55296) * 1024 + (b - 56320) :: join_pairs l'
      else a :: join_pairs l0
  | _ => l
  end.

Definition parse_string (l : list Z) : res (string * list Z) :=
  match scan_string l with
  | Some (s, r) => Ok (encode (join_pairs s), r)
  | None => Err bad_json
  end.

Definition is_ws (c : Z) : bool := (c =? 32) || (c =? 9) || (c =? 10) || (c =? 13).

Fixpoint skip_ws (l : list Z) : list Z :=
  match l with c :: l' => if is_ws c then skip_ws l' else l | [] => [] end.

(** A text that begins with a constant's name. *)
Fixpoint after (name l : list Z) : option (list Z) :=
  match name, l with
  | [], _ => Some l
  | c :: name, d :: l => if c =? d then after name l else None
  | _, [] => None
  end.

Definition constants : list (string * json) :=
  [("null", JNull); ("true", JBool true); ("false", JBool false); ("NaN", JFloat S754_nan);
   ("Infinity", JFloat (S754_infinity false)); ("-Infinity", JFloat (S754_infinity true))]%string.

Definition constant (l : list Z) : option (json * list Z) :=
  head (omap (λ nv : string * json, r ← after (bytes_of nv.1) l; Some (nv.2, r)) constants).

(** No constant begins as a number does, so the order of the two tests is immaterial. *)
Definition scalar (l : list Z) : res (json * list Z) :=
  match number l with
  | Some vr => Ok vr
  | None => match constant l with Some vr => Ok vr | None => Err bad_json end
  end.

Fixpoint value (fuel : nat) (l : list Z) : res (json * list Z) :=
  match fuel with
  | O => Err bad_json
  | S f =>
      match l with
      | 34 :: l => '(s, r) ← parse_string l; Ok (JStr s, r)
      | 91 :: l =>
          match skip_ws l with
          | 93 :: r => Ok (JList [], r)
          | l => '(vs, r) ← elements f l; Ok (JList vs, r)
          end
      | 123 :: l =>
          match skip_ws l with
          | 125 :: r => Ok (JObj [], r)
          | l => '(d, r) ← members f l []; Ok (JObj d, r)
          end
      | l => scalar l
      end
  end
with elements (fuel : nat) (l : list Z) : res (list json * list Z) :=
  match fuel with
  | O => Err bad_json
  | S f =>
      '(v, r) ← value f l;
      match skip_ws r with
      | 93 :: r => Ok ([v], r)
      | 44 :: r => '(vs, r) ← elements f (skip_ws r); Ok (v :: vs, r)
      | _ => Err bad_json
      end
  end
with members (fuel : nat) (l : list Z) (d : dict string json) : res (dict string json * list Z) :=
  match fuel with
  | O => Err bad_json
  | S f =>
      match l with
      | 34 :: l =>
          '(k, r) ← parse_string l;
          match skip_ws r with
          | 58 :: r =>
              '(v, r) ← value f (skip_ws r);
              match skip_ws r with
              | 125 :: r => Ok (dset d k v, r)
              | 44 :: r => members f (skip_ws r) (dset d k v)
              | _ => Err bad_json
              end
          | _ => Err bad_json
          end
      | _ => Err bad_json
      end
  end.

(** [json.loads]: nothing but white space may follow the value. *)
Definition loads (s : string) : res json :=
  let l := skip_ws (decode s) in
  '(v, r) ← value (length l) l;
  match skip_ws r with [] => Ok v | _ => Err bad_json end.

(** Text written with single quotes for the double ones. *)
Definition quoted (s : string) : string :=
  of_bytes ((λ c, if c =? 39 then 34 else c) <$> bytes_of s).

Example loads_nested :
  loads (quoted " { 'a' : [1, -25e-1, '\u00e9\ud83d\ude00\n'], 'b': {}, 'c' :true, 'b': null} ") =
  Ok (JObj [("a", JList [JInt 1; JFloat (fneg (dec 25 (-1))); JStr (encode [233; 128512; 10])]);
            ("b", JNull); ("c", JBool true)]%string).
Proof. vm_compute. reflexivity. Qed.
Example loads_rejects :
  (is_ok ∘ loads) <$> [quoted "[1,]"; "01"; "[1"; "nul"; ""; quoted "{'a'}"; "1 2"; "-"; "1."]%string =
  replicate 9 false.
Proof. vm_compute. reflexivity. Qed.
Example dumps_nested :
  dumps (JObj [("a", JList [JInt (-7); JFloat (dec 1 22); JStr (encode [233; 128512; 10])]);
               ("b", JNull)]%string) =
  quoted "{'a': [-7, 1e+22, '\u00e9\ud83d\ude00\n'], 'b': null}".
Proof. vm_compute. reflexivity. Qed.

(** ** The round trip

    [json_ok] says of a value that Python could hold it and that JSON keeps it: the keys of a
    dictionary are distinct, a string is a sequence of Unicode scalar values, and the [repr]
    of a float reads back as that float (checked by evaluation, float by float). *)
Definition scalar_point (c : Z) : bool :=
  between 0 55295 c || between 57344 1114111 c.

Definition string_ok (s : string) : bool :=
  forallb scalar_point (decode s) && String.eqb (encode (decode s)) s.

Definition ascii_text (l : list Z) : bool := forallb (λ c, (0 <=? c) && (c <? 128)) l.

Definition float_ok (x : f64) : bool :=
  match x with
  | S754_nan | S754_infinity _ => true
  | _ =>
      let l := bytes_of (float_repr x) in
      ascii_text l &&
      match number l with Some (JFloat y, []) => bool_decide (y = x) | _ => false end
  end.

Fixpoint json_ok (v : json) : bool :=
  match v with
  | JNull | JBool _ | JInt _ => true
  | JFloat x => float_ok x
  | JStr s => string_ok s
  | JList l => forallb json_ok l
  | JObj l => bool_decide (NoDup l.*1) && forallb (λ kv, string_ok kv.1 && json_ok kv.2) l
  end.

(** *** Numbers *)

(** What may follow a number: the end, or a character no number contains. *)
Definition stops (r : list Z) : Prop :=
  match r with
  | [] => True
  | c :: _ => is_dig c = false ∧ (c =? 46) = false ∧ (c =? 101) = false ∧ (c =? 69) = false
  end.

Lemma digits_app l r : stops r → digits (l ++ r) = ((digits l).1, (digits l).2 ++ r).
Proof.
  intros Hr. induction l as [|c l IH]; cbn.
  - destruct r as [|c r]; cbn; [done|]. by destruct Hr as [-> _].
  - destruct (is_dig c); [|done]. rewrite IH. by destruct (digits l).
Qed.

Lemma eat_app c l r :
  eat c (l ++ r) = match l with [] => eat c r | _ => (λ b, b ++ r) <$> eat c l end.
Proof. destruct l as [|d l]; [done|]. cbn. by destruct (d =? c). Qed.

Lemma int_part_app l r ds b :
  stops r → int_part l = Some (ds, b) → int_part (l ++ r) = Some (ds, b ++ r).
Proof.
  intros Hr. unfold int_part. rewrite eat_app, digits_app by done.
  destruct l as [|c l]; [done|]. destruct (eat 48 (c :: l)); cbn -[digits]; [congruence|].
  destruct (digits (c :: l)) as [[|d ds'] b']; [done|]. cbn. congruence.
Qed.

Lemma frac_part_app l r : stops r → frac_part (l ++ r) = ((frac_part l).1, (frac_part l).2 ++ r).
Proof.
  intros Hr. unfold frac_part. rewrite eat_app. destruct l as [|c l].
  - destruct r as [|c r]; [done|]. destruct Hr as (_ & Hc & _). cbn. by rewrite Hc.
  - destruct (eat 46 (c :: l)) as [l'|]; [|done]. cbn -[digits]. rewrite digits_app by done.
    by destruct (digits l') as [[|d ds] b].
Qed.

Lemma sign_part_app l r : l ≠ [] → sign_part (l ++ r) = ((sign_part l).1, (sign_part l).2 ++ r).
Proof.
  intros Hl. unfold sign_part. rewrite !eat_app. destruct l as [|c l]; [done|].
  destruct (eat 45 (c :: l)); [done|]. cbn. by destruct (c =? 43).
Qed.

Lemma exp_part_app l r :
  stops r → (exp_part l).2 = [] → exp_part (l ++ r) = ((exp_part l).1, r).
Proof.
  intros Hr. unfold exp_part. rewrite !eat_app. destruct l as [|c l].
  - destruct r as [|c r]; [done|]. destruct Hr as (_ & _ & H1 & H2). cbn. by rewrite H1, H2.
  - intros Hn.
    assert (∀ l', (let '(neg, l2) := sign_part l' in
        match digits l2 with ([], _) => (None, c :: l) | (ds, r0) => (Some (signed neg (value_of ds)), r0) end).2
        = [] →
      (let '(neg, l2) := sign_part (l' ++ r) in
        match digits l2 with ([], _) => (None, c :: l ++ r) | (ds, r0) => (Some (signed neg (value_of ds)), r0) end)
      = ((let '(neg, l2) := sign_part l' in
        match digits l2 with ([], _) => (None, c :: l) | (ds, r0) => (Some (signed neg (value_of ds)), r0) end).1, r)) as H.
    { intros [|d l'] H1; [done|]. rewrite sign_part_app by done.
      destruct (sign_part (d :: l')) as [neg l2]. cbn [fst snd]. rewrite digits_app by done.
      destruct (digits l2) as [[|d' ds] b]; [done|]. cbn in *. by subst. }
    destruct (eat 101 (c :: l)) as [l'|]; cbn [fmap option_fmap option_map]; [by apply H|].
    destruct (eat 69 (c :: l)) as [l'|]; cbn [fmap option_fmap option_map]; [by apply H|done].
Qed.

Lemma unsigned_app neg l r v :
  stops r → unsigned neg l = Some (v, []) → unsigned neg (l ++ r) = Some (v, r).
Proof.
  intros Hr. unfold unsigned. intros H. destruct (int_part l) as [[ds l1]|] eqn:E; [|done].
  rewrite (int_part_app _ _ _ _ Hr E). cbn in *. rewrite frac_part_app by done.
  destruct (frac_part l1) as [frac l2]. cbn in *. destruct (exp_part l2) as [ex l3] eqn:E3.
  simplify_eq. rewrite exp_part_app by (by rewrite ?E3). by rewrite E3.
Qed.

Lemma number_app l r v : stops r → number l = Some (v, []) → number (l ++ r) = Some (v, r).
Proof.
  intros Hr. unfold number. rewrite eat_app. destruct l as [|c l]; [done|].
  destruct (eat 45 (c :: l)); by apply unsigned_app.
Qed.

(** *** Integers *)
Lemma digits_all ds : forallb is_dig ds = true → digits ds = (ds, []).
Proof.
  induction ds as [|c ds IH]; [done|]. cbn. intros [-> H]%andb_true_iff. by rewrite IH.
Qed.

Lemma pretty_char_digit x :
  (x < 10)%N → codepoint (pretty_N_char x) = 48 + Z.of_N x ∧ is_dig (codepoint (pretty_N_char x)) = true.
Proof.
  intros Hx. assert (x ∈ (N.of_nat <$> seq 0 10)) as Hin.
  { apply list_elem_of_fmap. exists (N.to_nat x). rewrite elem_of_seq. lia. }
  revert Hin. cbn. rewrite !elem_of_cons, elem_of_nil. intros. by repeat destruct_or?; subst.
Qed.

Lemma value_of_snoc ds c : value_of (ds ++ [c]) = 10 * value_of ds + (c - 48).
Proof. unfold value_of. by rewrite foldl_app. Qed.

(** What [pretty] adds in front of a text: the digits of a positive number, without a leading
    zero. *)
Lemma pretty_go_digits x s :
  (0 < x)%N → ∃ c ds, bytes_of (pretty_N_go x s) = c :: ds ++ bytes_of s ∧
    forallb is_dig (c :: ds) = true ∧ c ≠ 48 ∧ value_of (c :: ds) = Z.of_N x.
Proof.
  revert s. induction (N.lt_wf_0 x) as [x _ IH]. intros s Hx.
  rewrite pretty_N_go_step by done.
  destruct (pretty_char_digit (x mod 10)%N) as [Hc Hd]; [by apply N.mod_lt|].
  set (d := pretty_N_char (x mod 10)) in *.
  destruct (decide (x < 10)%N) as [Hlt|Hge].
  - rewrite N.div_small by done. rewrite pretty_N_go_0. exists (codepoint d), []. cbn.
    rewrite Hd. split_and!; try done; rewrite Hc, N.mod_small by done; [lia|].
    unfold value_of. cbn. lia.
  - destruct (IH (x / 10)%N) with (s := String d s) as (c & ds & Hb & Hall & Hne & Hv).
    { apply N.div_lt; lia. }
    { apply N.div_str_pos. lia. }
    exists c, (ds ++ [codepoint d]). rewrite Hb. split_and!; try done.
    + cbn. by rewrite <-app_assoc.
    + change (c :: ds ++ [codepoint d]) with ((c :: ds) ++ [codepoint d]).
      rewrite forallb_app, Hall. cbn. by rewrite Hd.
    + change (c :: ds ++ [codepoint d]) with ((c :: ds) ++ [codepoint d]).
      rewrite value_of_snoc, Hv, Hc.
      rewrite N2Z.inj_mod, N2Z.inj_div. pose proof (Z.div_mod (Z.of_N x) 10). lia.
Qed.

Lemma unsigned_digits neg c ds :
  forallb is_dig (c :: ds) = true → c ≠ 48 →
  unsigned neg (c :: ds) = Some (JInt (signed neg (value_of (c :: ds))), []).
Proof.
  intros Hd Hc. unfold unsigned, int_part. cbn [eat]. destruct (Z.eqb_spec c 48); [done|].
  by rewrite digits_all.
Qed.

Lemma number_int z : number (bytes_of (string_of_Z z)) = Some (JInt z, []).
Proof.
  destruct z as [|p|p]; [done| |];
    destruct (pretty_go_digits (N.pos p) "") as (c & ds & Hb & Hd & Hc & Hv); try lia;
    cbn [bytes_of] in Hb; rewrite app_nil_r in Hb; unfold number.
  - change (string_of_Z (Z.pos p)) with (pretty_N_go (N.pos p) ""). rewrite Hb. cbn [eat].
    destruct (Z.eqb_spec c 45) as [->|_]; [done|]. rewrite unsigned_digits by done. by rewrite Hv.
  - change (bytes_of (string_of_Z (Z.neg p))) with (45 :: bytes_of (pretty_N_go (N.pos p) "")).
    rewrite Hb. cbn [eat]. rewrite Z.eqb_refl, unsigned_digits by done. by rewrite Hv.
Qed.

Lemma dig_ascii l : forallb is_dig l = true → ascii_text l = true.
Proof.
  unfold ascii_text. rewrite !forallb_forall. intros H c Hc%H.
  unfold is_dig, between in Hc. lia.
Qed.

Lemma int_ascii z : ascii_text (bytes_of (string_of_Z z)) = true.
Proof.
  destruct z as [|p|p]; [done| |];
    destruct (pretty_go_digits (N.pos p) "") as (c & ds & Hb & Hd & _ & _); try lia;
    cbn [bytes_of] in Hb; rewrite app_nil_r in Hb.
  - change (string_of_Z (Z.pos p)) with (pretty_N_go (N.pos p) ""). rewrite Hb. by apply dig_ascii.
  - change (bytes_of (string_of_Z (Z.neg p))) with (45 :: bytes_of (pretty_N_go (N.pos p) "")).
    rewrite Hb. change (ascii_text (45 :: c :: ds)) with (ascii_text (c :: ds)). by apply dig_ascii.
Qed.

(** *** Strings *)
Definition units (c : Z) : list Z :=
  if c <? 65536 then [c] else [55296 + (c - 65536) / 1024; 56320 + (c - 65536) mod 1024].

Lemma unhex_digit z : 0 ≤ z < 16 → unhex (hex_digit z) = Some z.
Proof.
  intros Hz. unfold unhex, hex_digit, is_dig, between.
  destruct (Z.ltb_spec z 10).
  - replace ((48 <=? 48 + z) && (48 + z <=? 57)) with true by lia. f_equal. lia.
  - replace ((48 <=? 87 + z) && (87 + z <=? 57)) with false by lia.
    replace ((97 <=? 87 + z) && (87 + z <=? 102)) with true by lia. f_equal. lia.
Qed.

Lemma scan_hex c r s b :
  0 ≤ c < 65536 → scan_string r = Some (s, b) →
  scan_string (92 :: 117 :: hex4 c ++ r) = Some (c :: s, b).
Proof.
  intros Hc Hr. cbn [scan_string hex4 app]. unfold unhex4.
  rewrite !unhex_digit by (Z.to_euclidean_division_equations; lia). cbn. rewrite Hr. cbn.
  do 2 f_equal. f_equal. Z.to_euclidean_division_equations. lia.
Qed.

Lemma scan_plain c r s b :
  32 ≤ c → c ≠ 34 → c ≠ 92 → scan_string r = Some (s, b) → scan_string (c :: r) = Some (c :: s, b).
Proof.
  intros Hc H1 H2 Hr.
  assert (scan_string (c :: r) = if c <? 32 then None else '(s, r) ← scan_string r; Some (c :: s, r)) as ->.
  { destruct c as [|p|p]; [done| |done]. cbn [scan_string]. by repeat case_match. }
  destruct (Z.ltb_spec c 32); [lia|]. by rewrite Hr.
Qed.

Lemma short_escape_cases c letter :
  short_escape c = Some letter → (c, letter) ∈ escapes.
Proof.
  unfold short_escape. destruct (head (filter _ escapes)) as [[c' l']|] eqn:E; [|done].
  cbn. intros [= <-].
  assert ((c', l') ∈ filter (λ p : Z * Z, p.1 = c) escapes) as Hin.
  { destruct (filter _ escapes); [done|]. cbn in E. simplify_eq. by constructor. }
  apply list_elem_of_filter in Hin as [Hc Hin]. cbn in Hc. by subst.
Qed.

Lemma scan_char c r s b :
  scalar_point c = true → scan_string r = Some (s, b) →
  scan_string (json_char c ++ r) = Some (units c ++ s, b).
Proof.
  intros Hs Hr. unfold json_char, units. unfold scalar_point, between in Hs.
  destruct (short_escape c) as [letter|] eqn:E.
  - apply short_escape_cases in E. unfold escapes in E. rewrite !elem_of_cons, elem_of_nil in E.
    repeat destruct E as [E|E]; simplify_eq; cbn [app scan_string]; by rewrite ?Hr.
  - assert (c ≠ 34 ∧ c ≠ 92) as [H1 H2] by (split; intros ->; discriminate E).
    unfold between. destruct ((32 <=? c) && (c <=? 126)) eqn:Ep.
    { replace (c <? 65536) with true by lia. apply scan_plain; lia || done. }
    destruct (Z.ltb_spec c 65536); [apply scan_hex; lia || done|].
    cbn [app]. rewrite <-app_assoc. cbn [app]. apply scan_hex; [Z.to_euclidean_division_equations; lia|].
    apply scan_hex; [Z.to_euclidean_division_equations; lia|done].
Qed.

Lemma scan_chars l r s b :
  forallb scalar_point l = true → scan_string r = Some (s, b) →
  scan_string ((l ≫= json_char) ++ r) = Some ((l ≫= units) ++ s, b).
Proof.
  intros Hl Hr. induction l as [|c l IH]; [done|]. cbn in *. apply andb_true_iff in Hl as [Hc Hl].
  rewrite <-!app_assoc. by apply scan_char; [|apply IH].
Qed.

Lemma join_single c l : between 55296 56319 c = false → join_pairs (c :: l) = c :: join_pairs l.
Proof. intros Hc. destruct l as [|d l]; [done|]. cbn. by rewrite Hc. Qed.

Lemma join_units l : forallb scalar_point l = true → join_pairs (l ≫= units) = l.
Proof.
  induction l as [|c l IH]; [done|]. cbn. intros [Hc Hl]%andb_true_iff.
  unfold scalar_point, between in Hc. unfold units at 1. destruct (Z.ltb_spec c 65536); cbn [app].
  - rewrite join_single; [by rewrite IH|]. unfold between. lia.
  - cbn [join_pairs]. unfold between.
    replace ((55296 <=? 55296 + (c - 65536) / 1024) && (55296 + (c - 65536) / 1024 <=? 56319) &&
      ((56320 <=? 56320 + (c - 65536) mod 1024) && (56320 + (c - 65536) mod 1024 <=? 57343))) with true
      by (symmetry; rewrite !andb_true_iff, !Z.leb_le; Z.to_euclidean_division_equations; lia).
    rewrite IH by done. f_equal. Z.to_euclidean_division_equations. lia.
Qed.

Lemma parse_json_string s r :
  string_ok s = true →
  parse_string ((decode s ≫= json_char) ++ 34 :: r) = Ok (s, r).
Proof.
  intros [Hs He]%andb_true_iff. unfold parse_string.
  rewrite (scan_chars _ (34 :: r) [] r) by done. rewrite app_nil_r, join_units by done.
  by apply String.eqb_eq in He as ->.
Qed.

(** *** Values *)
Lemma json_induction (P : json → Prop) :
  P JNull → (∀ b, P (JBool b)) → (∀ z, P (JInt z)) → (∀ x, P (JFloat x)) → (∀ s, P (JStr s)) →
  (∀ l, Forall P l → P (JList l)) → (∀ l, Forall (λ kv, P kv.2) l → P (JObj l)) → ∀ v, P v.
Proof.
  intros H1 H2 H3 H4 H5 H6 H7. fix IH 1. intros [|b|z|x|s|l|l].
  - apply H1.
  - apply H2.
  - apply H3.
  - apply H4.
  - apply H5.
  - apply H6. induction l as [|v l IHl]; constructor; [apply IH|apply IHl].
  - apply H7. induction l as [|[k v] l IHl]; constructor; [apply IH|apply IHl].
Qed.

(** A text that is neither a closing bracket, white space, a string nor a container. *)
Definition plain_head (l : list Z) : Prop :=
  match l with
  | c :: _ => is_ws c = false ∧ c ≠ 93 ∧ c ≠ 125 ∧ c ≠ 34 ∧ c ≠ 91 ∧ c ≠ 123
  | [] => False
  end.

Lemma number_head l v r : number l = Some (v, r) → plain_head l.
Proof.
  unfold number. destruct l as [|c l]; [done|]. cbn [eat plain_head].
  destruct (Z.eqb_spec c 45) as [->|_]; [intros _; split_and!; done|].
  unfold unsigned, int_part. cbn [eat]. destruct (Z.eqb_spec c 48) as [->|_].
  { intros _. split_and!; done. }
  cbn [digits]. destruct (is_dig c) eqn:E; [|done]. intros _.
  unfold is_dig, between, is_ws in *. split_and!; lia.
Qed.

Lemma value_scalar f l : plain_head l → value (S f) l = scalar l.
Proof.
  destruct l as [|c l]; [done|]. intros (_ & _ & _ & H1 & H2 & H3). cbn [value].
  destruct c as [|p|p]; try done. by repeat case_match.
Qed.

Lemma scalar_number l v r : stops r → number l = Some (v, []) → scalar (l ++ r) = Ok (v, r).
Proof. intros Hr H. unfold scalar. by rewrite (number_app _ _ _ Hr H). Qed.

Lemma value_number f l v r :
  stops r → number l = Some (v, []) → value (S f) (l ++ r) = Ok (v, r).
Proof.
  intros Hr H. rewrite value_scalar; [by apply scalar_number|].
  by eapply number_head, number_app.
Qed.

Lemma value_constant f (name : string) v r :
  (name, v) ∈ constants → value (S f) (bytes_of name ++ r) = Ok (v, r).
Proof.
  unfold constants. rewrite !elem_of_cons, elem_of_nil. intros Hin.
  repeat destruct Hin as [Hin|Hin]; try done; simplify_eq; reflexivity.
Qed.

Lemma value_json_string f s r :
  string_ok s = true → value (S f) (json_string s ++ r) = Ok (JStr s, r).
Proof.
  intros Hs. unfold json_string. cbn [value app]. rewrite <-app_assoc.
  rewrite (parse_json_string s r Hs : parse_string (_ ++ [34] ++ r) = _). done.
Qed.

Lemma float_ok_number x :
  float_ok x = true → is_finite x = true → number (json_float x) = Some (JFloat x, []).
Proof.
  unfold float_ok, json_float, is_finite. destruct x; try done;
    intros [_ H]%andb_true_iff _; destruct (number _) as [[[| | |y| | |] [|]]|]; try done;
    by apply bool_decide_eq_true in H as ->.
Qed.

Lemma value_float f x r :
  stops r → float_ok x = true → value (S f) (json_float x ++ r) = Ok (JFloat x, r).
Proof.
  intros Hr Hx. destruct (is_finite x) eqn:E.
  - apply value_number; [done|]. by apply float_ok_number.
  - destruct x as [|[]| |]; done.
Qed.

(** The first character of a value. *)
Definition value_head (l : list Z) : Prop :=
  match l with c :: _ => is_ws c = false ∧ c ≠ 93 ∧ c ≠ 125 | [] => False end.

Lemma text_head v : json_ok v = true → value_head (json_text v).
Proof.
  assert (∀ l, plain_head l → value_head l) as Hw by (intros [|c l]; cbn; tauto).
  destruct v as [|b|z|x|s|l|l]; cbn [json_text json_ok]; try done.
  - by destruct b.
  - intros _. eapply Hw, number_head, number_int.
  - intros Hx. destruct (is_finite x) eqn:E.
    + by eapply Hw, number_head, float_ok_number.
    + destruct x as [|b| |]; try done. by destruct b.
Qed.

Lemma head_app l r : value_head l → value_head (l ++ r).
Proof. by destruct l. Qed.

Lemma skip_ws_head l : value_head l → skip_ws l = l.
Proof. destruct l as [|c l]; [done|]. cbn. by intros [-> _]. Qed.

Lemma value_list_head f l :
  value_head l → value (S f) (91 :: l) = ('(vs, r) ← elements f l; Ok (JList vs, r)).
Proof.
  intros Hl. cbn [value]. rewrite skip_ws_head by done.
  destruct l as [|c l]; [done|]. destruct Hl as (_ & Hc & _).
  destruct c as [|p|p]; try done. by repeat case_match.
Qed.

Lemma value_obj_head f l :
  value_head l → value (S f) (123 :: l) = ('(d, r) ← members f l []; Ok (JObj d, r)).
Proof.
  intros Hl. cbn [value]. rewrite skip_ws_head by done.
  destruct l as [|c l]; [done|]. destruct Hl as (_ & _ & Hc).
  destruct c as [|p|p]; try done. by repeat case_match.
Qed.

Definition round_trips (v : json) : Prop :=
  json_ok v = true → ∀ f r, stops r → (length (json_text v) ≤ f)%nat →
  value f (json_text v ++ r) = Ok (v, r).

Lemma separated_cons sep x y l : separated sep (x :: y :: l) = x ++ sep ++ separated sep (y :: l).
Proof. done. Qed.

Lemma elements_text v l f r :
  Forall round_trips (v :: l) → forallb json_ok (v :: l) = true →
  (Datatypes.S (length (separated comma_space (map json_text (v :: l)))) ≤ f)%nat →
  elements f (separated comma_space (map json_text (v :: l)) ++ 93 :: r) = Ok (v :: l, r).
Proof.
  revert v f. induction l as [|w l IH]; intros v f Hall Hok Hf;
    apply Forall_cons in Hall as [Hv Hall]; cbn [forallb] in Hok;
    apply andb_true_iff in Hok as [Hvk Hok]; (destruct f as [|f]; [lia|]).
  - cbn [map separated] in *. cbn [elements]. rewrite Hv by (done || lia). reflexivity.
  - cbn [map] in *. rewrite separated_cons in *. rewrite !length_app in Hf. cbn [length comma_space] in Hf.
    rewrite <-!app_assoc. change (comma_space ++ ?x) with (44 :: 32 :: x). cbn [elements]. rewrite Hv by (done || lia). cbn [mbind res_bind app skip_ws].
    change (is_ws 44) with false. cbn iota.
    change (skip_ws (32 :: ?x)) with (skip_ws x).
    assert (json_ok w = true) as Hw by (cbn [forallb] in Hok; by apply andb_true_iff in Hok as [? _]).
    rewrite skip_ws_head.
    + rewrite IH by (done || cbn [map]; lia). done.
    + apply head_app. cbn [map]. pose proof (text_head w Hw) as Hh.
      destruct (map json_text l); cbn [separated]; [done|by apply head_app].
Qed.

Definition member_text (kv : string * json) : list Z := json_string kv.1 ++ [58; 32] ++ json_text kv.2.
Definition member_ok (kv : string * json) : bool := string_ok kv.1 && json_ok kv.2.

Lemma dset_fresh (d : dict string json) k v l :
  NoDup (d ++ (k, v) :: l).*1 → dset d k v = d ++ [(k, v)] ∧ NoDup ((d ++ [(k, v)]) ++ l).*1.
Proof.
  intros Hnd. split; [|by rewrite <-app_assoc]. apply dset_new.
  destruct (dget d k) eqn:E; [|done]. exfalso.
  assert (k ∈ d.*1) as Hin by (apply elem_of_dkeys; eauto).
  rewrite fmap_app in Hnd. apply NoDup_app in Hnd as (_ & Hnd & _). apply (Hnd k Hin). cbn. by constructor.
Qed.

Lemma members_text k v l f r d :
  Forall (λ kv, round_trips kv.2) ((k, v) :: l) → forallb member_ok ((k, v) :: l) = true →
  NoDup (d ++ (k, v) :: l).*1 →
  (Datatypes.S (length (separated comma_space (map member_text ((k, v) :: l)))) ≤ f)%nat →
  members f (separated comma_space (map member_text ((k, v) :: l)) ++ 125 :: r) d =
  Ok (d ++ (k, v) :: l, r).
Proof.
  revert k v f d. induction l as [|[k2 v2] l IH]; intros k v f d Hall Hok Hnd Hf;
    apply Forall_cons in Hall as [Hv Hall]; cbn [forallb] in Hok;
    apply andb_true_iff in Hok as [[Hk Hvk]%andb_true_iff Hok]; cbn [fst snd] in *;
    apply dset_fresh in Hnd as [Hset Hnd]; (destruct f as [|f]; [lia|]).
  - cbn [map separated] in *. unfold member_text, json_string in *. cbn [fst snd] in *.
    rewrite !length_app in Hf. cbn [length] in Hf.
    rewrite <-!app_assoc. cbn [app members]. rewrite <-!app_assoc. cbn [app].
    rewrite parse_json_string by done. cbn [mbind res_bind].
    change (skip_ws (58 :: ?x)) with (58 :: x). cbn iota. change (skip_ws (32 :: ?x)) with (skip_ws x).
    rewrite skip_ws_head by (apply head_app, text_head; done).
    rewrite Hv by (done || (rewrite ?length_app in Hf; cbn in Hf; lia)). cbn [mbind res_bind].
    change (skip_ws (125 :: ?x)) with (125 :: x). cbn iota. by rewrite Hset.
  - cbn [map] in *. rewrite separated_cons in *. rewrite !length_app in Hf.
    change (length comma_space) with 2%nat in Hf.
    rewrite <-!app_assoc. change (comma_space ++ ?x) with (44 :: 32 :: x).
    unfold member_text at 1, json_string. unfold member_text at 1, json_string in Hf. cbn [fst snd] in *.
    rewrite ?length_app in Hf. cbn [length] in Hf.
    rewrite <-!app_assoc. cbn [app members]. rewrite <-!app_assoc. cbn [app].
    rewrite parse_json_string by done. cbn [mbind res_bind].
    change (skip_ws (58 :: ?x)) with (58 :: x). cbn iota. change (skip_ws (32 :: ?x)) with (skip_ws x).
    rewrite skip_ws_head by (apply head_app, text_head; done).
    rewrite Hv by (done || (rewrite ?length_app in Hf; cbn in Hf; lia)). cbn [mbind res_bind].
    change (skip_ws (44 :: ?x)) with (44 :: x). cbn iota. change (skip_ws (32 :: ?x)) with (skip_ws x).
    rewrite Hset. rewrite skip_ws_head.
    + rewrite IH; [by rewrite <-app_assoc|done..|cbn [map]; lia].
    + apply head_app. by destruct (map member_text l).
Qed.

Lemma value_text v : round_trips v.
Proof.
  induction v as [|b|z|x|s|l IH|l IH] using json_induction; intros Hok f r Hr Hf;
    (destruct f as [|f]; [by destruct (json_text _) eqn:E; cbn in Hf; [pose proof (text_head _ Hok); rewrite E in *|lia]|]).
  - done.
  - by destruct b.
  - by apply value_number, number_int.
  - by apply value_float.
  - by apply value_json_string.
  - cbn [json_text json_ok] in *. destruct l as [|v l]; [done|].
    cbn [length] in Hf. rewrite length_app in Hf. cbn [length] in Hf.
    cbn [app]. rewrite <-app_assoc. rewrite value_list_head.
    + cbn [app]. rewrite elements_text by (done || lia). done.
    + assert (json_ok v = true) as Hv by (cbn [forallb] in Hok; by apply andb_true_iff in Hok as [? _]).
      apply head_app. cbn [map]. pose proof (text_head v Hv) as Hh.
      destruct (map json_text l); cbn [separated]; [done|by apply head_app].
  - change (json_text (JObj l)) with (123 :: separated comma_space (map member_text l) ++ [125]) in *.
    cbn [json_ok] in Hok. apply andb_true_iff in Hok as [Hnd%bool_decide_eq_true Hok].
    destruct l as [|[k v] l]; [done|].
    cbn [length] in Hf. rewrite length_app in Hf. cbn [length] in Hf.
    cbn [app]. rewrite <-app_assoc. rewrite value_obj_head.
    + cbn [app]. by rewrite (members_text k v l f r []) by (done || lia).
    + apply head_app. cbn [map]. by destruct (map _ l).
Qed.

(** *** The output is ASCII, so that its code points are its bytes *)
Lemma ascii_app l1 l2 : ascii_text (l1 ++ l2) = ascii_text l1 && ascii_text l2.
Proof. apply forallb_app. Qed.

Lemma decode_ascii l : ascii_text l = true → decode (of_bytes l) = l.
Proof.
  unfold decode. induction l as [|c l IH]; [done|]. cbn [ascii_text forallb of_bytes bytes_of].
  intros [Hc Hl]%andb_true_iff.
  assert (codepoint (byte_of c) = c) as ->.
  { unfold codepoint, byte_of. rewrite N_ascii_embedding by lia. lia. }
  cbn [decode_bytes]. replace (c <? 192) with true by lia. by rewrite IH.
Qed.

Lemma hex4_ascii c : 0 ≤ c < 65536 → ascii_text (hex4 c) = true.
Proof.
  intros Hc.
  assert (∀ z, 0 ≤ z < 16 → (0 <=? hex_digit z) && (hex_digit z <? 128) = true) as H.
  { intros z Hz. unfold hex_digit. destruct (z <? 10); lia. }
  unfold hex4, ascii_text. cbn [forallb]. rewrite !H by (Z.to_euclidean_division_equations; lia). done.
Qed.

Lemma char_ascii c : scalar_point c = true → ascii_text (json_char c) = true.
Proof.
  intros Hs. unfold json_char. destruct (short_escape c) as [letter|] eqn:E.
  - apply short_escape_cases in E. unfold escapes in E. rewrite !elem_of_cons, elem_of_nil in E.
    by repeat destruct E as [E|E]; simplify_eq.
  - unfold scalar_point, between in *. destruct ((32 <=? c) && (c <=? 126)) eqn:Ep; [cbn; lia|].
    destruct (Z.ltb_spec c 65536).
    + change (ascii_text (92 :: 117 :: hex4 c)) with (ascii_text (hex4 c)). apply hex4_ascii. lia.
    + change (ascii_text (92 :: 117 :: ?a ++ 92 :: 117 :: ?b)) with (ascii_text (a ++ 92 :: 117 :: b)).
      rewrite ascii_app. change (ascii_text (92 :: 117 :: ?b)) with (ascii_text b).
      rewrite !hex4_ascii; [done|Z.to_euclidean_division_equations; lia..].
Qed.

Lemma string_ascii s : string_ok s = true → ascii_text (json_string s) = true.
Proof.
  intros [Hs _]%andb_true_iff. unfold json_string. change (ascii_text (34 :: ?l)) with (ascii_text l).
  rewrite ascii_app, andb_true_r. revert Hs. induction (decode s) as [|c l IH]; [done|].
  cbn [forallb]. intros [Hc Hl]%andb_true_iff. change ((c :: l) ≫= json_char) with (json_char c ++ (l ≫= json_char)).
  by rewrite ascii_app, char_ascii, IH.
Qed.

Lemma separated_ascii l :
  Forall (λ x, ascii_text x = true) l → ascii_text (separated comma_space l) = true.
Proof.
  induction 1 as [|x l Hx Hl IH]; [done|]. destruct l as [|y l]; [done|].
  rewrite separated_cons, !ascii_app, Hx, IH. done.
Qed.

Lemma text_ascii v : json_ok v = true → ascii_text (json_text v) = true.
Proof.
  induction v as [|b|z|x|s|l IH|l IH] using json_induction; intros Hok.
  - done.
  - by destruct b.
  - apply int_ascii.
  - cbn in *. unfold float_ok in Hok. destruct x as [|[]| |]; try done;
      by apply andb_true_iff in Hok as [? _].
  - by apply string_ascii.
  - cbn [json_text]. change (ascii_text (91 :: ?x)) with (ascii_text x).
    rewrite ascii_app, separated_ascii; [done|]. apply Forall_map.
    cbn [json_ok] in Hok. rewrite Forall_forall in *. rewrite forallb_forall in Hok.
    intros v Hv. apply IH; [done|]. by apply Hok, list_elem_of_In.
  - change (json_text (JObj l)) with (123 :: separated comma_space (map member_text l) ++ [125]).
    change (ascii_text (123 :: ?x)) with (ascii_text x).
    cbn [json_ok] in Hok. apply andb_true_iff in Hok as [_ Hok].
    rewrite ascii_app, separated_ascii; [done|]. apply Forall_map.
    rewrite Forall_forall in *. rewrite forallb_forall in Hok.
    intros [k v] Hv. pose proof (Hok _ (proj1 (list_elem_of_In _ _) Hv)) as [Hk Hvk]%andb_true_iff.
    unfold member_text. rewrite !ascii_app, string_ascii by done. by apply (IH _ Hv).
Qed.

(** What the encoder writes the decoder reads back. *)
Lemma loads_dumps v : json_ok v = true → loads (dumps v) = Ok v.
Proof.
  intros Hok. unfold loads, dumps. rewrite decode_ascii by by apply text_ascii.
  rewrite skip_ws_head by by apply text_head.
  pose proof (value_text v Hok (length (json_text v)) [] I ltac:(done)) as H.
  rewrite app_nil_r in H. by rewrite H.
Qed.
