(* ===== verification/Rows.v ===== *)
(** * agent/store.py: the schema, the rows and their encoding

    Below the typed tables of [Store] lie SQLite rows: cells of four kinds in the columns of
    [_SCHEMA], with dictionaries as JSON text and enumerations as their values.  Here are the
    schema, SQLite's handling of an inserted row, the values the store's methods bind, and the
    functions that read a row back, with pydantic's checks on the way. *)
From Stdlib Require Import SpecFloat.
From S2P Require Import Prelude PyFloat PyText Config State Models Events AgentModels Store AgentBase Tools Json.

(** ** SQLite *)
Inductive cell := SNull | SInt (z : Z) | SReal (x : f64) | SText (s : string).

#[global] Instance cell_eq_dec : EqDecision cell.
Proof. solve_decision. Defined.

Inductive affinity := INTEGER | REAL | TEXT.

Record column := {
  c_name : string;
  c_type : affinity;
  c_primary : bool;
  c_not_null : bool;
  c_default : cell;
}.

Abbreviation row := (dict string cell).
Record table := { tb_rows : list row; tb_seq : Z }.

Definition key : column :=
  {| c_name := "id"; c_type := INTEGER; c_primary := true; c_not_null := false; c_default := SNull |}.
Definition col (name : string) (t : affinity) : column :=
  {| c_name := name; c_type := t; c_primary := false; c_not_null := false; c_default := SNull |}.
Definition required (name : string) (t : affinity) : column :=
  {| c_name := name; c_type := t; c_primary := false; c_not_null := true; c_default := SNull |}.
Definition defaulted (name : string) (t : affinity) (v : cell) : column :=
  {| c_name := name; c_type := t; c_primary := false; c_not_null := true; c_default := v |}.

(** ** [_SCHEMA] *)
Definition SCHEMA_VERSION : Z := 1.

Definition PROPOSALS : list column :=
  [key; required "run_id" TEXT; required "borrower" TEXT; required "created_at" REAL;
   required "expires_at" REAL; required "status" TEXT; required "strategy" TEXT;
   required "facts_json" TEXT; required "gate_json" TEXT; required "rationale" TEXT;
   defaulted "guard_flagged" INTEGER (SInt 0); col "decided_at" REAL; col "decided_by" TEXT;
   col "decision_note" TEXT; col "tx_hash" TEXT; col "result_json" TEXT]%string.

Definition TUNING_SUGGESTIONS : list column :=
  [key; required "run_id" TEXT; required "borrower" TEXT; required "created_at" REAL;
   required "field_name" TEXT; required "current_value" INTEGER; required "suggested_value" INTEGER;
   required "rationale" TEXT; required "eip712_payload_json" TEXT;
   defaulted "status" TEXT (SText "open"); col "decided_at" REAL]%string.

Definition DECISIONS : list column :=
  [key; required "run_id" TEXT; required "borrower" TEXT; required "created_at" REAL;
   required "node" TEXT; col "latency_ms" INTEGER; defaulted "llm_used" INTEGER (SInt 0);
   required "output_json" TEXT; col "error" TEXT]%string.

Definition AUDIT : list column :=
  [key; required "ts" REAL; required "actor" TEXT; required "action" TEXT; col "borrower" TEXT;
   col "proposal_id" INTEGER; required "detail_json" TEXT]%string.

Definition CHAT_MESSAGES : list column :=
  [key; required "thread_id" TEXT; required "ts" REAL; required "role" TEXT; required "content" TEXT;
   col "tool_calls_json" TEXT; col "facts_json" TEXT; defaulted "guard_flagged" INTEGER (SInt 0)]%string.

Definition CHAT_THREADS : list column :=
  [{| c_name := "thread_id"; c_type := TEXT; c_primary := true; c_not_null := false; c_default := SNull |};
   required "created_at" REAL; required "last_active" REAL; col "borrower" TEXT; col "title" TEXT]%string.

Definition _SCHEMA : list (string * list column) :=
  [("schema_version", [required "version" INTEGER]); ("proposals", PROPOSALS);
   ("tuning_suggestions", TUNING_SUGGESTIONS); ("decisions", DECISIONS); ("audit", AUDIT);
   ("chat_threads", CHAT_THREADS); ("chat_messages", CHAT_MESSAGES)]%string.

(** A database file: its tables, and the rows of [schema_version]. *)
Record dbfile := { f_tables : dict string (list column); f_versions : list Z }.

Definition new_file : dbfile := {| f_tables := []; f_versions := [] |}.

(** [CREATE TABLE IF NOT EXISTS], for each table of the script. *)
Definition executescript (f : dbfile) : dbfile :=
  {| f_tables := foldl (λ d nc, dsetdefault d nc.1 nc.2) (f_tables f) _SCHEMA;
     f_versions := f_versions f |}.

(** [_open]: the database a connection sees, once [mkdir] and [sqlite3.connect] have succeeded
    ([Conn] has their failures).  A memory database is new for each connection. *)
Definition _open (path : string) (f : option dbfile) : dbfile :=
  let f := executescript (default new_file (if String.eqb path ":memory:" then None else f)) in
  match f_versions f with
  | [] => {| f_tables := f_tables f; f_versions := [SCHEMA_VERSION] |}
  | _ => f
  end.

(** ** [INSERT] *)

(** A bound value in a column: a [REAL] column makes a float of an integer, and SQLite keeps a
    NaN as [NULL].  The source binds no other value that does not match its column. *)
Definition kept (t : affinity) (v : cell) : cell :=
  match t, v with
  | REAL, SInt z => SReal (flit z)
  | _, SReal x => if is_nan x then SNull else v
  | _, _ => v
  end.

Definition is_null (v : cell) : bool := match v with SNull => true | _ => false end.

Definition integrity_error : exn := Exn (OtherError false) "NOT NULL constraint failed".

Definition new_cell (id : Z) (vals : dict string cell) (c : column) : res (string * cell) :=
  let v := if c_primary c then SInt id
           else kept (c_type c) (default (c_default c) (dget vals (c_name c))) in
  if c_not_null c && is_null v then Err integrity_error else Ok (c_name c, v).

Fixpoint new_row (id : Z) (vals : dict string cell) (cols : list column) : res row :=
  match cols with
  | [] => Ok []
  | c :: cols => x ← new_cell id vals c; r ← new_row id vals cols; Ok (x :: r)
  end.

(** [cur.lastrowid], and the table with the row appended. *)
Definition insert_row (cols : list column) (vals : dict string cell) (t : table) : res (Z * table) :=
  let id := tb_seq t + 1 in
  r ← new_row id vals cols;
  Ok (id, {| tb_rows := tb_rows t ++ [r]; tb_seq := id |}).

(** [UPDATE ... SET ... WHERE ...], with [cur.rowcount]. *)
Definition update_rows (test : row → bool) (set : row → row) (t : table) : Z * table :=
  (Z.of_nat (length (filter (λ r, test r = true) (tb_rows t))),
   {| tb_rows := (λ r, if test r then set r else r) <$> tb_rows t; tb_seq := tb_seq t |}).

(** ** What the methods bind *)
Definition text_opt (o : option string) : cell := match o with Some s => SText s | None => SNull end.
Definition int_opt (o : option Z) : cell := match o with Some z => SInt z | None => SNull end.
Definition json_opt (o : option json) : cell := match o with Some v => SText (dumps v) | None => SNull end.
Definition flag (b : bool) : cell := SInt (if b then 1 else 0).

Definition role_value (r : Role) : string :=
  match r with User => "user" | Assistant => "assistant" | Tool => "tool" end.

Definition sol_json (v : sol_value) : json :=
  match v with
  | SolAddress a => JStr a
  | SolUint n => JInt n
  | SolAddresses l => JList (JStr <$> l)
  end.
Definition payload_json (p : list (string * sol_value)) : json := JObj ((λ kv, (kv.1, sol_json kv.2)) <$> p).

(** [model_dump_json] and [model_validate_json] of [PolicyDecision] (pydantic): a decision
    whose text is Unicode reads back as it was written, with its details rendered. *)
Section gate.
Context `{UnicodeData}.

Definition gate_stored (g : PolicyDecision) : PolicyDecision :=
  {| pd_allowed := pd_allowed g;
     pd_checks := (λ c, {| gc_name := gc_name c; gc_passed := gc_passed c;
                           gc_detail := [Lit (render (gc_detail c))] |}) <$> pd_checks g;
     pd_blocking := pd_blocking g;
     pd_severity := pd_severity g |}.

Definition gate_ok (g : PolicyDecision) : bool :=
  forallb (λ c, string_ok (gc_name c) && string_ok (render (gc_detail c))) (pd_checks g) &&
  forallb string_ok (pd_blocking g).

Class GateCodec := {
  gate_dump : PolicyDecision → string;
  gate_validate : string → res PolicyDecision;
  gate_round_trip : ∀ g, gate_ok g = true → gate_validate (gate_dump g) = Ok (gate_stored g);
}.
End gate.

Definition proposal_values `{GateCodec} (run_id borrower strategy : string) (facts : json)
    (gate : PolicyDecision) (rationale : string) (guard_flagged : bool) (ts expires : f64)
  : dict string cell :=
  [("run_id", SText run_id); ("borrower", SText borrower); ("created_at", SReal ts);
   ("expires_at", SReal expires); ("status", SText (status_value PENDING));
   ("strategy", SText strategy); ("facts_json", SText (dumps facts));
   ("gate_json", SText (gate_dump gate)); ("rationale", SText rationale);
   ("guard_flagged", flag guard_flagged)]%string.

Definition tuning_values (run_id borrower : string) (field : TunableField) (current suggested : Z)
    (rationale : string) (payload : list (string * sol_value)) (ts : f64) : dict string cell :=
  [("run_id", SText run_id); ("borrower", SText borrower); ("created_at", SReal ts);
   ("field_name", SText (field_name_value field)); ("current_value", SInt current);
   ("suggested_value", SInt suggested); ("rationale", SText rationale);
   ("eip712_payload_json", SText (dumps (payload_json payload)));
   ("status", SText (tuning_value OPEN))]%string.

Definition decision_values (run_id borrower node : string) (output : json) (latency_ms : option Z)
    (llm_used : bool) (error : option string) (ts : f64) : dict string cell :=
  [("run_id", SText run_id); ("borrower", SText borrower); ("created_at", SReal ts);
   ("node", SText node); ("latency_ms", int_opt latency_ms); ("llm_used", flag llm_used);
   ("output_json", SText (dumps output)); ("error", text_opt error)]%string.

Definition audit_values (actor : Actor) (action : AuditAction) (borrower : option string)
    (proposal_id : option Z) (detail : json) (ts : f64) : dict string cell :=
  [("ts", SReal ts); ("actor", SText (actor_value actor)); ("action", SText (action_value action));
   ("borrower", text_opt borrower); ("proposal_id", int_opt proposal_id);
   ("detail_json", SText (dumps detail))]%string.

Definition message_values (thread_id : string) (role : Role) (content : string)
    (tool_calls facts : option json) (guard_flagged : bool) (ts : f64) : dict string cell :=
  [("thread_id", SText thread_id); ("ts", SReal ts); ("role", SText (role_value role));
   ("content", SText content); ("tool_calls_json", json_opt tool_calls);
   ("facts_json", json_opt facts); ("guard_flagged", flag guard_flagged)]%string.

(** ** Reading a row

    [row["name"]] raises [IndexError] for a name that is no column.  The row classes are
    pydantic models, which refuse a value of another type. *)
Definition get (r : row) (name : string) : res cell :=
  match dget r name with Some v => Ok v | None => Err (Exn IndexError "No item with that key") end.

Definition field {A} (r : row) (name : string) (f : cell → res A) : res A := v ← get r name; f v.

Definition invalid : exn := Exn ValueError "validation error".

Definition as_text (v : cell) : res string := match v with SText s => Ok s | _ => Err invalid end.
Definition as_int (v : cell) : res Z := match v with SInt z => Ok z | _ => Err invalid end.
Definition as_real (v : cell) : res f64 :=
  match v with SReal x => Ok x | SInt z => float_of_int z | _ => Err invalid end.
Definition nullable {A} (f : cell → res A) (v : cell) : res (option A) :=
  match v with SNull => Ok None | _ => x ← f v; Ok (Some x) end.

(** [bool(v)] *)
Definition truth (v : cell) : bool :=
  match v with
  | SNull => false
  | SInt z => negb (z =? 0)
  | SReal x => negb (is_zero x)
  | SText s => negb (String.eqb s "")
  end.

(** [Enum(value)], and a [Literal] field. *)
Definition as_member {A} (val : A → string) (members : list A) (v : cell) : res A :=
  s ← as_text v;
  match by_value val members s with Some a => Ok a | None => Err invalid end.

Definition as_dict (j : json) : res json := match j with JObj _ => Ok j | _ => Err invalid end.
Definition as_dicts (j : json) : res json :=
  match j with
  | JList l => if forallb (λ x, is_ok (as_dict x)) l then Ok j else Err invalid
  | _ => Err invalid
  end.

(** [json.loads(v)] *)
Definition json_loads (v : cell) : res json := s ← as_text v; loads s.

(** [_loads]: an empty text counts as nothing. *)
Definition _loads (v : cell) : res (option json) :=
  if truth v then j ← json_loads v; Ok (Some j) else Ok None.

Definition optional (f : json → res json) (o : option json) : res (option json) :=
  match o with Some j => x ← f j; Ok (Some x) | None => Ok None end.

(** The columns that hold JSON. *)
Definition dict_column (v : cell) : res json := j ← json_loads v; as_dict j.
Definition opt_column (f : json → res json) (v : cell) : res (option json) :=
  o ← _loads v; optional f o.
Definition boolean (v : cell) : res bool := Ok (truth v).

Definition all_tuning : list TuningStatus := [OPEN; DISMISSED; RESIGNED].
Definition all_actions : list AuditAction :=
  [A_CREW_RUN; A_PROPOSED; A_GATE_BLOCKED; A_TUNING_SUGGESTED; A_TUNING_DISMISSED; A_APPROVED;
   A_REJECTED; A_EXECUTED; A_FAILED; A_STALE_ON_APPROVE; A_EXPIRED_ON_APPROVE; A_PANIC].
Definition all_fields : list TunableField :=
  [F_hf_trigger_bps; F_hf_target_base_bps; F_hf_target_max_bps; F_vol_coeff_k; F_max_slippage_bps;
   F_max_cost_bps].
Definition all_actors : list Actor := [Agent; Human; System].
Definition all_roles : list Role := [User; Assistant; Tool].

(** A typed-data value: an address, an integer or a list of addresses. *)
Definition sol_of_json (j : json) : res sol_value :=
  match j with
  | JStr a => Ok (SolAddress a)
  | JInt n => Ok (SolUint n)
  | JList l =>
      l ← mapM (M := res) (λ j, match j with JStr a => Ok a | _ => Err invalid end) l;
      Ok (SolAddresses l)
  | _ => Err invalid
  end.

Definition payload_of_json (j : json) : res (list (string * sol_value)) :=
  match j with
  | JObj l => mapM (M := res) (λ kv, v ← sol_of_json kv.2; Ok (kv.1, v)) l
  | _ => Err invalid
  end.

(** [_proposal].  A [ProposalRow] of the model holds the response whose dump the column
    [result_json] keeps; what is read is the dictionary, returned beside. *)
Definition _proposal `{GateCodec} (r : row) : res (ProposalRow * option json) :=
  id ← field r "id" as_int;
  run_id ← field r "run_id" as_text;
  borrower ← field r "borrower" as_text;
  created_at ← field r "created_at" as_real;
  expires_at ← field r "expires_at" as_real;
  status ← field r "status" (as_member status_value all_statuses);
  strategy ← field r "strategy" as_text;
  facts ← field r "facts_json" dict_column;
  gate ← field r "gate_json" (λ v, s ← as_text v; gate_validate s);
  rationale ← field r "rationale" as_text;
  guard_flagged ← field r "guard_flagged" boolean;
  decided_at ← field r "decided_at" (nullable as_real);
  decided_by ← field r "decided_by" (nullable as_text);
  decision_note ← field r "decision_note" (nullable as_text);
  tx_hash ← field r "tx_hash" (nullable as_text);
  result ← field r "result_json" (opt_column as_dict);
  Ok ({| p_id := id; p_run_id := run_id; p_borrower := borrower; p_created_at := created_at;
         p_expires_at := expires_at; p_status := status; p_strategy := strategy; p_facts := facts;
         p_gate := gate; p_rationale := rationale; p_guard_flagged := guard_flagged;
         p_decided_at := decided_at; p_decided_by := decided_by; p_decision_note := decision_note;
         p_tx_hash := tx_hash; p_result := None |}, result).

Definition _tuning (r : row) : res TuningRow :=
  id ← field r "id" as_int;
  run_id ← field r "run_id" as_text;
  borrower ← field r "borrower" as_text;
  created_at ← field r "created_at" as_real;
  field_name ← field r "field_name" (as_member field_name_value all_fields);
  current_value ← field r "current_value" as_int;
  suggested_value ← field r "suggested_value" as_int;
  rationale ← field r "rationale" as_text;
  payload ← field r "eip712_payload_json" (λ v, j ← json_loads v; payload_of_json j);
  status ← field r "status" (as_member tuning_value all_tuning);
  decided_at ← field r "decided_at" (nullable as_real);
  Ok {| t_id := id; t_run_id := run_id; t_borrower := borrower; t_created_at := created_at;
        t_field_name := field_name; t_current_value := current_value;
        t_suggested_value := suggested_value; t_rationale := rationale;
        t_eip712_payload := payload; t_status := status; t_decided_at := decided_at |}.

(** The rows [list_decisions], [list_audit] and [history] build. *)
Definition _decision (r : row) : res DecisionRow :=
  id ← field r "id" as_int;
  run_id ← field r "run_id" as_text;
  borrower ← field r "borrower" as_text;
  created_at ← field r "created_at" as_real;
  node ← field r "node" as_text;
  latency_ms ← field r "latency_ms" (nullable as_int);
  llm_used ← field r "llm_used" boolean;
  output ← field r "output_json" dict_column;
  error ← field r "error" (nullable as_text);
  Ok {| d_id := id; d_run_id := run_id; d_borrower := borrower; d_created_at := created_at;
        d_node := node; d_latency_ms := latency_ms; d_llm_used := llm_used; d_output := output;
        d_error := error |}.

Definition _audit (r : row) : res AuditRow :=
  id ← field r "id" as_int;
  ts ← field r "ts" as_real;
  actor ← field r "actor" (as_member actor_value all_actors);
  action ← field r "action" (as_member action_value all_actions);
  borrower ← field r "borrower" (nullable as_text);
  proposal_id ← field r "proposal_id" (nullable as_int);
  detail ← field r "detail_json" dict_column;
  Ok {| a_id := id; a_ts := ts; a_actor := actor; a_action := action; a_borrower := borrower;
        a_proposal_id := proposal_id; a_detail := detail |}.

Definition _message (r : row) : res ChatMessageRow :=
  id ← field r "id" as_int;
  thread_id ← field r "thread_id" as_text;
  ts ← field r "ts" as_real;
  role ← field r "role" (as_member role_value all_roles);
  content ← field r "content" as_text;
  tool_calls ← field r "tool_calls_json" (opt_column as_dicts);
  facts ← field r "facts_json" (opt_column as_dict);
  guard_flagged ← field r "guard_flagged" boolean;
  Ok {| m_id := id; m_thread_id := thread_id; m_ts := ts; m_role := role; m_content := content;
        m_tool_calls := tool_calls; m_facts := facts; m_guard_flagged := guard_flagged |}.

(** ** The statements on [proposals], as their SQL says *)
Section proposals.
Context `{GateCodec} (dump_response : ProtectResponse → json).

Definition real_opt (o : option f64) : cell := match o with Some x => kept REAL (SReal x) | None => SNull end.

(** The row that keeps a proposal. *)
Definition proposal_row (p : ProposalRow) : row :=
  [("id", SInt (p_id p)); ("run_id", SText (p_run_id p)); ("borrower", SText (p_borrower p));
   ("created_at", kept REAL (SReal (p_created_at p))); ("expires_at", kept REAL (SReal (p_expires_at p)));
   ("status", SText (status_value (p_status p))); ("strategy", SText (p_strategy p));
   ("facts_json", SText (dumps (p_facts p))); ("gate_json", SText (gate_dump (p_gate p)));
   ("rationale", SText (p_rationale p)); ("guard_flagged", flag (p_guard_flagged p));
   ("decided_at", real_opt (p_decided_at p)); ("decided_by", text_opt (p_decided_by p));
   ("decision_note", text_opt (p_decision_note p)); ("tx_hash", text_opt (p_tx_hash p));
   ("result_json", json_opt (dump_response <$> p_result p))]%string.

Definition proposals_table (db : AgentDB) : table :=
  {| tb_rows := proposal_row <$> db_proposals db; tb_seq := Z.of_nat (length (db_proposals db)) |}.

(** [column = ?] and [column < ?] on a row; a comparison with [NULL] is not true. *)
Definition cell_is (r : row) (name : string) (v : cell) : bool :=
  bool_decide (dget r name = Some v) && negb (is_null v).
Definition cell_before (r : row) (name : string) (x : f64) : bool :=
  match dget r name with Some (SReal y) => flt y x | _ => false end.

(** [SET column = COALESCE(?, column)] *)
Definition set_coalesce (name : string) (v : cell) (r : row) : row :=
  if is_null v then r else dset r name v.

Definition raw_claim (id : Z) (status : ProposalStatus) : table → Z * table :=
  update_rows (λ r, cell_is r "id" (SInt id) && cell_is r "status" (SText (status_value PENDING)))
    (λ r, dset r "status" (SText (status_value status))).

Definition raw_finish (id : Z) (status : ProposalStatus) (ts : f64) (by_ note tx : option string)
    (result : option json) : table → Z * table :=
  update_rows (λ r, cell_is r "id" (SInt id))
    (λ r, set_coalesce "result_json" (json_opt result)
            (set_coalesce "tx_hash" (text_opt tx)
              (set_coalesce "decision_note" (text_opt note)
                (set_coalesce "decided_by" (text_opt by_)
                  (dset (dset r "status" (SText (status_value status)))
                     "decided_at" (kept REAL (SReal ts))))))).

Definition raw_expire (ts : f64) : table → Z * table :=
  update_rows (λ r, cell_is r "status" (SText (status_value PENDING)) && cell_before r "expires_at" ts)
    (λ r, dset r "status" (SText (status_value EXPIRED))).

(** [SELECT * FROM proposals WHERE id = ?], first row, read back. *)
Definition raw_get (id : Z) (t : table) : res (option (ProposalRow * option json)) :=
  match head (filter (λ r, cell_is r "id" (SInt id) = true) (tb_rows t)) with
  | Some r => p ← _proposal r; Ok (Some p)
  | None => Ok None
  end.

(** *** They implement the typed statements *)
Lemma update_rows_typed {A} (enc : A → row) test set ttest (f : A → A) l seq :
  (∀ a, test (enc a) = ttest a) → (∀ a, ttest a = true → set (enc a) = enc (f a)) →
  update_rows test set {| tb_rows := enc <$> l; tb_seq := seq |} =
  ((update_where ttest f l).1, {| tb_rows := enc <$> (update_where ttest f l).2; tb_seq := seq |}).
Proof.
  intros Ht Hs. unfold update_rows, update_where. cbn [tb_rows tb_seq fst snd]. f_equal.
  - f_equal. induction l as [|a l IH]; [done|].
    rewrite fmap_cons, !filter_cons, Ht. destruct (decide (ttest a = true)); cbn; by rewrite IH.
  - f_equal. rewrite <-!list_fmap_compose. apply list_fmap_ext. intros i a _. cbn.
    rewrite Ht. destruct (ttest a) eqn:E; [by rewrite Hs|done].
Qed.

Lemma cell_is_id p id : cell_is (proposal_row p) "id" (SInt id) = (p_id p =? id).
Proof.
  unfold cell_is. cbn. rewrite andb_true_r. destruct (Z.eqb_spec (p_id p) id) as [->|Hne].
  - by apply bool_decide_eq_true_2.
  - apply bool_decide_eq_false_2. by intros [= ?].
Qed.

Lemma status_value_inj a b : status_value a = status_value b → a = b.
Proof. by destruct a, b. Qed.

Lemma cell_is_status p s :
  cell_is (proposal_row p) "status" (SText (status_value s)) = bool_decide (p_status p = s).
Proof.
  unfold cell_is. cbn. rewrite andb_true_r. apply bool_decide_ext. split; [|by intros ->].
  intros [= Hs]. by apply status_value_inj.
Qed.

Lemma cell_before_expires p ts :
  cell_before (proposal_row p) "expires_at" ts = flt (p_expires_at p) ts.
Proof. unfold cell_before. cbn. by destruct (p_expires_at p). Qed.

Lemma claim_typed id status db :
  raw_claim id status (proposals_table db) =
  ((update_where (λ p, (p_id p =? id) && bool_decide (p_status p = PENDING)) (with_status status)
      (db_proposals db)).1, proposals_table (sql_claim_proposal id status db).2).
Proof.
  unfold raw_claim, proposals_table at 1.
  rewrite (update_rows_typed proposal_row _ _
    (λ p, (p_id p =? id) && bool_decide (p_status p = PENDING)) (with_status status)); [|intros p..].
  - unfold proposals_table, sql_claim_proposal, update_where. cbn. by rewrite length_fmap.
  - by rewrite cell_is_id, cell_is_status.
  - done.
Qed.

Lemma expire_typed ts db :
  raw_expire ts (proposals_table db) =
  ((sql_expire ts db).1, proposals_table (sql_expire ts db).2).
Proof.
  unfold raw_expire, proposals_table at 1.
  rewrite (update_rows_typed proposal_row _ _
    (λ p, bool_decide (p_status p = PENDING) && flt (p_expires_at p) ts) (with_status EXPIRED)); [|intros p..].
  - unfold proposals_table, sql_expire, update_where. cbn. by rewrite length_fmap.
  - by rewrite cell_is_status, cell_before_expires.
  - done.
Qed.

Lemma finish_typed id status ts by_ note tx result db :
  (raw_finish id status ts by_ note tx (dump_response <$> result) (proposals_table db)).2 =
  proposals_table (sql_finish_proposal id status ts by_ note tx result db).
Proof.
  unfold raw_finish, proposals_table at 1.
  rewrite (update_rows_typed proposal_row _ _ (λ p, p_id p =? id)
    (finished status ts by_ note tx result)); [|intros p..].
  - unfold proposals_table, sql_finish_proposal, update_where. cbn. by rewrite length_fmap.
  - by rewrite cell_is_id.
  - intros _. destruct by_, note, tx, result; reflexivity.
Qed.

Lemma kept_real x : is_nan x = false → kept REAL (SReal x) = SReal x.
Proof. cbn. by intros ->. Qed.

Lemma insert_typed run_id borrower strategy facts gate rationale flagged ts expires db :
  is_nan ts = false → is_nan expires = false →
  let '(id, db') := sql_insert_proposal run_id borrower strategy facts gate rationale flagged ts expires db in
  insert_row PROPOSALS
    (proposal_values run_id borrower strategy facts gate rationale flagged ts expires)
    (proposals_table db) = Ok (id, proposals_table db').
Proof.
  intros Ht He. unfold insert_row. change (tb_seq (proposals_table db) + 1) with (next_id (db_proposals db)).
  assert (∀ id, new_row id (proposal_values run_id borrower strategy facts gate rationale flagged ts expires)
    PROPOSALS = Ok (proposal_row
      {| p_id := id; p_run_id := run_id; p_borrower := borrower; p_created_at := ts;
         p_expires_at := expires; p_status := PENDING; p_strategy := strategy; p_facts := facts;
         p_gate := gate; p_rationale := rationale; p_guard_flagged := flagged;
         p_decided_at := None; p_decided_by := None; p_decision_note := None;
         p_tx_hash := None; p_result := None |})) as ->.
  { intros id. by destruct ts, expires. }
  cbn. unfold proposals_table. cbn. rewrite fmap_app, length_app. unfold next_id. do 3 f_equal. cbn. lia.
Qed.
End proposals.

(** ** Reading back what was written *)
Definition is_dict (j : json) : bool := match j with JObj _ => true | _ => false end.
Definition dict_ok (j : json) : bool := is_dict j && json_ok j.
Definition dicts_ok (j : json) : bool :=
  match j with JList l => forallb dict_ok l | _ => false end.

Lemma field_eq {A} r name (f : cell → res A) v : dget r name = Some v → field r name f = f v.
Proof. unfold field, get. by intros ->. Qed.

Lemma as_dict_ok j : is_dict j = true → as_dict j = Ok j.
Proof. by destruct j. Qed.

Lemma json_loads_dumps j : json_ok j = true → json_loads (SText (dumps j)) = Ok j.
Proof. apply loads_dumps. Qed.

Lemma dict_column_dumps j : dict_ok j = true → dict_column (SText (dumps j)) = Ok j.
Proof.
  intros [Hd Hj]%andb_true_iff. unfold dict_column. rewrite json_loads_dumps by done.
  by apply as_dict_ok.
Qed.

Lemma dumps_not_empty j : json_ok j = true → dumps j ≠ ""%string.
Proof.
  intros Hj E. pose proof (loads_dumps j Hj) as H. rewrite E in H. by vm_compute in H.
Qed.

Lemma opt_column_dumps f o :
  match o with Some j => json_ok j = true ∧ f j = Ok j | None => True end →
  opt_column f (json_opt o) = Ok o.
Proof.
  destruct o as [j|]; [|done]. intros [Hj Hf]. unfold opt_column, _loads, json_opt.
  assert (truth (SText (dumps j)) = true) as ->.
  { cbn. apply negb_true_iff, String.eqb_neq. by apply dumps_not_empty. }
  rewrite json_loads_dumps by done. cbn [mbind res_bind optional]. by rewrite Hf.
Qed.

Lemma dicts_ok_spec j : dicts_ok j = true → json_ok j = true ∧ as_dicts j = Ok j.
Proof.
  destruct j as [| | | | |l|]; try done. cbn [dicts_ok as_dicts json_ok]. intros H.
  rewrite forallb_forall in H. split.
  - apply forallb_forall. intros x Hx%H. by apply andb_true_iff in Hx as [_ ?].
  - replace (forallb _ l) with true; [done|]. symmetry. apply forallb_forall.
    intros x Hx%H. apply andb_true_iff in Hx as [Hx _]. by rewrite as_dict_ok.
Qed.

Lemma nullable_real o :
  match o with Some x => is_nan x = false | None => True end → nullable as_real (real_opt o) = Ok o.
Proof. destruct o as [x|]; [|done]. cbn. by intros ->. Qed.

Lemma nullable_text o : nullable as_text (text_opt o) = Ok o.
Proof. by destruct o. Qed.

Lemma nullable_int o : nullable as_int (int_opt o) = Ok o.
Proof. by destruct o. Qed.

Lemma truth_flag b : boolean (flag b) = Ok b.
Proof. by destruct b. Qed.

Lemma payload_round p : payload_of_json (payload_json p) = Ok p.
Proof.
  unfold payload_json, payload_of_json. induction p as [|[k v] p IH]; [done|]. cbn [fmap list_fmap mapM fst snd].
  assert (sol_of_json (sol_json v) = Ok v) as ->.
  { destruct v as [a|n|l]; [done..|]. cbn [sol_json sol_of_json].
    assert (mapM (M := res) (λ j, match j with JStr a => Ok a | _ => Err invalid end) (JStr <$> l) = Ok l) as ->.
    { induction l as [|a l IHl]; [done|]. cbn. by rewrite IHl. }
    done. }
  cbn [mbind res_bind]. by rewrite IH.
Qed.

Ltac read_field lem := rewrite lem by done; cbn [mbind res_bind].

Definition proposal_ok `{GateCodec} (dump_response : ProtectResponse → json) (p : ProposalRow) : bool :=
  dict_ok (p_facts p) && gate_ok (p_gate p) && negb (is_nan (p_created_at p)) &&
  negb (is_nan (p_expires_at p)) &&
  match p_decided_at p with Some x => negb (is_nan x) | None => true end &&
  match p_result p with Some r => dict_ok (dump_response r) | None => true end.

(** The proposal a row keeps: the gate's details are rendered, and the response is beside. *)
Definition stored_proposal `{GateCodec} (p : ProposalRow) : ProposalRow :=
  {| p_id := p_id p; p_run_id := p_run_id p; p_borrower := p_borrower p;
     p_created_at := p_created_at p; p_expires_at := p_expires_at p; p_status := p_status p;
     p_strategy := p_strategy p; p_facts := p_facts p; p_gate := gate_stored (p_gate p);
     p_rationale := p_rationale p; p_guard_flagged := p_guard_flagged p;
     p_decided_at := p_decided_at p; p_decided_by := p_decided_by p;
     p_decision_note := p_decision_note p; p_tx_hash := p_tx_hash p; p_result := None |}.

Lemma as_real_kept x : is_nan x = false → as_real (kept REAL (SReal x)) = Ok x.
Proof. intros Hx. by rewrite kept_real. Qed.

Lemma status_member s : as_member status_value all_statuses (SText (status_value s)) = Ok s.
Proof. by destruct s. Qed.

Lemma proposal_reads `{GateCodec} dump_response p :
  proposal_ok dump_response p = true →
  _proposal (proposal_row dump_response p) = Ok (stored_proposal p, dump_response <$> p_result p).
Proof.
  unfold proposal_ok. rewrite !andb_true_iff, !negb_true_iff. intros [[[[[Hf Hg] Hc] He] Hd] Hr].
  unfold _proposal. repeat (erewrite field_eq; [|reflexivity]).
  cbn [as_int as_text mbind res_bind].
  read_field as_real_kept. read_field as_real_kept. read_field status_member.
  read_field dict_column_dumps. read_field gate_round_trip. read_field truth_flag.
  rewrite nullable_real by (destruct (p_decided_at p); [by apply negb_true_iff|done]).
  cbn [mbind res_bind].
  read_field nullable_text. read_field nullable_text. read_field nullable_text.
  rewrite opt_column_dumps; [done|]. destruct (p_result p) as [r|]; [|done]. cbn.
  apply andb_true_iff in Hr as [? ?]. split; [done|by apply as_dict_ok].
Qed.

Lemma get_typed `{GateCodec} dump_response id db :
  forallb (proposal_ok dump_response) (db_proposals db) = true →
  raw_get id (proposals_table dump_response db) =
  Ok ((λ p, (stored_proposal p, dump_response <$> p_result p)) <$> sql_get_proposal id db).
Proof.
  unfold raw_get, sql_get_proposal, proposals_table. cbn [tb_rows].
  induction (db_proposals db) as [|p l IH]; [done|]. cbn [forallb]. intros [Hp Hl]%andb_true_iff.
  rewrite fmap_cons, !filter_cons, cell_is_id. destruct (decide (p_id p = id)) as [->|Hne].
  - rewrite Z.eqb_refl, decide_True by done. cbn [head]. by rewrite proposal_reads.
  - rewrite decide_False; [by apply IH|]. by rewrite (proj2 (Z.eqb_neq _ _)).
Qed.

(** ** The other tables *)
Definition tuning_row (t : TuningRow) : row :=
  [("id", SInt (t_id t)); ("run_id", SText (t_run_id t)); ("borrower", SText (t_borrower t));
   ("created_at", kept REAL (SReal (t_created_at t)));
   ("field_name", SText (field_name_value (t_field_name t)));
   ("current_value", SInt (t_current_value t)); ("suggested_value", SInt (t_suggested_value t));
   ("rationale", SText (t_rationale t));
   ("eip712_payload_json", SText (dumps (payload_json (t_eip712_payload t))));
   ("status", SText (tuning_value (t_status t))); ("decided_at", real_opt (t_decided_at t))]%string.

Definition decision_row (d : DecisionRow) : row :=
  [("id", SInt (d_id d)); ("run_id", SText (d_run_id d)); ("borrower", SText (d_borrower d));
   ("created_at", kept REAL (SReal (d_created_at d))); ("node", SText (d_node d));
   ("latency_ms", int_opt (d_latency_ms d)); ("llm_used", flag (d_llm_used d));
   ("output_json", SText (dumps (d_output d))); ("error", text_opt (d_error d))]%string.

Definition audit_row (a : AuditRow) : row :=
  [("id", SInt (a_id a)); ("ts", kept REAL (SReal (a_ts a))); ("actor", SText (actor_value (a_actor a)));
   ("action", SText (action_value (a_action a))); ("borrower", text_opt (a_borrower a));
   ("proposal_id", int_opt (a_proposal_id a)); ("detail_json", SText (dumps (a_detail a)))]%string.

Definition message_row (m : ChatMessageRow) : row :=
  [("id", SInt (m_id m)); ("thread_id", SText (m_thread_id m)); ("ts", kept REAL (SReal (m_ts m)));
   ("role", SText (role_value (m_role m))); ("content", SText (m_content m));
   ("tool_calls_json", json_opt (m_tool_calls m)); ("facts_json", json_opt (m_facts m));
   ("guard_flagged", flag (m_guard_flagged m))]%string.

Ltac start_reading :=
  repeat (erewrite field_eq; [|reflexivity]); cbn [as_int as_text mbind res_bind].

Lemma tuning_reads t :
  is_nan (t_created_at t) = false → json_ok (payload_json (t_eip712_payload t)) = true →
  match t_decided_at t with Some x => is_nan x = false | None => True end →
  _tuning (tuning_row t) = Ok t.
Proof.
  intros Ht Hp Hd. unfold _tuning. start_reading. read_field as_real_kept.
  assert (as_member field_name_value all_fields (SText (field_name_value (t_field_name t))) = Ok (t_field_name t))
    as -> by by destruct (t_field_name t).
  cbn [mbind res_bind]. read_field json_loads_dumps. rewrite payload_round. cbn [mbind res_bind].
  assert (as_member tuning_value all_tuning (SText (tuning_value (t_status t))) = Ok (t_status t))
    as -> by by destruct (t_status t).
  cbn [mbind res_bind]. rewrite nullable_real by done. by destruct t.
Qed.

Lemma decision_reads d :
  is_nan (d_created_at d) = false → dict_ok (d_output d) = true → _decision (decision_row d) = Ok d.
Proof.
  intros Ht Ho. unfold _decision. start_reading. read_field as_real_kept. read_field nullable_int.
  read_field truth_flag. read_field dict_column_dumps. read_field nullable_text. by destruct d.
Qed.

Lemma audit_reads a :
  is_nan (a_ts a) = false → dict_ok (a_detail a) = true → _audit (audit_row a) = Ok a.
Proof.
  intros Ht Ho. unfold _audit. start_reading. read_field as_real_kept.
  assert (as_member actor_value all_actors (SText (actor_value (a_actor a))) = Ok (a_actor a))
    as -> by by destruct (a_actor a).
  cbn [mbind res_bind].
  assert (as_member action_value all_actions (SText (action_value (a_action a))) = Ok (a_action a))
    as -> by by destruct (a_action a).
  cbn [mbind res_bind]. read_field nullable_text. read_field nullable_int.
  read_field dict_column_dumps. by destruct a.
Qed.

Lemma message_reads m :
  is_nan (m_ts m) = false →
  match m_tool_calls m with Some j => dicts_ok j = true | None => True end →
  match m_facts m with Some j => dict_ok j = true | None => True end →
  _message (message_row m) = Ok m.
Proof.
  intros Ht Hc Hf. unfold _message. start_reading. read_field as_real_kept.
  assert (as_member role_value all_roles (SText (role_value (m_role m))) = Ok (m_role m))
    as -> by by destruct (m_role m).
  cbn [mbind res_bind]. rewrite (opt_column_dumps as_dicts).
  2: { revert Hc. destruct (m_tool_calls m) as [j|]; [|done]. apply dicts_ok_spec. }
  cbn [mbind res_bind]. rewrite (opt_column_dumps as_dict).
  2: { revert Hf. destruct (m_facts m) as [j|]; [|done]. intros [? ?]%andb_true_iff.
       split; [done|by apply as_dict_ok]. }
  cbn [mbind res_bind]. read_field truth_flag. by destruct m.
Qed.

Lemma tuning_inserted id run_id borrower field_name current suggested rationale payload ts :
  is_nan ts = false →
  new_row id (tuning_values run_id borrower field_name current suggested rationale payload ts)
    TUNING_SUGGESTIONS =
  Ok (tuning_row {| t_id := id; t_run_id := run_id; t_borrower := borrower; t_created_at := ts;
        t_field_name := field_name; t_current_value := current; t_suggested_value := suggested;
        t_rationale := rationale; t_eip712_payload := payload; t_status := OPEN;
        t_decided_at := None |}).
Proof. by destruct ts. Qed.

Lemma decision_inserted id run_id borrower node output latency_ms llm_used error ts :
  is_nan ts = false →
  new_row id (decision_values run_id borrower node output latency_ms llm_used error ts) DECISIONS =
  Ok (decision_row {| d_id := id; d_run_id := run_id; d_borrower := borrower; d_created_at := ts;
        d_node := node; d_latency_ms := latency_ms; d_llm_used := llm_used; d_output := output;
        d_error := error |}).
Proof. by destruct ts, latency_ms, error. Qed.

Lemma audit_inserted id actor action borrower proposal_id detail ts :
  is_nan ts = false →
  new_row id (audit_values actor action borrower proposal_id detail ts) AUDIT =
  Ok (audit_row {| a_id := id; a_ts := ts; a_actor := actor; a_action := action;
        a_borrower := borrower; a_proposal_id := proposal_id; a_detail := detail |}).
Proof. by destruct ts, borrower, proposal_id. Qed.

Lemma message_inserted id thread_id role content tool_calls facts flagged ts :
  is_nan ts = false →
  new_row id (message_values thread_id role content tool_calls facts flagged ts) CHAT_MESSAGES =
  Ok (message_row {| m_id := id; m_thread_id := thread_id; m_ts := ts; m_role := role;
        m_content := content; m_tool_calls := tool_calls; m_facts := facts;
        m_guard_flagged := flagged |}).
Proof. by destruct ts, tool_calls, facts. Qed.

(** ** A codec for [PolicyDecision]: the JSON object pydantic documents *)
Section codec.
Context `{UnicodeData}.

Definition severity_value (s : Severity) : string :=
  match s with Sev_ok => "ok" | Sev_soft_block => "soft_block" | Sev_hard_block => "hard_block" end.

Definition gate_value (g : PolicyDecision) : json :=
  JObj [("allowed", JBool (pd_allowed g));
        ("checks", JList ((λ c, JObj [("name", JStr (gc_name c)); ("passed", JBool (gc_passed c));
                                      ("detail", JStr (render (gc_detail c)))]) <$> pd_checks g));
        ("blocking", JList (JStr <$> pd_blocking g));
        ("severity", JStr (severity_value (pd_severity g)))]%string.

Definition gate_of_value (j : json) : res PolicyDecision :=
  match j with
  | JObj [(_, JBool allowed); (_, JList checks); (_, JList blocking); (_, JStr severity)] =>
      cs ← mapM (M := res) (λ c, match c with
        | JObj [(_, JStr name); (_, JBool passed); (_, JStr detail)] =>
            Ok {| gc_name := name; gc_passed := passed; gc_detail := [Lit detail] |}
        | _ => Err invalid
        end) checks;
      bs ← mapM (M := res) (λ b, match b with JStr s => Ok s | _ => Err invalid end) blocking;
      s ← as_member severity_value [Sev_ok; Sev_soft_block; Sev_hard_block] (SText severity);
      Ok {| pd_allowed := allowed; pd_checks := cs; pd_blocking := bs; pd_severity := s |}
  | _ => Err invalid
  end.

Lemma gate_of_value_round g : gate_of_value (gate_value g) = Ok (gate_stored g).
Proof.
  destruct g as [allowed checks blocking severity]. cbn [gate_value gate_of_value pd_allowed pd_checks pd_blocking pd_severity].
  assert (mapM (M := res) (λ c, match c with
        | JObj [(_, JStr name); (_, JBool passed); (_, JStr detail)] =>
            Ok {| gc_name := name; gc_passed := passed; gc_detail := [Lit detail] |}
        | _ => Err invalid
        end) ((λ c, JObj [("name"%string, JStr (gc_name c)); ("passed"%string, JBool (gc_passed c));
                          ("detail"%string, JStr (render (gc_detail c)))]) <$> checks) =
    Ok ((λ c, {| gc_name := gc_name c; gc_passed := gc_passed c;
                 gc_detail := [Lit (render (gc_detail c))] |}) <$> checks)) as ->.
  { induction checks as [|c checks IH]; [done|]. cbn. by rewrite IH. }
  cbn [mbind res_bind].
  assert (mapM (M := res) (λ b, match b with JStr s => Ok s | _ => Err invalid end) (JStr <$> blocking)
    = Ok blocking) as ->.
  { induction blocking as [|b blocking IH]; [done|]. cbn. by rewrite IH. }
  by destruct severity.
Qed.

Lemma gate_value_ok g : gate_ok g = true → json_ok (gate_value g) = true.
Proof.
  intros [Hc Hb]%andb_true_iff. cbn [gate_value json_ok].
  rewrite bool_decide_eq_true_2 by (apply (bool_decide_unpack _); by vm_compute).
  cbn [forallb fst snd json_ok andb]. rewrite !andb_true_iff. split_and!; try done.
  - rewrite forallb_forall in *. intros j Hj%list_elem_of_In. apply list_elem_of_fmap in Hj as (c & -> & Hin).
    apply list_elem_of_In, Hc, andb_true_iff in Hin as [Hn Hd]. cbn [json_ok].
    rewrite bool_decide_eq_true_2 by (apply (bool_decide_unpack _); by vm_compute).
    cbn [forallb fst snd json_ok andb]. by rewrite Hn, Hd.
  - rewrite forallb_forall in *. intros j Hj%list_elem_of_In. apply list_elem_of_fmap in Hj as (s & -> & Hin).
    by apply list_elem_of_In, Hb in Hin.
  - by destruct (pd_severity g).
Qed.

#[refine, local] Instance json_gate : GateCodec := {|
  gate_dump g := dumps (gate_value g);
  gate_validate s := j ← loads s; gate_of_value j |}.
Proof.
  intros g Hg. rewrite loads_dumps by by apply gate_value_ok. apply gate_of_value_round.
Defined.
End codec.

(** ** The schema *)
Lemma foldl_setdefault_idemp {V} (l : list (string * V)) (d : dict string V) :
  (∀ k, k ∈ l.*1 → is_Some (dget d k)) → foldl (λ d nc, dsetdefault d nc.1 nc.2) d l = d.
Proof.
  revert d. induction l as [|[k v] l IH]; intros d Hd; [done|]. cbn.
  assert (dsetdefault d k v = d) as ->.
  { unfold dsetdefault. destruct (Hd k) as [x ->]; [by constructor|done]. }
  apply IH. intros k' Hk. apply Hd. by constructor.
Qed.

Lemma foldl_setdefault_old {V} (l : list (string * V)) (d : dict string V) k v :
  dget d k = Some v → dget (foldl (λ d nc, dsetdefault d nc.1 nc.2) d l) k = Some v.
Proof.
  revert d. induction l as [|[k' v'] l IH]; intros d Hd; [done|]. cbn. apply IH.
  rewrite dget_dsetdefault. case_decide; [subst; by rewrite Hd|done].
Qed.

Lemma foldl_setdefault_new {V} (l : list (string * V)) (d : dict string V) k :
  k ∈ l.*1 → is_Some (dget (foldl (λ d nc, dsetdefault d nc.1 nc.2) d l) k).
Proof.
  revert d. induction l as [|[k' v'] l IH]; intros d; cbn; [by intros ?%not_elem_of_nil|].
  intros [->|Hk]%elem_of_cons; [|by apply IH].
  exists (default v' (dget d k')). apply foldl_setdefault_old. by rewrite dget_dsetdefault, decide_True.
Qed.

(** Opening a file creates what is missing and nothing else: the tables a file has are kept,
    every table of the schema is there afterwards, there is a version, and opening again
    changes nothing. *)
Lemma open_idempotent path f :
  path ≠ ":memory:"%string →
  (∀ k cols, dget (f_tables f) k = Some cols → dget (f_tables (_open path (Some f))) k = Some cols) ∧
  (∀ k, k ∈ _SCHEMA.*1 → is_Some (dget (f_tables (_open path (Some f))) k)) ∧
  f_versions (_open path (Some f)) ≠ [] ∧
  _open path (Some (_open path (Some f))) = _open path (Some f).
Proof.
  intros Hp%String.eqb_neq.
  assert (f_tables (_open path (Some f)) = f_tables (executescript f)) as Ht.
  { unfold _open. rewrite Hp. cbn [default id]. by destruct (f_versions _). }
  assert (f_versions (_open path (Some f)) ≠ []) as Hv.
  { unfold _open. rewrite Hp. cbn [default id]. destruct (f_versions (executescript f)) eqn:E; [done|congruence]. }
  split_and!; [|rewrite Ht; apply foldl_setdefault_new|done|].
  - intros k cols Hk. rewrite Ht. by apply foldl_setdefault_old.
  - remember (_open path (Some f)) as g eqn:Hg. unfold _open. rewrite Hp. cbn [default id].
    assert (executescript g = g) as ->; [|by destruct (f_versions g)].
    unfold executescript. rewrite foldl_setdefault_idemp; [by destruct g|].
    intros k Hk. rewrite Ht. by apply foldl_setdefault_new.
Qed.

(** ** Claims *)

(** C31: The SQL on [proposals] implements the typed queue.  On the rows that keep any list of
    proposals, each statement as the source writes it (the insertion with SQLite's column
    types, defaults and [NOT NULL] checks, the conditional claim, the decision with its
    [COALESCE]s, the expiry, the lookup with its decoding) gives the rows, the count and the
    identifier the typed operation of [Store] gives.  A claim is won exactly when one row
    changed. *)
Theorem proposals_refined `{GateCodec} (dump_response : ProtectResponse → json) db :
  let tab := proposals_table dump_response in
  (∀ run_id borrower strategy facts gate rationale flagged ts expires,
     is_nan ts = false → is_nan expires = false →
     let '(id, db') :=
       sql_insert_proposal run_id borrower strategy facts gate rationale flagged ts expires db in
     insert_row PROPOSALS
       (proposal_values run_id borrower strategy facts gate rationale flagged ts expires) (tab db) =
     Ok (id, tab db')) ∧
  (∀ id status,
     let '(n, t) := raw_claim id status (tab db) in
     (n =? 1, t) = ((sql_claim_proposal id status db).1, tab (sql_claim_proposal id status db).2)) ∧
  (∀ id status ts by_ note tx result,
     (raw_finish id status ts by_ note tx (dump_response <$> result) (tab db)).2 =
     tab (sql_finish_proposal id status ts by_ note tx result db)) ∧
  (∀ ts, raw_expire ts (tab db) = ((sql_expire ts db).1, tab (sql_expire ts db).2)) ∧
  (forallb (proposal_ok dump_response) (db_proposals db) = true → ∀ id,
     raw_get id (tab db) =
     Ok ((λ p, (stored_proposal p, dump_response <$> p_result p)) <$> sql_get_proposal id db)).
Proof.
  cbn zeta. split_and!.
  - intros. by apply insert_typed.
  - intros. by rewrite claim_typed.
  - intros. apply finish_typed.
  - intros. apply expire_typed.
  - intros. by apply get_typed.
Qed.


(** A dictionary with every kind of value JSON has to escape. *)
Definition sample_detail : json :=
  JObj [("by", JStr (encode [34; 92; 10; 233; 128512])); ("hf", JFloat (dec 1234 (-3)));
        ("n", JInt (-5)); ("l", JList [JNull; JBool true; JObj []])]%string.


(** Text that is all ASCII, for the witness. *)
#[local] Instance ascii_only : UnicodeData :=
  {| u_word _ := false; u_digit _ := None; u_space _ := false; u_printable _ := false; u_upper c := [c] |}.

Definition sample_gate : PolicyDecision :=
  {| pd_allowed := false;
     pd_checks := [{| gc_name := "cost_ceiling"; gc_passed := false; gc_detail := [Lit "cost "; FInt 12] |}];
     pd_blocking := ["cost_ceiling"]%string; pd_severity := Sev_soft_block |}.

Definition sample_db : AgentDB :=
  (sql_insert_proposal "r" "0xb" "watch" sample_detail sample_gate "why" false (flit 1) (flit 9) empty_db).2.

Lemma proposals_refined_witness :
  match raw_get (H0 := json_gate) 1 (proposals_table (H0 := json_gate) (λ _, JNull) sample_db) with
  | Ok (Some (p, None)) => p_facts p = sample_detail ∧ pd_blocking (p_gate p) = ["cost_ceiling"%string]
  | _ => False
  end.
Proof.
  rewrite (proj2 (proj2 (proj2 (proj2 (proposals_refined (H0 := json_gate) (λ _, JNull) sample_db))))).
  - split; vm_compute; reflexivity.
  - vm_compute. reflexivity.
Defined.
