(* ===== verification/RowsRest.v ===== *)
(** * agent/store.py: the SQL of the other tables on raw rows

    [Rows] has the statements on [proposals].  Here are the others as the source writes them:
    the re-sign requests with their conditional update, the two append-only logs, the chat's
    upsert of a thread, the foreign key a message is checked against, the deletion of a thread
    with its cascade, and every listing with its order and limit.  [tables_refined]: on the
    rows that keep a database of [Store], each gives the rows, the counts, the identifiers,
    the records and the errors of the typed operation. *)
From S2P Require Import Prelude PyFloat PyText Config State Models Events AgentModels Store AgentBase Tools Json Rows.

(** ** Statements *)

(** [SELECT * FROM t WHERE ... ORDER BY id DESC LIMIT ?], each row read back.  A table keeps its
    rows in the order of their ids, which [AUTOINCREMENT] gives in the order of insertion. *)
Definition raw_list {A} (decode : row → res A) (test : row → bool) (limit : Z) (rows : list row)
  : res (list A) :=
  mapM_res decode (limit_rows limit (filter (λ r, test r = true) (rev rows))).

(** [... AND column = ?], for the conditions a value was given for. *)
Definition cell_matches (r : row) (name : string) (v : option cell) : bool :=
  match v with Some v => cell_is r name v | None => true end.

(** [count_recent_proposals]: [created_at >= ?] is not true of [NULL]. *)
Definition cell_since (r : row) (name : string) (x : f64) : bool :=
  match dget r name with Some (SReal y) => fle x y | _ => false end.

Definition raw_count_recent (since : f64) (borrower : option string) (t : table) : Z :=
  Z.of_nat (length (filter (λ r, cell_since r "created_at" since
    && cell_matches r "borrower" (SText <$> borrower) = true) (tb_rows t))).

Definition raw_list_proposals `{GateCodec} (status : option ProposalStatus) (borrower : option string)
    (limit : Z) (t : table) : res (list (ProposalRow * option json)) :=
  raw_list _proposal (λ r, cell_matches r "status" (SText ∘ status_value <$> status)
                           && cell_matches r "borrower" (SText <$> borrower)) limit (tb_rows t).

(** *** Re-sign requests *)
Definition raw_set_tuning_status (id : Z) (status : TuningStatus) (ts : f64) : table → Z * table :=
  update_rows (λ r, cell_is r "id" (SInt id) && cell_is r "status" (SText (tuning_value OPEN)))
    (λ r, dset (dset r "status" (SText (tuning_value status))) "decided_at" (kept REAL (SReal ts))).

Definition raw_get_tuning (id : Z) (t : table) : res (option TuningRow) :=
  match head (filter (λ r, cell_is r "id" (SInt id) = true) (tb_rows t)) with
  | Some r => x ← _tuning r; Ok (Some x)
  | None => Ok None
  end.

Definition raw_list_tuning (borrower : option string) (status : option TuningStatus) (limit : Z)
    (t : table) : res (list TuningRow) :=
  raw_list _tuning (λ r, cell_matches r "borrower" (SText <$> borrower)
                         && cell_matches r "status" (SText ∘ tuning_value <$> status)) limit (tb_rows t).

(** *** The logs *)

(** [... WHERE run_id = ? ORDER BY id] *)
Definition raw_list_decisions (run_id : string) (t : table) : res (list DecisionRow) :=
  mapM_res _decision (filter (λ r, cell_is r "run_id" (SText run_id) = true) (tb_rows t)).

Definition raw_list_audit (borrower : option string) (limit : Z) (t : table) : res (list AuditRow) :=
  raw_list _audit (λ r, cell_matches r "borrower" (SText <$> borrower)) limit (tb_rows t).

(** *** The chat *)

(** [chat_threads], and [chat_messages] with the rows that refer to it. *)
Record chat_tables := { ct_threads : list row; ct_messages : table }.

Definition has_thread (thread_id : string) (rows : list row) : bool :=
  existsb (λ r, cell_is r "thread_id" (SText thread_id)) rows.

Definition thread_values (ts : f64) (borrower : option string) : dict string cell :=
  [("created_at", SReal ts); ("last_active", SReal ts); ("borrower", text_opt borrower)]%string.

(** [INSERT INTO chat_threads ... ON CONFLICT(thread_id) DO UPDATE SET ...]: the row that would
    be inserted is [excluded]; its columns are checked before the conflict is. *)
Definition raw_ensure_thread (thread_id : string) (borrower : option string) (ts : f64)
    (c : chat_tables) : res chat_tables :=
  rest ← new_row 0 (thread_values ts borrower) (tail CHAT_THREADS);
  let excluded := ("thread_id"%string, SText thread_id) :: rest in
  Ok {| ct_threads :=
          if has_thread thread_id (ct_threads c) then
            (λ r, if cell_is r "thread_id" (SText thread_id)
                  then set_coalesce "borrower" (default SNull (dget excluded "borrower"))
                         (dset r "last_active" (default SNull (dget excluded "last_active")))
                  else r) <$> ct_threads c
          else ct_threads c ++ [excluded];
        ct_messages := ct_messages c |}.

(** [PRAGMA foreign_keys=ON]: a message of a thread that is not there is refused. *)
Definition foreign_key_error : exn := Exn (OtherError false) "FOREIGN KEY constraint failed".

Definition raw_append_message (thread_id : string) (role : Role) (content : string)
    (tool_calls facts : option json) (guard_flagged : bool) (ts : f64) (c : chat_tables)
  : res (Z * chat_tables) :=
  '(id, t) ← insert_row CHAT_MESSAGES
               (message_values thread_id role content tool_calls facts guard_flagged ts) (ct_messages c);
  if has_thread thread_id (ct_threads c)
  then Ok (id, {| ct_threads := ct_threads c; ct_messages := t |})
  else Err foreign_key_error.

(** [DELETE FROM chat_threads WHERE thread_id = ?], with [ON DELETE CASCADE]. *)
Definition raw_delete_thread (thread_id : string) (c : chat_tables) : Z * chat_tables :=
  let mine r := cell_is r "thread_id" (SText thread_id) in
  (Z.of_nat (length (filter (λ r, mine r = true) (ct_threads c))),
   {| ct_threads := filter (λ r, mine r = false) (ct_threads c);
      ct_messages := {| tb_rows := filter (λ r, mine r = false) (tb_rows (ct_messages c));
                        tb_seq := tb_seq (ct_messages c) |} |}).

(** [history]: the newest [limit] messages, reversed. *)
Definition raw_history (thread_id : string) (limit : Z) (c : chat_tables) : res (list ChatMessageRow) :=
  mapM_res _message (rev (limit_rows limit
    (filter (λ r, cell_is r "thread_id" (SText thread_id) = true) (rev (tb_rows (ct_messages c)))))).

(** ** Typed rows *)
Section typed.
Context {A : Type} (enc : A → row).

Lemma filter_typed (test : row → bool) (P : A → Prop) `{!∀ a, Decision (P a)} (l : list A) :
  (∀ a, test (enc a) = true ↔ P a) → filter (λ r, test r = true) (enc <$> l) = enc <$> filter P l.
Proof.
  intros Ht. induction l as [|a l IH]; [done|]. rewrite fmap_cons, !filter_cons, IH.
  specialize (Ht a). repeat case_decide; tauto || done.
Qed.

Lemma limit_rows_fmap n (l : list A) : limit_rows n (enc <$> l) = enc <$> limit_rows n l.
Proof. unfold limit_rows. destruct (n <? 0); [done|]. by rewrite firstn_map. Qed.

Lemma limit_rows_sub n (l : list A) a : a ∈ limit_rows n l → a ∈ l.
Proof.
  unfold limit_rows. destruct (n <? 0); [done|]. intros Ha.
  rewrite <-(take_drop (Z.to_nat n) l). apply elem_of_app. by left.
Qed.

Lemma decode_typed {B} (decode : row → res B) (f : A → B) (l : list A) :
  (∀ a, a ∈ l → decode (enc a) = Ok (f a)) → mapM_res decode (enc <$> l) = Ok (f <$> l).
Proof.
  intros Hd. apply mapM_res_ok. rewrite Forall2_fmap_l, Forall2_fmap_r. apply Forall_Forall2_diag.
  by apply Forall_forall.
Qed.

Lemma list_typed {B} (decode : row → res B) (f : A → B) test (P : A → Prop) `{!∀ a, Decision (P a)} n (l : list A) :
  (∀ a, a ∈ l → decode (enc a) = Ok (f a)) → (∀ a, test (enc a) = true ↔ P a) →
  raw_list decode test n (enc <$> l) = Ok (f <$> limit_rows n (filter P (rev l))).
Proof.
  intros Hd Ht. unfold raw_list. rewrite <-map_rev.
  change (map enc (rev l)) with (enc <$> rev l).
  rewrite (filter_typed test P), limit_rows_fmap by done. apply decode_typed. intros a Ha.
  apply limit_rows_sub, list_elem_of_filter in Ha as [_ Ha].
  apply Hd. by rewrite list_elem_of_In, in_rev, <-list_elem_of_In.
Qed.

Lemma head_typed {B} (decode : row → res B) (f : A → B) (P : A → Prop) `{!∀ a, Decision (P a)} test (l : list A) :
  (∀ a, a ∈ l → decode (enc a) = Ok (f a)) → (∀ a, test (enc a) = true ↔ P a) →
  match head (filter (λ r, test r = true) (enc <$> l)) with
  | Some r => x ← decode r; Ok (Some x)
  | None => Ok None
  end = Ok (f <$> head (filter P l)).
Proof.
  intros Hd Ht. rewrite (filter_typed test P) by done.
  destruct (filter P l) as [|a k] eqn:E; [done|]. cbn.
  assert (a ∈ filter P l) as [_ ?]%list_elem_of_filter by (rewrite E; left). by rewrite Hd.
Qed.
End typed.

(** *** Cells *)
Lemma cell_is_text r name s s' :
  dget r name = Some (SText s') → cell_is r name (SText s) = true ↔ s' = s.
Proof.
  intros Hr. unfold cell_is. rewrite Hr. cbn. rewrite andb_true_r, bool_decide_eq_true. naive_solver.
Qed.

Lemma cell_is_int r name z z' :
  dget r name = Some (SInt z') → cell_is r name (SInt z) = true ↔ z' = z.
Proof.
  intros Hr. unfold cell_is. rewrite Hr. cbn. rewrite andb_true_r, bool_decide_eq_true. naive_solver.
Qed.

Lemma cell_is_opt r name s o :
  dget r name = Some (text_opt o) → cell_is r name (SText s) = true ↔ o = Some s.
Proof.
  intros Hr. unfold cell_is. rewrite Hr. cbn. rewrite andb_true_r, bool_decide_eq_true.
  destruct o; cbn; naive_solver.
Qed.

Lemma matches_text {A} `{EqDecision A} (val : A → string) r name (want : option A) a :
  (∀ a b, val a = val b → a = b) → dget r name = Some (SText (val a)) →
  cell_matches r name (SText ∘ val <$> want) = matches want a.
Proof.
  intros Hinj Hr. destruct want as [w|]; [|done]. cbn. unfold cell_is. rewrite Hr. cbn.
  rewrite andb_true_r. apply bool_decide_ext. split; [intros [= ?]; by apply Hinj|by intros ->].
Qed.

Lemma matches_string r name (want : option string) s :
  dget r name = Some (SText s) → cell_matches r name (SText <$> want) = matches want s.
Proof.
  intros Hr. destruct want as [w|]; [|done]. cbn. unfold cell_is. rewrite Hr. cbn.
  rewrite andb_true_r. apply bool_decide_ext. naive_solver.
Qed.


(** ** The tables of a database *)
Definition tuning_table (db : AgentDB) : table :=
  {| tb_rows := tuning_row <$> db_tuning db; tb_seq := Z.of_nat (length (db_tuning db)) |}.
Definition decisions_table (db : AgentDB) : table :=
  {| tb_rows := decision_row <$> db_decisions db; tb_seq := Z.of_nat (length (db_decisions db)) |}.
Definition audit_table (db : AgentDB) : table :=
  {| tb_rows := audit_row <$> db_audit db; tb_seq := Z.of_nat (length (db_audit db)) |}.

Definition thread_row (t : ChatThread) : row :=
  [("thread_id", SText (th_id t)); ("created_at", kept REAL (SReal (th_created_at t)));
   ("last_active", kept REAL (SReal (th_last_active t))); ("borrower", text_opt (th_borrower t));
   ("title", SNull)]%string.

(** Messages are deleted, so their counter is not their number. *)
Definition chat_of (db : AgentDB) : chat_tables :=
  {| ct_threads := thread_row <$> db_threads db;
     ct_messages := {| tb_rows := message_row <$> db_messages db; tb_seq := db_next_message db - 1 |} |}.

(** Rows that can be read back. *)
Definition tuning_ok (t : TuningRow) : bool :=
  negb (is_nan (t_created_at t)) && json_ok (payload_json (t_eip712_payload t)) &&
  match t_decided_at t with Some x => negb (is_nan x) | None => true end.
Definition decision_ok (d : DecisionRow) : bool :=
  negb (is_nan (d_created_at d)) && dict_ok (d_output d).
Definition audit_ok (a : AuditRow) : bool := negb (is_nan (a_ts a)) && dict_ok (a_detail a).
Definition message_ok (m : ChatMessageRow) : bool :=
  negb (is_nan (m_ts m)) && match m_tool_calls m with Some j => dicts_ok j | None => true end &&
  match m_facts m with Some j => dict_ok j | None => true end.

Lemma tuning_read t : tuning_ok t = true → _tuning (tuning_row t) = Ok t.
Proof.
  unfold tuning_ok. rewrite !andb_true_iff, negb_true_iff. intros [[? ?] Hd].
  apply tuning_reads; [done..|]. destruct (t_decided_at t); [by apply negb_true_iff|done].
Qed.

Lemma decision_read d : decision_ok d = true → _decision (decision_row d) = Ok d.
Proof.
  unfold decision_ok. rewrite andb_true_iff, negb_true_iff. intros [? ?]. by apply decision_reads.
Qed.

Lemma audit_read a : audit_ok a = true → _audit (audit_row a) = Ok a.
Proof.
  unfold audit_ok. rewrite andb_true_iff, negb_true_iff. intros [? ?]. by apply audit_reads.
Qed.

Lemma message_read m : message_ok m = true → _message (message_row m) = Ok m.
Proof.
  unfold message_ok. rewrite !andb_true_iff, negb_true_iff. intros [[? Hc] Hf].
  apply message_reads; [done|by destruct (m_tool_calls m)|by destruct (m_facts m)].
Qed.

Lemma all_read {A} (ok : A → bool) (P : A → Prop) (l : list A) :
  (∀ a, ok a = true → P a) → forallb ok l = true → ∀ a, a ∈ l → P a.
Proof. intros HP Hl a Ha%list_elem_of_In. apply HP. by rewrite forallb_forall in Hl; apply Hl. Qed.

(** ** Each table's statements *)
Lemma tuning_value_inj a b : tuning_value a = tuning_value b → a = b.
Proof. by destruct a, b. Qed.

Lemma insert_row_typed {A} (enc : A → row) cols vals (a : A) l seq :
  new_row (seq + 1) vals cols = Ok (enc a) →
  insert_row cols vals {| tb_rows := enc <$> l; tb_seq := seq |} =
  Ok (seq + 1, {| tb_rows := enc <$> (l ++ [a]); tb_seq := seq + 1 |}).
Proof. intros Hr. unfold insert_row. cbn [tb_seq tb_rows]. rewrite Hr, fmap_app. done. Qed.

Lemma insert_tuning_typed run_id borrower field_name current suggested rationale payload ts db :
  is_nan ts = false →
  let '(id, db') := sql_insert_tuning run_id borrower field_name current suggested rationale payload ts db in
  insert_row TUNING_SUGGESTIONS
    (tuning_values run_id borrower field_name current suggested rationale payload ts) (tuning_table db) =
  Ok (id, tuning_table db').
Proof.
  intros Ht. unfold sql_insert_tuning, tuning_table. cbn [set_tuning db_tuning].
  erewrite insert_row_typed by by apply tuning_inserted. rewrite length_app. unfold next_id.
  do 3 f_equal. cbn. lia.
Qed.

Lemma tuning_status_typed id status ts db :
  let '(n, t) := raw_set_tuning_status id status ts (tuning_table db) in
  let '(won, db') := sql_set_tuning_status id status ts db in
  (n =? 1, t) = (won, tuning_table db').
Proof.
  unfold raw_set_tuning_status, tuning_table at 1.
  rewrite (update_rows_typed tuning_row _ _
    (λ t, (t_id t =? id) && bool_decide (t_status t = OPEN)) (decided status ts)); [|intros t..].
  - unfold sql_set_tuning_status, tuning_table, update_where. cbn. by rewrite length_fmap.
  - f_equal.
    + apply eq_true_iff_eq. rewrite (cell_is_int _ _ _ (t_id t)) by done. by rewrite Z.eqb_eq.
    + apply eq_true_iff_eq. rewrite (cell_is_text _ _ _ (tuning_value (t_status t))) by done.
      rewrite bool_decide_eq_true. split; [apply tuning_value_inj|by intros ->].
  - done.
Qed.

Lemma get_tuning_typed id db :
  forallb tuning_ok (db_tuning db) = true →
  raw_get_tuning id (tuning_table db) = Ok (sql_get_tuning id db).
Proof.
  intros Hok. unfold raw_get_tuning, tuning_table, sql_get_tuning. cbn [tb_rows].
  rewrite (head_typed tuning_row _tuning (λ t, t) (λ t, t_id t = id)).
  - by rewrite option_fmap_id.
  - exact (all_read tuning_ok _ _ tuning_read Hok).
  - intros t. by apply cell_is_int.
Qed.

Lemma list_tuning_typed borrower status limit db :
  forallb tuning_ok (db_tuning db) = true →
  raw_list_tuning borrower status limit (tuning_table db) = Ok (sql_list_tuning borrower status limit db).
Proof.
  intros Hok. unfold raw_list_tuning, tuning_table, sql_list_tuning. cbn [tb_rows].
  erewrite (list_typed tuning_row _tuning (λ t, t)).
  - by rewrite list_fmap_id.
  - exact (all_read tuning_ok _ _ tuning_read Hok).
  - intros t. cbn beta. rewrite (matches_string _ _ _ (t_borrower t)) by done.
    by rewrite (matches_text tuning_value _ _ _ (t_status t)) by (done || apply tuning_value_inj).
Qed.

Lemma insert_decision_typed run_id borrower node output latency_ms llm_used error ts db :
  is_nan ts = false →
  let '(id, db') := sql_insert_decision run_id borrower node output latency_ms llm_used error ts db in
  insert_row DECISIONS (decision_values run_id borrower node output latency_ms llm_used error ts)
    (decisions_table db) = Ok (id, decisions_table db').
Proof.
  intros Ht. unfold sql_insert_decision, decisions_table. cbn [set_decisions db_decisions].
  erewrite insert_row_typed by by apply decision_inserted. rewrite length_app. unfold next_id.
  do 3 f_equal. cbn. lia.
Qed.

Lemma list_decisions_typed run_id db :
  forallb decision_ok (db_decisions db) = true →
  raw_list_decisions run_id (decisions_table db) = Ok (sql_list_decisions run_id db).
Proof.
  intros Hok. unfold raw_list_decisions, decisions_table, sql_list_decisions. cbn [tb_rows].
  rewrite (filter_typed decision_row _ (λ d, d_run_id d = run_id)).
  - rewrite (decode_typed decision_row _decision (λ d, d)); [by rewrite list_fmap_id|].
    intros d [_ Hd]%list_elem_of_filter. exact (all_read decision_ok _ _ decision_read Hok d Hd).
  - intros d. by apply cell_is_text.
Qed.

Lemma insert_audit_typed actor action borrower proposal_id detail ts db :
  is_nan ts = false →
  let '(id, db') := sql_audit actor action borrower proposal_id detail ts db in
  insert_row AUDIT (audit_values actor action borrower proposal_id detail ts) (audit_table db) =
  Ok (id, audit_table db').
Proof.
  intros Ht. unfold sql_audit, audit_table. cbn [set_audit db_audit].
  erewrite insert_row_typed by by apply audit_inserted. rewrite length_app. unfold next_id.
  do 3 f_equal. cbn. lia.
Qed.

Lemma list_audit_typed borrower limit db :
  forallb audit_ok (db_audit db) = true →
  raw_list_audit borrower limit (audit_table db) = Ok (sql_list_audit borrower limit db).
Proof.
  intros Hok. unfold raw_list_audit, audit_table, sql_list_audit. cbn [tb_rows].
  erewrite (list_typed audit_row _audit (λ a, a)).
  - by rewrite list_fmap_id.
  - exact (all_read audit_ok _ _ audit_read Hok).
  - intros a. destruct borrower as [b|]; [|done]. cbn [fmap option_fmap option_map cell_matches].
    rewrite bool_decide_eq_true. by apply cell_is_opt.
Qed.

(** *** The chat *)
Lemma thread_is id t : cell_is (thread_row t) "thread_id" (SText id) = true ↔ th_id t = id.
Proof. by apply cell_is_text. Qed.

Lemma message_is id m : cell_is (message_row m) "thread_id" (SText id) = true ↔ m_thread_id m = id.
Proof. by apply cell_is_text. Qed.

Lemma has_thread_typed id (l : list ChatThread) :
  has_thread id (thread_row <$> l) = bool_decide (id ∈ th_id <$> l).
Proof.
  apply eq_true_iff_eq. unfold has_thread. rewrite existsb_exists, bool_decide_eq_true, list_elem_of_fmap.
  split.
  - intros (r & Hr%list_elem_of_In & Hid). apply list_elem_of_fmap in Hr as (t & -> & Ht).
    apply thread_is in Hid. eauto.
  - intros (t & -> & Ht). exists (thread_row t). split; [|by apply thread_is].
    apply list_elem_of_In, list_elem_of_fmap. eauto.
Qed.

Lemma ensure_thread_typed id borrower ts db :
  is_nan ts = false →
  raw_ensure_thread id borrower ts (chat_of db) = Ok (chat_of (sql_ensure_thread id borrower ts db)).
Proof.
  intros Hts. unfold raw_ensure_thread.
  assert (new_row 0 (thread_values ts borrower) (tail CHAT_THREADS) =
          Ok (tail (thread_row {| th_id := id; th_created_at := ts; th_last_active := ts;
                                  th_borrower := borrower |}))) as ->
    by by destruct ts, borrower.
  cbn [mbind res_bind]. unfold chat_of, sql_ensure_thread. cbn [ct_threads ct_messages set_chat
    db_threads db_messages db_next_message]. rewrite has_thread_typed. do 2 f_equal.
  destruct (decide _) as [Hin|Hin].
  - rewrite bool_decide_eq_true_2 by done. rewrite <-!list_fmap_compose.
    apply list_fmap_ext. intros i t _. cbn [compose].
    destruct (String.eqb_spec (th_id t) id) as [E|E].
    + rewrite (proj2 (thread_is id t)) by done. by destruct borrower.
    + replace (cell_is _ _ _) with false; [done|]. symmetry. by rewrite <-not_true_iff_false, thread_is.
  - rewrite bool_decide_eq_false_2 by done. by rewrite fmap_app.
Qed.

Lemma append_message_typed id role content tool_calls facts flagged ts db :
  is_nan ts = false →
  raw_append_message id role content tool_calls facts flagged ts (chat_of db) =
  '(n, db') ← sql_append_message id role content tool_calls facts flagged ts db; Ok (n, chat_of db').
Proof.
  intros Hts. unfold raw_append_message, chat_of. cbn [ct_messages ct_threads].
  erewrite insert_row_typed by by apply message_inserted. cbn [mbind res_bind]. rewrite has_thread_typed.
  unfold sql_append_message. destruct (decide _) as [Hin|Hin].
  - rewrite bool_decide_eq_true_2 by done. cbn [mbind res_bind].
    cbn [set_chat ct_threads db_threads db_messages db_next_message].
    rewrite !Z.sub_add. by rewrite Z.add_simpl_r.
  - by rewrite bool_decide_eq_false_2.
Qed.

Lemma filter_not_typed {A} (enc : A → row) test (P : A → Prop) `{!∀ a, Decision (P a)} (l : list A) :
  (∀ a, test (enc a) = true ↔ P a) →
  filter (λ r, test r = false) (enc <$> l) = enc <$> filter (λ a, ¬ P a) l.
Proof.
  intros Ht. rewrite <-(filter_typed enc (λ r, negb (test r)) (λ a, ¬ P a)).
  - apply list_filter_iff. intros r. by rewrite negb_true_iff.
  - intros a. by rewrite negb_true_iff, <-Ht, not_true_iff_false.
Qed.

Lemma delete_thread_typed id db :
  let '(n, c) := raw_delete_thread id (chat_of db) in
  (n =? 1, c) = ((sql_delete_thread id db).1, chat_of (sql_delete_thread id db).2).
Proof.
  unfold raw_delete_thread, chat_of, sql_delete_thread.
  cbn [ct_threads ct_messages tb_rows tb_seq fst snd set_chat db_threads db_messages db_next_message].
  rewrite (filter_typed thread_row _ (λ t, th_id t = id)) by (intros t; apply thread_is).
  rewrite (filter_not_typed thread_row _ (λ t, th_id t = id)) by (intros t; apply thread_is).
  rewrite (filter_not_typed message_row _ (λ m, m_thread_id m = id)) by (intros m; apply message_is).
  by rewrite length_fmap.
Qed.

Lemma history_typed id limit db :
  forallb message_ok (db_messages db) = true →
  raw_history id limit (chat_of db) = Ok (sql_history id limit db).
Proof.
  intros Hok. unfold raw_history, sql_history, chat_of. cbn [ct_messages tb_rows].
  rewrite <-map_rev. change (map message_row) with (fmap (M := list) message_row).
  rewrite (filter_typed message_row _ (λ m, m_thread_id m = id)), limit_rows_fmap by (intros m; apply message_is).
  rewrite <-map_rev. change (map message_row) with (fmap (M := list) message_row).
  rewrite (decode_typed message_row _message (λ m, m)); [by rewrite list_fmap_id|].
  intros m Hm. apply (all_read message_ok _ _ message_read Hok).
  rewrite list_elem_of_In, <-in_rev, <-list_elem_of_In in Hm.
  apply limit_rows_sub, list_elem_of_filter in Hm as [_ Hm].
  by rewrite list_elem_of_In, in_rev, <-list_elem_of_In.
Qed.

(** *** The listings of the queue *)
Lemma count_recent_typed `{GateCodec} dump_response since borrower db :
  raw_count_recent since borrower (proposals_table dump_response db) = sql_count_recent since borrower db.
Proof.
  unfold raw_count_recent, sql_count_recent, proposals_table. cbn [tb_rows].
  rewrite (filter_typed (proposal_row dump_response) _
    (λ p, fle since (p_created_at p) && matches borrower (p_borrower p) = true)).
  - by rewrite length_fmap.
  - intros p. rewrite (matches_string _ _ _ (p_borrower p)) by done.
    assert (cell_since (proposal_row dump_response p) "created_at" since = fle since (p_created_at p)) as ->; [|done].
    unfold cell_since. cbn. by destruct (p_created_at p), since.
Qed.

Lemma list_proposals_typed `{GateCodec} dump_response status borrower limit db :
  forallb (proposal_ok dump_response) (db_proposals db) = true →
  raw_list_proposals status borrower limit (proposals_table dump_response db) =
  Ok ((λ p, (stored_proposal p, dump_response <$> p_result p)) <$> sql_list_proposals status borrower limit db).
Proof.
  intros Hok. unfold raw_list_proposals, sql_list_proposals, proposals_table. cbn [tb_rows].
  apply (list_typed (proposal_row dump_response) _proposal
    (λ p, (stored_proposal p, dump_response <$> p_result p))).
  - exact (all_read (proposal_ok dump_response) _ _ (proposal_reads dump_response) Hok).
  - intros p. rewrite (matches_string _ _ _ (p_borrower p)) by done.
    by rewrite (matches_text status_value _ _ _ (p_status p)) by (done || apply status_value_inj).
Qed.

(** ** Claims *)

(** The rows of a database can all be read back. *)
Definition db_readable `{GateCodec} (dump_response : ProtectResponse → json) (db : AgentDB) : bool :=
  forallb (proposal_ok dump_response) (db_proposals db) && forallb tuning_ok (db_tuning db) &&
  forallb decision_ok (db_decisions db) && forallb audit_ok (db_audit db) &&
  forallb message_ok (db_messages db).

(** C29: The rest of the store's SQL implements its typed operations.  On the rows that keep any
    database, the statements on the re-sign requests, the two logs and the chat do what the
    operations of [Store] do: the inserted row, its identifier and the new rows; a decision on
    a re-sign request is won exactly when one open row changed; a thread is made or touched,
    its borrower kept unless a new one is given; a message of an unknown thread is refused by
    the foreign key and nothing is written; deleting a thread takes its messages along.  And
    where every row can be read back, each lookup, listing, count and the chat history gives
    the records, in the order and up to the limit of the typed one.  No timestamp is a NaN. *)
Theorem tables_refined `{GateCodec} (dump_response : ProtectResponse → json) (db : AgentDB) (ts : f64)
    (Hts : is_nan ts = false) (Hdb : db_readable dump_response db = true) :
  (∀ run_id borrower field_name current suggested rationale payload,
     let '(id, db') :=
       sql_insert_tuning run_id borrower field_name current suggested rationale payload ts db in
     insert_row TUNING_SUGGESTIONS
       (tuning_values run_id borrower field_name current suggested rationale payload ts)
       (tuning_table db) = Ok (id, tuning_table db')) ∧
  (∀ id status,
     let '(n, t) := raw_set_tuning_status id status ts (tuning_table db) in
     let '(won, db') := sql_set_tuning_status id status ts db in
     (n =? 1, t) = (won, tuning_table db')) ∧
  (∀ run_id borrower node output latency_ms llm_used error,
     let '(id, db') := sql_insert_decision run_id borrower node output latency_ms llm_used error ts db in
     insert_row DECISIONS (decision_values run_id borrower node output latency_ms llm_used error ts)
       (decisions_table db) = Ok (id, decisions_table db')) ∧
  (∀ actor action borrower proposal_id detail,
     let '(id, db') := sql_audit actor action borrower proposal_id detail ts db in
     insert_row AUDIT (audit_values actor action borrower proposal_id detail ts) (audit_table db) =
     Ok (id, audit_table db')) ∧
  (∀ id borrower,
     raw_ensure_thread id borrower ts (chat_of db) = Ok (chat_of (sql_ensure_thread id borrower ts db))) ∧
  (∀ id role content tool_calls facts flagged,
     raw_append_message id role content tool_calls facts flagged ts (chat_of db) =
     '(n, db') ← sql_append_message id role content tool_calls facts flagged ts db; Ok (n, chat_of db')) ∧
  (∀ id,
     let '(n, c) := raw_delete_thread id (chat_of db) in
     (n =? 1, c) = ((sql_delete_thread id db).1, chat_of (sql_delete_thread id db).2)) ∧
  (∀ id, raw_get_tuning id (tuning_table db) = Ok (sql_get_tuning id db)) ∧
  (∀ borrower status limit,
     raw_list_tuning borrower status limit (tuning_table db) = Ok (sql_list_tuning borrower status limit db)) ∧
  (∀ run_id, raw_list_decisions run_id (decisions_table db) = Ok (sql_list_decisions run_id db)) ∧
  (∀ borrower limit, raw_list_audit borrower limit (audit_table db) = Ok (sql_list_audit borrower limit db)) ∧
  (∀ id limit, raw_history id limit (chat_of db) = Ok (sql_history id limit db)) ∧
  (∀ since borrower,
     raw_count_recent since borrower (proposals_table dump_response db) = sql_count_recent since borrower db) ∧
  (∀ status borrower limit,
     raw_list_proposals status borrower limit (proposals_table dump_response db) =
     Ok ((λ p, (stored_proposal p, dump_response <$> p_result p)) <$>
         sql_list_proposals status borrower limit db)).
Proof.
  unfold db_readable in Hdb. rewrite !andb_true_iff in Hdb. destruct Hdb as [[[[Hp Ht] Hd] Ha] Hm].
  split_and!; intros.
  - by apply insert_tuning_typed.
  - apply tuning_status_typed.
  - by apply insert_decision_typed.
  - by apply insert_audit_typed.
  - by apply ensure_thread_typed.
  - by apply append_message_typed.
  - apply delete_thread_typed.
  - by apply get_tuning_typed.
  - by apply list_tuning_typed.
  - by apply list_decisions_typed.
  - by apply list_audit_typed.
  - by apply history_typed.
  - apply count_recent_typed.
  - by apply list_proposals_typed.
Qed.

(** A thread with three messages, and its newest two. *)
#[local] Instance no_unicode : UnicodeData :=
  {| u_word _ := false; u_digit _ := None; u_space _ := false; u_printable _ := false; u_upper c := [c] |}.

Definition sample_chat : AgentDB :=
  let say content db :=
    match sql_append_message "t" User content None None false (flit 2) db with
    | Ok (_, db) => db
    | Err _ => db
    end in
  (say "three" (say "two" (say "one" (sql_ensure_thread "t" None (flit 1) sample_db))))%string.

Lemma tables_refined_witness :
  match raw_history "t" 2 (chat_of sample_chat) with
  | Ok l => m_content <$> l = ["two"; "three"]%string
  | Err _ => False
  end ∧
  raw_append_message "u" User "lost" None None false (flit 3) (chat_of sample_chat) = Err foreign_key_error.
Proof.
  destruct (tables_refined (H0 := json_gate) (λ _, JNull) sample_chat (flit 3) eq_refl)
    as (_ & _ & _ & _ & _ & Happend & _ & _ & _ & _ & _ & Hhistory & _).
  { vm_compute. reflexivity. }
  rewrite Hhistory, Happend. split; vm_compute; reflexivity.
Defined.
