(* ===== verification/App.v ===== *)
(** * main.py: the application's routes and its static files

    Which handler a request reaches.  The routers are included in order and a request goes to
    the first route whose method and path template fit ([serve_request]); the console's files are
    mounted beside them when the directory exists, and served with [Cache-Control: no-cache]. *)
From S2P Require Import Prelude.

Inductive verb := GET | POST | PUT | DELETE.

#[global] Instance verb_eq_dec : EqDecision verb.
Proof. solve_decision. Defined.

Inductive endpoint :=
  | E_health
  | E_get_position | E_get_assessment | E_post_assessment | E_protect
  | E_get_config | E_put_config
  | E_metrics | E_reset_breaker
  | E_status | E_chat | E_chat_history | E_delete_chat | E_crew_run | E_list_proposals
  | E_get_proposal | E_reject_proposal | E_approve_proposal | E_list_tuning | E_dismiss_tuning
  | E_audit_trail | E_panic.

(** A path_part of a template; a parameter takes any path_part that is not empty. *)
Inductive path_part := Fixed (s : string) | Param (name : string).

Record route := { r_verb : verb; r_path : list path_part; r_endpoint : endpoint }.

Definition on (v : verb) (path : list path_part) (e : endpoint) : route :=
  {| r_verb := v; r_path := path; r_endpoint := e |}.

(** [APIRouter(prefix=...)] *)
Definition prefixed (s : string) (l : list route) : list route :=
  (λ r, {| r_verb := r_verb r; r_path := Fixed s :: r_path r; r_endpoint := r_endpoint r |}) <$> l.

Definition health_router : list route := [on GET [Fixed "health"] E_health].

Definition positions_router : list route := prefixed "positions"
  [on GET [Param "borrower"] E_get_position;
   on GET [Param "borrower"; Fixed "assessment"] E_get_assessment;
   on POST [Param "borrower"; Fixed "assessment"] E_post_assessment;
   on POST [Param "borrower"; Fixed "protect"] E_protect].

Definition config_router : list route := prefixed "config" [on GET [] E_get_config; on PUT [] E_put_config].

Definition metrics_router : list route :=
  [on GET [Fixed "metrics"] E_metrics; on POST [Fixed "breaker"; Fixed "reset"] E_reset_breaker].

Definition agent_router : list route := prefixed "agent"
  [on GET [Fixed "status"] E_status;
   on POST [Fixed "chat"] E_chat;
   on GET [Fixed "chat"; Param "thread_id"; Fixed "history"] E_chat_history;
   on DELETE [Fixed "chat"; Param "thread_id"] E_delete_chat;
   on POST [Fixed "crew"; Fixed "run"] E_crew_run;
   on GET [Fixed "proposals"] E_list_proposals;
   on GET [Fixed "proposals"; Param "proposal_id"] E_get_proposal;
   on POST [Fixed "proposals"; Param "proposal_id"; Fixed "reject"] E_reject_proposal;
   on POST [Fixed "proposals"; Param "proposal_id"; Fixed "approve"] E_approve_proposal;
   on GET [Fixed "tuning"] E_list_tuning;
   on POST [Fixed "tuning"; Param "tuning_id"; Fixed "dismiss"] E_dismiss_tuning;
   on GET [Fixed "audit"] E_audit_trail;
   on POST [Fixed "panic"] E_panic].

(** [app.include_router], in order. *)
Definition app_routes : list route :=
  health_router ++ positions_router ++ config_router ++ metrics_router ++ agent_router.

(** ** Dispatch *)
Fixpoint fits (path : list path_part) (url : list string) : option (list (string * string)) :=
  match path, url with
  | [], [] => Some []
  | Fixed s :: path, u :: url => if decide (s = u) then fits path url else None
  | Param n :: path, u :: url =>
      if decide (u = ""%string) then None else vs ← fits path url; Some ((n, u) :: vs)
  | _, _ => None
  end.

Definition accepts (v : verb) (url : list string) (r : route) : option (endpoint * list (string * string)) :=
  if decide (r_verb r = v) then vs ← fits (r_path r) url; Some (r_endpoint r, vs) else None.

Inductive served :=
  | Handler (e : endpoint) (params : list (string * string))
  | Console (file : list string)
  | Redirect (location : string)
  | NotFound
  | NotAllowed.

(** The path is given by its segments; [frontend] says whether the console's directory exists.
    Starlette's redirection of a path that differs from a route by a final slash is left out. *)
Definition serve_request (frontend : bool) (v : verb) (url : list string) : served :=
  match head (omap (accepts v url) app_routes) with
  | Some (e, vs) => Handler e vs
  | None =>
      if existsb (λ r, match fits (r_path r) url with Some _ => true | None => false end) app_routes
      then NotAllowed
      else if frontend then
        match url with
        | "console"%string :: file => if decide (v = GET) then Console file else NotAllowed
        | [""%string] => if decide (v = GET) then Redirect "/console/" else NotAllowed
        | _ => NotFound
        end
      else NotFound
  end.

(** [_RevalidatingStatics.file_response]: the headers of a file, with one replaced. *)
Definition file_response (headers : dict string string) : dict string string :=
  dset headers "Cache-Control" "no-cache".

(** ** The routes do not shadow each other *)
Fixpoint overlap (p q : list path_part) : bool :=
  match p, q with
  | [], [] => true
  | Fixed s :: p, Fixed t :: q => bool_decide (s = t) && overlap p q
  | _ :: p, _ :: q => overlap p q
  | _, _ => false
  end.

Lemma fits_overlap p q url vs ws : fits p url = Some vs → fits q url = Some ws → overlap p q = true.
Proof.
  revert q url vs ws. induction p as [|[s|n] p IH]; intros [|[t|m] q] [|u url] vs ws;
    cbn [fits overlap]; try done; intros Hp Hq; repeat case_decide; try done; subst;
    rewrite ?bool_decide_eq_true_2 by done;
    (destruct (fits p url) eqn:E1, (fits q url) eqn:E2; try done; by eapply IH).
Qed.

Definition separate (r r' : route) : bool :=
  negb (bool_decide (r_verb r = r_verb r') && overlap (r_path r) (r_path r')).

Fixpoint all_separate (l : list route) : bool :=
  match l with [] => true | r :: l => forallb (separate r) l && all_separate l end.

Lemma app_routes_separate : all_separate app_routes = true.
Proof. by vm_compute. Qed.

Lemma all_separate_elem l r r' :
  all_separate l = true → r ∈ l → r' ∈ l → r = r' ∨ separate r r' = true ∨ separate r' r = true.
Proof.
  induction l as [|x l IH]; [by intros _ ?%not_elem_of_nil|]. cbn.
  intros [Hx Hl]%andb_true_iff. rewrite forallb_forall in Hx.
  intros [->|Hr]%elem_of_cons [->|Hr']%elem_of_cons; [by left| | |by auto].
  - right. left. by apply Hx, list_elem_of_In.
  - right. right. by apply Hx, list_elem_of_In.
Qed.

(** At most one route accepts a request, so the order of the routers is immaterial: a request
    that a route accepts is served by it. *)
Theorem routes_unambiguous frontend v url r out :
  r ∈ app_routes → accepts v url r = Some out → serve_request frontend v url = Handler out.1 out.2.
Proof.
  intros Hr Ha. unfold serve_request.
  destruct (omap (accepts v url) app_routes) as [|out' outs] eqn:E.
  { assert (out ∈ omap (accepts v url) app_routes) as Hin by (apply list_elem_of_omap; eauto).
    rewrite E in Hin. by apply not_elem_of_nil in Hin. }
  assert (out' ∈ omap (accepts v url) app_routes) as Hin by (rewrite E; constructor).
  apply list_elem_of_omap in Hin as (r' & Hr' & Ha'). cbn [head].
  assert (separate r r' = false ∧ separate r' r = false) as [H1 H2].
  { unfold accepts in Ha, Ha'. repeat case_decide; try done; subst.
    destruct (fits (r_path r) url) as [vs|] eqn:F; [|done].
    destruct (fits (r_path r') url) as [ws|] eqn:F'; [|done]. unfold separate. split.
    - rewrite (fits_overlap _ _ _ _ _ F F'), bool_decide_eq_true_2 by done. done.
    - rewrite (fits_overlap _ _ _ _ _ F' F), bool_decide_eq_true_2 by done. done. }
  destruct (all_separate_elem _ r r' app_routes_separate Hr Hr') as [<-|[?|?]]; [|congruence..].
  assert (out' = out) as -> by congruence. by destruct out.
Qed.

Example dispatch_approve :
  serve_request true POST ["agent"; "proposals"; "7"; "approve"]%string =
  Handler E_approve_proposal [("proposal_id", "7")]%string.
Proof. reflexivity. Qed.
Example dispatch_other :
  serve_request true DELETE ["config"]%string = NotAllowed ∧
  serve_request true GET [""%string] = Redirect "/console/" ∧ serve_request false GET [""%string] = NotFound ∧
  serve_request true GET ["console"; "finax.js"]%string = Console ["finax.js"%string].
Proof. repeat split. Qed.
