(* ===== verification/ProcessLoop.v ===== *)
(** * The whole process on the event loop: the keeper and the agents together

    [Concurrency.v] interleaves the worker and the control API.  Here the agent layer's routes
    run on the same loop, over the same keeper: the chat and the crew, which the language
    model steers, and the approval route, which may submit a rescue of its own. *)
From S2P Require Import Prelude PyFloat PyText Guard Config State InFlight Breaker Observability.
From S2P Require Import Models AgentModels Facts Risk Events Io Logic World Api Chain Monitor.
From S2P Require Import Pipeline Simulator Submitter Service Deps Routes Concurrency Recovery.
From S2P Require Import Policy Store AgentBase Tools Llm Chat AgentSpec ChatSpec Graph Crew.
From S2P Require Import CrewSpec Runtime AgentApi AgentRoutes.

(** ** Programs on a part of the state

    What is safe on the part is safe on the whole. *)
Lemma safe_zoom {S T G} (view : T → S) (upd : S → T → T)
    (own : G → S → Prop) (step_ok : G → S → G → S → Prop) (req_ok : G → req → Prop)
    {A} (p : io S A) (Q : res A → G → S → Prop) g t :
  (∀ s t, view (upd s t) = s) →
  safe own step_ok req_ok p Q g (view t) →
  safe (λ g t, own g (view t)) (λ g t g' t', step_ok g (view t) g' (view t')) req_ok
    (zoom view upd p) (λ r g t, Q r g (view t)) g t.
Proof.
  intros Hvu. revert g t. induction p as [a|e|k IH|s1 p IH|q k IH]; intros g t Hp; cbn in *; auto.
  - destruct Hp as (g' & Hst & Hp). exists g'. rewrite Hvu. split; [done|].
    apply IH. by rewrite Hvu.
  - destruct Hp as [Hq Hp]. split; [done|]. intros ans t' Ht'. apply IH, Hp.
    destruct (yields q); [done|]. by subst.
Qed.

(** ** Coroutines of the agents that leave the keeper's locks alone *)
Definition agent_kept (w w' : AgentWorld) : Prop := keeper_kept (aw_world w) (aw_world w').

Abbreviation unarmed := (keeps agent_kept sends_nothing).

Section unarmed.
Context {UD : UnicodeData} {U : EthUtils} {UL : EthUtilsLaws U} {L : Libm}.
Context {D : ProtectionDeps} {DL : ProtectionDepsLaws D} {CP : ChoiceParsing}.
Context {LG : LangGraph merge} {LGN : LangGraphNodes LG} (cfg : Settings).

Lemma kept_world t s : keeper_kept (aw_world t) s → agent_kept t (set_world s t).
Proof. by intros Hs. Qed.

Lemma reading_sends {A} (p : aprog A) :
  keeps agent_kept (λ q, is_read q = true) p → unarmed p.
Proof. apply keeps_mono; [done|]. intros q. apply is_read_on_behalf. Qed.

(** A statement of the database. *)
Lemma db_unarmed {A} (st : AgentDB → res (A * AgentDB)) : unarmed (db_run st).
Proof. by apply keeps_db_run. Qed.

Lemma keeper_unarmed {A} (p : prog A) : kept p → unarmed (keeper p).
Proof. intros Hp. by apply reading_sends, (kept_keeper agent_kept kept_world). Qed.

Ltac unarmed_step :=
  first [ apply keeper_unarmed; first [apply sigma_kept|apply assess_kept|apply snapshot_kept]
        | apply db_unarmed | apply reading_sends; by apply debt_price_kept
        | progress unfold get_proposal, claim_proposal, finish_proposal, audit, list_proposals,
            count_recent_proposals, get_tuning, set_tuning_status, list_tuning, list_audit,
            history, delete_thread, insert_proposal, record, insert_decision, db_write, db_read
        | keeps_step ].

Lemma revalidate_unarmed b p : unarmed (revalidate cfg b p).
Proof. unfold revalidate. repeat unarmed_step. Qed.

Lemma record_unarmed id row gate result : unarmed (record_execution id row gate result).
Proof. unfold record_execution. repeat unarmed_step. Qed.

Lemma reject_unarmed id body : unarmed (reject_proposal id body).
Proof. unfold reject_proposal. repeat unarmed_step. Qed.

Lemma dismiss_unarmed id : unarmed (dismiss_tuning id).
Proof. unfold dismiss_tuning. repeat unarmed_step. Qed.

Lemma chat_unarmed rt body : unarmed (chat cfg rt body).
Proof.
  unfold chat. apply keeps_bind; [repeat unarmed_step|]. intros th.
  eapply keeps_mono; [| |apply run_chat_chat]; [|done]. by intros w w' [Hk _].
Qed.

Lemma crew_node_unarmed v f s : dget (g_nodes (build_crew_graph cfg)) v = Some f → unarmed (f s).
Proof.
  assert (∀ {A} (p : aprog A), keeps crew_quiet sends_nothing p → unarmed p) as Hquiet.
  { intros A p. apply keeps_mono; [|done]. by intros w w' [Hk _]. }
  intros Hf. cbn in Hf. repeat (destruct (decide _) in Hf; [injection Hf as <-|]); [..|done].
  - apply Hquiet, crew_sends, monitor_crew.
  - apply Hquiet, analyst_crew.
  - apply Hquiet, strategist_crew.
  - apply Hquiet, crew_sends, gate_crew.
  - unfold node_propose, t_propose_protection. repeat unarmed_step.
  - unfold node_tuner, suggest_tuning, t_propose_tuning, insert_tuning.
    repeat first [apply ainvoke_keeps|unarmed_step].
  - apply Hquiet, auditor_crew.
Qed.

Lemma crew_unarmed body : unarmed (crew_run cfg body).
Proof.
  unfold crew_run, run_crew, crew_result, list_decisions.
  repeat first [apply (ainvoke_nodes merge)|unarmed_step]; [done|]. intros v f s Hf.
  by eapply crew_node_unarmed.
Qed.

Lemma health_unarmed : unarmed (health cfg).
Proof.
  unfold health. repeat keeps_step. intros w.
  apply (guar_zoom aw_client set_client (λ _ _, eq_refl) agent_kept (λ _ _, True)); [done|].
  apply (keeps_mono same_service (λ _ _, True) (λ q, is_read q = true) sends_nothing);
    [done|intros q; apply is_read_on_behalf|]. apply client_call_reads. reads_auto.
Qed.

(** *** On the event loop *)
Definition agent_own (g : gset string) (w : AgentWorld) : Prop := own g (aw_world w).

Definition agent_step (g : gset string) (w : AgentWorld) (g' : gset string) (w' : AgentWorld) : Prop :=
  step_ok g (aw_world w) g' (aw_world w').

Definition agent_clean {A} (_ : res A) (g : gset string) (w : AgentWorld) : Prop :=
  g = ∅ ∧ agent_own ∅ w.

Abbreviation asafe p := (safe agent_own agent_step lock_req p agent_clean).

Lemma keeper_kept_locks v v' : keeper_kept v v' → same_locks v v'.
Proof.
  intros [Heq Hs]. simplify_eq. unfold same_locks, locks, registry_valid, world_wf.
  replace (w_inflight v') with (w_inflight v). replace (w_registry v') with (w_registry v).
  split_and!; [done|done|]. intros (?&?&?&?&?&?). split_and!; auto; congruence.
Qed.

Lemma unarmed_safe {A} (p : aprog A) w : unarmed p → agent_own ∅ w → asafe p ∅ w.
Proof.
  intros Hp Hown. eapply safe_mono.
  - apply (guar_safe agent_own agent_step lock_req agent_kept sends_nothing); [| |done|apply Hp].
    + intros a b Ha (Hl & Hr & Hw)%keeper_kept_locks. pose proof Ha as (Hg&?&?).
      assert (agent_step ∅ a ∅ b) as Hst by by apply step_same. split; [done|].
      by eapply step_own.
    + intros q Hq b Hb. unfold sends_nothing in Hq. congruence.
  - by intros r g' w' [-> ?].
Qed.

Lemma asafe_then {A B} (p : aprog A) (f : A → aprog B) w :
  asafe p ∅ w → (∀ a w', agent_own ∅ w' → asafe (f a) ∅ w') → asafe (a ← p; f a) ∅ w.
Proof.
  intros Hp Hf. apply safe_bind. eapply safe_mono; [exact Hp|].
  intros [a|e] g w1 [-> Hw1]; [auto|done].
Qed.

Lemma asafe_step {A B} (p : aprog A) (f : A → aprog B) w :
  unarmed p → agent_own ∅ w → (∀ a w', agent_own ∅ w' → asafe (f a) ∅ w') → asafe (a ← p; f a) ∅ w.
Proof. intros Hp Hown Hf. apply asafe_then; [by apply unarmed_safe|done]. Qed.

Lemma keeper_safe {A} (p : prog A) w :
  agent_own ∅ w → safe own step_ok lock_req p done_clean ∅ (aw_world w) → asafe (keeper p) ∅ w.
Proof.
  intros Hown Hp.
  exact (safe_zoom aw_world set_world own step_ok lock_req p done_clean ∅ w (λ _ _, eq_refl) Hp).
Qed.

(** The approval route takes the lock only inside [protect], with a registered mandate. *)
Lemma execute_safe id row p s gate w :
  dep_valid p → agent_own ∅ w → asafe (execute_proposal id row p s gate) ∅ w.
Proof.
  intros Hp Hown. unfold execute_proposal. apply asafe_then.
  - apply safe_try_except. eapply safe_mono; [apply keeper_safe; [done|by apply protect_safe]|].
    intros [a|e] g w1 [-> Hw1]; [done|]. destruct (is_Exception e); [|done].
    apply unarmed_safe; [|done]. repeat unarmed_step.
  - intros result w1 Hw1. apply unarmed_safe; [apply record_unarmed|done].
Qed.

Lemma registered_valid w b p s :
  registry_valid w → params_of w b = Some (p, s) → dep_valid p.
Proof.
  unfold registry_valid, params_of. induction (w_registry w) as [|[k [p' s']] l IH]; cbn; [done|].
  intros [[Hv _] Hl]%Forall_cons Hd. destruct (decide _); [by simplify_eq|auto].
Qed.

Lemma allowed_safe id body row p s gate w :
  dep_valid p → agent_own ∅ w → asafe (approve_allowed id body row p s gate) ∅ w.
Proof.
  intros Hp Hown. unfold approve_allowed. apply asafe_step; [repeat unarmed_step|done|].
  intros now w1 Hw1. destruct (_ && _); [apply unarmed_safe; [|done]; repeat unarmed_step|].
  apply asafe_step; [repeat unarmed_step|done|]. intros won w2 Hw2.
  destruct won; cbn [negb]; [|by apply unarmed_safe; [repeat unarmed_step|]].
  apply asafe_step; [repeat unarmed_step|done|]. intros _ w3 Hw3.
  apply asafe_step; [repeat unarmed_step|done|]. intros _ w4 Hw4. by apply execute_safe.
Qed.

Lemma approve_safe id body w : agent_own ∅ w → asafe (approve_proposal cfg id body) ∅ w.
Proof.
  intros Hown. unfold approve_proposal, approve_row.
  apply asafe_step; [repeat unarmed_step|done|]. intros [row|] w1 Hw1.
  2: { by apply unarmed_safe; [repeat unarmed_step|]. }
  destruct (negb _); [by apply unarmed_safe; [repeat unarmed_step|]|].
  change (asafe (match params_of (aw_world w1) (p_borrower row) with
    | None => _ ← finish_proposal id STALE (Some (ar_approved_by body)) None None None None;
              Raise (http_error 409 "borrower no longer has a registered signed mandate")
    | Some (params, signature) =>
        gate ← revalidate cfg (p_borrower row) params;
        if negb (pd_allowed gate) then
          _ ← finish_proposal id STALE (Some (ar_approved_by body)) (ar_note body) None None None;
          _ ← audit System A_STALE_ON_APPROVE (Some (p_borrower row)) (Some id)
                (JObj [("blocking"%string, JList (JStr <$> pd_blocking gate))]) None;
          Raise (http_error 409 "the position no longer satisfies the policy gate")
        else approve_allowed id body row params signature gate
    end) ∅ w1).
  destruct (params_of _ _) as [[p s]|] eqn:Hp.
  2: { by apply unarmed_safe; [repeat unarmed_step|]. }
  pose proof Hw1 as (_ & Hr & _). pose proof (registered_valid _ _ _ _ Hr Hp) as Hv.
  apply asafe_step; [apply revalidate_unarmed|done|]. intros gate w2 Hw2.
  destruct (negb _); [by apply unarmed_safe; [repeat unarmed_step|]|]. by apply allowed_safe.
Qed.

Lemma panic_safe reason w : agent_own ∅ w → asafe (panic reason) ∅ w.
Proof.
  intros Hown. unfold panic. apply asafe_then.
  - apply keeper_safe; [done|]. apply safe_tail; [done|]. apply modify_keep. intros v.
    split_and!; [done|done|]. intros (?&?&?&?&?&?). split_and!; cbn; try done.
    by apply (breaker_step_wf _ (Trip MANUAL)).
  - intros _ w1 Hw1. apply unarmed_safe; [|done]. repeat unarmed_step.
Qed.

(** ** The event loop of the process *)

(** What the process may start: everything of the keeper's, inside the agents' world, and the
    routes of the agent layer, on the runtime their dependency resolved. *)
Inductive process_entry : task AgentWorld → Prop :=
  | pe_keeper {A} (p : prog A) : entry cfg (Task A p) → process_entry (Task A (keeper p))
  | pe_approve id body : process_entry (Task _ (approve_proposal cfg id body))
  | pe_reject id body : process_entry (Task _ (reject_proposal id body))
  | pe_dismiss id : process_entry (Task _ (dismiss_tuning id))
  | pe_panic reason : process_entry (Task _ (panic reason))
  | pe_chat rt body : process_entry (Task _ (chat cfg rt body))
  | pe_crew body : process_entry (Task _ (crew_run cfg body))
  | pe_status st rt : process_entry (Task _ (status st rt))
  | pe_history th n : process_entry (Task _ (chat_history th n))
  | pe_delete th : process_entry (Task _ (delete_chat th))
  | pe_proposals st b n : process_entry (Task _ (list_proposals_route st b n))
  | pe_proposal id : process_entry (Task _ (get_proposal_route id))
  | pe_tuning b c n : process_entry (Task _ (list_tuning_route b c n))
  | pe_audit b n : process_entry (Task _ (audit_trail b n))
  | pe_health : process_entry (Task _ (health cfg)).

Lemma process_entry_safe t w :
  process_entry t → agent_own ∅ w → asafe (task_prog t) ∅ w.
Proof.
  intros He Hown. destruct He as [A p Hp|id body|id body|id|reason|rt body|body|st rt|th n|th|st b n|id|b c n|b n|];
    cbn [task_prog].
  - apply keeper_safe; [done|]. by apply (entry_clean cfg (Task A p)).
  - by apply approve_safe.
  - apply unarmed_safe; [apply reject_unarmed|done].
  - apply unarmed_safe; [apply dismiss_unarmed|done].
  - by apply panic_safe.
  - apply unarmed_safe; [apply chat_unarmed|done].
  - apply unarmed_safe; [apply crew_unarmed|done].
  - apply unarmed_safe; [|done]. unfold status. repeat unarmed_step.
  - apply unarmed_safe; [|done]. unfold chat_history. repeat unarmed_step.
  - apply unarmed_safe; [|done]. unfold delete_chat. repeat unarmed_step.
  - apply unarmed_safe; [|done]. unfold list_proposals_route. repeat unarmed_step.
  - apply unarmed_safe; [|done]. unfold get_proposal_route. repeat unarmed_step.
  - apply unarmed_safe; [|done]. unfold list_tuning_route. repeat unarmed_step.
  - apply unarmed_safe; [|done]. unfold audit_trail. repeat unarmed_step.
  - apply unarmed_safe; [apply health_unarmed|done].
Qed.

Definition agent_compat (gs : list (gset string)) (w : AgentWorld) : Prop := compat gs (aw_world w).

Lemma agent_compat_own gs w i g : agent_compat gs w → gs !! i = Some g → agent_own g w.
Proof. apply compat_own. Qed.

Lemma process_pool w0 c :
  world_wf (aw_world w0) → registry_valid (aw_world w0) → locks (aw_world w0) = ∅ →
  preach process_entry w0 c →
  ∃ gs, agent_compat gs c.2 ∧
    Forall2 (task_safe agent_own agent_step lock_req (λ g, g = ∅)) c.1 gs.
Proof.
  intros Hw Hr Hl.
  apply (pool_invariant process_entry agent_own agent_step lock_req agent_compat ∅ (λ g, g = ∅));
    [exact agent_compat_own| | | |].
  - intros gs w. apply compat_start.
  - intros gs w i g g' w'. apply compat_step.
  - intros t w He Hown. eapply safe_mono; [by apply process_entry_safe|]. by intros ??? [].
  - split_and!; [done|done|by rewrite Hl|]. intros i j gi gj Hi. by rewrite lookup_nil in Hi.
Qed.

Lemma process_request gs ts w i A q k b :
  agent_compat gs w → Forall2 (task_safe agent_own agent_step lock_req (λ g, g = ∅)) ts gs →
  ts !! i = Some (Task A (Await q k)) → on_behalf q = Some b →
  ∃ g, gs !! i = Some g ∧ b ∈ g.
Proof.
  intros Hc Hts Hi Hb.
  destruct (pool_request agent_own agent_step lock_req agent_compat (λ g, g = ∅) agent_compat_own
    (ts, w) i A q k gs) as (g & Hg & Hq); [done..|]. exists g. auto.
Qed.

Lemma process_ended gs ts w :
  agent_compat gs w → Forall2 (task_safe agent_own agent_step lock_req (λ g, g = ∅)) ts gs →
  (∀ t, t ∈ ts → ended (task_prog t)) → locks (aw_world w) = ∅.
Proof.
  intros Hc Hts He. pose proof Hc as (_&_&->&_). apply set_eq. intros x. split; [|set_solver].
  intros (g & Hg & Hx)%elem_of_union_list. apply list_elem_of_lookup in Hg as [i Hi].
  destruct (Forall2_lookup_r _ _ _ _ _ Hts Hi) as (t & Ht & _).
  destruct (pool_ended agent_own agent_step lock_req agent_compat (λ g, g = ∅) agent_compat_own
    (ts, w) i t gs) as (g' & Hg' & ->); [done..| |]; [|congruence].
  apply He. by eapply list_elem_of_lookup_2.
Qed.
End unarmed.

(** ** Concrete runs *)
Definition demo_process : task AgentWorld → Prop :=
  @process_entry unicode_ascii eth_plain libm_test demo_deps demo_deps_laws rejects_all
    (bounded_runner merge) demo_settings.

(** The approval of the queued proposal, after [n] resumptions. *)
Definition approving (n : nat) : io AgentWorld ApprovalResult * AgentWorld :=
  Logic.drive (λ q, (demo_chain (Ok tt) (Ok rc_ok) q tt).1) n (demo_approve "ann") agent_world.

Lemma demo_process_reach :
  preach demo_process agent_world ([Task _ (approving 41).1], (approving 41).2).
Proof. exact (drive_reach _ demo_process 41 (demo_approve "ann") agent_world (pe_approve _ 1 _)). Qed.

Lemma agent_world_valid :
  world_wf (aw_world agent_world) ∧ registry_valid (DL := demo_deps_laws) (aw_world agent_world).
Proof.
  split; [|by repeat constructor]. split_and!; cbn; try apply dict_wf_nil; try lia.
  - split; apply dict_wf_nil.
  - split_and!; cbn; try lia. split; [done|by intros []].
  - unfold dict_wf. cbn. apply NoDup_singleton.
Qed.

(** The pending approval, driven to its end. *)
Definition approved_world : io AgentWorld ApprovalResult * AgentWorld :=
  Logic.drive (λ q, (demo_chain (Ok tt) (Ok rc_ok) q tt).1) 50 (approving 41).1 (approving 41).2.

Lemma approved_world_ok :
  rtc drains ([Task _ (approving 41).1], (approving 41).2)
    ([Task _ approved_world.1], approved_world.2) ∧
  nf drains ([Task _ approved_world.1], approved_world.2).
Proof.
  assert (Recovery.settled (Task _ (approving 41).1)) as Hs by (vm_compute; reflexivity).
  split; [exact (drive_drains _ 50 _ _ Hs)|].
  assert (ended approved_world.1) as He by (vm_compute; exact I).
  exact (ended_nf _ _ He).
Qed.

(** ** Claims *)

(** C5: FR-16 for the whole process.  Start it with no rescue in flight, and let any number of
    worker loops, control-API requests and agent routes run, interleaved at every [await],
    with any answers from the chain, the model and the database, cancellations included.  In
    every configuration it can reach: the shared state is well formed and the stored mandates
    are the validated ones of their borrowers; a coroutine that waits for a transaction it
    builds or sends for a borrower, be it the worker's, the manual route's or an approval's,
    holds that borrower's in-flight lock, and no other coroutine waits for one for the same
    borrower; and when every coroutine has ended, no lock is left behind. *)
Theorem process_exclusion {UD : UnicodeData} {U : EthUtils} {UL : EthUtilsLaws U}
    {E : EthAccount} {L : Libm} {CP : ChoiceParsing} {LG : LangGraph merge}
    {LGN : LangGraphNodes LG} (cfg : Settings) w0 ts w :
  world_wf (aw_world w0) → registry_valid (D := real_deps cfg) (aw_world w0) →
  locks (aw_world w0) = ∅ →
  preach (process_entry (D := real_deps cfg) cfg) w0 (ts, w) →
  world_wf (aw_world w) ∧ registry_valid (D := real_deps cfg) (aw_world w) ∧
  (∀ i A q k b, ts !! i = Some (Task A (Await q k)) → on_behalf q = Some b →
     b ∈ locks (aw_world w) ∧
     ∀ j B q' k', ts !! j = Some (Task B (Await q' k')) → on_behalf q' = Some b → j = i) ∧
  ((∀ t, t ∈ ts → ended (task_prog t)) → locks (aw_world w) = ∅).
Proof.
  intros Hw Hr Hl Hreach.
  destruct (process_pool (D := real_deps cfg) cfg w0 (ts, w) Hw Hr Hl Hreach) as (gs & Hc & Hts).
  cbn in Hc, Hts. pose proof Hc as (Hrv&Hwf&Hlk&Hd).
  pose proof (process_request (D := real_deps cfg) gs ts w) as Hreq.
  split_and!; [done|done| |by apply (process_ended (D := real_deps cfg) gs ts)].
  intros i A q k b Hi Hb. destruct (Hreq i A q k b Hc Hts Hi Hb) as (g & Hg & Hbg). split.
  - rewrite Hlk. apply elem_of_union_list. exists g. split; [|done]. by eapply list_elem_of_lookup_2.
  - intros j B q' k' Hj Hb'. destruct (Hreq j B q' k' b Hc Hts Hj Hb') as (g' & Hg' & Hbg').
    destruct (decide (j = i)) as [|Hji]; [done|]. specialize (Hd j i g' g Hg' Hg Hji). set_solver.
Qed.

(** An approval, suspended while it broadcasts the rescue. *)
Lemma process_exclusion_witness :
  ∃ ts w, preach demo_process agent_world (ts, w) ∧
    (∃ q k, ts !! 0%nat = Some (Task ApprovalResult (Await q k)) ∧
       on_behalf q = Some "0xb0b"%string) ∧
    "0xb0b"%string ∈ locks (aw_world w).
Proof.
  assert (pending_for (approving 41).1 = Some "0xb0b"%string) as Hp by (vm_compute; reflexivity).
  pose proof demo_process_reach as Hr. revert Hr Hp. generalize (approving 41).
  intros [p w] Hr Hp. cbn [fst snd] in Hr, Hp. destruct (pending_inv p _ Hp) as (q & k & -> & Hb).
  exists [Task ApprovalResult (Await q k)], w. split; [exact Hr|].
  split; [exists q, k; split; [reflexivity|exact Hb]|].
  destruct agent_world_valid as [Hw Hv].
  destruct (@process_exclusion unicode_ascii eth_plain eth_plain_laws eth_account_plain libm_test
    rejects_all (bounded_runner merge) _ demo_settings agent_world _ _ Hw Hv eq_refl Hr)
    as (_&_&H&_).
  exact (proj1 (H 0%nat _ q k _ eq_refl Hb)).
Defined.

(** C6: Liveness of FR-16 for the whole process.  From every configuration it can reach, once
    nothing new is admitted (the worker runs its given number of rounds), every schedule is
    finite, whatever is answered and however the coroutines are interleaved; where it stops
    every coroutine has ended and no borrower is locked; and from there a protection run of
    any borrower, with the breaker closed and the clock past the borrower's cool-down, is not
    turned away: every reply it gives carries an assessment. *)
Theorem process_recovers {UD : UnicodeData} {U : EthUtils} {UL : EthUtilsLaws U}
    {E : EthAccount} {L : Libm} {CP : ChoiceParsing} {LG : LangGraph merge}
    {LGN : LangGraphNodes LG} (cfg : Settings) w0 c :
  world_wf (aw_world w0) → registry_valid (D := real_deps cfg) (aw_world w0) →
  locks (aw_world w0) = ∅ →
  preach (process_entry (D := real_deps cfg) cfg) w0 c →
  sn drains c ∧
  ∀ ts w, rtc drains c (ts, w) → nf drains (ts, w) →
    (∀ t, t ∈ ts → ended (task_prog t)) ∧ locks (aw_world w) = ∅ ∧
    ∀ R p s tr rep w',
      allow (w_breaker (aw_world w)) = true →
      exec R (protect (H := real_deps cfg) p s) (aw_world w) tr (Ok rep) w' →
      (∀ t, Ev Monotonic t ∈ tr →
         in_cooldown (w_inflight (aw_world w)) (rp_borrower p) t = false) →
      is_Some (resp_assessment rep).
Proof.
  intros Hw Hr Hl Hreach. split.
  { apply drains_sn. eapply reach_pool; [|exact Hreach]. intros. by eapply segment_sn. }
  intros ts w Hd Hnf. pose proof (drains_reach _ _ _ _ Hreach Hd) as Hreach'.
  destruct (process_pool (D := real_deps cfg) cfg w0 (ts, w) Hw Hr Hl Hreach') as (gs & Hc & Hts).
  cbn in Hc, Hts.
  assert (∀ t, t ∈ ts → ended (task_prog t)) as Hend.
  { eapply (drained_ended (λ q, (demo_chain (Ok tt) (Ok rc_ok) q tt).1)); [|exact Hnf].
    change ts with (ts, w).1. eapply reach_pool; [|exact Hreach']. intros. by eapply segment_settled. }
  assert (locks (aw_world w) = ∅) as Hfree by by apply (process_ended (D := real_deps cfg) gs ts).
  split_and!; [done|done|]. intros R p s tr rep w' Hb He Ht.
  refine (wp_exec _ _ _ _ (protect_armed R p s (aw_world w) _ _) _ _ _ He Ht rep eq_refl).
  - by apply negb_true_iff.
  - apply not_true_is_false. rewrite <-elem_of_lock_set. fold (locks (aw_world w)). set_solver.
Qed.

Lemma process_recovers_witness :
  is_locked (w_inflight (aw_world (approving 41).2)) "0xb0b" = true ∧
  locks (aw_world approved_world.2) = ∅ ∧
  ∃ tr rep w', seq_exec demo_protect (aw_world approved_world.2) tr (Ok rep) w' ∧
    resp_submitted rep = true ∧ is_Some (resp_assessment rep).
Proof.
  split; [vm_compute; reflexivity|].
  destruct approved_world_ok as [Hd Hnf]. destruct agent_world_valid as [Hw Hv].
  destruct (@process_recovers unicode_ascii eth_plain eth_plain_laws eth_account_plain libm_test
    rejects_all (bounded_runner merge) _ demo_settings agent_world _ Hw Hv eq_refl
    demo_process_reach) as [_ Hlive].
  destruct (Hlive _ _ Hd Hnf) as (_ & Hl & Hagain). split; [exact Hl|].
  destruct (run late_chain demo_protect (aw_world approved_world.2) tt) as [[[tr r] w'] u] eqn:Er.
  pose proof (run_exec _ eq _ _ _ _ _ _ _ Er) as He.
  assert (match r with Ok rep => resp_submitted rep | Err _ => false end = true ∧
    forallb (past (w_inflight (aw_world approved_world.2)) "0xb0b") tr = true) as [Hr Hp].
  { vm_compute in Er. injection Er as Et Er _ _. subst tr r. vm_compute. by split. }
  destruct r as [rep|e]; [|discriminate Hr].
  exists tr, rep, w'. split; [exact He|]. split; [exact Hr|].
  refine (Hagain eq demo_params "0x01"%string tr rep w' _ He (past_all _ _ _ Hp)).
  vm_compute. reflexivity.
Defined.
