(* ===== verification/Script.v ===== *)
(** * Scripts: sequential programs over a signature of questions

    The demo tools run alone in a process of their own, so a script is a tree of questions to
    its environment (the fork, the file system, other processes) over a signature
    [ans : Q → Type], without the shared state and the interference of [Io.v].  [runs] is the
    set of its executions, [swp] its weakest precondition. *)
From S2P Require Import Prelude.

Inductive script (Q : Type) (ans : Q → Type) (A : Type) : Type :=
  | SRet (a : A)
  | SFail (e : exn)
  | SAsk (q : Q) (k : ans q → script Q ans A).
Arguments SRet {Q ans A} a.
Arguments SFail {Q ans A} e.
Arguments SAsk {Q ans A} q k.

Section script.
Context {Q : Type} {ans : Q → Type}.

(** A question with its answer. *)
Inductive asked := Asked (q : Q) (a : ans q).

Definition asked_q (ev : asked) : Q := match ev with Asked q _ => q end.

Fixpoint script_bind_ {A B} (p : script Q ans A) (f : A → script Q ans B) : script Q ans B :=
  match p with
  | SRet a => f a
  | SFail e => SFail e
  | SAsk q k => SAsk q (λ r, script_bind_ (k r) f)
  end.

#[export] Instance script_ret : MRet (script Q ans) := λ A, SRet.
#[export] Instance script_bind : MBind (script Q ans) := λ A B f p, script_bind_ p f.

Definition ask (q : Q) : script Q ans (ans q) := SAsk q SRet.

Definition slift {A} (r : res A) : script Q ans A :=
  match r with Ok a => SRet a | Err e => SFail e end.

(** [try: p  except C as e: h e] *)
Fixpoint scatch {A} (p : script Q ans A) (test : exn → bool) (h : exn → script Q ans A)
  : script Q ans A :=
  match p with
  | SRet a => SRet a
  | SFail e => if test e then h e else SFail e
  | SAsk q k => SAsk q (λ r, scatch (k r) test h)
  end.

(** [for x in l: f x] *)
Fixpoint sfor {A} (l : list A) (f : A → script Q ans unit) : script Q ans unit :=
  match l with [] => SRet tt | x :: l => script_bind_ (f x) (λ _, sfor l f) end.

Inductive runs {A} : script Q ans A → list asked → res A → Prop :=
  | runs_ret a : runs (SRet a) [] (Ok a)
  | runs_fail e : runs (SFail e) [] (Err e)
  | runs_ask q a k tr r : runs (k a) tr r → runs (SAsk q k) (Asked q a :: tr) r.

Fixpoint swp {A} (p : script Q ans A) (P : list asked → res A → Prop) : Prop :=
  match p with
  | SRet a => P [] (Ok a)
  | SFail e => P [] (Err e)
  | SAsk q k => ∀ a, swp (k a) (λ tr, P (Asked q a :: tr))
  end.

Lemma swp_iff {A} (p : script Q ans A) P : swp p P ↔ ∀ tr r, runs p tr r → P tr r.
Proof.
  split.
  - intros H tr r Hr. revert P H. induction Hr as [| |q a k tr r _ IH]; intros P H; cbn in H; auto.
    by apply (IH (λ tr, P (Asked q a :: tr))).
  - revert P. induction p as [a|e|q k IH]; intros P H; cbn; eauto using runs.
Qed.

Lemma swp_mono {A} (p : script Q ans A) (P P' : list asked → res A → Prop) :
  (∀ tr r, P tr r → P' tr r) → swp p P → swp p P'.
Proof. rewrite !swp_iff. eauto. Qed.

Lemma swp_bind {A B} (p : script Q ans A) (f : A → script Q ans B) P :
  swp (a ← p; f a) P ↔
  swp p (λ tr r, match r with Ok a => swp (f a) (λ tr', P (tr ++ tr')) | Err e => P tr (Err e) end).
Proof.
  unfold mbind, script_bind. revert P. induction p as [a|e|q k IH]; intros P; cbn; try done.
  split; intros H a; by apply (IH a (λ tr, P (Asked q a :: tr))), H.
Qed.

Lemma swp_scatch {A} (p : script Q ans A) t h P :
  swp (scatch p t h) P ↔
  swp p (λ tr r, match r with
                 | Ok a => P tr (Ok a)
                 | Err e => if t e then swp (h e) (λ tr', P (tr ++ tr')) else P tr (Err e)
                 end).
Proof.
  revert P. induction p as [a|e|q k IH]; intros P; cbn; try done.
  - destruct (t e); [|done]. cbn. split; apply swp_mono; intros tr r H; exact H.
  - split; intros H a; by apply (IH a (λ tr, P (Asked q a :: tr))), H.
Qed.

Lemma swp_ret {A} (a : A) P : swp (SRet a) P ↔ P [] (Ok a).
Proof. done. Qed.

Lemma swp_lift {A} (r : res A) P : swp (slift r) P ↔ P [] r.
Proof. by destruct r. Qed.

Lemma swp_ask q (P : list asked → res (ans q) → Prop) :
  swp (ask q) P ↔ ∀ a, P [Asked q a] (Ok a).
Proof. done. Qed.

(** A concrete environment. *)
Fixpoint srun {A W} (h : ∀ q : Q, W → ans q * W) (p : script Q ans A) (w : W)
  : list asked * res A * W :=
  match p with
  | SRet a => ([], Ok a, w)
  | SFail e => ([], Err e, w)
  | SAsk q k => let '(a, w1) := h q w in
                let '(tr, r, w2) := srun h (k a) w1 in (Asked q a :: tr, r, w2)
  end.

Lemma srun_runs {A W} (h : ∀ q : Q, W → ans q * W) (p : script Q ans A) w tr r w' :
  srun h p w = (tr, r, w') → runs p tr r.
Proof.
  revert w tr r w'. induction p as [a|e|q k IH]; intros w tr r w' H; cbn in H; simplify_eq;
    try constructor.
  destruct (h q w) as [a w1]. destruct (srun h (k a) w1) as [[tr1 r1] w2] eqn:E.
  simplify_eq. constructor. by eapply IH.
Qed.
End script.
Arguments asked {Q} ans.
Arguments swp : simpl never.
