(* ===== verification/Lazy.v ===== *)
(** * agent/_lazy.py and agent/llm.py: reaching the optional stack

    The cached importer that keeps the warnings of the optional packages out of the process,
    the construction of the chat model, and the check that no source file calls a model
    synchronously.  The interpreter's import system, the packages and the files are the
    environment of a script; [ModState] is what the interpreter keeps. *)
From S2P Require Import Prelude PyFloat PyText Script.

(** An entry of [warnings.filters]; [None] is a pattern that matches everything. *)
Record wfilter := {
  wf_action : string;
  wf_message : option string;
  wf_category : string;
  wf_module : option string;
  wf_lineno : Z;
}.

#[global] Instance wfilter_eq_dec : EqDecision wfilter.
Proof. solve_decision. Defined.

(** The module object [__import__] returns. *)
Definition module : Type := nat.

(** [warnings.filters] and [_cache] *)
Record ModState := { ms_filters : list wfilter; ms_cache : dict string module }.

(** The interpreter and the packages.  An import runs the module's body, which sees the
    filters in force; a constructor may raise. *)
Inductive lazy_req :=
  | QImport (path : string) (filters : list wfilter)
  | QChatModel (genai : module) (model google_api_key : string) (temperature : f64).

Definition lazy_ans (q : lazy_req) : Type :=
  match q with QImport _ _ => res module | QChatModel _ _ _ _ => res nat end.

Abbreviation lazy A := (script lazy_req lazy_ans A).

(** ** Warnings *)
Fixpoint remove_first {A} `{EqDecision A} (x : A) (l : list A) : list A :=
  match l with [] => [] | y :: l => if decide (x = y) then l else y :: remove_first x l end.

(** [warnings.simplefilter(action)]: the entry goes first, and is not repeated. *)
Definition simple (action : string) : wfilter :=
  {| wf_action := action; wf_message := None; wf_category := "Warning"; wf_module := None;
     wf_lineno := 0 |}.

Definition simplefilter (action : string) (l : list wfilter) : list wfilter :=
  simple action :: remove_first (simple action) l.

(** The action of the first entry that matches a warning, given the matching test. *)
Definition action_for (hits : wfilter → bool) (l : list wfilter) : option string :=
  wf_action <$> head (filter (λ f, hits f = true) l).

(** ** [_import]

    [with warnings.catch_warnings()] gives the block a copy of the filters and puts the saved
    list back however the block ends. *)
Definition _import (path : string) (s : ModState) : lazy (res module * ModState) :=
  match dget (ms_cache s) path with
  | Some cached => SRet (Ok cached, s)
  | None =>
      r ← ask (QImport path (simplefilter "ignore" (ms_filters s)));
      match r with
      | Ok m => SRet (Ok m, {| ms_filters := ms_filters s; ms_cache := dset (ms_cache s) path m |})
      | Err e => SRet (Err e, s)
      end
  end.

Definition langgraph_graph := _import "langgraph.graph".
Definition langgraph_types := _import "langgraph.types".
Definition lc_messages := _import "langchain_core.messages".
Definition lc_tools := _import "langchain_core.tools".
Definition google_genai_chat := _import "langchain_google_genai".

(** The body of the [try]: the accessors in order, up to the first that raises. *)
Fixpoint in_order (l : list (ModState → lazy (res module * ModState))) (s : ModState)
  : lazy (res unit * ModState) :=
  match l with
  | [] => SRet (Ok tt, s)
  | f :: l =>
      '(r, s) ← f s;
      match r with Ok _ => in_order l s | Err e => SRet (Err e, s) end
  end.

(** [agent_stack_available] *)
Definition agent_stack_available (s : ModState) : lazy (res bool * ModState) :=
  '(r, s) ← in_order [langgraph_graph; langgraph_types; lc_messages; lc_tools; google_genai_chat] s;
  SRet (match r with
        | Ok _ => Ok true
        | Err e => if is_Exception e then Ok false else Err e
        end, s).

(** [build_chat_model] *)
Definition build_chat_model (model api_key : string) (temperature : f64) (s : ModState)
  : lazy (res nat * ModState) :=
  '(r, s) ← google_genai_chat s;
  match r with
  | Ok genai => m ← ask (QChatModel genai model api_key temperature); SRet (m, s)
  | Err e => SRet (Err e, s)
  end.

(** ** [assert_async_only]

    A parsed source file, as far as the check looks at it: the calls with their line, the
    attribute accesses, and every other node with its children. *)
Inductive ast :=
  | Call (lineno : Z) (func : ast) (args : list ast)
  | Attribute (value : ast) (attr : string)
  | Node (children : list ast).

(** [ast.iter_child_nodes] *)
Definition children (n : ast) : list ast :=
  match n with
  | Call _ func args => func :: args
  | Attribute value _ => [value]
  | Node l => l
  end.

Fixpoint size (n : ast) : nat :=
  Datatypes.S match n with
  | Call _ func args => size func + sum_list_with size args
  | Attribute value _ => size value
  | Node l => sum_list_with size l
  end.

(** [ast.walk]: breadth first, with a queue. *)
Fixpoint walk_from (fuel : nat) (todo : list ast) : list ast :=
  match fuel, todo with
  | Datatypes.S fuel, n :: todo => n :: walk_from fuel (todo ++ children n)
  | _, _ => []
  end.

Definition walk (n : ast) : list ast := walk_from (size n) [n].

Definition _SYNC_METHODS : list string := ["invoke"; "batch"; "stream"]%string.

(** The line and the method of a synchronous call site. *)
Definition sync_call (n : ast) : option (Z * string) :=
  match n with
  | Call lineno (Attribute _ attr) _ =>
      if decide (attr ∈ _SYNC_METHODS) then Some (lineno, attr) else None
  | _ => None
  end.

(** [path.exists()], [path.read_text()] and [ast.parse]. *)
Inductive parsed := Parsed (tree : ast) | BadSyntax | Unreadable (e : exn).

Inductive source_req := QExists (path : string) | QParse (path : string).
Definition source_ans (q : source_req) : Type :=
  match q with QExists _ => bool | QParse _ => parsed end.

(** [path.name] *)
Fixpoint last_component (acc s : string) : string :=
  match s with
  | EmptyString => acc
  | String c s => if decide (c = "/"%char) then last_component "" s
                  else last_component (acc +:+ String c "") s
  end.
Definition path_name : string → string := last_component "".

Definition site (path : string) (o : Z * string) : string :=
  path_name path +:+ ":" +:+ string_of_Z o.1 +:+ ": ." +:+ o.2 +:+ "(...)".

Definition offences (path : string) (tree : ast) : list string :=
  site path <$> omap sync_call (walk tree).

Fixpoint assert_async_only (paths : list string) : script source_req source_ans (list string) :=
  match paths with
  | [] => SRet []
  | path :: paths =>
      found ← ask (QExists path);
      here ← (if found : bool then
                r ← ask (QParse path);
                match r with
                | Parsed tree => SRet (offences path tree)
                | BadSyntax => SRet []
                | Unreadable e => SFail e
                end
              else SRet []);
      rest ← assert_async_only paths;
      SRet (here ++ rest)
  end.

(** ** The breadth-first walk visits each node once *)
Fixpoint subnodes (n : ast) : list ast :=
  n :: match n with
       | Call _ func args => subnodes func ++ (args ≫= subnodes)
       | Attribute value _ => subnodes value
       | Node l => l ≫= subnodes
       end.

Lemma subnodes_eq n : subnodes n = n :: (children n ≫= subnodes).
Proof. destruct n; cbn; by rewrite ?app_nil_r. Qed.

Lemma size_eq n : size n = Datatypes.S (sum_list_with size (children n)).
Proof. destruct n; cbn; by rewrite ?Nat.add_0_r. Qed.

Lemma walk_from_all fuel todo :
  (sum_list_with size todo ≤ fuel)%nat → walk_from fuel todo ≡ₚ todo ≫= subnodes.
Proof.
  revert todo. induction fuel as [|fuel IH]; intros [|n todo] Hf; cbn in *; try done.
  - rewrite size_eq in Hf. lia.
  - rewrite subnodes_eq. cbn. f_equiv. rewrite IH.
    + rewrite bind_app. by rewrite Permutation_app_comm.
    + rewrite sum_list_with_app. rewrite size_eq in Hf. lia.
Qed.

Lemma walk_all n : walk n ≡ₚ subnodes n.
Proof. unfold walk. rewrite walk_from_all; cbn; [by rewrite app_nil_r|lia]. Qed.

Lemma omap_permutation {A B} (f : A → option B) (l l' : list A) : l ≡ₚ l' → omap f l ≡ₚ omap f l'.
Proof.
  induction 1 as [|x l l' _ IH|x y l|l1 l2 l3 _ IH1 _ IH2]; cbn; [done| | |by etrans].
  - by destruct (f x); rewrite IH.
  - destruct (f x), (f y); try done. constructor.
Qed.

Lemma offences_all path tree :
  offences path tree ≡ₚ site path <$> omap sync_call (subnodes tree).
Proof. unfold offences. by rewrite (omap_permutation _ _ _ (walk_all tree)). Qed.

(** ** The importer *)
Definition quarantined (ev : asked lazy_ans) : Prop :=
  match asked_q ev with
  | QImport _ fs => ∀ hits, hits (simple "ignore") = true → action_for hits fs = Some "ignore"%string
  | QChatModel _ _ _ _ => True
  end.

Definition imported (ev : asked lazy_ans) : option string :=
  match asked_q ev with QImport path _ => Some path | _ => None end.

(** What an import does to the interpreter: the filters are as before, and at most its own
    path was added to the cache. *)
Lemma import_spec path s :
  swp (_import path s) (λ tr r, ∃ out s', r = Ok (out, s') ∧
    ms_filters s' = ms_filters s ∧ Forall quarantined tr ∧
    omap imported tr = (if dget (ms_cache s) path then [] else [path]) ∧
    (∀ m, dget (ms_cache s) path = Some m → out = Ok m) ∧
    (∀ k, dget (ms_cache s') k =
          if decide (k = path) then match out with Ok m => Some m | Err _ => None end
          else dget (ms_cache s) k)).
Proof.
  unfold _import. destruct (dget (ms_cache s) path) as [m|] eqn:E.
  - apply swp_ret. eexists _, _. split_and!; try done; [congruence|].
    intros k. by case_decide; subst.
  - apply swp_bind. cbn [swp ask]. intros a.
    assert (quarantined (Asked (QImport path (simplefilter "ignore" (ms_filters s))) a)) as Hq.
    { unfold quarantined, action_for, simplefilter. cbn [asked_q]. intros hits Hh.
      by rewrite filter_cons_True. }
    destruct a as [m|e]; cbn [swp app].
    + eexists _, _. split_and!; try done; [by repeat constructor|]. intros k. apply dget_dset.
    + eexists _, _. split_and!; try done; [by repeat constructor|].
      intros k. by case_decide; subst.
Qed.

Definition STACK : list string :=
  ["langgraph.graph"; "langgraph.types"; "langchain_core.messages"; "langchain_core.tools";
   "langchain_google_genai"]%string.

Definition missing (s : ModState) (path : string) : bool :=
  match dget (ms_cache s) path with Some _ => false | None => true end.

Lemma filter_ext_in {A} (f g : A → bool) (l : list A) :
  (∀ x, x ∈ l → f x = g x) → filter (λ x, f x = true) l = filter (λ x, g x = true) l.
Proof.
  induction l as [|x l IH]; intros H; [done|]. rewrite !filter_cons, (H x) by constructor.
  rewrite IH; [done|]. intros y Hy. apply H. by constructor.
Qed.

Lemma missing_cons s p paths :
  filter (λ p, missing s p = true) (p :: paths) =
  (if dget (ms_cache s) p then [] else [p]) ++ filter (λ p, missing s p = true) paths.
Proof.
  destruct (dget (ms_cache s) p) eqn:E.
  - rewrite filter_cons_False; [done|]. unfold missing. by rewrite E.
  - rewrite filter_cons_True; [done|]. unfold missing. by rewrite E.
Qed.

Lemma in_order_spec paths s :
  NoDup paths →
  swp (in_order (_import <$> paths) s) (λ tr r, ∃ out s', r = Ok (out, s') ∧
    ms_filters s' = ms_filters s ∧ Forall quarantined tr ∧
    omap imported tr `prefix_of` filter (λ p, missing s p = true) paths ∧
    (∀ k m, dget (ms_cache s) k = Some m → dget (ms_cache s') k = Some m) ∧
    (out = Ok tt ↔ ∀ p, p ∈ paths → missing s' p = false)).
Proof.
  revert s. induction paths as [|p paths IH]; intros s Hnd; cbn [in_order fmap list_fmap].
  { apply swp_ret. eexists _, _. split_and!; try done. split; [by intros _ q ?%not_elem_of_nil|done]. }
  apply NoDup_cons in Hnd as [Hp Hnd].
  apply swp_bind. eapply swp_mono; [|apply import_spec].
  intros tr r (out & s1 & -> & Hf & Hq & Ht & Hold & Hc). cbn beta iota.
  assert (Hm : ∀ q, q ∈ paths → missing s1 q = missing s q).
  { intros q Hin. unfold missing. rewrite Hc, decide_False by congruence. done. }
  assert (Hm' : filter (λ p, missing s1 p = true) paths = filter (λ p, missing s p = true) paths).
  { by apply filter_ext_in. }
  destruct out as [m|e]; cbn [swp].
  - eapply swp_mono; [|by apply IH].
    intros tr' r' (out & s2 & -> & Hf' & Hq' & Ht' & Hold' & Hc').
    eexists _, _. split_and!; [done|congruence|by apply Forall_app| | |].
    + rewrite omap_app, Ht, missing_cons, <-Hm'. by apply prefix_app.
    + intros k m' Hk. apply Hold'. rewrite Hc. case_decide; [|done]. subst k.
      apply Hold in Hk. by simplify_eq.
    + rewrite Hc'. split; intros H q; [|intros; apply H; by constructor].
      intros [->|]%elem_of_cons; [|by apply H]. unfold missing.
      rewrite (Hold' p m); [done|]. by rewrite Hc, decide_True.
  - eexists _, _. cbn [swp]. split_and!; rewrite ?app_nil_r; try done.
    + rewrite Ht, missing_cons. by apply prefix_app_r.
    + intros k m Hk. rewrite Hc. case_decide; [|done]. subst k. by apply Hold in Hk.
    + split; [done|]. intros H. specialize (H p ltac:(constructor)). unfold missing in H.
      by rewrite Hc, decide_True in H.
Qed.

(** The probe from a state, and its answer. *)
Lemma stack_probe s :
  swp (agent_stack_available s) (λ tr r, ∃ out s', r = Ok (out, s') ∧
    ms_filters s' = ms_filters s ∧ Forall quarantined tr ∧
    omap imported tr `prefix_of` filter (λ p, missing s p = true) STACK ∧
    (∀ k m, dget (ms_cache s) k = Some m → dget (ms_cache s') k = Some m) ∧
    match out with
    | Ok b => b = true ↔ ∀ p, p ∈ STACK → missing s' p = false
    | Err e => is_Exception e = false
    end).
Proof.
  unfold agent_stack_available. apply swp_bind. eapply swp_mono; [|apply (in_order_spec STACK)].
  - intros tr r (out & s' & -> & Hf & Hq & Ht & Hk & Ho). cbn [swp]. eexists _, _.
    rewrite app_nil_r. split_and!; [done..|].
    destruct out as [[]|e]; [tauto|]. destruct (is_Exception e) eqn:E; [|done].
    split; [done|]. intros H. by apply Ho in H.
  - unfold STACK. apply (bool_decide_unpack _). by vm_compute.
Qed.

Lemma all_cached_probe s :
  (∀ p, p ∈ STACK → missing s p = false) → agent_stack_available s = SRet (Ok true, s).
Proof.
  intros H.
  assert (∀ p, p ∈ STACK → ∃ m, _import p s = SRet (Ok m, s)) as Hc.
  { intros p Hp. specialize (H p Hp). unfold missing in H. unfold _import.
    destruct (dget (ms_cache s) p) as [m|]; [by exists m|done]. }
  unfold agent_stack_available, langgraph_graph, langgraph_types, lc_messages, lc_tools,
    google_genai_chat. cbn [in_order].
  do 5 (match goal with |- context [_import ?p s] =>
    let m := fresh in destruct (Hc p) as [m ->]; [by unfold STACK; repeat constructor|] end;
    cbn [mbind script_bind script_bind_]).
  done.
Qed.

(** ** Claims *)

(** Probing the optional stack never harms the keeper.  However the imports go, the
    probe answers a boolean (only what is not an [Exception] leaves it), the process's warning
    filters are as they were, every module body ran with warnings ignored whatever the
    process's filters, each package is imported at most once and in the given order, and only
    if it was not cached; nothing cached is lost.  The answer is [true] exactly when all five
    packages are now cached, and then every later probe answers [true] without importing. *)
Theorem stack_probe_quarantined s tr r :
  runs (agent_stack_available s) tr r →
  ∃ out s', r = Ok (out, s') ∧ ms_filters s' = ms_filters s ∧ Forall quarantined tr ∧
    omap imported tr `prefix_of` filter (λ p, missing s p = true) STACK ∧
    (∀ k m, dget (ms_cache s) k = Some m → dget (ms_cache s') k = Some m) ∧
    match out with
    | Ok true => (∀ p, p ∈ STACK → missing s' p = false) ∧
                 agent_stack_available s' = SRet (Ok true, s')
    | Ok false => ∃ p, p ∈ STACK ∧ missing s' p = true
    | Err e => is_Exception e = false
    end.
Proof.
  intros Hr. destruct (proj1 (swp_iff _ _) (stack_probe s) _ _ Hr)
    as (out & s' & -> & Hf & Hq & Ht & Hk & Ho).
  exists out, s'. split_and!; try done. destruct out as [[]|]; [| |done].
  - assert (∀ p, p ∈ STACK → missing s' p = false) as Hc by by apply Ho.
    split; [done|by apply all_cached_probe].
  - destruct (decide (Forall (λ p, missing s' p = false) STACK)) as [Hall|Hn].
    + rewrite Forall_forall in Hall. by apply Ho in Hall.
    + apply (not_Forall_Exists _), Exists_exists in Hn as (p & Hp & Hm).
      exists p. split; [done|]. unfold compose in Hm. by destruct (missing s' p).
Qed.

(** An environment in which one package is not installed. *)
Definition without (p : string) (q : lazy_req) (w : unit) : lazy_ans q * unit :=
  (match q return lazy_ans q with
   | QImport path _ => if decide (path = p) then Err (Exn (OtherError false) path) else Ok 1%nat
   | QChatModel _ _ _ _ => Ok 2%nat
   end, w).

Definition error_filter : ModState :=
  {| ms_filters := [simple "error"]; ms_cache := [("langchain_core.tools"%string, 7%nat)] |}.

Lemma stack_probe_quarantined_witness :
  let '(tr, r, _) := srun (without "langchain_google_genai") (agent_stack_available error_filter) tt in
  omap imported tr = ["langgraph.graph"; "langgraph.types"; "langchain_core.messages";
                      "langchain_google_genai"]%string ∧
  Forall quarantined tr ∧
  match r with Ok (Ok false, s') => ms_filters s' = [simple "error"] | _ => False end.
Proof.
  destruct (srun (without "langchain_google_genai") (agent_stack_available error_filter) tt)
    as [[tr r] w] eqn:E.
  pose proof (stack_probe_quarantined error_filter _ _ (srun_runs _ _ _ _ _ _ E))
    as (out & s' & Hr & Hf & Hq & _).
  vm_compute in E. injection E as <- <- <-. injection Hr as <- <-.
  split; [reflexivity|split; [exact Hq|exact Hf]].
Defined.

(** The files, while the check runs: absent, or with the outcome of reading and parsing. *)
Definition on_disk (disk : string → option parsed) (q : source_req) (w : unit) : source_ans q * unit :=
  (match q return source_ans q with
   | QExists path => match disk path with Some _ => true | None => false end
   | QParse path => match disk path with Some r => r | None => BadSyntax end
   end, w).

(** The call sites a file contributes, counted over the whole tree. *)
Definition sites (disk : string → option parsed) (path : string) : list string :=
  match disk path with
  | Some (Parsed tree) => site path <$> omap sync_call (subnodes tree)
  | _ => []
  end.

Definition unreadable (disk : string → option parsed) (path : string) : option exn :=
  match disk path with Some (Unreadable e) => Some e | _ => None end.

Lemma srun_bind {Q : Type} {ans : Q → Type} {A B W} (h : ∀ q : Q, W → ans q * W)
    (p : script Q ans A) (f : A → script Q ans B) w :
  (srun h (a ← p; f a) w).1.2 =
  match srun h p w with
  | (_, Ok a, w') => (srun h (f a) w').1.2
  | (_, Err e, _) => Err e
  end.
Proof.
  unfold mbind, script_bind. revert w. induction p as [a|e|q k IH]; intros w; cbn; try done.
  destruct (h q w) as [a w1]. specialize (IH a w1).
  destruct (srun h (script_bind_ (k a) f) w1) as [[tr r] w2].
  by destruct (srun h (k a) w1) as [[tr1 [a1|e1]] w3].
Qed.

(** The check for blocking model calls is sound and complete.  It reports exactly the
    calls, anywhere in the tree of a file that exists and parses, of a method named [invoke],
    [batch] or [stream], each once, with its file and line; a file that is missing or does not
    parse contributes nothing, and the first file that cannot be read ends the check. *)
Theorem async_check_exact disk paths :
  match head (omap (unreadable disk) paths) with
  | Some e => (srun (on_disk disk) (assert_async_only paths) tt).1.2 = Err e
  | None => ∃ out, (srun (on_disk disk) (assert_async_only paths) tt).1.2 = Ok out ∧
                   out ≡ₚ paths ≫= sites disk
  end.
Proof.
  induction paths as [|path paths IH]; cbn [assert_async_only]; [by exists []|].
  rewrite srun_bind. cbn [srun ask on_disk omap list_omap]. unfold unreadable at 1.
  unfold sites. cbn [mbind list_bind].
  assert (∀ here, match head (omap (unreadable disk) paths) with
    | Some e => (srun (on_disk disk) (rest ← assert_async_only paths; SRet (here ++ rest)) tt).1.2 = Err e
    | None => ∃ out, (srun (on_disk disk) (rest ← assert_async_only paths; SRet (here ++ rest)) tt).1.2 = Ok out ∧
                     out ≡ₚ here ++ (paths ≫= sites disk)
    end) as Hrest.
  { intros here. rewrite srun_bind.
    destruct (srun (on_disk disk) (assert_async_only paths) tt) as [[tr [out|e]] w]; cbn in *.
    - destruct (head _); [done|]. destruct IH as (out' & ? & Hp). simplify_eq.
      eexists. split; [done|]. by rewrite Hp.
    - destruct (head _); [congruence|]. by destruct IH as (? & ? & _). }
  destruct (disk path) as [[tree| |e]|] eqn:E; rewrite srun_bind; cbn; rewrite ?E; cbn.
  - specialize (Hrest (offences path tree)). destruct (head _); [done|].
    destruct Hrest as (out & Hr & Hp). exists out. split; [done|]. by rewrite Hp, offences_all.
  - apply (Hrest []).
  - done.
  - apply (Hrest []).
Qed.
