(* ===== verification/Seed.v ===== *)
(** * tools/seed_demo.py, seed_all_demo_wallets.py, sign_demo_mandates.py: the demo's positions

    The seeding scripts as programs over the fork and the .env file ([Script.v]); what is
    printed is left out.  The theorems give the exact list of transactions a seeding run
    sends, so that a run on a position already in place sends none, and the arithmetic of the
    amount it borrows. *)
From S2P Require Import Prelude PyFloat PyText Config Guard State Models Events Io World Abi Script.

Definition WETH_ADDRESS : string := "0x82aF49447D8a07e3bd95BD0d56f35241523fBab1".
Definition USDC_ADDRESS : string := "0xaf88d065e77c8cC2239327C5EDb3A432268e5831".
Definition PROVIDER : string := "0xa97684ead0e402dC232d5A977953DF7ECBaB3CDb".
Definition SWAP_ROUTER : string := "0x68b3465833fb72A70ecDF485E0e4C7bD8665Fc45".
Definition TARGET_HF : f64 := dec 114 (-2).
Definition HF_TOLERANCE : f64 := dec 2 (-2).
Definition SUPPLY_WETH : Z := 5.

(** ** The ABI tables *)
Definition seed_WETH_ABI : list abi_fn := [
  fn "deposit" Payable
    []
    [];
  fn "approve" Nonpayable
    [("s", TAddress); ("a", TUint 256)]
    [("", TBool)]]%string.

Definition seed_POOL_ABI : list abi_fn := [
  fn "supply" Nonpayable
    [("a", TAddress); ("amt", TUint 256); ("o", TAddress); ("r", TUint 16)]
    [];
  fn "borrow" Nonpayable
    [("a", TAddress); ("amt", TUint 256); ("m", TUint 256); ("r", TUint 16); ("o", TAddress)]
    [];
  fn "setUserUseReserveAsCollateral" Nonpayable
    [("a", TAddress); ("u", TBool)]
    [];
  fn "getUserAccountData" View
    [("user", TAddress)]
    [("totalCollateralBase", TUint 256); ("totalDebtBase", TUint 256);
     ("availableBorrowsBase", TUint 256); ("currentLiquidationThreshold", TUint 256);
     ("ltv", TUint 256); ("healthFactor", TUint 256)];
  fn "getReserveData" View
    [("asset", TAddress)]
    [("configuration", TTuple [("data", TUint 256)]); ("liquidityIndex", TUint 128);
     ("currentLiquidityRate", TUint 128); ("variableBorrowIndex", TUint 128);
     ("currentVariableBorrowRate", TUint 128); ("currentStableBorrowRate", TUint 128);
     ("lastUpdateTimestamp", TUint 40); ("id", TUint 16); ("aTokenAddress", TAddress);
     ("stableDebtTokenAddress", TAddress); ("variableDebtTokenAddress", TAddress);
     ("interestRateStrategyAddress", TAddress); ("accruedToTreasury", TUint 128);
     ("unbacked", TUint 128); ("isolationModeTotalDebt", TUint 128)]]%string.

Definition seed_PROVIDER_ABI : list abi_fn := [
  fn "getPool" View
    []
    [("", TAddress)];
  fn "getPriceOracle" View
    []
    [("", TAddress)]]%string.

Definition seed_ORACLE_ABI : list abi_fn := [
  fn "getAssetPrice" View
    [("asset", TAddress)]
    [("", TUint 256)]]%string.

Definition seed_ATOKEN_ABI : list abi_fn := [
  fn "approve" Nonpayable
    [("s", TAddress); ("a", TUint 256)]
    [("", TBool)];
  fn "allowance" View
    [("o", TAddress); ("s", TAddress)]
    [("", TUint 256)]]%string.

Definition all_WETH_ABI : list abi_fn := [
  fn "deposit" Payable
    []
    [];
  fn "approve" Nonpayable
    [("s", TAddress); ("a", TUint 256)]
    [("", TBool)]]%string.

Definition all_POOL_ABI : list abi_fn := [
  fn "supply" Nonpayable
    [("a", TAddress); ("amt", TUint 256); ("o", TAddress); ("r", TUint 16)]
    [];
  fn "borrow" Nonpayable
    [("a", TAddress); ("amt", TUint 256); ("m", TUint 256); ("r", TUint 16); ("o", TAddress)]
    [];
  fn "setUserUseReserveAsCollateral" Nonpayable
    [("a", TAddress); ("u", TBool)]
    [];
  fn "getUserAccountData" View
    [("user", TAddress)]
    [("totalCollateralBase", TUint 256); ("totalDebtBase", TUint 256);
     ("availableBorrowsBase", TUint 256); ("currentLiquidationThreshold", TUint 256);
     ("ltv", TUint 256); ("healthFactor", TUint 256)];
  fn "getReserveData" View
    [("asset", TAddress)]
    [("configuration", TTuple [("data", TUint 256)]); ("liquidityIndex", TUint 128);
     ("currentLiquidityRate", TUint 128); ("variableBorrowIndex", TUint 128);
     ("currentVariableBorrowRate", TUint 128); ("currentStableBorrowRate", TUint 128);
     ("lastUpdateTimestamp", TUint 40); ("id", TUint 16); ("aTokenAddress", TAddress);
     ("stableDebtTokenAddress", TAddress); ("variableDebtTokenAddress", TAddress);
     ("interestRateStrategyAddress", TAddress); ("accruedToTreasury", TUint 128);
     ("unbacked", TUint 128); ("isolationModeTotalDebt", TUint 128)]]%string.

Definition all_PROVIDER_ABI : list abi_fn := [
  fn "getPool" View
    []
    [("", TAddress)];
  fn "getPriceOracle" View
    []
    [("", TAddress)]]%string.

Definition all_ORACLE_ABI : list abi_fn := [
  fn "getAssetPrice" View
    [("asset", TAddress)]
    [("", TUint 256)]]%string.

Definition all_ATOKEN_ABI : list abi_fn := [
  fn "approve" Nonpayable
    [("s", TAddress); ("a", TUint 256)]
    [("", TBool)]]%string.

(** ** The environment of the tools *)
Inductive tx :=
  | TxDeploy (provider router keeper : string)
  | TxDeposit (weth : string) (value : Z)
  | TxApprove (token spender : string) (amount : Z)
  | TxSupply (pool asset : string) (amount : Z) (behalf : string) (referral : Z)
  | TxUseAsCollateral (pool asset : string) (use : bool)
  | TxBorrow (pool asset : string) (amount mode referral : Z) (behalf : string).

(** [getUserAccountData]'s tuple, in the order of the table. *)
Record account := {
  ac_collateral : Z; ac_debt : Z; ac_available : Z; ac_threshold : Z; ac_ltv : Z; ac_hf : Z }.

Inductive tq :=
  | QAccounts
  | QGetPool (provider : string)
  | QGetPriceOracle (provider : string)
  | QAccountData (pool user : string)
  | QReserveData (pool asset : string)              (* the tuple's ninth component *)
  | QAssetPrice (oracle asset : string)
  | QAllowance (token owner spender : string)
  | QGetCode (addr : string)
  | QHashRiskParams (vault : string) (params : list sol_value)
  | QTransact (from : string) (t : tx)
  | QReceipt (hash : string)                        (* receipt["contractAddress"] *)
  | QEnvExists | QEnvRead | QEnvWrite (content : string)
  | QArtifactExists | QArtifact
  | QConfig                                         (* GET /config of the API *)
  | QConsoleRead | QConsoleWrite (content : string)  (* frontend/finax.js *)
  | QPrint (s : string).

Definition tresp (q : tq) : Type :=
  match q with
  | QAccounts => list string
  | QGetPool _ | QGetPriceOracle _ | QReserveData _ _ => string
  | QAccountData _ _ => account
  | QAssetPrice _ _ | QAllowance _ _ _ => Z
  | QGetCode _ => list Z
  | QHashRiskParams _ _ | QTransact _ _ | QReceipt _ => string
  | QEnvExists | QArtifactExists => bool
  | QEnvRead | QConsoleRead => string
  | QEnvWrite _ | QArtifact | QConsoleWrite _ | QPrint _ => unit
  | QConfig => json
  end.

Definition tans (q : tq) : Type := res (tresp q).

Abbreviation tool := (script tq tans).

(** The transactions a trace shows, in order. *)
Definition sent (tr : list (asked tans)) : list (string * tx) :=
  omap (λ ev, match asked_q ev with QTransact from t => Some (from, t) | _ => None end) tr.

(** ** .env *)
Definition VAULT_KEY : string := "VAULT_ADDRESS=".
Definition newline : ascii := ascii_of_N 10.

(** The lines of a text: [.] matches everything but a newline, [^] and [$] their borders. *)
Fixpoint lines (s : string) : list string :=
  match s with
  | EmptyString => [""%string]
  | String c s' =>
      if decide (c = newline) then ""%string :: lines s'
      else match lines s' with [] => [String c ""] | l :: ls => String c l :: ls end
  end.

Fixpoint unlines (l : list string) : string :=
  match l with
  | [] => ""
  | [x] => x
  | x :: l => x +:+ String newline (unlines l)
  end.

(** [re.sub(r"VAULT_ADDRESS=.*", "VAULT_ADDRESS=" + addr, line)] *)
Fixpoint sub_line (addr line : string) : string :=
  if str_prefix VAULT_KEY line then VAULT_KEY +:+ addr
  else match line with EmptyString => "" | String c s => String c (sub_line addr s) end.

Definition sub_vault (addr content : string) : string := unlines (sub_line addr <$> lines content).

(** The group of the multi-line [re.search] for a line that begins with [VAULT_ADDRESS=]. *)
Definition vault_line (content : string) : option string :=
  removeprefix VAULT_KEY <$> head (filter (λ l, str_prefix VAULT_KEY l = true) (lines content)).

Section seed.
Context `{U : EthUtils} `{E : EthAccount} `{UD : UnicodeData}.

Definition vault_of (content : string) : string :=
  match vault_line content with Some v => py_strip v | None => "" end.

Definition fetch (q : tq) : tool (tresp q) := r ← ask q; slift r.

(** [await mine(await f.transact({"from": from}))] *)
Definition mined (from : string) (t : tx) : tool string :=
  h ← fetch (QTransact from t); fetch (QReceipt h).

(** [_configured_vault] *)
Definition _configured_vault : tool string :=
  there ← fetch QEnvExists;
  if negb there then SRet ""%string
  else content ← fetch QEnvRead; SRet (vault_of content).

(** [_write_vault_address] *)
Definition _write_vault_address (vault_addr : string) : tool unit :=
  there ← fetch QEnvExists;
  if negb there then SRet tt
  else content ← fetch QEnvRead; fetch (QEnvWrite (sub_vault vault_addr content)).

Definition deploy_vault (deployer keeper : string) : tool string :=
  there ← fetch QArtifactExists;
  if negb there then SFail (Exn OSError "Vault artifact not found")
  else
    _ ← fetch QArtifact;
    provider ← slift (to_checksum_address PROVIDER);
    router ← slift (to_checksum_address SWAP_ROUTER);
    vault_addr ← mined deployer (TxDeploy provider router keeper);
    _ ← _write_vault_address vault_addr;
    SRet vault_addr.

(** [code and code != b"\x00"] *)
Definition has_code (code : list Z) : bool :=
  negb (bool_decide (code = [])) && negb (bool_decide (code = [0])).

(** [_ensure_vault] *)
Definition _ensure_vault (deployer keeper : string) : tool string :=
  existing ← _configured_vault;
  if bool_decide (existing = ""%string) then deploy_vault deployer keeper
  else
    a ← slift (to_checksum_address existing);
    code ← fetch (QGetCode a);
    if has_code code then SRet existing else deploy_vault deployer keeper.

(** [_hf]; an integer over a float literal. *)
Definition _hf (ac : account) : res f64 :=
  if ac_debt ac =? 0 then Ok finf else x ← float_of_int (ac_hf ac); fdiv x (flit (10 ^ 18)).

(** [int(collateral_base * (lt_bps / 10_000) / target)] *)
Definition debt_at_target (target : f64) (ac : account) : res Z :=
  c ← float_of_int (ac_collateral ac);
  lt ← truediv (ac_threshold ac) 10000;
  d ← fdiv (fmul c lt) target;
  int_of_float d.

(** [abs(hf - TARGET_HF) <= tol] *)
Definition near_target (tol hf : f64) : bool := fle (SpecFloat.SFabs (fsub hf TARGET_HF)) tol.

(** [shortfall_base * 10**6 // usdc_price] *)
Definition borrow_units (shortfall price : Z) : res Z :=
  if price =? 0 then Err (Exn ZeroDivisionError "integer division or modulo by zero")
  else Ok (shortfall * 10 ^ 6 / price).

(** The four transactions that put up the collateral. *)
Definition supply (who pool_addr : string) (wei : Z) (weth : string) : tool unit :=
  _ ← mined who (TxDeposit weth wei);
  _ ← mined who (TxApprove weth pool_addr (2 ^ 256 - 1));
  w ← slift (to_checksum_address WETH_ADDRESS);
  _ ← mined who (TxSupply pool_addr w wei who 0);
  w ← slift (to_checksum_address WETH_ADDRESS);
  _ ← mined who (TxUseAsCollateral pool_addr w true);
  SRet tt.

Definition borrow (who pool_addr oracle_addr : string) (shortfall : Z) : tool unit :=
  u ← slift (to_checksum_address USDC_ADDRESS);
  price ← fetch (QAssetPrice oracle_addr u);
  units ← slift (borrow_units shortfall price);
  u ← slift (to_checksum_address USDC_ADDRESS);
  _ ← mined who (TxBorrow pool_addr u units 2 0 who);
  SRet tt.

(** Step 2 of [seed]: the borrowing. *)
Definition top_up (who pool_addr oracle_addr : string) (current : account) : tool unit :=
  target ← slift (debt_at_target TARGET_HF current);
  let shortfall := target - ac_debt current in
  hf_now ← slift (_hf current);
  if negb (feq hf_now finf) && near_target HF_TOLERANCE hf_now then SRet tt
  else if shortfall <=? 0 then SRet tt
  else borrow who pool_addr oracle_addr shortfall.

(** Step 3: the aToken allowance. *)
Definition opt_in (who pool_addr vault_addr : string) : tool unit :=
  w ← slift (to_checksum_address WETH_ADDRESS);
  atoken ← fetch (QReserveData pool_addr w);
  v ← slift (to_checksum_address vault_addr);
  allowance ← fetch (QAllowance atoken who v);
  if allowance =? 0 then
    v ← slift (to_checksum_address vault_addr);
    _ ← mined who (TxApprove atoken v (2 ^ 256 - 1));
    SRet tt
  else SRet tt.

(** Python's truth value. *)
Definition json_true (j : json) : bool :=
  match j with
  | JNull => false
  | JBool b => b
  | JInt z => negb (z =? 0)
  | JFloat x => negb (is_zero x)
  | JStr s => negb (bool_decide (s = ""%string))
  | JList l => negb (Nat.eqb (length l) 0)
  | JObj l => negb (Nat.eqb (length l) 0)
  end.

(** [_warn_if_worker_will_undo_this]: a message, or nothing. *)
Definition _warn_if_worker_will_undo_this : tool unit :=
  cfg ← scatch (c ← fetch QConfig; SRet (Some c)) (λ e, is_OSError e || is_ValueError e)
          (λ _, SRet None);
  match cfg with
  | None => SRet tt
  | Some (JObj _ as cfg) =>
      match jget cfg "autonomous_enabled" with
      | Some v => if json_true v then fetch (QPrint "NOTE: the autonomous worker is ENABLED") else SRet tt
      | None => SRet tt
      end
  | Some _ => SFail (Exn (OtherError false) "AttributeError: get")
  end.

(** [seed] *)
Definition seed (status_only : bool) : tool unit :=
  let keeper := (demo_account 0).1 in
  let borrower := (demo_account 1).1 in
  accounts ← fetch QAccounts;
  provider ← slift (to_checksum_address PROVIDER);
  pool_addr ← fetch (QGetPool provider);
  oracle_addr ← fetch (QGetPriceOracle provider);
  weth ← slift (to_checksum_address WETH_ADDRESS);
  before ← fetch (QAccountData pool_addr borrower);
  _ ← slift (_hf before);
  if status_only then SRet tt
  else
    deployer ← slift (match accounts with a :: _ => Ok a | [] => Err (Exn IndexError "list index out of range") end);
    vault_addr ← _ensure_vault deployer keeper;
    _ ← (if ac_collateral before =? 0
         then supply borrower pool_addr (SUPPLY_WETH * 10 ^ 18) weth else SRet tt);
    current ← fetch (QAccountData pool_addr borrower);
    _ ← top_up borrower pool_addr oracle_addr current;
    _ ← opt_in borrower pool_addr vault_addr;
    after ← fetch (QAccountData pool_addr borrower);
    _ ← slift (_hf after);
    _warn_if_worker_will_undo_this.

(** *** seed_all_demo_wallets.py *)

(** An entry of [configs]: the account's index, the collateral in tenths of a WETH, the target. *)
Record wallet := { wl_idx : nat; wl_deciweth : Z; wl_target : f64 }.

Definition configs : list wallet := [
  {| wl_idx := 1; wl_deciweth := 50; wl_target := dec 114 (-2) |};
  {| wl_idx := 2; wl_deciweth := 100; wl_target := dec 1095 (-3) |};
  {| wl_idx := 3; wl_deciweth := 25; wl_target := dec 1075 (-3) |};
  {| wl_idx := 4; wl_deciweth := 80; wl_target := dec 1195 (-3) |}].

(** The body of the loop. *)
Definition seed_wallet (pool_addr oracle_addr weth aweth vault_addr : string) (cfg : wallet)
  : tool unit :=
  let addr := (demo_account (wl_idx cfg)).1 in
  uad ← fetch (QAccountData pool_addr addr);
  _ ← (if ac_collateral uad =? 0 then supply addr pool_addr (wl_deciweth cfg * 10 ^ 17) weth
       else SRet tt);
  uad_mid ← fetch (QAccountData pool_addr addr);
  target ← slift (debt_at_target (wl_target cfg) uad_mid);
  let shortfall := target - ac_debt uad_mid in
  _ ← (if 0 <? shortfall then borrow addr pool_addr oracle_addr shortfall else SRet tt);
  _ ← (if bool_decide (vault_addr = ""%string) then SRet tt
       else v ← slift (to_checksum_address vault_addr);
            _ ← mined addr (TxApprove aweth v (2 ^ 256 - 1)); SRet tt);
  final ← fetch (QAccountData pool_addr addr);
  _ ← slift (if 0 <? ac_debt final then x ← float_of_int (ac_hf final); fdiv x (flit (10 ^ 18))
             else Ok (flit 999));
  SRet tt.

Definition seed_all : tool unit :=
  provider ← slift (to_checksum_address PROVIDER);
  pool_addr ← fetch (QGetPool provider);
  oracle_addr ← fetch (QGetPriceOracle provider);
  weth ← slift (to_checksum_address WETH_ADDRESS);
  content ← fetch QEnvRead;
  let vault_addr := vault_of content in
  w ← slift (to_checksum_address WETH_ADDRESS);
  aweth ← fetch (QReserveData pool_addr w);
  sfor configs (seed_wallet pool_addr oracle_addr weth aweth vault_addr).

(** *** sign_demo_mandates.py *)

(** [BASE], with the borrower and the nonce filled in. *)
Definition base_params (borrower : string) (nonce : Z) : RiskParams := {|
  rp_borrower := borrower; rp_hf_trigger_bps := 11500; rp_hf_target_base_bps := 12500;
  rp_vol_coeff_k := 0; rp_hf_target_max_bps := 14000; rp_max_slippage_bps := 300;
  rp_max_cost_bps := 500; rp_allowed_collaterals := [WETH_ADDRESS]; rp_nonce := nonce;
  rp_deadline := 2000000000 |}.

Definition ACCOUNTS : list nat := seq 1 8.
Definition NONCES : list Z := [1; 2; 3; 4; 5].

(** One signature: the digest the vault computes, signed with the account's key. *)
Definition sign_one (vault : string) (idx : nat) (nonce : Z) : tool (Z * string) :=
  let '(addr, key) := demo_account idx in
  params ← slift (RiskParams_validate (base_params addr nonce));
  digest ← fetch (QHashRiskParams vault (to_solidity_tuple params));
  let sig := unsafe_sign_hash digest key in
  SRet (nonce, if str_prefix "0x" sig then sig else "0x" +:+ sig).

Fixpoint smap {A B} (f : A → tool B) (l : list A) : tool (list B) :=
  match l with [] => SRet [] | x :: l => y ← f x; ys ← smap f l; SRet (y :: ys) end.

(** The blocks of the table, an account's address with its signatures. *)
Definition sign_blocks (vault : string) : tool (list (string * list (Z * string))) :=
  smap (λ idx, sigs ← smap (sign_one vault idx) NONCES;
               SRet (str_lower (demo_account idx).1, sigs)) ACCOUNTS.

(** The JavaScript the signatures are pasted as. *)
Definition dquote : string := String (ascii_of_N 34) "".
Definition nl : string := String newline "".
Definition quoted (s : string) : string := dquote +:+ s +:+ dquote.

Fixpoint joined (sep : string) (l : list string) : string :=
  match l with [] => "" | [x] => x | x :: l => x +:+ sep +:+ joined sep l end.

Definition js_entry (e : Z * string) : string :=
  "    { nonce: " +:+ string_of_Z e.1 +:+ ", sig: " +:+ quoted e.2 +:+ " },".

Definition js_block (b : string * list (Z * string)) : string :=
  "  " +:+ quoted b.1 +:+ ": [" +:+ nl +:+ joined nl (js_entry <$> b.2) +:+ nl +:+ "  ],".

Definition TABLE_OPEN : string := "const DEMO_SIGNATURES = {".
Definition TABLE_CLOSE : string := nl +:+ "};".

Definition js_table (blocks : list (string * list (Z * string))) : string :=
  TABLE_OPEN +:+ nl +:+ joined nl (js_block <$> blocks) +:+ TABLE_CLOSE.

(** What follows the first closing line. *)
Fixpoint after_close (s : string) : option string :=
  if str_prefix TABLE_CLOSE s then Some (str_drop (String.length TABLE_CLOSE) s)
  else match s with EmptyString => None | String _ s => after_close s end.

(** [pattern.sub(js, src)] for the pattern [const DEMO_SIGNATURES = \{.*?\n\};]; the fuel is the
    length of the text. *)
Fixpoint sub_table_ (fuel : nat) (js s : string) : string :=
  match fuel, s with
  | S fuel, String c s' =>
      match (if str_prefix TABLE_OPEN s then after_close (str_drop (String.length TABLE_OPEN) s)
             else None) with
      | Some rest => js +:+ sub_table_ fuel js rest
      | None => String c (sub_table_ fuel js s')
      end
  | _, _ => s
  end.

Definition sub_table (js s : string) : string := sub_table_ (String.length s) js s.

(** [pattern.search(src)] *)
Fixpoint has_table (s : string) : bool :=
  (str_prefix TABLE_OPEN s &&
   match after_close (str_drop (String.length TABLE_OPEN) s) with Some _ => true | None => false end)
  || match s with EmptyString => false | String _ s => has_table s end.

(** [main(write)]: [Some] is the message of a [SystemExit]. *)
Definition sign_main (cfg : Settings) (write : bool) : tool (option string) :=
  vault ← slift (to_checksum_address (vault_address cfg));
  blocks ← sign_blocks vault;
  let js := js_table blocks in
  if negb write then _ ← fetch (QPrint js); SRet None
  else
    src ← fetch QConsoleRead;
    if negb (has_table src) then SRet (Some "could not find DEMO_SIGNATURES in finax.js"%string)
    else _ ← fetch (QConsoleWrite (sub_table js src)); SRet None.
End seed.

(** ** .env: what is written is what is read *)
Lemma lines_nonnil s : lines s ≠ [].
Proof. destruct s as [|c s]; cbn; [done|]. destruct (decide _); [done|]. by destruct (lines s). Qed.

(** No line holds a newline. *)
Fixpoint no_newline (s : string) : bool :=
  match s with EmptyString => true | String c s => negb (bool_decide (c = newline)) && no_newline s end.

Lemma lines_no_newline s : Forall (λ l, no_newline l = true) (lines s).
Proof.
  induction s as [|c s IH]; cbn [lines]; [by repeat constructor|].
  destruct (decide (c = newline)) as [->|Hc]; [by constructor|].
  assert (negb (bool_decide (c = newline)) = true) as Hb by by rewrite bool_decide_false.
  destruct (lines s) as [|l ls]; [constructor; [by cbn [no_newline]; rewrite Hb|constructor]|].
  inversion IH; subst. constructor; [|done]. cbn [no_newline]. by rewrite Hb.
Qed.

Lemma lines_one s : no_newline s = true → lines s = [s].
Proof.
  induction s as [|c s IH]; cbn; [done|]. intros [Hc%negb_true_iff Hs]%andb_true_iff.
  apply bool_decide_eq_false in Hc. rewrite decide_False by done. by rewrite IH.
Qed.

Lemma lines_app x s :
  no_newline x = true → lines (x +:+ String newline s) = x :: lines s.
Proof.
  induction x as [|c x IH]; intros H.
  - change (lines (String newline s) = ""%string :: lines s). cbn. by rewrite decide_True.
  - cbn in H. apply andb_true_iff in H as [Hc%negb_true_iff Hx]. apply bool_decide_eq_false in Hc.
    change (lines (String c (x +:+ String newline s)) = String c x :: lines s). cbn [lines].
    rewrite decide_False by done. by rewrite IH.
Qed.

(** Lines that hold no newline survive being joined and split again. *)
Lemma lines_unlines l :
  l ≠ [] → Forall (λ x, no_newline x = true) l → lines (unlines l) = l.
Proof.
  induction l as [|x [|y l] IH]; intros Hl Hn; [done| |].
  - inversion Hn. by apply lines_one.
  - inversion Hn as [|?? Hx Hn']; subst. cbn [unlines].
    rewrite lines_app by done. f_equal. by apply IH.
Qed.

Lemma no_newline_app a b : no_newline (a +:+ b) = no_newline a && no_newline b.
Proof.
  induction a as [|c a IH]; [done|]. change (no_newline (String c (a +:+ b)) = no_newline (String c a) && no_newline b).
  cbn. by rewrite IH, andb_assoc.
Qed.

Lemma sub_line_no_newline addr l :
  no_newline addr = true → no_newline l = true → no_newline (sub_line addr l) = true.
Proof.
  intros Ha. induction l as [|c l IH]; cbn [sub_line]; intros Hl; [done|].
  destruct (str_prefix VAULT_KEY (String c l)).
  - rewrite no_newline_app, Ha. done.
  - cbn in *. apply andb_true_iff in Hl as [-> Hl]. by apply IH.
Qed.

(** The substitution neither creates nor hides the key at the start of a line. *)
Fixpoint no_V (q : string) : bool :=
  match q with EmptyString => true | String c q => negb (bool_decide (c = "V"%char)) && no_V q end.

Lemma sub_line_keeps addr q l : no_V q = true → str_prefix q (sub_line addr l) = str_prefix q l.
Proof.
  revert q. induction l as [|c l IH]; intros q Hq; [done|].
  destruct q as [|a q]; [by destruct (sub_line addr (String c l))|].
  cbn in Hq. apply andb_true_iff in Hq as [Ha%negb_true_iff Hq]. apply bool_decide_eq_false in Ha.
  cbn [sub_line]. destruct (str_prefix VAULT_KEY (String c l)) eqn:E.
  - assert (c = "V"%char) as ->.
    { cbn in E. destruct (decide _) as [<-|]; [done|discriminate]. }
    change (VAULT_KEY +:+ addr) with (String "V" ("AULT_ADDRESS=" +:+ addr)).
    cbn [str_prefix]. by rewrite !decide_False.
  - cbn. destruct (decide (a = c)); [by apply IH|done].
Qed.

Lemma str_prefix_app p s : str_prefix p (p +:+ s) = true.
Proof.
  induction p as [|c p IH]; [by destruct s|]. change (str_prefix (String c p) (String c (p +:+ s)) = true).
  cbn. by rewrite decide_True.
Qed.

Lemma removeprefix_app p s : removeprefix p (p +:+ s) = s.
Proof.
  unfold removeprefix. rewrite str_prefix_app. induction p as [|c p IH]; [done|].
  change (str_drop (S (String.length p)) (String c (p +:+ s)) = s). cbn. done.
Qed.

Lemma sub_line_key addr l : str_prefix VAULT_KEY (sub_line addr l) = str_prefix VAULT_KEY l.
Proof.
  destruct (str_prefix VAULT_KEY l) eqn:E.
  - destruct l; cbn [sub_line]; rewrite E; apply str_prefix_app.
  - destruct l as [|c l]; [done|]. cbn [sub_line]. rewrite E.
    assert (∀ s, str_prefix VAULT_KEY (String c s) =
      if decide ("V"%char = c) then str_prefix "AULT_ADDRESS=" s else false) as Hk by done.
    rewrite Hk in *. destruct (decide _); [|done]. by rewrite sub_line_keeps.
Qed.

Lemma sub_line_at addr l : str_prefix VAULT_KEY l = true → sub_line addr l = VAULT_KEY +:+ addr.
Proof. intros H. destruct l; cbn [sub_line]; by rewrite H. Qed.

(** Whatever else the file holds: when it has a line for the vault, the address written is the
    address read back (stripped); when it has none, nothing is recorded. *)
Lemma vault_line_sub addr content :
  no_newline addr = true →
  vault_line (sub_vault addr content) =
    match vault_line content with Some _ => Some addr | None => None end.
Proof.
  intros Ha. unfold vault_line, sub_vault.
  rewrite lines_unlines; cycle 1.
  { pose proof (lines_nonnil content). by destruct (lines content). }
  { pose proof (lines_no_newline content) as H. rewrite Forall_forall in *. intros x Hx.
    apply list_elem_of_fmap in Hx as (l & -> & Hl). by apply sub_line_no_newline, H. }
  induction (lines content) as [|l ls IH]; [done|].
  rewrite fmap_cons, !filter_cons, sub_line_key.
  destruct (decide (str_prefix VAULT_KEY l = true)) as [Hl|]; [|exact IH].
  cbn [head fmap option_fmap option_map]. by rewrite (sub_line_at addr l Hl), removeprefix_app.
Qed.

(** ** What a seeding run sends *)
Lemma swp_fetch q (P : list (asked tans) → res (tresp q) → Prop) :
  swp (fetch q) P ↔ ∀ r : tans q, P [Asked q r] r.
Proof. split; intros H r; specialize (H r); by destruct r. Qed.

Lemma sent_app tr tr' : sent (tr ++ tr') = sent tr ++ sent tr'.
Proof. apply omap_app. Qed.

Section laws.
Context `{U : EthUtils} `{E : EthAccount} `{UD : UnicodeData}.

(** [sends p Φ Ψ]: when every answer along a run of [p] satisfies [Φ], whatever else they are,
    the run and its result, even a failure, satisfy [Ψ]. *)
Definition sends {A} (p : tool A) (Φ : asked tans → Prop) (Ψ : list (string * tx) → res A → Prop) : Prop :=
  swp p (λ tr r, Forall Φ tr → Ψ (sent tr) r).

Lemma sends_bind {A B} (p : tool A) (f : A → tool B) Φ Ψ Ψ' :
  sends p Φ Ψ →
  (∀ a txs, Ψ txs (Ok a) → sends (f a) Φ (λ txs', Ψ' (txs ++ txs'))) →
  (∀ e txs, Ψ txs (Err e) → Ψ' txs (Err e)) →
  sends (a ← p; f a) Φ Ψ'.
Proof.
  unfold sends. intros Hp Hf He. rewrite swp_bind. eapply swp_mono; [|exact Hp].
  intros tr [a|e] H; [|eauto]. rewrite swp_iff. intros tr' r Hr [H1 H2]%Forall_app.
  specialize (Hf a (sent tr) (H H1)). rewrite swp_iff in Hf.
  rewrite sent_app. by apply Hf.
Qed.

Lemma sends_mono {A} (p : tool A) (Φ : asked tans → Prop) (Ψ Ψ' : list (string * tx) → res A → Prop) :
  (∀ txs r, Ψ txs r → Ψ' txs r) → sends p Φ Ψ → sends p Φ Ψ'.
Proof. intros H. apply swp_mono. auto. Qed.

(** A run that sends nothing, and whose value satisfies [Q]. *)
Definition inert {A} (p : tool A) (Φ : asked tans → Prop) (Q : A → Prop) : Prop :=
  sends p Φ (λ txs r, txs = [] ∧ match r with Ok a => Q a | Err _ => True end).

Lemma inert_bind {A B} (p : tool A) (f : A → tool B) Φ Q Q' :
  inert p Φ Q → (∀ a, Q a → inert (f a) Φ Q') → inert (a ← p; f a) Φ Q'.
Proof.
  intros Hp Hf. eapply sends_bind; [exact Hp| |by intros ? ? [-> _]].
  intros a txs [-> Ha]. by apply Hf.
Qed.

Lemma inert_ret {A} (a : A) Φ (Q : A → Prop) : Q a → inert (SRet a) Φ Q.
Proof. intros H _. done. Qed.

Lemma inert_lift {A} (r : res A) Φ (Q : A → Prop) : (∀ a, r = Ok a → Q a) → inert (slift r) Φ Q.
Proof. intros H. destruct r; intros _; by split; auto. Qed.

Lemma inert_any {A} (r : res A) Φ : inert (slift r) Φ (λ _, True).
Proof. by apply inert_lift. Qed.

Lemma inert_fetch q Φ (Q : tresp q → Prop) :
  (∀ from t, q ≠ QTransact from t) → (∀ a, Φ (Asked q (Ok a)) → Q a) → inert (fetch q) Φ Q.
Proof.
  intros Hq H. unfold inert, sends. rewrite swp_fetch. intros r.
  assert (sent [Asked q r] = []) as Hs.
  { unfold sent. cbn. destruct q; try done. by destruct (Hq from t). }
  rewrite Hs. intros HΦ. split; [done|].
  destruct r as [a|e]; [|done]. apply H. by inversion HΦ.
Qed.

(** The answers of a fork whose demo position is in place: .env records a live vault, every
    account read has collateral and a health factor within the tolerance, the allowance is
    granted. *)
Definition in_place (ev : asked tans) : Prop :=
  match ev with
  | Asked q a =>
      match q return tans q → Prop with
      | QEnvExists => λ a, a = Ok true
      | QEnvRead => λ a, ∀ c, a = Ok c → vault_of c ≠ ""%string
      | QGetCode _ => λ a, ∀ code, a = Ok code → has_code code = true
      | QAccountData _ _ => λ a, ∀ ac, a = Ok ac →
          ac_collateral ac ≠ 0 ∧
          ∃ hf, _hf ac = Ok hf ∧ feq hf finf = false ∧ near_target HF_TOLERANCE hf = true
      | QAllowance _ _ _ => λ a, ∀ n, a = Ok n → n ≠ 0
      | _ => λ _, True
      end a
  end.

Lemma inert_configured Φ :
  (∀ ev, Φ ev → in_place ev) → inert _configured_vault Φ (λ v, v ≠ ""%string).
Proof.
  intros HΦ. unfold _configured_vault. eapply inert_bind.
  { apply (inert_fetch QEnvExists _ (λ b, b = true)); [done|]. by intros a [= ->]%HΦ. }
  intros ? ->. cbn [negb]. eapply inert_bind.
  { apply (inert_fetch QEnvRead _ (λ c, vault_of c ≠ ""%string)); [done|].
    intros c H%HΦ. by apply (H c). }
  intros c Hc. by apply inert_ret.
Qed.

Lemma inert_ensure_vault d k : inert (_ensure_vault d k) in_place (λ _, True).
Proof.
  unfold _ensure_vault. eapply inert_bind; [by apply inert_configured|]. intros v Hv.
  rewrite bool_decide_false by done.
  eapply inert_bind; [apply inert_any|]. intros a _. eapply inert_bind.
  { apply (inert_fetch (QGetCode a) _ (λ code, has_code code = true)); [done|].
    intros code H. by apply H. }
  intros code ->. by apply inert_ret.
Qed.

Lemma inert_warn Φ : inert _warn_if_worker_will_undo_this Φ (λ _, True).
Proof.
  unfold _warn_if_worker_will_undo_this. apply (inert_bind _ _ _ (λ _, True)).
  { unfold inert, sends. apply swp_scatch. rewrite swp_bind, swp_fetch. intros [c|e].
    - by intros _.
    - cbv beta iota. destruct (is_OSError e || is_ValueError e); by intros _. }
  intros [[| | | | | |l]|] _; try (by apply inert_ret); try (by apply (inert_lift (Err _))).
  cbn [jget]. destruct (dget l _) as [v|]; [|by apply inert_ret].
  destruct (json_true v); [|by apply inert_ret]. by apply inert_fetch.
Qed.

(** A plain read. *)
Ltac inert_read :=
  match goal with
  | |- inert (mbind _ (fetch ?q)) ?Φ _ =>
      apply (inert_bind (fetch q) _ Φ (λ _, True)); [by apply (inert_fetch q Φ (λ _, True))|]
  end.
Ltac inert_pure := eapply inert_bind; [apply inert_any|].

(** C40: The seeding script is safe to re-run.  On a fork where the demo position is in place,
    a run sends no transaction, whatever else the fork, the file system and the API answer,
    and whether or not it ends in an error; [--status] sends none on any fork. *)
Theorem seed_rerun_inert status tr r :
  runs (seed status) tr r → (status = false → Forall in_place tr) → sent tr = [].
Proof.
  intros Hr Hplace.
  assert (inert (seed status) (if status then λ _, True else in_place) (λ _, True)) as H.
  { clear Hr Hplace. unfold seed. inert_read. intros accounts _. inert_pure. intros provider _.
    inert_read. intros pool _. inert_read. intros oracle _. inert_pure. intros weth _.
    destruct status.
    - inert_read. intros before _. inert_pure. intros _ _. by apply inert_ret.
    - eapply inert_bind.
      { apply (inert_fetch (QAccountData pool (demo_account 1).1) _ (λ ac, ac_collateral ac ≠ 0));
          [done|]. intros ac H. by destruct (H ac eq_refl). }
      intros before Hb. inert_pure. intros _ _. inert_pure. intros d _.
      eapply inert_bind; [apply inert_ensure_vault|]. intros vault _.
      rewrite (proj2 (Z.eqb_neq _ _) Hb).
      apply (inert_bind _ _ _ (λ _, True)); [by apply inert_ret|]. intros _ _.
      eapply inert_bind.
      { apply (inert_fetch (QAccountData pool (demo_account 1).1) _
          (λ ac, ∃ hf, _hf ac = Ok hf ∧ feq hf finf = false ∧ near_target HF_TOLERANCE hf = true));
          [done|]. intros ac H. by destruct (H ac eq_refl). }
      intros current (hf & Hhf & Hinf & Hnear). apply (inert_bind _ _ _ (λ _, True)).
      { unfold top_up. inert_pure. intros target _. rewrite Hhf.
        eapply inert_bind; [by apply (inert_lift _ _ (λ x, x = hf)); intros ? [= ->]|].
        intros ? ->. rewrite Hinf, Hnear. by apply inert_ret. }
      intros _ _. apply (inert_bind _ _ _ (λ _, True)).
      { unfold opt_in. inert_pure. intros w _. inert_read. intros atoken _. inert_pure.
        intros v _. eapply inert_bind.
        { apply (inert_fetch (QAllowance atoken (demo_account 1).1 v) _ (λ n, n ≠ 0)); [done|].
          intros n H. by apply H. }
        intros n Hn. rewrite (proj2 (Z.eqb_neq _ _) Hn). by apply inert_ret. }
      intros _ _. inert_read. intros after _. inert_pure. intros _ _. apply inert_warn. }
  unfold inert, sends in H. rewrite swp_iff in H. apply (H tr r Hr).
  destruct status; [by apply Forall_true|auto].
Qed.

(** *** The amount borrowed *)

(** The units are the most whose value, at the oracle's price, does not exceed the shortfall;
    so the debt after the borrowing does not exceed the debt at the target. *)
Lemma borrow_units_value shortfall price units :
  0 < price → borrow_units shortfall price = Ok units →
  units * price ≤ shortfall * 10 ^ 6 < (units + 1) * price ∧ units * price / 10 ^ 6 ≤ shortfall.
Proof.
  intros Hp. unfold borrow_units. rewrite (proj2 (Z.eqb_neq _ _)) by lia. intros [= <-].
  pose proof (Z.mul_div_le (shortfall * 10 ^ 6) price Hp).
  pose proof (Z.mul_succ_div_gt (shortfall * 10 ^ 6) price Hp).
  split; [lia|]. apply Z.div_le_upper_bound; lia.
Qed.

(** At a price of one dollar a borrowing leaves the shortfall's last two digits. *)
Lemma borrow_leftover shortfall units :
  borrow_units shortfall (10 ^ 8) = Ok units →
  shortfall - units * 10 ^ 8 / 10 ^ 6 = shortfall mod 100.
Proof.
  unfold borrow_units. cbn [Z.eqb]. intros [= <-].
  replace (shortfall * 10 ^ 6 / 10 ^ 8) with (shortfall / 100); cycle 1.
  { replace (10 ^ 8) with (100 * 10 ^ 6) by lia. by rewrite Z.div_mul_cancel_r. }
  replace (shortfall / 100 * 10 ^ 8 / 10 ^ 6) with (100 * (shortfall / 100)); cycle 1.
  { replace (shortfall / 100 * 10 ^ 8) with ((100 * (shortfall / 100)) * 10 ^ 6) by lia.
    by rewrite Z.div_mul. }
  pose proof (Z.div_mod shortfall 100). lia.
Qed.

Lemma sends_mined who t Φ : sends (mined who t) Φ (λ txs _, txs = [(who, t)]).
Proof.
  unfold sends, mined. rewrite swp_bind. apply (swp_fetch (QTransact who t)). intros [h|e]; [|done].
  apply (swp_fetch (QReceipt h)). by intros r _.
Qed.

(** A fork on which nothing moves: every account read is [ac], every price [price]. *)
Definition still (ac : account) (price : Z) (ev : asked tans) : Prop :=
  match ev with
  | Asked q a =>
      match q return tans q → Prop with
      | QAccountData _ _ => λ a, ∀ x, a = Ok x → x = ac
      | QAssetPrice _ _ => λ a, ∀ x, a = Ok x → x = price
      | _ => λ _, True
      end a
  end.

(** A read along a chain of [sends] whose conclusion speaks of the transactions alone. *)
Lemma sends_pure_bind {A B} (p : tool A) (f : A → tool B) Φ Q Ψ :
  inert p Φ Q → (∀ a, Q a → sends (f a) Φ Ψ) → (∀ e, Ψ [] (Err e)) → sends (a ← p; f a) Φ Ψ.
Proof.
  intros Hp Hf He. eapply sends_bind; [exact Hp| |by intros ? ? [-> _]].
  intros a txs [-> Ha]. by apply Hf.
Qed.

Definition reaches {A} (who : string) (P : tx → Prop) (txs : list (string * tx)) (r : res A) : Prop :=
  ∀ a, r = Ok a → ∃ t, P t ∧ (who, t) ∈ txs.

Lemma sends_borrow_zero who pool oracle shortfall ac price :
  0 < shortfall → shortfall * 10 ^ 6 < price →
  sends (borrow who pool oracle shortfall) (still ac price)
    (reaches who (λ t, ∃ u, t = TxBorrow pool u 0 2 0 who)).
Proof.
  intros Hs Hp. unfold borrow.
  eapply sends_pure_bind; [apply inert_any|intros u _|done].
  apply (sends_pure_bind (fetch (QAssetPrice oracle u)) _ _ (λ x, x = price)); [|intros ? ->|done].
  { apply inert_fetch; [done|]. intros a H. by apply H. }
  apply (sends_pure_bind _ _ _ (λ x, x = 0)); [|intros ? ->|done].
  { apply inert_lift. unfold borrow_units. rewrite (proj2 (Z.eqb_neq _ _)) by lia.
    intros a [= <-]. apply Z.div_small. lia. }
  eapply sends_pure_bind; [apply inert_any|intros u' _|done].
  eapply sends_bind; [apply sends_mined| |done].
  intros h txs ->. unfold sends. rewrite swp_ret. intros _ a _.
  exists (TxBorrow pool u' 0 2 0 who). split; [by exists u'|]. rewrite app_nil_r. left.
Qed.

Lemma sends_any {A} (p : tool A) Φ : sends p Φ (λ _ _, True).
Proof. unfold sends. by apply swp_iff. Qed.

(** Running seed_all_demo_wallets.py on a position its first run left behind: the borrowing
    rounds down, so a shortfall remains; unlike seed_demo.py there is no tolerance band, so a
    wallet whose remaining shortfall is worth less than one unit of USDC is made to borrow
    zero units, a call Aave's pool does not accept. *)
Theorem seed_all_borrows_zero pool oracle weth aweth vault cfg ac target price tr :
  ac_collateral ac ≠ 0 → debt_at_target (wl_target cfg) ac = Ok target →
  0 < target - ac_debt ac → (target - ac_debt ac) * 10 ^ 6 < price →
  runs (seed_wallet pool oracle weth aweth vault cfg) tr (Ok tt) → Forall (still ac price) tr →
  ∃ u, ((demo_account (wl_idx cfg)).1, TxBorrow pool u 0 2 0 (demo_account (wl_idx cfg)).1)
         ∈ sent tr.
Proof.
  intros Hc Ht Hs Hp Hr Hstill. set (who := (demo_account (wl_idx cfg)).1).
  assert (sends (seed_wallet pool oracle weth aweth vault cfg) (still ac price)
    (reaches who (λ t, ∃ u, t = TxBorrow pool u 0 2 0 who))) as H.
  { unfold seed_wallet. fold who.
    apply (sends_pure_bind (fetch (QAccountData pool who)) _ _ (λ x, x = ac)); [|intros ? ->|done].
    { apply inert_fetch; [done|]. intros a H. by apply H. }
    rewrite (proj2 (Z.eqb_neq _ _) Hc).
    apply (sends_pure_bind _ _ _ (λ _, True)); [by apply inert_ret|intros _ _|done].
    apply (sends_pure_bind (fetch (QAccountData pool who)) _ _ (λ x, x = ac)); [|intros ? ->|done].
    { apply inert_fetch; [done|]. intros a H. by apply H. }
    rewrite Ht. apply (sends_pure_bind _ _ _ (λ x, x = target)); [|intros ? ->|done].
    { apply inert_lift. by intros ? [= ->]. }
    rewrite (proj2 (Z.ltb_lt _ _) Hs).
    eapply sends_bind; [by apply (sends_borrow_zero who pool oracle _ ac price)| |done].
    intros [] txs Htx. destruct (Htx tt eq_refl) as (t & Hz & Hin).
    eapply sends_mono; [|apply sends_any]. intros txs' r _ a _. exists t.
    split; [done|]. apply elem_of_app. by left. }
  unfold sends in H. rewrite swp_iff in H. destruct (H tr (Ok tt) Hr Hstill tt eq_refl) as (t & [u ->] & ?).
  by exists u.
Qed.
End laws.

(** .env records the vault that was deployed: when the file has a line for it, whatever the
    rest of the file holds (a longer key that ends in the same name included), the address
    written is the address the next run reads, stripped; when it has none, the write leaves
    no record, and the next run finds no vault configured and deploys another one. *)
Theorem vault_recorded `{UD : UnicodeData} addr content :
  no_newline addr = true →
  vault_of (sub_vault addr content) =
    match vault_line content with Some _ => py_strip addr | None => ""%string end.
Proof. intros H. unfold vault_of. rewrite vault_line_sub by done. by destruct (vault_line content). Qed.

Lemma vault_recorded_witness :
  let content := "OLD_VAULT_ADDRESS=0x1
VAULT_ADDRESS=0x2
"%string in
  vault_of (UD := unicode_ascii) (sub_vault "0x3" content) = "0x3"%string ∧
  vault_of (UD := unicode_ascii) (sub_vault "0x3" "A=1") = ""%string.
Proof.
  split.
  - rewrite (vault_recorded (UD := unicode_ascii)) by reflexivity. vm_compute. reflexivity.
  - rewrite (vault_recorded (UD := unicode_ascii)) by reflexivity. vm_compute. reflexivity.
Defined.

(** *** The signed mandates *)
Section signed.
Context `{U : EthUtils} `{E : EthAccount}.

Lemma swp_smap {A B} (f : A → tool B) (Q : A → B → Prop) l :
  (∀ x, swp (f x) (λ _ r, match r with Ok y => Q x y | Err _ => True end)) →
  swp (smap f l) (λ _ r, match r with Ok ys => Forall2 Q l ys | Err _ => True end).
Proof.
  intros Hf. induction l as [|x l IH]; cbn [smap]; [rewrite swp_ret; constructor|].
  rewrite swp_bind. eapply swp_mono; [|apply Hf]. intros tr [y|e] Hy; [|done].
  rewrite swp_bind. eapply swp_mono; [|exact IH]. intros tr' [ys|e] Hys; [|done].
  rewrite swp_ret. by constructor.
Qed.

(** The table holds, for each of the eight accounts in order, one signature for each of the
    five nonces in order. *)
Lemma sign_blocks_shape vault :
  swp (sign_blocks vault)
    (λ _ r, match r with
            | Ok bs => bs.*1 = (λ i, str_lower (demo_account i).1) <$> ACCOUNTS ∧
                       Forall (λ b, b.2.*1 = NONCES) bs
            | Err _ => True
            end).
Proof.
  eapply swp_mono; [|apply (swp_smap _ (λ i b, b.1 = str_lower (demo_account i).1 ∧ b.2.*1 = NONCES))].
  - intros _ [bs|e] H; [|done]. unfold sign_blocks in H.
    generalize dependent bs. generalize ACCOUNTS. intros l bs H.
    induction H as [|i b l bs [H1 H2] H [IH1 IH2]]; [done|].
    rewrite !fmap_cons, H1, IH1. split; [done|by constructor].
  - intros i. rewrite swp_bind. eapply swp_mono; [|apply (swp_smap _ (λ n e, e.1 = n))].
    + intros _ [sigs|e] H; [|done]. rewrite swp_ret. split; [done|]. cbn [snd].
      induction H as [|n e l l' He _ IH]; [done|]. by rewrite fmap_cons, He, IH.
    + intros n. unfold sign_one. destruct (demo_account i) as [addr key].
      rewrite swp_bind, swp_lift. destruct (RiskParams_validate _) as [p|]; [|done].
      rewrite swp_bind. apply (swp_fetch (QHashRiskParams _ _)). intros [d|e]; [|done].
      by rewrite swp_ret.
Qed.
End signed.

(** *** A fork for concrete runs *)
Definition fork (ac : account) (q : tq) (w : unit) : tans q * unit :=
  (match q return tans q with
   | QAccounts => Ok ["0xdeployer"%string]
   | QGetPool _ => Ok "0x9001"%string
   | QGetPriceOracle _ => Ok "0x0rac1e"%string
   | QAccountData _ _ => Ok ac
   | QReserveData _ _ => Ok "0xa"%string
   | QAssetPrice _ _ => Ok (10 ^ 8)
   | QAllowance _ _ _ => Ok 1
   | QGetCode _ => Ok [96; 128]
   | QHashRiskParams _ _ => Ok "0xd1"%string
   | QTransact _ _ | QReceipt _ => Ok "0xaa"%string
   | QEnvExists | QArtifactExists => Ok true
   | QEnvRead => Ok "A=1
VAULT_ADDRESS=0xva
"%string
   | QConsoleRead => Ok ""%string
   | QEnvWrite _ | QArtifact | QConsoleWrite _ | QPrint _ => Ok tt
   | QConfig => Err (Exn ConnectionError "refused")
   end, w).

(** A position at a health factor of 1.14. *)
Definition placed : account := {|
  ac_collateral := 1000000000000; ac_debt := 723684210526; ac_available := 0;
  ac_threshold := 8250; ac_ltv := 8000; ac_hf := 1140000000000000000 |}.

(** The same position, half a cent of a dollar short of its target. *)
Definition short : account := {|
  ac_collateral := 1000000000000; ac_debt := 723684210476; ac_available := 0;
  ac_threshold := 8250; ac_ltv := 8000; ac_hf := 1140000000000000000 |}.

Definition demo_seed : tool unit := @seed eth_plain eth_account_plain unicode_ascii false.

Lemma seed_rerun_inert_witness :
  ∃ tr, runs demo_seed tr (Ok tt) ∧ tr ≠ [] ∧ sent tr = [].
Proof.
  destruct (srun (fork placed) demo_seed tt) as [[tr r] w] eqn:E.
  pose proof (srun_runs _ _ _ _ _ _ E) as Hr. vm_compute in E. injection E as Et Er.
  subst r. exists tr. split; [exact Hr|]. split; [by rewrite <-Et|].
  apply (@seed_rerun_inert eth_plain eth_account_plain unicode_ascii false tr _ Hr).
  intros _. rewrite <-Et. repeat apply Forall_cons_2; try apply Forall_nil_2; cbn;
    try exact I; try reflexivity; try (intros ? [= <-]); try discriminate; try reflexivity.
  all: split; [discriminate|]; eexists; split; [vm_compute; reflexivity|];
    split; vm_compute; reflexivity.
Defined.

Definition wallet1 : wallet := {| wl_idx := 1; wl_deciweth := 50; wl_target := dec 114 (-2) |}.

Lemma seed_all_borrows_zero_witness :
  ∃ tr u, sent tr ≠ [] ∧
    ((@demo_account eth_account_plain 1).1,
     TxBorrow "0x9001" u 0 2 0 (@demo_account eth_account_plain 1).1) ∈ sent tr.
Proof.
  set (p := @seed_wallet eth_plain eth_account_plain "0x9001" "0x0rac1e" "0xe" "0xa" "" wallet1).
  destruct (srun (fork short) p tt) as [[tr r] w] eqn:E.
  pose proof (srun_runs _ _ _ _ _ _ E) as Hr. vm_compute in E. injection E as Et Er.
  subst r. exists tr.
  destruct (@seed_all_borrows_zero eth_plain eth_account_plain "0x9001" "0x0rac1e" "0xe" "0xa" ""
    wallet1 short 723684210526 (10 ^ 8) tr) as (u & Hu).
  - done.
  - vm_compute. reflexivity.
  - done.
  - done.
  - exact Hr.
  - rewrite <-Et. repeat constructor; cbn; try (by intros ? [= <-]).
  - exists u. split; [by rewrite <-Et|exact Hu].
Defined.
