(* ===== verification/Stack.v ===== *)
(** * tools/run_demo_stack.py, alchemy_fork_proxy.py: the demo's processes

    The script that brings the demo up, as a program over the operating system ([Script.v]),
    and the JSON-RPC proxy's handler.  A [sys.exit(message)] ends the script with [Some
    message]; what is printed is left out. *)
From S2P Require Import Prelude PyFloat PyText Guard Script.

(** ** run_demo_stack.py *)
Definition ANVIL_PORT : Z := 8548.
Definition API_PORT : Z := 8097.

Definition SEEDERS : list string :=
  ["seed_demo.py"; "seed_all_demo_wallets.py"; "seed_more_wallets.py"]%string.

(** The files of backend/tools in the repository. *)
Definition TOOLS : list string :=
  ["alchemy_fork_proxy.py"; "run_demo_stack.py"; "seed_all_demo_wallets.py"; "seed_demo.py";
   "seed_extra_positions.py"; "sign_demo_mandates.py"]%string.

Inductive sq :=
  | QIsWindows                                  (* sys.platform == "win32" *)
  | QNetstat                                    (* the lines of netstat -ano *)
  | QTaskkill (pid : string)
  | QKillTcp (port : Z)                         (* lsof | xargs kill *)
  | QWhich                                      (* shutil.which("anvil") *)
  | QFallback                                   (* ~/.foundry/bin/anvil.exe exists *)
  | QStartAnvil (path : string)
  | QStartApi
  | QRpc (port : Z) (method : string)           (* rpc(...) is not None *)
  | QHttpOk (port : Z)                          (* GET /agent/status answers *)
  | QSleep
  | QRunScript (script : string) (write : bool). (* the exit code *)

Definition sresp (q : sq) : Type :=
  match q with
  | QIsWindows | QFallback | QRpc _ _ | QHttpOk _ => bool
  | QNetstat => list string
  | QWhich => option string
  | QRunScript _ _ => Z
  | _ => unit
  end.

(** Each question may also fail with an exception of the operating system. *)
Definition sans (q : sq) : Type := res (sresp q).

Abbreviation os := (script sq sans).

Definition sys (q : sq) : os (sresp q) := r ← ask q; slift r.

Section stack.
Context `{UD : UnicodeData}.

(** The digits a stripped line ends in: [re.search(r"(\d+)\s*$", line.strip())]. *)
Fixpoint take_digits (l : list Z) : list Z :=
  match l with c :: l => if is_digit c then c :: take_digits l else [] | [] => [] end.

Definition last_number (line : string) : option string :=
  match reverse (take_digits (reverse (decode (py_strip line)))) with
  | [] => None
  | l => Some (encode l)
  end.

(** The set of process ids netstat shows listening on the port. *)
Definition listening (port : Z) (out : list string) : list string :=
  remove_dups (omap (λ line,
    if str_contains (":" +:+ string_of_Z port +:+ " ") line && str_contains "LISTENING" line
    then last_number line else None) out).

(** [kill_port] *)
Definition kill_port (port : Z) : os unit :=
  windows ← sys QIsWindows;
  if windows : bool then
    out ← sys QNetstat;
    sfor (listening port out) (λ pid, sys (QTaskkill pid))
  else sys (QKillTcp port).

(** [_anvil]: the path, or the message it exits with. *)
Definition _anvil : os (string + string) :=
  found ← sys QWhich;
  match found with
  | Some p => SRet (inr p)
  | None =>
      there ← sys QFallback;
      if there : bool then SRet (inr "~/.foundry/bin/anvil.exe"%string)
      else SRet (inl "anvil not found. Install Foundry, or add ~/.foundry/bin to PATH."%string)
  end.

(** [wait_for], with its number of tries. *)
Fixpoint wait_for (tries : nat) (fn : os bool) (what : string) : os (option string) :=
  match tries with
  | O => SRet (Some ("timed out waiting for " +:+ what))
  | S tries =>
      ready ← fn;
      if ready : bool then SRet None
      else _ ← sys QSleep; wait_for tries fn what
  end.

(** [run] *)
Definition run_tool (script : string) : os (option string) :=
  code ← sys (QRunScript script false);
  if code =? 0 then SRet None
  else SRet (Some (script +:+ " failed with exit code " +:+ string_of_Z code)).

(** A statement after which a [sys.exit] ends the script. *)
Definition then_ (p : os (option string)) (q : os (option string)) : os (option string) :=
  e ← p; match e with Some m => SRet (Some m) | None => q end.

(** [for s in SEEDERS: run(s)] *)
Fixpoint run_all (l : list string) (next : os (option string)) : os (option string) :=
  match l with [] => next | s :: l => then_ (run_tool s) (run_all l next) end.

(** The API: [rpc(...) is not None or _http_ok(...)]. *)
Definition api_up : os bool :=
  b ← sys (QRpc API_PORT "x"); if b : bool then SRet true else sys (QHttpOk API_PORT).

Definition start_api : os (option string) :=
  _ ← sys QStartApi;
  wait_for 30 api_up "API".

Definition sign_all : os (option string) :=
  code ← sys (QRunScript "sign_demo_mandates.py" true);
  if code =? 0 then start_api else SRet (Some "signing failed"%string).

Definition rebuild : os (option string) :=
  anvil ← _anvil;
  match anvil with
  | inl m => SRet (Some m)
  | inr path =>
      _ ← sys (QStartAnvil path);
      then_ (wait_for 30 (sys (QRpc ANVIL_PORT "eth_blockNumber")) "anvil")
            (run_all SEEDERS sign_all)
  end.

(** [main] *)
Definition stack_main (no_seed stop : bool) : os (option string) :=
  _ ← kill_port API_PORT;
  _ ← (if no_seed then SRet tt else kill_port ANVIL_PORT);
  if stop then SRet None
  else if no_seed then start_api else rebuild.
End stack.

(** ** alchemy_fork_proxy.py *)
Definition LOCALLY_ANSWERED : list string := ["anvil_nodeInfo"; "anvil_metadata"]%string.

(** What the upstream node answered. *)
Inductive upstream :=
  | UpOk (body : string) (status : Z)
  | UpHttpError (body : string)                 (* urllib.error.HTTPError *)
  | UpFail (message : string).                  (* any other exception *)

(** A reply's payload: bytes, or a value to be dumped. *)
Inductive payload := Raw (s : string) | Dumped (j : json).

Definition dq : string := String (ascii_of_N 34) "".
Definition q_ (s : string) : string := dq +:+ s +:+ dq.

Definition PARSE_ERROR : string :=
  "{" +:+ q_ "jsonrpc" +:+ ":" +:+ q_ "2.0" +:+ "," +:+ q_ "id" +:+ ":null," +:+ q_ "error" +:+ ":{"
  +:+ q_ "code" +:+ ":-32700," +:+ q_ "message" +:+ ":" +:+ q_ "Parse error" +:+ "}}".

Definition UPSTREAM_ERROR : string :=
  "{" +:+ q_ "jsonrpc" +:+ ":" +:+ q_ "2.0" +:+ "," +:+ q_ "id" +:+ ":null," +:+ q_ "error" +:+ ":{"
  +:+ q_ "code" +:+ ":-32603," +:+ q_ "message" +:+ ":" +:+ q_ "upstream error" +:+ "}}".

Definition rpc_error (id : json) (code : Z) (message : string) : json :=
  JObj [("jsonrpc", JStr "2.0"); ("id", id);
        ("error", JObj [("code", JInt code); ("message", JStr message)])]%string.

(** [body.get("method") in LOCALLY_ANSWERED]: hashing a list or a dict raises. *)
Definition shadowed (body : json) : res (option string) :=
  match body with
  | JObj l =>
      match dget l "method" with
      | Some (JStr m) => Ok (if bool_decide (m ∈ LOCALLY_ANSWERED) then Some m else None)
      | Some (JList _) | Some (JObj _) => Err (Exn TypeError "unhashable type")
      | _ => Ok None
      end
  | _ => Ok None
  end.

(** The handler's one question: the raw body sent upstream. *)
Definition up_ans (_ : string) : Type := upstream.

(** [do_POST]; [json.loads(raw)] is the body, or [JSONDecodeError].  The reply is what [_reply]
    is given: the payload and the status. *)
Definition do_POST (raw : string) (loads : option json) : script string up_ans (payload * Z) :=
  match loads with
  | None => SRet (Raw PARSE_ERROR, 200)
  | Some body =>
      m ← slift (shadowed body);
      match m with
      | Some m => SRet (Dumped (rpc_error (default JNull (jget body "id")) (-32601)
                                  ("Unsupported method: " +:+ m)), 200)
      | None =>
          up ← ask raw;
          match up with
          | UpOk b status => SRet (Raw b, status)
          | UpHttpError b => SRet (Raw (if bool_decide (b = ""%string) then UPSTREAM_ERROR else b), 200)
          | UpFail msg => SRet (Dumped (rpc_error JNull (-32603) ("proxy error: " +:+ msg)), 200)
          end
      end
  end.

(** ** Theorems *)
Section laws.
Context `{UD : UnicodeData}.

Lemma swp_call q (P : list (asked sans) → res (sresp q) → Prop) :
  swp (sys q) P ↔ ∀ r : sans q, P [Asked q r] r.
Proof. split; intros H r; specialize (H r); by destruct r. Qed.

(** Every question of a script satisfies [Φ]. *)
Definition only {A} (Φ : sq → Prop) (p : os A) : Prop :=
  swp p (λ tr _, Forall (λ ev, Φ (asked_q ev)) tr).

Lemma only_ret {A} Φ (a : A) : only Φ (SRet a).
Proof. unfold only. rewrite swp_ret. constructor. Qed.

Lemma only_call Φ q : Φ q → only Φ (sys q).
Proof. unfold only. rewrite swp_call. by repeat constructor. Qed.

Lemma only_bind {A B} Φ (p : os A) (f : A → os B) :
  only Φ p → (∀ a, only Φ (f a)) → only Φ (a ← p; f a).
Proof.
  unfold only. intros Hp Hf. rewrite swp_bind. eapply swp_mono; [|exact Hp].
  intros tr [a|e] H; [|done]. eapply swp_mono; [|apply Hf]. intros tr' r H'. by apply Forall_app.
Qed.

Ltac only_bind_ :=
  match goal with |- only _ (mbind ?f (sys ?q)) => apply (only_bind _ (sys q) f); [by apply (only_call _ q)|] end.

Lemma only_for {A} Φ (l : list A) f : (∀ x, only Φ (f x)) → only Φ (sfor l f).
Proof. intros Hf. induction l as [|x l IH]; cbn; [apply only_ret|by apply only_bind]. Qed.

Lemma only_wait Φ n fn what : Φ QSleep → only Φ fn → only Φ (wait_for n fn what).
Proof.
  intros Hs Hfn. induction n as [|n IH]; cbn [wait_for]; [apply only_ret|].
  apply only_bind; [done|]. intros [|]; [apply only_ret|].
  only_bind_. done.
Qed.

(** A question that starts a process of the stack, and its port. *)
Definition starts (q : sq) : option Z :=
  match q with QStartAnvil _ => Some ANVIL_PORT | QStartApi => Some API_PORT | _ => None end.

(** The trace shows the port being freed: on Windows, every process netstat listed as
    listening on it was killed. *)
Definition freed (port : Z) (tr : list (asked sans)) : Prop :=
  (∃ a, Asked (QKillTcp port) a ∈ tr) ∨
  ∃ out, Asked QNetstat (Ok out) ∈ tr ∧
    ∀ pid, pid ∈ listening port out → ∃ a, Asked (QTaskkill pid) a ∈ tr.

Lemma freed_app_l port tr tr' : freed port tr → freed port (tr ++ tr').
Proof.
  intros [[a Ha]|(out & Ho & Hp)]; [left; exists a; set_solver|].
  right. exists out. split; [set_solver|]. intros pid Hpid.
  destruct (Hp pid Hpid) as [a Ha]. exists a. set_solver.
Qed.

Lemma freed_app_r port tr tr' : freed port tr' → freed port (tr ++ tr').
Proof.
  intros [[a Ha]|(out & Ho & Hp)]; [left; exists a; set_solver|].
  right. exists out. split; [set_solver|]. intros pid Hpid.
  destruct (Hp pid Hpid) as [a Ha]. exists a. set_solver.
Qed.

Lemma kill_all_swp (l : list string) :
  swp (sfor l (λ pid, sys (QTaskkill pid)))
    (λ tr r, r = Ok tt → ∀ pid, pid ∈ l → ∃ a, Asked (QTaskkill pid) a ∈ tr).
Proof.
  induction l as [|x l IH]; cbn [sfor]; [rewrite swp_ret; set_solver|].
  apply swp_bind. apply (swp_call (QTaskkill x)). intros [a|e]; [|done].
  eapply swp_mono; [|exact IH]. intros tr r H Hr pid [->|Hpid]%elem_of_cons.
  - exists (Ok a). left.
  - destruct (H Hr pid Hpid) as [b Hb]. exists b. by right.
Qed.

Lemma kill_port_only port : only (λ q, starts q = None) (kill_port port).
Proof.
  unfold kill_port. only_bind_. intros [|].
  - only_bind_. intros out. apply only_for. intros x.
    by apply (only_call _ (QTaskkill x)).
  - by apply (only_call _ (QKillTcp port)).
Qed.

Lemma kill_port_freed port : swp (kill_port port) (λ tr r, r = Ok tt → freed port tr).
Proof.
  unfold kill_port. rewrite swp_bind. apply (swp_call QIsWindows). intros [[|]|e]; [| |done].
  - rewrite swp_bind. apply (swp_call QNetstat). intros [out|e]; [|done].
    eapply swp_mono; [|apply kill_all_swp]. intros tr r H Hr. right. exists out.
    split; [right; left|]. intros pid Hpid. destruct (H Hr pid Hpid) as [a Ha].
    exists a. right. by right.
  - apply (swp_call (QKillTcp port)). intros r _. left. exists r. right. left.
Qed.

Lemma start_api_only : only (λ q, starts q ≠ Some ANVIL_PORT) start_api.
Proof.
  unfold start_api.
  only_bind_. intros _. apply only_wait; [done|].
  unfold api_up. only_bind_. intros [|]; [apply only_ret|].
  by apply (only_call _ (QHttpOk API_PORT)).
Qed.

(** One of each (run_demo_stack.py: it always kills stragglers first and never leaves two of
    anything running).  In every run, whatever the operating system answers, no process is
    started before the port it will hold was freed: a run falls into a first part that starts
    nothing and a second part, and if the second starts the API, the first freed its port; if
    it starts anvil, the first freed anvil's port too and the run was not asked to keep the
    fork.  [--stop] starts nothing. *)
Theorem stack_frees_before_starting no_seed stop tr r :
  runs (stack_main no_seed stop) tr r →
  ∃ tr0 tr1, tr = tr0 ++ tr1 ∧ Forall (λ ev, starts (asked_q ev) = None) tr0 ∧
    (∀ ev port, ev ∈ tr1 → starts (asked_q ev) = Some port →
       stop = false ∧ freed port tr0 ∧ (port = ANVIL_PORT → no_seed = false)).
Proof.
  revert tr r. apply swp_iff. unfold stack_main. rewrite swp_bind.
  eapply swp_mono; [|apply swp_iff; intros tr r Hr; exact (conj
    (proj1 (swp_iff _ _) (kill_port_freed API_PORT) tr r Hr)
    (proj1 (swp_iff _ _) (kill_port_only API_PORT) tr r Hr))].
  intros k1 [[]|e] [Hf1 Ho1]; [specialize (Hf1 eq_refl)|exists k1, []; rewrite app_nil_r; set_solver].
  rewrite swp_bind.
  eapply (swp_mono _ (λ tr r, Forall (λ ev, starts (asked_q ev) = None) tr ∧
    (r = Ok tt → no_seed = false → freed ANVIL_PORT tr))).
  - intros k2 [[]|e] [Ho2 Hf2].
    2:{ exists (k1 ++ k2), []. rewrite app_nil_r, Forall_app. set_solver. }
    assert (∀ (q : os (option string)),
      (stop = true → only (λ q, starts q = None) q) →
      (no_seed = true → only (λ q, starts q ≠ Some ANVIL_PORT) q) →
      swp q (λ tr' (_ : res (option string)),
        ∃ tr0 tr1, k1 ++ k2 ++ tr' = tr0 ++ tr1 ∧ Forall (λ ev, starts (asked_q ev) = None) tr0 ∧
          ∀ ev port, ev ∈ tr1 → starts (asked_q ev) = Some port →
            stop = false ∧ freed port tr0 ∧ (port = ANVIL_PORT → no_seed = false))) as Hrest.
    { intros q Hq1 Hq2. apply swp_iff. intros tr' r Hr. exists (k1 ++ k2), tr'.
      split; [by rewrite app_assoc|]. split; [by apply Forall_app|]. intros ev port Hin Hs.
      assert (stop = false) as Hstop.
      { destruct stop; [|done]. pose proof (proj1 (swp_iff _ _) (Hq1 eq_refl) tr' r Hr) as H.
        rewrite Forall_forall in H. by rewrite (H ev Hin) in Hs. }
      assert (port = ANVIL_PORT → no_seed = false) as Hanvil.
      { intros ->. destruct no_seed; [|done].
        pose proof (proj1 (swp_iff _ _) (Hq2 eq_refl) tr' r Hr) as H.
        rewrite Forall_forall in H. by destruct (H ev Hin). }
      split; [done|]. split; [|done].
      assert (port = API_PORT ∨ port = ANVIL_PORT) as [->| ->].
      { destruct (asked_q ev); cbn in Hs; naive_solver. }
      - by apply freed_app_l.
      - by apply freed_app_r, Hf2, Hanvil. }
    apply Hrest.
    + intros ->. apply only_ret.
    + intros ->. destruct stop; [apply only_ret|apply start_api_only].
  - destruct no_seed; [rewrite swp_ret; split; [constructor|done]|].
    apply swp_iff. intros tr r Hr. split.
    + exact (proj1 (swp_iff _ _) (kill_port_only ANVIL_PORT) tr r Hr).
    + intros Hok _. exact (proj1 (swp_iff _ _) (kill_port_freed ANVIL_PORT) tr r Hr Hok).
Qed.

(** *** Every seeder must succeed *)

(** A question after the seeding: signing, or the API. *)
Definition after_seeding (q : sq) : bool :=
  match q with QStartApi | QRunScript "sign_demo_mandates.py" _ => true | _ => false end.

(** The interpreter's exit code for the script [s], where it ran at all. *)
Definition fails (s : string) (ev : asked sans) : Prop :=
  match ev with
  | Asked q a =>
      match q return sans q → Prop with
      | QRunScript s' _ => λ a, s' = s → ∀ code, a = Ok code → code ≠ 0
      | _ => λ _, True
      end a
  end.

(** The program does not get past seeding when [s] fails. *)
Definition stuck (s : string) (p : os (option string)) : Prop :=
  swp p (λ tr r, Forall (fails s) tr →
                 Forall (λ ev, after_seeding (asked_q ev) = false) tr ∧ r ≠ Ok None).

Lemma stuck_bind {A} s (p : os A) f :
  only (λ q, after_seeding q = false) p → (∀ a, stuck s (f a)) → stuck s (a ← p; f a).
Proof.
  unfold only, stuck. intros Hp Hf. rewrite swp_bind. eapply swp_mono; [|exact Hp].
  intros tr [a|e] H; [|done]. eapply swp_mono; [|apply Hf]. intros tr' r H' [_ Ht]%Forall_app.
  destruct (H' Ht) as [H1 H2]. split; [by apply Forall_app|done].
Qed.

Lemma stuck_some s m : stuck s (SRet (Some m)).
Proof. unfold stuck. rewrite swp_ret. split; [constructor|done]. Qed.

Lemma run_tool_only s : s ≠ "sign_demo_mandates.py"%string →
  only (λ q, after_seeding q = false) (run_tool s).
Proof.
  intros Hs. unfold run_tool.
  apply (only_bind _ (sys (QRunScript s false))).
  - apply only_call. cbn. by repeat (case_match; try done).
  - intros code. cbn. destruct (_ =? 0); apply only_ret.
Qed.

Lemma run_all_stuck s l next :
  s ∈ l → Forall (λ x, x ≠ "sign_demo_mandates.py"%string) l → stuck s (run_all l next).
Proof.
  induction l as [|x l IH]; intros Hin Hl; [by apply elem_of_nil in Hin|].
  apply Forall_cons in Hl as [Hx Hl]. cbn [run_all]. unfold then_.
  destruct (decide (x = s)) as [->|Hne].
  - unfold stuck. rewrite swp_bind.
    eapply swp_mono; [|apply swp_iff; intros tr r Hr; exact (conj
      (proj1 (swp_iff _ _) (run_tool_only s Hx) tr r Hr) Hr)].
    intros tr r [Ho Hr]. destruct r as [[m|]|e].
    + rewrite swp_ret. intros _. rewrite app_nil_r. done.
    + assert (swp (run_tool s) (λ tr r, Forall (fails s) tr → r ≠ Ok None)) as Hn.
      { unfold run_tool. rewrite swp_bind. apply (swp_call (QRunScript s false)).
        intros [code|e]; [|done]. destruct (Z.eqb_spec code 0) as [->|Hc]; rewrite swp_ret; [|done].
        cbn [app]. intros Hf. inversion Hf as [|? ? Hcode]; subst. cbn in Hcode.
        by destruct (Hcode eq_refl 0 eq_refl). }
      apply swp_iff. intros tr' r' _ [Hf _]%Forall_app.
      by destruct (proj1 (swp_iff _ _) Hn tr _ Hr Hf).
    + intros _. done.
  - apply stuck_bind; [by apply run_tool_only|]. intros [m|]; [apply stuck_some|].
    apply IH; [|done]. apply elem_of_cons in Hin as [?|?]; [congruence|done].
Qed.

(** A rebuild needs every seeder: [stack_main] without flags reaches neither the signing nor
    the API, and never ends normally, when one of the scripts of [SEEDERS] fails, whatever the
    operating system answers otherwise; and one of the three names no file of backend/tools,
    so the interpreter cannot run it. *)
Theorem rebuild_needs_every_seeder s tr r :
  s ∈ SEEDERS → runs (stack_main false false) tr r → Forall (fails s) tr →
  (Forall (λ ev, after_seeding (asked_q ev) = false) tr ∧ r ≠ Ok None) ∧
  (∃ s, s ∈ SEEDERS ∧ s ∉ TOOLS).
Proof.
  intros Hin Hr Hf. split; [|exists "seed_more_wallets.py"%string; split;
    [right; right; left|apply (bool_decide_eq_false (_ ∈ _)); vm_compute; reflexivity]].
  assert (stuck s (stack_main false false)) as H;
    [|exact (proj1 (swp_iff _ _) H tr r Hr Hf)]. clear tr r Hr Hf.
  assert (∀ port, only (λ q, after_seeding q = false) (kill_port port)) as Hk.
  { intros port. unfold kill_port. only_bind_. intros [|].
    - only_bind_. intros out. apply only_for. intros x. by apply (only_call _ (QTaskkill x)).
    - by apply (only_call _ (QKillTcp port)). }
  unfold stack_main. apply stuck_bind; [apply Hk|]. intros _.
  apply stuck_bind; [apply Hk|]. intros _. unfold rebuild. apply stuck_bind.
  { unfold _anvil. only_bind_. intros [p|]; [apply only_ret|]. only_bind_.
    intros [|]; apply only_ret. }
  intros [m|path]; [apply stuck_some|].
  apply (stuck_bind _ (sys (QStartAnvil path))); [by apply only_call|]. intros _.
  apply stuck_bind.
  { apply only_wait; [done|]. by apply (only_call _ (QRpc ANVIL_PORT "eth_blockNumber")). }
  intros [m|]; [apply stuck_some|]. apply run_all_stuck; [done|].
  by repeat constructor.
Qed.
End laws.

(** *** The proxy *)

(** The proxy's handler, on every body and every behaviour of the upstream node: it replies
    exactly once, except that a method which is a list or an object raises; a body that is
    not JSON and the shadowed methods are answered locally and nothing is forwarded; anything
    else is forwarded once, the raw bytes unchanged, and the node's answer comes back as it
    is, an HTTP error or a failure of the connection as a JSON-RPC answer under status 200. *)
Theorem proxy_replies raw loads tr r :
  runs (do_POST raw loads) tr r →
  match loads with
  | None => tr = [] ∧ r = Ok (Raw PARSE_ERROR, 200)
  | Some body =>
      match shadowed body with
      | Err e => tr = [] ∧ r = Err e ∧ exn_kind e = TypeError
      | Ok (Some m) => tr = [] ∧ m ∈ LOCALLY_ANSWERED ∧
          ∃ j, r = Ok (Dumped j, 200) ∧ jget j "id" = Some (default JNull (jget body "id"))
      | Ok None => ∃ up, tr = [Asked (ans := up_ans) raw up] ∧
          match up with
          | UpOk b status => r = Ok (Raw b, status)
          | UpHttpError b => ∃ b', r = Ok (Raw b', 200) ∧ b' ≠ ""%string ∧ (b ≠ ""%string → b' = b)
          | UpFail _ => ∃ j, r = Ok (Dumped j, 200)
          end
      end
  end.
Proof.
  revert tr r. apply swp_iff. unfold do_POST. destruct loads as [body|]; [|by rewrite swp_ret].
  rewrite swp_bind, swp_lift. destruct (shadowed body) as [[m|]|e] eqn:Hs.
  - rewrite swp_ret. split; [done|]. split; [|by eexists].
    unfold shadowed in Hs. destruct body; try done. destruct (dget l "method") as [[]|]; try done.
    case_bool_decide; by simplify_eq.
  - cbn [app]. rewrite swp_bind. intros up. cbn [app].
    destruct up as [b status|b|m]; rewrite swp_ret; eexists; (split; [reflexivity|]); cbn.
    + done.
    + eexists. split; [reflexivity|]. case_bool_decide; [|done]. subst. split; done.
    + by eexists.
  - split; [done|]. split; [done|]. unfold shadowed in Hs.
    destruct body; try done. destruct (dget l "method") as [[]|]; by simplify_eq.
Qed.

(** ** Concrete runs *)
Definition machine (q : sq) (w : unit) : sans q * unit :=
  (match q return sans q with
   | QIsWindows => Ok true
   | QNetstat => Ok ["  TCP    127.0.0.1:8097         0.0.0.0:0              LISTENING       412";
                     "  TCP    127.0.0.1:8548         0.0.0.0:0              LISTENING       77";
                     "  TCP    127.0.0.1:8097         127.0.0.1:55        ESTABLISHED     99"]%string
   | QTaskkill _ | QKillTcp _ | QStartAnvil _ | QStartApi | QSleep => Ok tt
   | QWhich => Ok (Some "anvil"%string)
   | QFallback | QRpc _ _ | QHttpOk _ => Ok true
   | QRunScript s _ => Ok (if bool_decide (s ∈ TOOLS) then 0 else 2)
   end, w).

Definition demo_rebuild : os (option string) := @stack_main unicode_ascii false false.

Lemma stack_frees_before_starting_witness :
  ∃ tr r, runs demo_rebuild tr r ∧ Asked (QTaskkill "412") (Ok tt) ∈ tr ∧
    ∃ tr0 tr1, tr = tr0 ++ tr1 ∧ Forall (λ ev, starts (asked_q ev) = None) tr0 ∧ tr1 ≠ [].
Proof.
  destruct (srun machine demo_rebuild tt) as [[tr r] w] eqn:E.
  pose proof (srun_runs _ _ _ _ _ _ E) as Hr. vm_compute in E. injection E as Et Er.
  exists tr, r. split; [exact Hr|]. split.
  { rewrite <-Et. repeat first [apply list_elem_of_here | apply list_elem_of_further]. }
  destruct (@stack_frees_before_starting unicode_ascii false false tr r Hr) as (tr0&tr1&H1&H2&_).
  exists tr0, tr1. split; [exact H1|]. split; [exact H2|]. intros ->.
  rewrite app_nil_r in H1. rewrite <-H1, <-Et in H2.
  repeat (apply Forall_cons in H2 as [Hx H2]; cbn in Hx; try discriminate Hx; clear Hx).
Defined.

Lemma rebuild_needs_every_seeder_witness :
  ∃ tr, runs demo_rebuild tr (Ok (Some "seed_more_wallets.py failed with exit code 2"%string)) ∧
    Forall (λ ev, after_seeding (asked_q ev) = false) tr.
Proof.
  destruct (srun machine demo_rebuild tt) as [[tr r] w] eqn:E.
  pose proof (srun_runs _ _ _ _ _ _ E) as Hr. vm_compute in E. injection E as Et Er.
  subst r. exists tr. split; [exact Hr|].
  destruct (@rebuild_needs_every_seeder unicode_ascii "seed_more_wallets.py" tr _
    ltac:(right; right; left) Hr) as [[Ha _] _]; [|exact Ha].
  rewrite <-Et. repeat apply Forall_cons_2; try apply Forall_nil_2; cbn; try exact I;
    intros Hs code [= <-]; done.
Defined.

Definition upstream_down (_ : string) (w : unit) : upstream * unit := (UpHttpError "", w).

Lemma proxy_replies_witness :
  ∃ tr, runs (do_POST "raw" (Some (JObj [("method"%string, JStr "eth_call")]))) tr
          (Ok (Raw UPSTREAM_ERROR, 200)) ∧
    ∃ up, tr = [Asked (ans := up_ans) "raw"%string up].
Proof.
  set (body := JObj [("method"%string, JStr "eth_call")]).
  destruct (srun (ans := up_ans) upstream_down (do_POST "raw" (Some body)) tt) as [[tr r] w] eqn:E.
  pose proof (srun_runs _ _ _ _ _ _ E) as Hr.
  pose proof (proxy_replies _ _ _ _ Hr) as H. cbn in H. destruct H as (up & Ht & _).
  vm_compute in E. injection E as _ Er. exists tr. subst r.
  split; [exact Hr|]. exists up. exact Ht.
Defined.
